(* ===== verification/_CoqProject ===== *)
-Q . S2P
Prelude.v
JsValue.v
StatusCodeRules.v
AuthSession.v
AuthRefinement.v
AdvancedCustom.v
JsonString.v
Scan.v
Regex.v
NumText.v
Json.v
TierExpr.v
TierRoundTrip.v
BillingExpr.v
BillingRoundTrip.v
TieredEditor.v
TieredEditorLaws.v
ModelPricing.v
ModelPricingLaws.v
PriceTables.v
PriceTablesLaws.v
PlaygroundMessages.v
PlaygroundCodec.v
PlaygroundStorage.v
GroupRatios.v
GroupRatiosLaws.v
PlaygroundTransport.v
PlaygroundTransportLaws.v
CreditSupply.v
Calendar.v
Settlement.v
Channels.v
ChannelForm.v
ChannelFormLaws.v
ChannelSubmit.v
ChannelSubmitLaws.v
ParamOverride.v
ParamOverrideSave.v
ParamOverrideEditor.v
Navigation.v
NavigationLaws.v
UpstreamSync.v
UpstreamSyncLaws.v
Flow.v
FlowLaws.v
