(* ===== verification/Prelude.v ===== *)
(** * UnifyAPI console: a verification development

    The console (src/web/src) is the TypeScript web client of an AI gateway. This
    development models the parts of it that carry logic of their own: what it stores
    and sends, how it reads and writes the small languages its operators type, how it
    keeps a login alive, how its editors change prices and channels, and what it computes
    from the gateway's data. Definitions are translated from the source and executable;
    theorems are about those definitions. Where a screen repeats a check of the Go
    server, the check is modelled next to it and the two are compared.

    ** Files

    Foundations:
    - [Prelude]: JavaScript strings (lists of UTF-16 code units) with [trim], [split],
      [join], [startsWith], [includes]; decimal numerals; sets kept as lists; stable
      sorting; the hint databases [jsdb] and [jsrw].
    - [JsValue]: numbers as IEEE 754 binary64 ([SpecFloat]: executable, no axioms), the
      dynamic values of parsed JSON, and the order and sign lemmas on doubles.
    - [JsonString], [Json]: quoting, [JSON.parse] and [JSON.stringify] with the property
      order of JavaScript objects, [String] and [Number] of a value, and the round trip
      [parse_stringify].
    - [NumText]: [Number(text)], [parseFloat], [toFixed], [Math.round] and the shortest
      text of a double.
    - [Scan], [Regex]: deterministic scanners and the regular expressions of the tier
      expressions, with [exec], [split] and [replace].

    Sessions:
    - [AuthSession], [AuthRefinement]: stores/auth-store.ts, lib/auth-session.ts and
      lib/auth-session-sync.ts. The state of a tab is the record [Sys]: the store, the
      epoch, the posted messages, the requests sent, and the refresh in flight. What the
      asynchronous code does between two [await]s is one event ([sys_step]); a run is a
      list of events, so logins, logouts, rotations and messages of other tabs interleave
      with a refresh in every possible way. [AuthRefinement] has the abstract session and
      the simulation.

    Prices:
    - [TierExpr], [TierRoundTrip]: features/pricing/lib/tier-expr.ts and the tier parser
      of billing-expr.ts, the expressions such as [p * 3 + c * 15] with tiers.
    - [BillingExpr], [BillingRoundTrip]: the request rules of
      features/pricing/lib/billing-expr.ts, an expression language that is printed into
      the gateway's configuration and parsed back into the editor.
    - [TieredEditor], [TieredEditorLaws]: system-settings/models/tiered-pricing-editor.tsx
      as a transition system whose effects run with the values of a render.
    - [ModelPricing], [ModelPricingLaws]: the panel, the table and the stored options of
      model prices (model-pricing-core.ts, model-pricing-snapshots.ts,
      model-pricing-sheet.tsx, model-ratio-visual-editor.tsx, pricing-format.ts).
    - [UpstreamSync], [UpstreamSyncLaws]: system-settings/models/upstream-ratio-sync-helpers.ts and the part
      of upstream-ratio-sync.tsx that turns choices into options.
    - [GroupRatios], [GroupRatiosLaws]: the table of groups, the rules that show and hide groups and their
      save (group-ratio-visual-editor.tsx, group-special-usable-editor.tsx,
      ratio-settings-card.tsx), with the server's reading of the rules (service/group.go).
    - [PriceTables], [PriceTablesLaws]: costs of channels, discounts, prices of customer
      groups and models outside the catalog (channel-cost-logic.ts,
      baseline-pricing-logic.ts, group-model-pricing-logic.ts, extra-models-logic.ts and
      their editors), with the checks of setting/ratio_setting/ they are saved through and
      the ratios requests are billed at (relay/helper/price.go).

    Channels:
    - [AdvancedCustom]: features/channels/lib/advanced-custom.ts, the routing table of a
      custom channel: templates, defaults, normalisation, validation.
    - [StatusCodeRules]: lib/http-status-code-rules.ts, the texts such as
      "429,500-503" that name sets of status codes.
    - [Channels]: features/channels/lib/channel-utils.ts and the list functions of
      model-mapping-validation.ts: channels grouped by tag, key texts, flags.
    - [ChannelForm], [ChannelFormLaws]: features/channels/lib/channel-form.ts,
      use-channel-mutate-form.ts and [hasPermission]: reading a channel, the schema, the
      payloads and the request.
    - [ChannelSubmit], [ChannelSubmitLaws]: model-mapping-validation.ts and status-code-risk-guard.ts on the
      JSON texts, and the submit handler of channel-mutate-drawer.tsx with its two
      confirmation dialogs.
    - [ParamOverride], [ParamOverrideSave], [ParamOverrideEditor]: the parameter override
      dialog, its rules, its stored text, and its handlers as a state machine.

    Conversations and reports:
    - [PlaygroundMessages], [PlaygroundCodec], [PlaygroundStorage]: features/playground/lib,
      the conversation: streaming, reasoning tags, completion, editing, regeneration, the
      request payload; the schemas of the stored values; and the storage with its limits.
    - [PlaygroundTransport], [PlaygroundTransportLaws]: features/playground/hooks and lib/streaming, the requests of
      the conversation: streams, answers that are not streams, the buffer between the
      stream and the screen, stopping. One state ([World]) holds the refs of the hooks and
      the queue of React's updates; events, answers, the timer and renders are steps.
    - [CreditSupply]: features/system-settings/billing/credit-supply-logic.ts, with the
      server's check (model/credit_lot.go, [TransitionCreditLot]) it mirrors.
    - [Calendar], [Settlement]: the local calendar of the JavaScript [Date] constructor;
      settlement-logic.ts and profit-logic.ts, with the server's verdict
      (service/reconcile.go) they mirror.
    - [Flow], [FlowLaws]: features/dashboard/lib/flow.ts, the flow diagram.
    - [Navigation], [NavigationLaws]: lib/nav-modules.ts, hooks/use-sidebar-config.ts and
      lib/admin-permissions.ts, what of the navigation a user sees.

    Interfaces between the files are the definitions themselves: the panel of
    [ModelPricing] embeds the editor of [TieredEditor], which prints and parses with
    [TierExpr] and [BillingExpr]; [UpstreamSync] writes the options that [ModelPricing]
    reads; [PlaygroundTransport] updates the messages of [PlaygroundMessages];
    [ChannelSubmit] guards the requests of [ChannelForm], whose schema calls
    [AdvancedCustom].

    ** What is proved

    - Login sessions: after a login, logout or rotation a refresh in flight is inert; the
      runner refines an abstract session; a refresh ends within a fixed number of segments
      and requests and, when the network answers, does end; its outcome says what was
      stored; credentials are stored together or not at all in every reachable state.
    - Small languages: parsing what was printed gives the same value (status code rules,
      request rules without guarded parameters, tier expressions, combined billing
      expressions, parameter override texts whose values read back); accepted texts with the same meaning have the same normal form; validation
      accepts exactly the well-formed routing tables of a declarative specification.
    - Price editors: effects settle; opening and saving a price keeps it when the visual
      editor can read it, and a theorem says which prices are lost otherwise; saving
      changes the chosen models and no other; options keep their types; synchronised
      choices never mix a fixed price with ratios, and what the sync stores.
    - Groups: stored rules that do not contradict one another do on the server what the
      editor shows, in whatever order it reads them; editing one group leaves what is
      stored of the others, where a group with a description only gets the ratio 1; rows
      of the table keep their identity.
    - Price tables: what a screen saves is accepted by the server, and the ratios
      requests are then billed at are those shown, with the exceptions stated; unsaved
      edits survive; where the forms and the server differ.
    - Channels: an accepted form can be sent, is shown again as saved (a cleared other
      setting excepted), keeps settings the form does not know and drops those of other
      types but the upstream checks; what the server counts as sensitive is sent only with
      the permission; a submit only sends what every guard let through; the dialog
      for parameter overrides keeps its invariant under every handler.
    - Conversations: what a streamed message contains and that a conversation within the
      limits loads as saved; a request that was stopped or replaced never acts again, a
      busy chat waits for something that frees it, an ended request leaves a final answer
      (errors whose message is not a text are the exceptions, and are stated), and the
      buffer does not change the text, in every order of the steps.
    - Screens that mirror the server: which buttons the server accepts, and that the badge
      of an invoice is the server's verdict, rounding included.
    - Reports: the flow diagram conserves amounts, matches its summary unless a limit
      hides paths, and masks the whole of a sensitive label; the billing periods partition the calendar; a tag row aggregates exactly the
      channels of its tag.
    - Navigation: an entry of the root sidebar is visible exactly when the role and the
      switches of the administrator and of the user allow it; the guard of a route and the
      sidebar agree.

    ** Parameters

    What is not in the repository is an argument: the browser's URL parser ([newURL]), the
    collation of [localeCompare], [toLowerCase] outside ASCII, [Intl], the chart palette,
    clock readings and random identifiers, translations, JSON literals that are arrays or objects in
    request rules ([compoundLiteral]), and the moment React runs a state updater. Theorems
    are quantified over them; hypotheses on them are stated where they are used.

    ** Bounds and fuel

    Recursion that is not structural takes fuel, and the fuel given is enough: [dec] (the
    number of binary digits, [dec_value]); [think_loop], [unwrap_loop], [json_parse], the
    star of a regular expression and the loops of [exec] and [split] (the length of the
    text, since every round consumes a character); [carry] (the absolute day number, since
    a round moves it by at least 28; [carry_spec]); the shortest text of a double tries
    the 17 digits that suffice for binary64; the effects of the tiered editor are run for
    six renders, after which [effects_settle] shows that nothing changes. Machine integers
    do not occur: JavaScript numbers are doubles, kept as such where they can be
    fractional, and as [Z] where they are counts, code units, time stamps, channel types
    or array positions far below 2^53.

    ** What is not modelled

    Markup, styling, routes and the query library; the axios client and the event source
    of sse.js (requests, responses and events are steps or arguments); translations and labels; formatters that rest on
    [Intl] and [toPrecision]; evaluation of a billing expression by the JavaScript
    compiler; the price list and its filters; the dashboard charts other than the flow
    diagram; wallet, key and subscription forms; sign-in flows over the browser's
    credential API; generated code; the Go server apart from the checks named above. *)

From Stdlib Require Export String Ascii.
From stdpp Require Export base list option numbers sets sorting.

Open Scope Z_scope.

(** * JavaScript strings *)

(** A JavaScript string is a sequence of UTF-16 code units. *)
Abbreviation jsstr := (list Z).

(** [js "abc"] is the JavaScript literal ['abc'] (ASCII literals only). *)
Definition js (s : string) : jsstr :=
  map (fun c => Z.of_N (N_of_ascii c)) (list_ascii_of_string s).

(** Truthiness of a string: everything but [''] is truthy. *)
Definition truthy_str (s : jsstr) : bool :=
  match s with [] => false | _ => true end.

(** [a || b] on strings. *)
Definition or_str (a b : jsstr) : jsstr := if truthy_str a then a else b.

(** The code units that [String.prototype.trim] removes and that the regular
    expression class [\s] matches: WhiteSpace and LineTerminator of ECMA-262. *)
Definition is_space (c : Z) : bool :=
  (9 <=? c) && (c <=? 13) || (c =? 32) || (c =? 160) || (c =? 5760)
  || (8192 <=? c) && (c <=? 8202) || (c =? 8232) || (c =? 8233)
  || (c =? 8239) || (c =? 8287) || (c =? 12288) || (c =? 65279).

(** The class [\d]. *)
Definition is_digit (c : Z) : bool := (48 <=? c) && (c <=? 57).

(** The lower case of an ASCII letter. *)
Definition ascii_lower (c : Z) : Z := if (65 <=? c) && (c <=? 90) then c + 32 else c.

Fixpoint trim_start (s : jsstr) : jsstr :=
  match s with
  | [] => []
  | c :: s' => if is_space c then trim_start s' else s
  end.

(** [s.trim()] *)
Definition trim (s : jsstr) : jsstr := reverse (trim_start (reverse (trim_start s))).

(** [s.split(sep)] for a separator of one code unit. *)
Fixpoint split_on (sep : Z) (s : jsstr) : list jsstr :=
  match s with
  | [] => [[]]
  | c :: s' =>
      if c =? sep then [] :: split_on sep s'
      else match split_on sep s' with
           | [] => [[c]]
           | w :: ws => (c :: w) :: ws
           end
  end.

(** [parts.join(sep)] *)
Fixpoint join (sep : jsstr) (parts : list jsstr) : jsstr :=
  match parts with
  | [] => []
  | [p] => p
  | p :: ps => p ++ sep ++ join sep ps
  end.

(** [s.startsWith(p)] *)
Fixpoint starts_with (p s : jsstr) : bool :=
  match p, s with
  | [], _ => true
  | a :: p', b :: s' => (a =? b) && starts_with p' s'
  | _, [] => false
  end.

(** [s.includes(p)] *)
Fixpoint includes (p s : jsstr) : bool :=
  starts_with p s || match s with [] => false | _ :: s' => includes p s' end.

(** Boolean string equality ([===]). *)
Definition streq (a b : jsstr) : bool := bool_decide (a = b).

(** * Decimal numerals *)

Fixpoint dec_aux (fuel : nat) (n : Z) (acc : jsstr) : jsstr :=
  match fuel with
  | O => acc
  | S f =>
      let acc' := (48 + n mod 10) :: acc in
      if n <? 10 then acc' else dec_aux f (n / 10) acc'
  end.

(** [String(n)] for a non-negative integer [n]; [log2 n + 1] binary digits are
    always enough fuel for the decimal ones (see [dec_value]). *)
Definition dec (n : Z) : jsstr := dec_aux (S (Z.to_nat (Z.log2 n))) n [].

(** The value of a run of decimal digits, as [Number.parseInt(s, 10)] reads it. *)
Definition digits_value (s : jsstr) : Z :=
  fold_left (fun a c => 10 * a + (c - 48)) s 0.

(** * Sets kept as lists *)

(** [Array.from(new Set(l))]: first occurrences, in order. *)
Fixpoint dedup_from `{EqDecision A} (seen l : list A) : list A :=
  match l with
  | [] => []
  | x :: l' =>
      if bool_decide (x ∈ seen) then dedup_from seen l'
      else x :: dedup_from (x :: seen) l'
  end.
Definition dedup `{EqDecision A} (l : list A) : list A := dedup_from [] l.

(** * Stable sorting

    [Array.prototype.sort] is stable, so on a total comparator it computes what
    insertion sort computes.  [le a b] stands for [cmp(a, b) <= 0]. *)
Section Sorting.
Context {A : Type} (le : A -> A -> bool).

Fixpoint insert_sorted (x : A) (l : list A) : list A :=
  match l with
  | [] => [x]
  | y :: l' => if le x y then x :: l else y :: insert_sorted x l'
  end.

Fixpoint isort (l : list A) : list A :=
  match l with
  | [] => []
  | x :: l' => insert_sorted x (isort l')
  end.

End Sorting.

(** * Lemmas on strings *)

Create HintDb jsdb.
Create Rewrite HintDb jsrw.

Lemma trim_start_nospace s :
  Forall (fun c => is_space c = false) s -> trim_start s = s.
Proof. by destruct 1 as [|c s Hc _]; simpl; [|rewrite Hc]. Qed.

(** A string without white space is left alone by [trim]. *)
Lemma trim_nospace s : Forall (fun c => is_space c = false) s -> trim s = s.
Proof.
  intros H. unfold trim. rewrite (trim_start_nospace s H), trim_start_nospace.
  - apply reverse_involutive.
  - by apply Forall_reverse.
Qed.

Lemma trim_start_suffix s : exists p, s = p ++ trim_start s /\ Forall (fun c => is_space c = true) p.
Proof.
  induction s as [|c s (p & IH & Hp)]; simpl; [by exists []|].
  destruct (is_space c) eqn:E; [|by exists []].
  exists (c :: p). split; [by simpl; f_equal|by constructor].
Qed.

Lemma trim_start_head s c s' : trim_start s = c :: s' -> is_space c = false.
Proof.
  induction s as [|d s IH]; simpl; [done|].
  destruct (is_space d) eqn:E; [done|]. intros [= -> ->]. done.
Qed.

Lemma trim_start_idem s : trim_start (trim_start s) = trim_start s.
Proof.
  destruct (trim_start s) as [|c s'] eqn:E; [done|].
  simpl. by rewrite (trim_start_head _ _ _ E).
Qed.

(** Trimming twice is trimming once. *)
Lemma trim_idem s : trim (trim s) = trim s.
Proof.
  unfold trim. set (t := trim_start s).
  destruct (trim_start_suffix (reverse t)) as (p & Hp & Hsp).
  set (u := trim_start (reverse t)) in *.
  assert (trim_start (reverse u) = reverse u) as ->.
  { assert (t = reverse u ++ reverse p) as Ht.
    { by rewrite <- (reverse_involutive t), Hp, reverse_app. }
    destruct (reverse u) as [|c w] eqn:Eu; [done|]. simpl.
    assert (is_space c = false) as ->; [|done].
    apply (trim_start_head s c (w ++ reverse p)). fold t. by rewrite Ht. }
  rewrite reverse_involutive. unfold u. by rewrite trim_start_idem.
Qed.

(** Neither end is a blank. *)
Lemma trim_solid c s d :
  is_space c = false -> is_space d = false -> trim (c :: s ++ [d]) = c :: s ++ [d].
Proof.
  intros Hc Hd. unfold trim. cbn [trim_start]. rewrite Hc.
  change (c :: s ++ [d]) with ((c :: s) ++ [d]). rewrite reverse_app. change (reverse [d] ++ ?r) with (d :: r).
  cbn [trim_start]. rewrite Hd. by rewrite reverse_cons, reverse_involutive.
Qed.

Lemma trim_elem c s : c ∈ trim s -> c ∈ s.
Proof.
  unfold trim. rewrite elem_of_reverse.
  destruct (trim_start_suffix s) as (p & Hp & _).
  destruct (trim_start_suffix (reverse (trim_start s))) as (q & Hq & _).
  intros H.
  assert (c ∈ trim_start s) as H'.
  { apply elem_of_reverse. rewrite Hq. set_solver. }
  rewrite Hp. set_solver.
Qed.

Lemma truthy_str_spec s : truthy_str s = true <-> s <> [].
Proof. destruct s; simpl; split; congruence. Qed.

Lemma or_str_nonempty a b : b <> [] -> or_str a b <> [].
Proof. by destruct a. Qed.

Lemma streq_true a b : streq a b = true <-> a = b.
Proof. apply bool_decide_eq_true. Qed.

Lemma streq_false a b : streq a b = false <-> a <> b.
Proof. apply bool_decide_eq_false. Qed.

Lemma streq_refl a : streq a a = true.
Proof. by apply streq_true. Qed.

Lemma starts_with_app p s : starts_with p (p ++ s) = true.
Proof. induction p as [|c p IH]; simpl; [done|]. by rewrite Z.eqb_refl. Qed.

Lemma starts_with_true p s : starts_with p s = true <-> exists t, s = p ++ t.
Proof.
  revert s. induction p as [|a p IH]; intros [|b s]; simpl; split; try done.
  - by exists [].
  - intros _. by exists (b :: s).
  - by intros [t [=]].
  - rewrite andb_true_iff, Z.eqb_eq, IH. intros [-> [t ->]]. by exists t.
  - intros [t [= -> ->]]. rewrite Z.eqb_refl. simpl. apply IH. by exists t.
Qed.

Lemma includes_true p s : includes p s = true <-> exists u v, s = u ++ p ++ v.
Proof.
  induction s as [|c s IH]; simpl; rewrite orb_true_iff, starts_with_true.
  - split; [|].
    + intros [[t Ht]|[=]]. exists [], t. done.
    + intros (u & v & H). left. exists [].
      destruct u; [|done]. destruct p; [|done]. by destruct v.
  - rewrite IH. split.
    + intros [[t ->]|(u & v & ->)]; [by exists [], t|by exists (c :: u), v].
    + intros ([|d u] & v & H); simpl in H; [left; by exists v|].
      injection H as -> ->. right. by exists u, v.
Qed.

(** ** Splitting and joining *)

Lemma split_on_nonempty sep s : split_on sep s <> [].
Proof.
  destruct s as [|c s]; simpl; [done|].
  destruct (c =? sep); [done|]. by destruct (split_on sep s).
Qed.

Lemma split_on_fresh sep s : sep ∉ s -> split_on sep s = [s].
Proof.
  induction s as [|c s IH]; simpl; [done|]. intros H.
  destruct (Z.eqb_spec c sep) as [->|_]; [set_solver|].
  rewrite IH; [done|set_solver].
Qed.

Lemma split_on_app sep w s : sep ∉ w -> split_on sep (w ++ sep :: s) = w :: split_on sep s.
Proof.
  induction w as [|c w IH]; simpl; intros H.
  - by rewrite Z.eqb_refl.
  - destruct (Z.eqb_spec c sep) as [->|_]; [set_solver|].
    rewrite IH; [done|set_solver].
Qed.

(** [parts.join(sep).split(sep)] gives the parts back when none contains [sep]. *)
Lemma split_on_join sep parts :
  parts <> [] -> Forall (fun p => sep ∉ p) parts -> split_on sep (join [sep] parts) = parts.
Proof.
  intros Hne H. induction H as [|p ps Hp Hps IH]; [done|].
  destruct ps as [|q ps].
  - simpl. by apply split_on_fresh.
  - change (join [sep] (p :: q :: ps)) with (p ++ sep :: join [sep] (q :: ps)).
    rewrite split_on_app by done. f_equal. by apply IH.
Qed.

Lemma split_on_parts_fresh sep s : Forall (fun p => sep ∉ p) (split_on sep s).
Proof.
  induction s as [|c s IH]; simpl; [repeat constructor; set_solver|].
  destruct (Z.eqb_spec c sep) as [->|Hne]; [constructor; set_solver|].
  destruct (split_on sep s) as [|w ws]; [repeat constructor; set_solver|].
  inversion IH; subst. constructor; [set_solver|done].
Qed.

(** [s.split(sep).join(sep)] is [s]. *)
Lemma join_split_on sep s : join [sep] (split_on sep s) = s.
Proof.
  induction s as [|c s IH]; simpl; [done|].
  destruct (Z.eqb_spec c sep) as [->|Hne].
  - destruct (split_on sep s) eqn:E; [by apply split_on_nonempty in E|].
    simpl. by rewrite <- IH.
  - destruct (split_on sep s) as [|w ws] eqn:E; [by apply split_on_nonempty in E|].
    destruct ws; simpl in *; by rewrite <- IH.
Qed.

Lemma elem_of_split_on sep c l s : c ∈ l -> l ∈ split_on sep s -> c ∈ s.
Proof.
  revert l. induction s as [|d s IH]; intros l Hc; cbn [split_on].
  - intros ->%list_elem_of_singleton. by apply elem_of_nil in Hc.
  - destruct (d =? sep).
    + intros [->|Hl]%elem_of_cons; [by apply elem_of_nil in Hc|]. right. by eapply IH.
    + destruct (split_on sep s) as [|w ws] eqn:E; [by apply split_on_nonempty in E|].
      intros [->|Hl]%elem_of_cons; [|right; eapply IH; [done|by right]].
      apply elem_of_cons in Hc as [->|Hc]; [left|right]. eapply IH; [done|left].
Qed.

Lemma trim_nil_spaces s : trim s = [] -> Forall (fun c => is_space c = true) s.
Proof.
  unfold trim. intros H. apply (f_equal reverse) in H. rewrite reverse_involutive in H. cbn in H.
  destruct (trim_start_suffix (reverse (trim_start s))) as (p & Hp & Hs). rewrite H, app_nil_r in Hp.
  destruct (trim_start_suffix s) as (q & Hq & Hqs). rewrite Hq. apply Forall_app. split; [done|].
  apply Forall_reverse. by rewrite Hp.
Qed.

(** ** Decimal numerals *)

Lemma join_cons sep x l : join sep (x :: l) = x ++ concat (map (fun y => sep ++ y) l).
Proof.
  revert x. induction l as [|y l IH]; intros x; [by rewrite app_nil_r|].
  change (join sep (x :: y :: l)) with (x ++ sep ++ join sep (y :: l)). rewrite IH. cbn [map concat].
  by rewrite <- app_assoc.
Qed.

Lemma dec_aux_digits fuel n acc :
  0 <= n -> Forall (fun c => is_digit c = true) acc ->
  Forall (fun c => is_digit c = true) (dec_aux fuel n acc).
Proof.
  revert n acc. induction fuel as [|f IH]; intros n acc Hn Hacc; simpl; [done|].
  assert (is_digit (48 + n mod 10) = true) as Hd.
  { unfold is_digit. pose proof (Z.mod_pos_bound n 10). lia. }
  destruct (n <? 10); [by constructor|].
  apply IH; [apply Z.div_pos; lia|by constructor].
Qed.

Lemma dec_digits n : 0 <= n -> Forall (fun c => is_digit c = true) (dec n).
Proof. intros. by apply dec_aux_digits. Qed.

Lemma dec_aux_length fuel n acc : (length acc <= length (dec_aux fuel n acc))%nat.
Proof.
  revert n acc. induction fuel as [|f IH]; intros n acc; simpl; [done|].
  destruct (n <? 10); simpl; [lia|].
  specialize (IH (n / 10) ((48 + n mod 10) :: acc)). simpl in IH. lia.
Qed.

Lemma dec_nonempty n : dec n <> [].
Proof.
  unfold dec. simpl. destruct (n <? 10); [done|].
  intros H. pose proof (dec_aux_length (Z.to_nat (Z.log2 n)) (n / 10) [48 + n mod 10]) as Hl.
  rewrite H in Hl. simpl in Hl. lia.
Qed.

Lemma digits_value_acc s a :
  fold_left (fun a c => 10 * a + (c - 48)) s a
  = a * 10 ^ Z.of_nat (length s) + digits_value s.
Proof.
  unfold digits_value. revert a. induction s as [|c s IH]; intros a.
  - simpl. lia.
  - cbn [fold_left length]. rewrite IH, (IH (10 * 0 + (c - 48))).
    rewrite Nat2Z.inj_succ, Z.pow_succ_r by lia. ring.
Qed.

Lemma digits_value_cons c s :
  digits_value (c :: s) = (c - 48) * 10 ^ Z.of_nat (length s) + digits_value s.
Proof.
  unfold digits_value at 1. cbn [fold_left].
  rewrite digits_value_acc. lia.
Qed.

Lemma dec_aux_value fuel n acc :
  0 <= n < 2 ^ Z.of_nat fuel ->
  digits_value (dec_aux fuel n acc) = n * 10 ^ Z.of_nat (length acc) + digits_value acc.
Proof.
  revert n acc. induction fuel as [|f IH]; intros n acc Hn.
  - simpl in *. assert (n = 0) as -> by lia. lia.
  - cbn [dec_aux]. destruct (Z.ltb_spec n 10).
    + rewrite digits_value_cons, Z.mod_small by lia. lia.
    + rewrite IH, digits_value_cons.
      * cbn [length]. rewrite Nat2Z.inj_succ, Z.pow_succ_r by lia.
        rewrite (Z.div_mod n 10) at 3 by lia. ring.
      * rewrite Nat2Z.inj_succ, Z.pow_succ_r in Hn by lia.
        split; [apply Z.div_pos; lia|].
        apply Z.div_lt_upper_bound; lia.
Qed.

(** Printing a non-negative integer and reading its digits gives it back. *)
Lemma dec_value n : 0 <= n -> digits_value (dec n) = n.
Proof.
  intros Hn. unfold dec. rewrite dec_aux_value; [unfold digits_value; simpl; lia|].
  split; [done|]. rewrite Nat2Z.inj_succ, Z2Nat.id by apply Z.log2_nonneg.
  destruct (Z.eq_dec n 0) as [->|]; [done|]. apply Z.log2_spec. lia.
Qed.

Lemma digit_not_space c : is_digit c = true -> is_space c = false.
Proof. unfold is_digit, is_space. lia. Qed.

(** ** Deduplication *)

Section Dedup.
Context `{EqDecision A}.
Implicit Types (l seen : list A) (x : A).

Lemma elem_of_dedup_from x seen l : x ∈ dedup_from seen l <-> x ∈ l /\ x ∉ seen.
Proof.
  revert seen. induction l as [|y l IH]; intros seen; simpl; [set_solver|].
  case_bool_decide as E.
  - rewrite IH. set_solver.
  - rewrite elem_of_cons, IH. destruct (decide (x = y)); set_solver.
Qed.

Lemma elem_of_dedup x l : x ∈ dedup l <-> x ∈ l.
Proof. unfold dedup. rewrite elem_of_dedup_from. set_solver. Qed.

Lemma NoDup_dedup_from seen l : NoDup (dedup_from seen l).
Proof.
  revert seen. induction l as [|y l IH]; intros seen; simpl; [constructor|].
  case_bool_decide; [done|]. constructor; [|done].
  rewrite elem_of_dedup_from. set_solver.
Qed.

Lemma NoDup_dedup l : NoDup (dedup l).
Proof. apply NoDup_dedup_from. Qed.

Lemma dedup_from_id seen l : NoDup l -> (forall x, x ∈ l -> x ∉ seen) -> dedup_from seen l = l.
Proof.
  intros Hnd. revert seen. induction Hnd as [|y l Hy Hnd IH]; intros seen H; simpl; [done|].
  case_bool_decide as E; [exfalso; apply (H y); set_solver|].
  f_equal. apply IH. set_solver.
Qed.

(** A list without duplicates is left alone. *)
Lemma dedup_id l : NoDup l -> dedup l = l.
Proof. intros. apply dedup_from_id; set_solver. Qed.

Lemma dedup_idem l : dedup (dedup l) = dedup l.
Proof. apply dedup_id, NoDup_dedup. Qed.
End Dedup.

(** ** Filters *)

Lemma elem_lfilter {A} (p : A -> bool) l x : x ∈ List.filter p l <-> x ∈ l /\ p x = true.
Proof. rewrite !list_elem_of_In. apply filter_In. Qed.

Lemma filter_none {A} (p : A -> bool) l : (forall x, x ∈ l -> p x = false) -> List.filter p l = [].
Proof. induction l as [|x l IH]; intros H; [done|]. cbn [List.filter]. rewrite H by left. apply IH. intros y Hy. apply H. by right. Qed.

Lemma filter_every {A} (p : A -> bool) l : (forall x, x ∈ l -> p x = true) -> List.filter p l = l.
Proof. induction l as [|x l IH]; intros H; [done|]. cbn [List.filter]. rewrite H by left. f_equal. apply IH. intros y Hy. apply H. by right. Qed.

Lemma filter_nodup {A B} (f : A -> B) (p : A -> bool) l : NoDup (map f l) -> NoDup (map f (List.filter p l)).
Proof.
  intros H. induction l as [|a l IH]; [done|]. cbn [map List.filter] in *. apply NoDup_cons in H as [H1 H2].
  destruct (p a); [|by apply IH]. cbn [map]. apply NoDup_cons. split; [|by apply IH].
  intros (b & Hb & Hin)%list_elem_of_fmap. apply H1. rewrite Hb. apply list_elem_of_fmap_2.
  apply list_elem_of_In, filter_In in Hin as [Hin _]. by apply list_elem_of_In.
Qed.

Lemma dedup_from_filter `{EqDecision A} (p : A -> bool) seen seen' l :
  (forall x, p x = true -> x ∈ seen <-> x ∈ seen') -> dedup_from seen (List.filter p l) = List.filter p (dedup_from seen' l).
Proof.
  revert seen seen'. induction l as [|x l IH]; intros seen seen' H; [done|]. cbn [List.filter dedup_from]. destruct (p x) eqn:E; cbn [dedup_from].
  - rewrite (bool_decide_ext (x ∈ seen) (x ∈ seen')) by auto. case_bool_decide; [by apply IH|]. cbn [List.filter]. rewrite E. f_equal. apply IH.
    intros y Hy. rewrite !elem_of_cons. naive_solver.
  - case_bool_decide; [by apply IH|]. cbn [List.filter]. rewrite E. apply IH. intros y Hy. rewrite elem_of_cons, H by done. split; [by right|]. intros [->|?]; [congruence|done].
Qed.

Lemma dedup_filter `{EqDecision A} (p : A -> bool) l : dedup (List.filter p l) = List.filter p (dedup l).
Proof. by apply dedup_from_filter. Qed.

(** ** Sorting *)

Section SortingLemmas.
Context {A : Type} (le : A -> A -> bool).
Implicit Types (l : list A) (x : A).

Lemma insert_sorted_perm x l : insert_sorted le x l ≡ₚ x :: l.
Proof.
  induction l as [|y l IH]; simpl; [done|].
  destruct (le x y); [done|]. rewrite IH. constructor.
Qed.

(** Sorting permutes the list. *)
Lemma isort_perm l : isort le l ≡ₚ l.
Proof. induction l as [|x l IH]; simpl; [done|]. by rewrite insert_sorted_perm, IH. Qed.

Context (le_total : forall a b, le a b = true \/ le b a = true).
Context (le_trans : forall a b c, le a b = true -> le b c = true -> le a c = true).

Lemma insert_sorted_sorted x l :
  StronglySorted le l -> StronglySorted le (insert_sorted le x l).
Proof.
  induction 1 as [|y l Hl IH Hy]; simpl; [repeat constructor|].
  destruct (le x y) eqn:E.
  - constructor; [by constructor|]. constructor; [by rewrite E|].
    eapply Forall_impl; [exact Hy|]. intros z Hz. apply Is_true_true in Hz.
    apply Is_true_true. eauto.
  - constructor; [done|]. rewrite insert_sorted_perm. constructor; [|done].
    destruct (le_total x y) as [E'|E']; [congruence|by rewrite E'].
Qed.

(** The result is sorted. *)
Lemma isort_sorted l : StronglySorted le (isort le l).
Proof. induction l as [|x l IH]; simpl; [constructor|by apply insert_sorted_sorted]. Qed.
End SortingLemmas.

Lemma insert_sorted_head {A} (le : A -> A -> bool) x l :
  Forall (fun y => le x y = true) l -> insert_sorted le x l = x :: l.
Proof. by destruct 1 as [|y l Hy _]; simpl; [|rewrite Hy]. Qed.

(** Sorting a sorted list changes nothing. *)
Lemma isort_id {A} (le : A -> A -> bool) l : StronglySorted le l -> isort le l = l.
Proof.
  induction 1 as [|x l Hl IH Hx]; simpl; [done|]. rewrite IH.
  apply insert_sorted_head. eapply Forall_impl; [exact Hx|].
  intros y Hy. by apply Is_true_true.
Qed.

#[export] Hint Resolve dec_nonempty streq_refl : jsdb.
#[export] Hint Rewrite streq_refl : jsrw.
