(* ===== verification/JsValue.v ===== *)
(** JavaScript numbers and dynamic values.

    Numbers are IEEE 754 binary64, through the executable [SpecFloat] of the
    standard library (no primitive floats, no axioms).  Values of type
    [unknown], such as parsed JSON, are the inductive type [val]. *)

From Stdlib Require Export SpecFloat.
From S2P Require Import Prelude.

(** * Numbers *)

Abbreviation num := spec_float.

#[export] Instance spec_float_eq_dec : EqDecision spec_float.
Proof. solve_decision. Defined.

Definition prec64 : Z := 53.
Definition emax64 : Z := 1024.

(** The double nearest to an integer. *)
Definition num_of_Z (z : Z) : num := binary_normalize prec64 emax64 z 0 false.

(** The double nearest to [m / 10^k], i.e. the value of a decimal literal. *)
Definition num_of_decimal (m : Z) (k : positive) : num :=
  match m with
  | Z0 => S754_zero false
  | Zpos p => SFdiv prec64 emax64 (S754_finite false p 0) (S754_finite false (10 ^ k)%positive 0)
  | Zneg p => SFdiv prec64 emax64 (S754_finite true p 0) (S754_finite false (10 ^ k)%positive 0)
  end.

Definition nadd : num -> num -> num := SFadd prec64 emax64.
Definition nsub : num -> num -> num := SFsub prec64 emax64.
Definition nmul : num -> num -> num := SFmul prec64 emax64.
Definition ndiv : num -> num -> num := SFdiv prec64 emax64.
Definition nabs : num -> num := SFabs.

(** [a < b], [a <= b], [a > b], [a >= b] and [a === b]; all false on NaN. *)
Definition nlt (a b : num) : bool := SFltb a b.
Definition nle (a b : num) : bool := SFleb a b.
Definition ngt (a b : num) : bool := SFltb b a.
Definition nge (a b : num) : bool := SFleb b a.
Definition neq (a b : num) : bool := SFeqb a b.

Definition is_nan (x : num) : bool := match x with S754_nan => true | _ => false end.

(** [Number.isFinite] on a number. *)
Definition is_finite (x : num) : bool :=
  match x with S754_zero _ | S754_finite _ _ _ => true | _ => false end.

(** [Number.isInteger] on a number. *)
Definition is_integer (x : num) : bool :=
  match x with
  | S754_zero _ => true
  | S754_finite _ m e => (0 <=? e) || (Zpos m mod 2 ^ (- e) =? 0)
  | _ => false
  end.

(** Truthiness of a number: neither zero nor NaN. *)
Definition truthy_num (x : num) : bool :=
  match x with S754_zero _ | S754_nan => false | _ => true end.

(** [Math.max] and [Math.min] of two numbers (zero signs apart). *)
Definition nmax (a b : num) : num := if is_nan a || is_nan b then S754_nan else if nlt a b then b else a.
Definition nmin (a b : num) : num := if is_nan a || is_nan b then S754_nan else if nlt b a then b else a.

Example num_ex1 : nadd (num_of_decimal 1 1) (num_of_decimal 2 1) = num_of_decimal 30000000000000004 17.
Proof. vm_compute. reflexivity. Qed.
Example num_ex2 : neq (nadd (num_of_decimal 1 1) (num_of_decimal 2 1)) (num_of_decimal 3 1) = false.
Proof. vm_compute. reflexivity. Qed.

(** ** Order lemmas on doubles *)

Lemma SFcompare_swap a b :
  SFcompare b a = match SFcompare a b with Some c => Some (CompOpp c) | None => None end.
Proof.
  destruct a as [[]|[]| |[] ma ea], b as [[]|[]| |[] mb eb]; try done; simpl;
    rewrite (Z.compare_antisym ea eb); destruct (ea ?= eb); try done; simpl;
    do 2 f_equal; try apply (Pos.compare_antisym ma mb);
    change (Pos.compare mb ma = CompOpp (Pos.compare ma mb)); apply Pos.compare_antisym.
Qed.

Lemma nlt_ngt a b : nlt a b = ngt b a.
Proof. done. Qed.

Lemma nlt_irrefl a : nlt a a = false.
Proof.
  destruct a as [[]|[]| |[] m e]; try done; unfold nlt, SFltb; simpl;
    rewrite Z.compare_refl, Pos.compare_cont_refl; done.
Qed.

Lemma nlt_asym a b : nlt a b = true -> nlt b a = false.
Proof.
  unfold nlt, SFltb. rewrite (SFcompare_swap a b). by destruct (SFcompare a b) as [[]|].
Qed.

Lemma nle_nlt a b : nlt a b = true -> nle b a = false.
Proof.
  unfold nle, nlt, SFltb, SFleb. rewrite (SFcompare_swap a b). by destruct (SFcompare a b) as [[]|].
Qed.

Lemma SFcompare_None a b : SFcompare a b = None <-> is_nan a = true \/ is_nan b = true.
Proof.
  destruct a as [[]|[]| |[] ma ea], b as [[]|[]| |[] mb eb]; simpl;
    repeat case_match; naive_solver.
Qed.

(** Off NaN, the order is total. *)
Lemma nle_total a b :
  is_nan a = false -> is_nan b = false -> nle a b = false -> nlt b a = true.
Proof.
  intros Ha Hb. unfold nle, nlt, SFltb, SFleb. rewrite (SFcompare_swap a b).
  destruct (SFcompare a b) as [[]|] eqn:E; try done.
  apply SFcompare_None in E as [?|?]; congruence.
Qed.

(** Equality with a finite double other than zero is identity. *)
Lemma neq_finite x s m e : neq x (S754_finite s m e) = true -> x = S754_finite s m e.
Proof.
  unfold neq, SFeqb. destruct x as [s'|s'| |s' m' e']; cbn [SFcompare]; try (by destruct s); try (by destruct s').
  destruct s', s; try done; destruct (Z.compare_spec e' e) as [->|H|H]; try done; change (Pos.compare_cont Eq m' m) with (Pos.compare m' m);
    destruct (Pos.compare_spec m' m) as [->|H|H]; done.
Qed.

(** ** Signs of products and quotients *)

Definition has_sign (s : bool) (x : num) : Prop :=
  match x with S754_zero s' | S754_infinity s' | S754_finite s' _ _ => s' = s | S754_nan => False end.

Lemma shr_1_nonneg r : 0 <= shr_m r -> 0 <= shr_m (shr_1 r).
Proof. destruct r as [[|[]|[]] ? ?]; simpl; lia. Qed.

Lemma iter_shr_nonneg p r : 0 <= shr_m r -> 0 <= shr_m (SpecFloat.iter_pos shr_1 p r).
Proof. revert r. induction p; intros r Hr; simpl; auto using shr_1_nonneg. Qed.

Lemma shr_fexp_nonneg prec emax m e l : 0 <= m -> 0 <= shr_m (shr_fexp prec emax m e l).1.
Proof.
  intros Hm. unfold shr_fexp, shr. assert (0 <= shr_m (shr_record_of_loc m l)) by (by destruct l as [|[]]).
  by case_match; try apply iter_shr_nonneg.
Qed.

(** Rounding keeps the sign. *)
Lemma round_sign prec emax s m e l : 0 <= m -> has_sign s (binary_round_aux prec emax s m e l).
Proof.
  intros Hm. unfold binary_round_aux. pose proof (shr_fexp_nonneg prec emax m e l Hm) as H1.
  destruct (shr_fexp prec emax m e l) as [r1 e1]. simpl in H1.
  set (m2 := round_nearest_even _ _). assert (0 <= m2) as H2.
  { unfold m2, round_nearest_even. repeat case_match; lia. }
  pose proof (shr_fexp_nonneg prec emax m2 e1 loc_Exact H2) as H3.
  destruct (shr_fexp prec emax m2 e1 loc_Exact) as [r3 e3]. simpl in H3.
  destruct (shr_m r3); [done|by case_match|lia].
Qed.

Lemma nmul_sign sx sy mx my ex ey :
  has_sign (xorb sx sy) (nmul (S754_finite sx mx ex) (S754_finite sy my ey)).
Proof. apply round_sign. lia. Qed.

Lemma ndiv_sign sx sy mx my ex ey :
  has_sign (xorb sx sy) (ndiv (S754_finite sx mx ex) (S754_finite sy my ey)).
Proof.
  unfold ndiv, SFdiv, SFdiv_core_binary. cbv zeta. set (m' := match _ with Z0 => _ | _ => _ end).
  assert (0 <= m') by (unfold m'; case_match; try apply Z.shiftl_nonneg; lia).
  destruct (Z.div_eucl m' (Zpos my)) as [q r] eqn:E. apply round_sign.
  replace q with (m' / Zpos my) by (unfold Z.div; by rewrite E). apply Z.div_pos; lia.
Qed.

(** A finite number divided by itself, up to the sign. *)
Lemma ndiv_self sx sy m e :
  ndiv (S754_finite sx m e) (S754_finite sy m e) = S754_finite (xorb sx sy) 4503599627370496 (-52).
Proof.
  unfold ndiv, SFdiv, SFdiv_core_binary. cbv zeta. rewrite !Z.sub_diag.
  change (Z.min (fexp prec64 emax64 0) 0) with (-53). change (0 - -53) with 53. cbv match.
  rewrite Z.shiftl_mul_pow2 by lia.
  pose proof (Z.div_mul (2 ^ 53) (Zpos m) ltac:(lia)) as Hq. pose proof (Z.mod_mul (2 ^ 53) (Zpos m) ltac:(lia)) as Hr.
  rewrite (Z.mul_comm (2 ^ 53)) in Hq, Hr. unfold Z.div, Z.modulo in Hq, Hr.
  destruct (Z.div_eucl _ _) as [q r]. rewrite Hq, Hr.
  assert (new_location (Zpos m) 0 = loc_Exact) as -> by (unfold new_location, new_location_even, new_location_odd; by case_match).
  by destruct sx, sy.
Qed.

(** * Values *)

(** A value of type [unknown] without functions: what [JSON.parse] and an HTTP
    response body produce, plus [undefined].  Object fields are in insertion
    order, keys are distinct in a value the language can build. *)
Inductive val :=
| VUndef
| VNull
| VBool (b : bool)
| VNum (x : num)
| VStr (s : jsstr)
| VArr (l : list val)
| VObj (fields : list (jsstr * val)).

(** [o.k] on an object; the keys used by the console are not array properties. *)
Fixpoint lookup_field (k : jsstr) (fields : list (jsstr * val)) : val :=
  match fields with
  | [] => VUndef
  | (k', v) :: fs => if streq k k' then v else lookup_field k fs
  end.
Definition get (k : string) (v : val) : val :=
  match v with VObj fields => lookup_field (js k) fields | _ => VUndef end.

(** [Boolean(v)] *)
Definition truthy (v : val) : bool :=
  match v with
  | VUndef | VNull => false
  | VBool b => b
  | VNum x => truthy_num x
  | VStr s => truthy_str s
  | VArr _ | VObj _ => true
  end.

(** [typeof v === 'object'] *)
Definition typeof_object (v : val) : bool :=
  match v with VNull | VArr _ | VObj _ => true | _ => false end.
Definition typeof_string (v : val) : bool := match v with VStr _ => true | _ => false end.
Definition typeof_number (v : val) : bool := match v with VNum _ => true | _ => false end.
Definition typeof_boolean (v : val) : bool := match v with VBool _ => true | _ => false end.
