(* ===== verification/StatusCodeRules.v ===== *)
(** HTTP status code rules: the parser and normaliser of
    src/web/src/lib/http-status-code-rules.ts, which turns an operator's text
    such as ["500-504, 429，400"] into merged ranges and a canonical text. *)

From S2P Require Import Prelude.

Module StatusCodeRules.

(** [StatusCodeRange] *)
Record StatusCodeRange := mkRange { start : Z; end_ : Z }.

#[export] Instance StatusCodeRange_eq_dec : EqDecision StatusCodeRange.
Proof. solve_decision. Defined.

(** [ParsedHttpStatusCodeRules] *)
Record ParsedHttpStatusCodeRules := mkParsed {
  ok : bool;
  ranges : list StatusCodeRange;
  tokens : list jsstr;
  normalized : jsstr;
  invalidTokens : list jsstr
}.

(** [isNumber]: [/^\d+$/.test(s)]; the destructuring [const [a, b]] can bind
    [undefined], for which [typeof s === 'string'] is false. *)
Definition isNumber (s : option jsstr) : bool :=
  match s with
  | None => false
  | Some s => truthy_str s && forallb is_digit s
  end.

(** [isValidCode]; codes are kept as exact integers: the double that
    [Number.parseInt] rounds to lies in 100..599 exactly when the integer does. *)
Definition isValidCode (code : Z) : bool := (100 <=? code) && (code <=? 599).

(** [Number.parseInt(s, 10)] on a string that [isNumber] accepted. *)
Definition parseCode (s : option jsstr) : Z := digits_value (default [] s).

(** [parseToken] *)
Definition parseToken (token : jsstr) : option StatusCodeRange :=
  let cleaned := List.filter (fun c => negb (is_space c)) (trim token) in
  if negb (truthy_str cleaned) then None
  else if bool_decide (45 ∈ cleaned) then
    let parts := split_on 45 cleaned in
    let a := parts !! 0%nat in
    let b := parts !! 1%nat in
    if negb (isNumber a) || negb (isNumber b) then None
    else
      let start := parseCode a in
      let end_ := parseCode b in
      if negb (isValidCode start) || negb (isValidCode end_) || (end_ <? start)
      then None
      else Some (mkRange start end_)
  else if negb (isNumber (Some cleaned)) then None
  else
    let code := parseCode (Some cleaned) in
    if negb (isValidCode code) then None else Some (mkRange code code).

(** The comparator of [mergeRanges], as [cmp(a, b) <= 0]. *)
Definition range_le (a b : StatusCodeRange) : bool :=
  if a.(start) =? b.(start) then a.(end_) <=? b.(end_) else a.(start) <=? b.(start).

(** One step of the [reduce] of [mergeRanges].  The accumulator is kept
    reversed, so that its head is [merged[merged.length - 1]]. *)
Definition merge_step (merged : list StatusCodeRange) (current : StatusCodeRange)
    : list StatusCodeRange :=
  match merged with
  | [] => [current]
  | last :: before =>
      if last.(end_) + 1 <? current.(start) then current :: merged
      else mkRange last.(start) (Z.max last.(end_) current.(end_)) :: before
  end.

(** [mergeRanges] *)
Definition mergeRanges (rs : list StatusCodeRange) : list StatusCodeRange :=
  reverse (fold_left merge_step (isort range_le rs) []).

(** The text of one range, in the [tokens] of the result. *)
Definition range_token (r : StatusCodeRange) : jsstr :=
  if r.(start) =? r.(end_) then dec r.(start) else dec r.(start) ++ js "-" ++ dec r.(end_).

(** [raw.replace(/[，]/g, ',')]: the full-width comma U+FF0C. *)
Definition sanitize (raw : jsstr) : jsstr := map (fun c => if c =? 65292 then 44 else c) raw.

(** The non-empty trimmed segments between commas. *)
Definition segments (raw : jsstr) : list jsstr :=
  List.filter truthy_str (map trim (split_on 44 (sanitize raw))).

(** [parseHttpStatusCodeRules]; [input] is [None] for [null]/[undefined] and the
    value's [toString()] otherwise. *)
Definition parseHttpStatusCodeRules (input : option jsstr) : ParsedHttpStatusCodeRules :=
  let raw := trim (default [] input) in
  if bool_decide (raw = []) then mkParsed true [] [] [] []
  else
    let segs := segments raw in
    let ranges := omap parseToken segs in
    let invalid := List.filter (fun s => negb (bool_decide (is_Some (parseToken s)))) segs in
    if negb (bool_decide (invalid = [])) then mkParsed false [] [] raw invalid
    else
      let merged := mergeRanges ranges in
      let tokens := map range_token merged in
      mkParsed true merged tokens (join (js ",") tokens) [].

Example parse_ex1 :
  normalized (parseHttpStatusCodeRules (Some (js " 500-503, 429,504 ,430")))
  = js "429-430,500-504".
Proof. vm_compute. reflexivity. Qed.

Example parse_ex2 :
  invalidTokens (parseHttpStatusCodeRules (Some (js "99,200,abc"))) = [js "99"; js "abc"].
Proof. vm_compute. reflexivity. Qed.

Example parse_ex3 : parseToken (js "100-200-300") = Some (mkRange 100 200).
Proof. vm_compute. reflexivity. Qed.


(** ** Specification *)

(** A range of admissible codes. *)
Definition valid_range (r : StatusCodeRange) : Prop := 100 <= r.(start) <= r.(end_) /\ r.(end_) <= 599.

(** [b] lies strictly after [a] and does not touch it. *)
Definition gap (a b : StatusCodeRange) : Prop := a.(end_) + 1 < b.(start).

(** The codes denoted by a list of ranges. *)
Definition covers (rs : list StatusCodeRange) (c : Z) : Prop :=
  Exists (fun r => r.(start) <= c <= r.(end_)) rs.

(** Increasing, disjoint and non-adjacent admissible ranges. *)
Definition canonical (rs : list StatusCodeRange) : Prop :=
  StronglySorted gap rs /\ Forall valid_range rs.

(** ** Tokens *)

Lemma parseToken_valid t r : parseToken t = Some r -> valid_range r.
Proof.
  unfold parseToken, isValidCode, valid_range.
  intros H. repeat case_match; simplify_eq; simpl in *; lia.
Qed.

Lemma filter_nospace s :
  Forall (fun c => is_space c = false) s -> List.filter (fun c => negb (is_space c)) s = s.
Proof. induction 1 as [|c s Hc _ IH]; simpl; [done|]. by rewrite Hc, IH. Qed.

Lemma dec_nospace n : 0 <= n -> Forall (fun c => is_space c = false) (dec n).
Proof. intros. eapply Forall_impl; [by apply dec_digits|]. eauto using digit_not_space. Qed.

Lemma dec_no_sep c n : is_digit c = false -> 0 <= n -> c ∉ dec n.
Proof.
  intros Hc Hn Hin. pose proof (dec_digits n Hn) as H.
  rewrite Forall_forall in H. specialize (H c Hin). congruence.
Qed.

Lemma isNumber_dec n : 0 <= n -> isNumber (Some (dec n)) = true.
Proof.
  intros Hn. unfold isNumber. apply andb_true_iff. split.
  - apply truthy_str_spec, dec_nonempty.
  - apply forallb_forall. intros c Hc. pose proof (dec_digits n Hn) as H.
    rewrite Forall_forall in H. by apply H, list_elem_of_In.
Qed.

Lemma parseCode_dec n : 0 <= n -> parseCode (Some (dec n)) = n.
Proof. apply dec_value. Qed.

Lemma isValidCode_true c : 100 <= c <= 599 -> isValidCode c = true.
Proof. unfold isValidCode. lia. Qed.

Lemma range_token_nospace r : valid_range r -> Forall (fun c => is_space c = false) (range_token r).
Proof.
  intros [? ?]. unfold range_token. case_match; [apply dec_nospace; lia|].
  apply Forall_app_2; [apply dec_nospace; lia|].
  apply Forall_app_2; [by repeat constructor|apply dec_nospace; lia].
Qed.

Lemma range_token_fresh c r :
  valid_range r -> is_digit c = false -> c <> 45 -> c ∉ range_token r.
Proof.
  intros [? ?] Hc Hne. unfold range_token. change (js "-") with [45].
  case_match; [apply dec_no_sep; [done|lia]|].
  rewrite !not_elem_of_app. split_and!; [apply dec_no_sep; [done|lia]|set_solver|].
  apply dec_no_sep; [done|lia].
Qed.

Lemma range_token_nonempty r : range_token r <> [].
Proof.
  unfold range_token. case_match; [apply dec_nonempty|].
  intros [Hd _]%app_nil. by apply dec_nonempty in Hd.
Qed.

(** Every printed range is read back as itself. *)
Lemma parseToken_range_token r : valid_range r -> parseToken (range_token r) = Some r.
Proof.
  intros Hr. pose proof (range_token_nospace r Hr) as Hns.
  pose proof (range_token_nonempty r) as Hne. destruct Hr as [Hr1 Hr2].
  unfold parseToken. rewrite trim_nospace, filter_nospace by done.
  destruct (truthy_str (range_token r)) eqn:E; [|by destruct (range_token r)]. clear E Hns Hne.
  unfold range_token. destruct (Z.eqb_spec (start r) (end_ r)) as [Heq|Hne]; cbn [negb].
  - rewrite bool_decide_false by (apply dec_no_sep; [done|lia]).
    rewrite isNumber_dec by lia. cbn [negb]. rewrite parseCode_dec by lia.
    rewrite isValidCode_true by lia. destruct r; simpl in *. by subst.
  - change (js "-") with [45].
    rewrite bool_decide_true by set_solver.
    change (dec (start r) ++ [45] ++ dec (end_ r)) with (dec (start r) ++ 45 :: dec (end_ r)).
    rewrite split_on_app, split_on_fresh by (apply dec_no_sep; [done|lia]).
    cbn [lookup list_lookup]. rewrite !isNumber_dec by lia. cbn [negb orb].
    rewrite !parseCode_dec, !isValidCode_true by lia. cbn [negb orb].
    destruct (Z.ltb_spec (end_ r) (start r)); [lia|]. by destruct r.
Qed.

(** ** Merging *)

Lemma range_le_start a b : range_le a b = true -> a.(start) <= b.(start).
Proof. unfold range_le. case_match; lia. Qed.

Lemma range_le_total a b : range_le a b = true \/ range_le b a = true.
Proof. unfold range_le. repeat case_match; lia. Qed.

Lemma range_le_trans a b c :
  range_le a b = true -> range_le b c = true -> range_le a c = true.
Proof. unfold range_le. repeat case_match; lia. Qed.

Lemma covers_cons r rs c : covers (r :: rs) c <-> r.(start) <= c <= r.(end_) \/ covers rs c.
Proof. apply Exists_cons. Qed.

Lemma covers_app rs rs' c : covers (rs ++ rs') c <-> covers rs c \/ covers rs' c.
Proof. apply Exists_app. Qed.

Lemma covers_perm rs rs' c : rs ≡ₚ rs' -> covers rs c <-> covers rs' c.
Proof. intros H. unfold covers. by rewrite H. Qed.

(** What holds between two steps of the [reduce]: the accumulator (reversed) is
    canonical and the ranges still to come start no earlier than its head. *)
Definition merge_inv (acc todo : list StatusCodeRange) : Prop :=
  StronglySorted (flip gap) acc /\ Forall valid_range acc /\ Forall valid_range todo
  /\ StronglySorted range_le todo
  /\ forall last, head acc = Some last -> Forall (fun r => last.(start) <= r.(start)) todo.

Lemma merge_step_inv acc r todo :
  merge_inv acc (r :: todo) -> merge_inv (merge_step acc r) todo.
Proof.
  intros (Hs & Hv & Ht & Hst & Hhd).
  inversion Ht as [|?? Hr Ht']; subst. inversion Hst as [|?? Hst' Hle]; subst.
  assert (Forall (fun x => r.(start) <= x.(start)) todo) as Hlater.
  { eapply Forall_impl; [exact Hle|]. intros x Hx. by apply range_le_start, Is_true_true. }
  destruct acc as [|last before]; simpl.
  - unfold merge_inv. split_and!; try done; repeat constructor; try apply Hr.
    by intros ? [= <-].
  - inversion Hs as [|?? Hsb Hgap]; subst. inversion Hv as [|?? Hlast Hvb]; subst.
    specialize (Hhd last eq_refl) as Hl. inversion Hl as [|?? Hlr Hltodo]; subst.
    destruct (Z.ltb_spec (end_ last + 1) (start r)) as [Hlt|Hge];
      unfold merge_inv; split_and!; try done; try by constructor.
    + constructor; [done|]. constructor; [done|].
      eapply Forall_impl; [exact Hgap|]. unfold flip, gap. intros x Hx.
      destruct Hlast. lia.
    + by intros ? [= <-].
    + constructor; [|done]. destruct Hr, Hlast. split; simpl; lia.
    + by intros ? [= <-].
Qed.

Lemma merge_step_covers acc r todo c :
  merge_inv acc (r :: todo) ->
  covers (merge_step acc r) c <-> covers acc c \/ r.(start) <= c <= r.(end_).
Proof.
  intros (_ & Hv & Ht & _ & Hhd). inversion Ht as [|?? Hr _]; subst.
  destruct acc as [|last before]; simpl.
  - rewrite covers_cons. unfold covers. rewrite Exists_nil. tauto.
  - inversion Hv as [|?? Hlast Hvb]; subst.
    specialize (Hhd last eq_refl). inversion Hhd as [|?? Hlr _]; subst.
    destruct (Z.ltb_spec (end_ last + 1) (start r)); rewrite !covers_cons; simpl.
    + tauto.
    + destruct Hr, Hlast. split; [intros [?|?]|intros [[?|?]|?]]; try tauto; lia.
Qed.

Lemma merge_fold_inv acc todo :
  merge_inv acc todo ->
  merge_inv (fold_left merge_step todo acc) []
  /\ forall c, covers (fold_left merge_step todo acc) c <-> covers acc c \/ covers todo c.
Proof.
  revert acc. induction todo as [|r todo IH]; intros acc Hinv; simpl.
  - split; [done|]. intros c. unfold covers at 3. rewrite Exists_nil. tauto.
  - destruct (IH _ (merge_step_inv _ _ _ Hinv)) as [Hi Hc]. split; [done|].
    intros c. rewrite Hc, (merge_step_covers _ _ _ _ Hinv), covers_cons. tauto.
Qed.

Lemma StronglySorted_reverse {A} (R : A -> A -> Prop) l :
  StronglySorted (flip R) l -> StronglySorted R (reverse l).
Proof.
  induction 1 as [|x l Hl IH Hx]; [constructor|]. rewrite reverse_cons.
  apply StronglySorted_app; split_and!; [|done|repeat constructor].
  intros a b. rewrite elem_of_reverse, list_elem_of_singleton. intros Ha ->.
  rewrite Forall_forall in Hx. by apply (Hx a).
Qed.

Lemma merge_inv_start rs : Forall valid_range rs -> merge_inv [] (isort range_le rs).
Proof.
  intros H. unfold merge_inv. split_and!; try done; try constructor.
  - by rewrite isort_perm.
  - apply isort_sorted; eauto using range_le_total, range_le_trans.
Qed.

Lemma mergeRanges_canonical rs : Forall valid_range rs -> canonical (mergeRanges rs).
Proof.
  intros H. destruct (merge_fold_inv _ _ (merge_inv_start rs H)) as [(Hs & Hv & _) _].
  split; [by apply StronglySorted_reverse|by apply Forall_reverse].
Qed.

Lemma mergeRanges_covers rs c : Forall valid_range rs -> covers (mergeRanges rs) c <-> covers rs c.
Proof.
  intros H. destruct (merge_fold_inv _ _ (merge_inv_start rs H)) as [_ Hc].
  unfold mergeRanges. rewrite (covers_perm _ _ _ (reverse_Permutation _)), Hc.
  rewrite (covers_perm _ _ _ (isort_perm _ rs)). unfold covers at 1. rewrite Exists_nil. tauto.
Qed.

Lemma canonical_range_le rs : canonical rs -> StronglySorted range_le rs.
Proof.
  intros [Hs Hv]. induction Hs as [|r rs Hs IH Hg]; [constructor|].
  inversion Hv as [|?? Hr Hv']; subst. constructor; [by apply IH|].
  rewrite Forall_forall in Hg, Hv' |- *. intros x Hx. apply Is_true_true.
  specialize (Hg x Hx). specialize (Hv' x Hx). unfold gap in Hg. destruct Hr, Hv'.
  unfold range_le. case_match; lia.
Qed.

Lemma merge_fold_gap acc rs :
  StronglySorted gap (reverse acc ++ rs) -> fold_left merge_step rs acc = reverse rs ++ acc.
Proof.
  revert acc. induction rs as [|r rs IH]; intros acc H; simpl; [done|].
  assert (merge_step acc r = r :: acc) as ->.
  { destruct acc as [|last before]; [done|]. simpl.
    rewrite reverse_cons, <- app_assoc in H. apply StronglySorted_app in H as (Hab & _ & H).
    inversion H as [|?? _ Hg]; subst. inversion Hg as [|?? Hg' _]; subst. unfold gap in Hg'.
    by destruct (Z.ltb_spec (end_ last + 1) (start r)); [|lia]. }
  rewrite IH; [by rewrite reverse_cons, <- app_assoc|].
  by rewrite reverse_cons, <- app_assoc.
Qed.

(** Merging canonical ranges changes nothing. *)
Lemma mergeRanges_id rs : canonical rs -> mergeRanges rs = rs.
Proof.
  intros Hc. unfold mergeRanges. rewrite isort_id by by apply canonical_range_le.
  rewrite merge_fold_gap by apply Hc. by rewrite app_nil_r, reverse_involutive.
Qed.

Lemma canonical_cons_inv r rs :
  canonical (r :: rs) -> valid_range r /\ canonical rs /\ forall c, covers rs c -> r.(end_) + 1 < c.
Proof.
  intros [Hs Hv]. inversion Hs as [|?? Hs' Hg]; inversion Hv as [|?? Hr Hv']; subst.
  split_and!; [done|done|]. intros c Hc. unfold covers in Hc. rewrite Exists_exists in Hc.
  destruct Hc as (x & Hx & ?). rewrite Forall_forall in Hg. specialize (Hg x Hx).
  unfold gap in Hg. lia.
Qed.

Lemma canonical_head_start r rs c : canonical (r :: rs) -> covers (r :: rs) c -> r.(start) <= c.
Proof.
  intros ([??] & _ & Hlt)%canonical_cons_inv. rewrite covers_cons.
  intros [?|Hc]; [lia|]. specialize (Hlt c Hc). lia.
Qed.

Lemma canonical_head_end r rs r' rs' :
  canonical (r :: rs) -> canonical (r' :: rs') -> r.(start) = r'.(start) ->
  (forall c, covers (r :: rs) c -> covers (r' :: rs') c) -> r.(end_) <= r'.(end_).
Proof.
  intros ([??] & _ & _)%canonical_cons_inv ([??] & _ & Hlt)%canonical_cons_inv Es Hinc.
  destruct (Z.le_gt_cases (end_ r) (end_ r')) as [?|Hgt]; [done|].
  assert (covers (r' :: rs') (end_ r' + 1)) as [?|Hc]%covers_cons by (apply Hinc, covers_cons; lia).
  - lia.
  - specialize (Hlt _ Hc). lia.
Qed.

(** A set of codes has at most one canonical list of ranges. *)
Lemma canonical_unique rs rs' :
  canonical rs -> canonical rs' -> (forall c, covers rs c <-> covers rs' c) -> rs = rs'.
Proof.
  revert rs'. induction rs as [|r rs IH]; intros [|r' rs'] Hc Hc' Hcov; [done| | |].
  - exfalso. destruct (canonical_cons_inv _ _ Hc') as ([? ?] & _).
    assert (covers [] (start r')) as Habs by (apply Hcov, covers_cons; lia). inversion Habs.
  - exfalso. destruct (canonical_cons_inv _ _ Hc) as ([? ?] & _).
    assert (covers [] (start r)) as Habs by (apply Hcov, covers_cons; lia). inversion Habs.
  - destruct (canonical_cons_inv _ _ Hc) as ([Hr1 Hr2] & Hrs & Hlt).
    destruct (canonical_cons_inv _ _ Hc') as ([Hr1' Hr2'] & Hrs' & Hlt').
    assert (start r = start r') as Es.
    { apply Z.le_antisymm; [eapply (canonical_head_start r rs)|eapply (canonical_head_start r' rs')];
        [done|apply Hcov, covers_cons; lia|done|apply Hcov, covers_cons; lia]. }
    assert (end_ r = end_ r') as Ee.
    { apply Z.le_antisymm; eapply canonical_head_end; try done; intros c; apply Hcov. }
    setoid_rewrite covers_cons in Hcov.
    assert (r = r') as <- by (destruct r, r'; simpl in *; by subst).
    f_equal. apply IH; [done..|]. intros c. specialize (Hcov c). specialize (Hlt c).
    specialize (Hlt' c). split; intros Hin.
    + destruct (proj1 Hcov) as [?|?]; [by right|specialize (Hlt Hin); lia|done].
    + destruct (proj2 Hcov) as [?|?]; [by right|specialize (Hlt' Hin); lia|done].
Qed.

(** ** The parser *)

Lemma omap_parseToken_valid segs : Forall valid_range (omap parseToken segs).
Proof.
  apply Forall_forall. intros r (t & _ & Ht)%list_elem_of_omap. by eapply parseToken_valid.
Qed.

(** The segments that [parseToken] rejects. *)
Definition rejected (segs : list jsstr) : list jsstr :=
  List.filter (fun s => negb (bool_decide (is_Some (parseToken s)))) segs.

Lemma rejected_nil segs :
  rejected segs = [] <-> Forall (fun s => is_Some (parseToken s)) segs.
Proof.
  unfold rejected. induction segs as [|t segs IH]; simpl; [by split; constructor|].
  rewrite Forall_cons. case_bool_decide; simpl; [tauto|]. split; [done|tauto].
Qed.

Lemma parse_ranges_canonical_aux input : canonical (ranges (parseHttpStatusCodeRules input)).
Proof.
  unfold parseHttpStatusCodeRules.
  repeat case_match; simpl; try (split; constructor).
  apply mergeRanges_canonical, omap_parseToken_valid.
Qed.

(** whatever the operator typed, the ranges handed to the rest of the console
    are admissible (100..599, start <= end), strictly increasing, disjoint and
    never adjacent. *)
Theorem parse_ranges_canonical (input : option jsstr) :
  canonical (ranges (parseHttpStatusCodeRules input)).
Proof. apply parse_ranges_canonical_aux. Qed.

Lemma segments_blank : segments [] = [].
Proof. done. Qed.

(** the rule text is accepted exactly when every non-blank segment is a code
    or a range of codes; then the merged ranges denote the union of the segments'
    ranges, and otherwise no range survives and the rejected segments are
    reported in order. *)
Theorem parse_denotation (input : option jsstr) :
  let segs := segments (trim (default [] input)) in
  let r := parseHttpStatusCodeRules input in
  (ok r = true <-> Forall (fun s => is_Some (parseToken s)) segs)
  /\ (ok r = true -> forall c, covers (ranges r) c <->
        exists s x, s ∈ segs /\ parseToken s = Some x /\ x.(start) <= c <= x.(end_))
  /\ (ok r = false -> ranges r = [] /\ tokens r = [] /\ invalidTokens r = rejected segs).
Proof.
  cbv zeta. unfold parseHttpStatusCodeRules. fold (rejected (segments (trim (default [] input)))).
  set (raw := trim (default [] input)). case_bool_decide as Eraw.
  { rewrite Eraw. simpl. split_and!; [by split; constructor| |done].
    intros _ c. split; [inversion 1|]. intros (s & x & Hs & _). inversion Hs. }
  rewrite <- rejected_nil. case_bool_decide as Einv; simpl.
  - split_and!; [done| |done]. intros _ c.
    rewrite mergeRanges_covers by apply omap_parseToken_valid.
    unfold covers. rewrite Exists_exists. setoid_rewrite list_elem_of_omap. naive_solver.
  - by split_and!.
Qed.

Lemma sanitize_id raw : 65292 ∉ raw -> sanitize raw = raw.
Proof.
  unfold sanitize. induction raw as [|c raw IH]; simpl; [done|]. intros H.
  destruct (Z.eqb_spec c 65292) as [->|_]; [set_solver|]. f_equal. apply IH. set_solver.
Qed.

Lemma join_fresh c sep parts :
  c ∉ sep -> Forall (fun p => c ∉ p) parts -> c ∉ join sep parts.
Proof.
  intros Hsep. induction 1 as [|p ps Hp Hps IH]; simpl; [set_solver|].
  destruct ps; [done|]. rewrite !not_elem_of_app. by split_and!.
Qed.

Lemma join_Forall (P : Z -> Prop) sep parts :
  Forall P sep -> Forall (Forall P) parts -> Forall P (join sep parts).
Proof.
  intros Hsep. induction 1 as [|p ps Hp Hps IH]; simpl; [constructor|].
  destruct ps; [done|]. by repeat apply Forall_app_2.
Qed.

Lemma segments_join_tokens rs :
  rs <> [] -> Forall valid_range rs ->
  segments (join (js ",") (map range_token rs)) = map range_token rs.
Proof.
  intros Hne Hv. unfold segments. rewrite sanitize_id.
  2:{ apply join_fresh; [compute_done|]. apply Forall_fmap. eapply Forall_impl; [exact Hv|].
      intros r Hr. by apply range_token_fresh. }
  change (js ",") with [44]. rewrite split_on_join.
  - clear Hne. induction Hv as [|r rs Hr Hv IH]; simpl; [done|].
    rewrite trim_nospace by by apply range_token_nospace.
    destruct (truthy_str (range_token r)) eqn:E; [by rewrite IH|].
    by destruct (range_token_nonempty r); destruct (range_token r).
  - by destruct rs.
  - apply Forall_fmap. eapply Forall_impl; [exact Hv|].
    intros r Hr. by apply range_token_fresh.
Qed.

Lemma omap_tokens rs : Forall valid_range rs -> omap parseToken (map range_token rs) = rs.
Proof.
  induction 1 as [|r rs Hr Hv IH]; [done|]. cbn.
  rewrite parseToken_range_token by done. cbn. f_equal. apply IH.
Qed.

(** The accepted result for a canonical list of ranges. *)
Definition accepted (rs : list StatusCodeRange) : ParsedHttpStatusCodeRules :=
  mkParsed true rs (map range_token rs) (join (js ",") (map range_token rs)) [].

Lemma parse_accepted input :
  ok (parseHttpStatusCodeRules input) = true ->
  parseHttpStatusCodeRules input = accepted (ranges (parseHttpStatusCodeRules input)).
Proof. unfold parseHttpStatusCodeRules. by repeat case_match. Qed.

Lemma parse_canonical_text rs :
  canonical rs -> parseHttpStatusCodeRules (Some (normalized (accepted rs))) = accepted rs.
Proof.
  intros Hc. destruct (decide (rs = [])) as [->|Hne]; [done|].
  unfold parseHttpStatusCodeRules.
  change (default [] (Some (normalized (accepted rs)))) with (join (js ",") (map range_token rs)).
  pose proof (segments_join_tokens rs Hne (proj2 Hc)) as Hseg.
  assert (trim (join (js ",") (map range_token rs)) = join (js ",") (map range_token rs)) as ->.
  { apply trim_nospace, join_Forall; [by repeat constructor|].
    apply Forall_fmap. eapply Forall_impl; [apply Hc|]. apply range_token_nospace. }
  rewrite bool_decide_false.
  2:{ intros E. rewrite E, segments_blank in Hseg. by destruct rs. }
  fold (rejected (segments (join (js ",") (map range_token rs)))).
  rewrite Hseg, omap_tokens, mergeRanges_id by apply Hc.
  rewrite bool_decide_true; [done|]. apply rejected_nil, Forall_fmap.
  eapply Forall_impl; [apply Hc|]. intros r Hr. simpl. by rewrite parseToken_range_token.
Qed.

(** Saving the normalised text and parsing it again gives the same ranges,
    tokens and text: normalisation is idempotent. *)
Theorem parse_normalized_roundtrip (input : option jsstr) :
  ok (parseHttpStatusCodeRules input) = true ->
  parseHttpStatusCodeRules (Some (normalized (parseHttpStatusCodeRules input)))
  = parseHttpStatusCodeRules input.
Proof.
  intros Hok. rewrite (parse_accepted _ Hok) at 1.
  rewrite parse_canonical_text by apply parse_ranges_canonical_aux. by rewrite <- parse_accepted.
Qed.

Lemma parse_normalized_roundtrip_witness :
  parseHttpStatusCodeRules (Some (js "429-430,500-504"))
  = parseHttpStatusCodeRules (Some (js "500-503, 429,504 ,430")).
Proof. exact (parse_normalized_roundtrip (Some (js "500-503, 429,504 ,430")) eq_refl). Defined.

(** ** The language of the rules *)

(** What an operator may write, independently of the parser: pieces between commas (of
    either width), where a piece is blank, a code, or two codes with a hyphen between
    them, with white space anywhere; codes lie between 100 and 599. *)
Definition comma (c : Z) : Prop := c = 44 \/ c = 65292.
Definition compact (p : jsstr) : jsstr := List.filter (fun c => negb (is_space c)) p.
Definition code (d : jsstr) (n : Z) : Prop :=
  d <> [] /\ Forall (fun c => is_digit c = true) d /\ digits_value d = n /\ 100 <= n <= 599.

Inductive piece (p : jsstr) : option (Z * Z) -> Prop :=
| piece_blank : compact p = [] -> piece p None
| piece_code n : code (compact p) n -> piece p (Some (n, n))
| piece_range d1 d2 a b : compact p = d1 ++ 45 :: d2 -> code d1 a -> code d2 b -> a <= b -> piece p (Some (a, b)).

Inductive reads : jsstr -> list (option (Z * Z)) -> Prop :=
| reads_last p x : Forall (fun c => ~ comma c) p -> piece p x -> reads p [x]
| reads_more p c s x xs : Forall (fun c => ~ comma c) p -> piece p x -> comma c -> reads s xs -> reads (p ++ c :: s) (x :: xs).

(** The codes such a text denotes. *)
Definition denotes (xs : list (option (Z * Z))) (n : Z) : Prop := exists a b, Some (a, b) ∈ xs /\ a <= n <= b.

Lemma space_no_comma c : is_space c = true -> ~ comma c.
Proof. by intros H [-> | ->]. Qed.

Lemma compact_app p q : compact (p ++ q) = compact p ++ compact q.
Proof. apply List.filter_app. Qed.

Lemma compact_spaces p : Forall (fun c => is_space c = true) p -> compact p = [].
Proof. induction 1 as [|c p Hc _ IH]; [done|]. unfold compact. cbn [List.filter]. by rewrite Hc. Qed.

Lemma piece_compact p q x : compact p = compact q -> piece p x -> piece q x.
Proof. intros E H. destruct H; [apply piece_blank|apply piece_code|eapply piece_range]; rewrite <- ?E; done. Qed.

Lemma reads_drop_start p s xs : Forall (fun c => is_space c = true) p -> reads (p ++ s) xs -> reads s xs.
Proof.
  induction 1 as [|c p Hc _ IH]; [done|]. intros H. apply IH. clear IH. cbn [app] in H. remember (p ++ s) as t eqn:E. clear E.
  assert (forall q, compact (c :: q) = compact q) as Hq by (intros q; unfold compact; cbn [List.filter]; by rewrite Hc).
  inversion H as [q x Hn Hp|q d s' x xs' Hn Hp Hd Hr E]; subst.
  - apply Forall_cons in Hn as [_ Hn]. apply reads_last; [done|]. eapply piece_compact; [apply Hq|exact Hp].
  - destruct q as [|c' q]; cbn [app] in E; injection E as -> <-; [by apply space_no_comma in Hc|]. apply Forall_cons in Hn as [_ Hn].
    apply reads_more; [done| |done|done]. eapply piece_compact; [apply Hq|exact Hp].
Qed.

Lemma reads_drop_end p s xs : Forall (fun c => is_space c = true) p -> reads (s ++ p) xs -> reads s xs.
Proof.
  intros Hp H. remember (s ++ p) as t eqn:E. revert s E. induction H as [q x Hn Hq|q c t x xs Hn Hq Hc Hr IH]; intros s E.
  - subst q. apply Forall_app in Hn as [Hn _]. apply reads_last; [done|]. eapply piece_compact; [|exact Hq]. by rewrite compact_app, (compact_spaces p), app_nil_r.
  - assert (c ∉ p) as Hcp by (intros Hin; rewrite Forall_forall in Hp; by apply (space_no_comma c (Hp c Hin))).
    apply app_eq_inv in E as [(k & -> & ->)|(k & -> & E)]; [set_solver|]. destruct k as [|c' k]; [cbn in E; subst p; set_solver|].
    injection E as <- ->. apply reads_more; [done|done|done|by apply IH].
Qed.

Lemma reads_trim s xs : reads s xs -> reads (trim s) xs.
Proof.
  intros H. destruct (trim_start_suffix s) as (p & Ep & Hp). rewrite Ep in H. apply reads_drop_start in H; [|done].
  unfold trim. destruct (trim_start_suffix (reverse (trim_start s))) as (q & Eq & Hq).
  apply (f_equal reverse) in Eq. rewrite reverse_involutive, reverse_app in Eq. rewrite Eq in H.
  apply reads_drop_end in H; [done|]. by apply Forall_reverse.
Qed.

(** ** The parser on that language *)

Lemma digit_no_hyphen d : Forall (fun c => is_digit c = true) d -> 45 ∉ d.
Proof. intros H Hin. rewrite Forall_forall in H. by specialize (H 45 Hin). Qed.

Lemma code_accepted d n : code d n -> isNumber (Some d) = true /\ parseCode (Some d) = n /\ isValidCode n = true /\ 45 ∉ d.
Proof.
  intros (Hne & Hd & <- & Hr). split_and!; [|done|by apply isValidCode_true|by apply digit_no_hyphen].
  unfold isNumber. rewrite (proj2 (truthy_str_spec d)) by done. cbn [andb]. apply forallb_forall. intros c Hc. rewrite Forall_forall in Hd. by apply Hd, list_elem_of_In.
Qed.

Definition to_range (x : Z * Z) : StatusCodeRange := mkRange x.1 x.2.

Lemma compact_trim s : compact (trim s) = compact s.
Proof.
  destruct (trim_start_suffix s) as (p & Ep & Hp). rewrite Ep at 2. rewrite compact_app, (compact_spaces p) by done.
  unfold trim. destruct (trim_start_suffix (reverse (trim_start s))) as (q & Eq & Hq).
  apply (f_equal reverse) in Eq. rewrite reverse_involutive, reverse_app in Eq. rewrite Eq at 2.
  by rewrite compact_app, (compact_spaces (reverse q)), app_nil_r by (by apply Forall_reverse).
Qed.

(** A blank piece is dropped; the others are read as written. *)
Lemma piece_parsed p x :
  piece p x ->
  match x with None => trim p = [] | Some ab => trim p <> [] /\ parseToken (trim p) = Some (to_range ab) end.
Proof.
  assert (forall q, parseToken (trim q) = parseToken q) as Htt by (intros q; unfold parseToken; by rewrite trim_idem).
  assert (compact p <> [] -> trim p <> []) as Hne by (intros H E; apply H; by rewrite <- compact_trim, E).
  intros [Hb|n Hn|d1 d2 a b E H1 H2 Hle].
  - unfold trim. assert (trim_start p = []) as ->; [|done]. clear -Hb. unfold compact in Hb. induction p as [|c p IH]; [done|].
    cbn [List.filter trim_start] in *. destruct (is_space c); [by apply IH|done].
  - destruct (code_accepted _ _ Hn) as (Hnum & Hp & Hv & Hh). split; [apply Hne, Hn|]. unfold parseToken. rewrite trim_idem. fold (compact (trim p)). rewrite compact_trim.
    destruct (truthy_str (compact p)) eqn:Et; [|by destruct Hn as [Hn _]; destruct (compact p)]. cbn [negb].
    rewrite bool_decide_false, Hnum, Hp, Hv by done. done.
  - destruct (code_accepted _ _ H1) as (N1 & P1 & V1 & Hh1), (code_accepted _ _ H2) as (N2 & P2 & V2 & Hh2).
    split; [apply Hne; rewrite E; by destruct d1|]. unfold parseToken. rewrite trim_idem. fold (compact (trim p)). rewrite compact_trim, E.
    assert (truthy_str (d1 ++ 45 :: d2) = true) as -> by (by destruct d1). cbn [negb]. rewrite bool_decide_true by set_solver.
    rewrite split_on_app, split_on_fresh by done. cbn [lookup list_lookup]. rewrite N1, N2, P1, P2, V1, V2. cbn [negb orb].
    destruct (Z.ltb_spec b a); [lia|done].
Qed.

(** The segments of a piece: none if it is blank. *)
Lemma piece_segments p x :
  piece p x -> let segs := List.filter truthy_str [trim p] in
  omap parseToken segs = map to_range (omap id [x]) /\ Forall (fun s => is_Some (parseToken s)) segs.
Proof.
  intros H%piece_parsed. cbv zeta. cbn [List.filter]. destruct x as [ab|]; [|by rewrite H]. destruct H as [Hne Hp].
  rewrite (proj2 (truthy_str_spec _) Hne). cbn [omap list_omap]. rewrite Hp. split; [done|]. apply Forall_singleton. by eexists.
Qed.

Lemma omap_app_list {A B} (f : A -> option B) l k : omap f (l ++ k) = omap f l ++ omap f k.
Proof. induction l as [|a l IH]; [done|]. cbn [app omap list_omap]. destruct (f a); cbn [app]; by rewrite <- IH. Qed.

(** The pieces of the text are those the parser splits it into. *)
Lemma reads_segments s xs : reads s xs -> omap parseToken (segments s) = map to_range (omap id xs) /\ rejected (segments s) = [].
Proof.
  rewrite rejected_nil.
  assert (forall p, Forall (fun c => ~ comma c) p -> 44 ∉ p /\ sanitize p = p) as Hfresh.
  { intros p Hn. rewrite Forall_forall in Hn. unfold comma in Hn. split; [intros Hin; apply (Hn _ Hin); by left|].
    apply sanitize_id. intros Hin. apply (Hn _ Hin). by right. }
  induction 1 as [p x Hn Hp|p c s x xs Hn Hp Hc Hr [IH1 IH2]]; destruct (Hfresh p Hn) as [Hc44 Hs], (piece_segments p x Hp) as [H1 H2].
  - unfold segments. by rewrite Hs, split_on_fresh.
  - assert (segments (p ++ c :: s) = List.filter truthy_str [trim p] ++ segments s) as ->.
    { unfold segments, sanitize. rewrite map_app. fold (sanitize p). rewrite Hs. cbn [map]. fold (sanitize s).
      replace (if c =? 65292 then 44 else c) with 44 by (by destruct Hc as [-> | ->]). rewrite split_on_app by done. cbn [map]. by rewrite <- List.filter_app. }
    rewrite omap_app_list, H1, IH1. split; [|by apply Forall_app_2]. cbn [omap list_omap]. by destruct x.
Qed.

Lemma reads_covers xs c : covers (map to_range (omap id xs)) c <-> denotes xs c.
Proof.
  unfold covers, denotes. rewrite Exists_exists. split.
  - intros (r & ([a b] & -> & (x & Hx & [= ->])%list_elem_of_omap)%list_elem_of_fmap & Hc). by exists a, b.
  - intros (a & b & Hx & Hc). exists (mkRange a b). split; [|done]. apply (list_elem_of_fmap_2 to_range _ (a, b)). apply list_elem_of_omap. by exists (Some (a, b)).
Qed.

(** A text of the language is accepted, with ranges that denote what it denotes. *)
Lemma reads_parsed s xs :
  reads s xs -> ok (parseHttpStatusCodeRules (Some s)) = true /\ forall c, covers (ranges (parseHttpStatusCodeRules (Some s))) c <-> denotes xs c.
Proof.
  intros Hr%reads_trim. destruct (reads_segments _ _ Hr) as [Hseg Hrej]. destruct (parse_denotation (Some s)) as (Hok & Hden & _). cbn [default] in *.
  apply rejected_nil in Hrej. pose proof (proj2 Hok Hrej) as Hacc. split; [done|]. intros c. rewrite (Hden Hacc), <- reads_covers, <- Hseg.
  unfold covers. rewrite Exists_exists. setoid_rewrite list_elem_of_omap. naive_solver.
Qed.

Lemma code_dec n : 100 <= n <= 599 -> code (dec n) n.
Proof. intros Hn. split_and!; [apply dec_nonempty|apply dec_digits; lia|apply dec_value; lia|lia..]. Qed.

Lemma token_piece r : valid_range r -> Forall (fun c => ~ comma c) (range_token r) /\ piece (range_token r) (Some (r.(start), r.(end_))).
Proof.
  intros Hr. split.
  - apply Forall_forall. intros c Hc Hcomma. revert Hc. by apply range_token_fresh; destruct Hcomma as [-> | ->].
  - pose proof (filter_nospace _ (range_token_nospace r Hr)) as Hns. fold (compact (range_token r)) in Hns. destruct Hr as [H1 H2].
    unfold range_token in *. destruct (Z.eqb_spec (start r) (end_ r)) as [<-|Hne].
    + apply piece_code. rewrite Hns. apply code_dec. lia.
    + eapply piece_range; [exact Hns|apply code_dec; lia|apply code_dec; lia|lia].
Qed.

(** A printed list of ranges is a text of the language. *)
Lemma reads_tokens rs : Forall valid_range rs -> exists xs, reads (join (js ",") (map range_token rs)) xs /\ forall c, denotes xs c <-> covers rs c.
Proof.
  intros Hv. destruct rs as [|r0 rs0].
  { exists [None]. split; [by apply reads_last; [|apply piece_blank]|]. intros c. split; [intros (a & b & [=]%list_elem_of_singleton & _)|inversion 1]. }
  exists (map (fun r => Some (r.(start), r.(end_))) (r0 :: rs0)). split.
  - revert r0 Hv. induction rs0 as [|r1 rs IH]; intros r0 [H0 Hv]%Forall_cons; destruct (token_piece r0 H0) as [Hn Hp]; [by apply reads_last|].
    change (join (js ",") (map range_token (r0 :: r1 :: rs))) with (range_token r0 ++ 44 :: join (js ",") (map range_token (r1 :: rs))).
    cbn [map]. apply reads_more; [done|done|by left|by apply IH].
  - intros c. unfold denotes, covers. rewrite Exists_exists. split.
    + intros (a & b & (r & [= -> ->] & Hr)%list_elem_of_fmap & Hc). by exists r.
    + intros (r & Hr & Hc). exists r.(start), r.(end_). split; [|done]. by apply (list_elem_of_fmap_2 (fun r => Some (start r, end_ r))).
Qed.

(** C32: the normalised form is the canonical one of what was written. For two texts of the
    language of the rules, both are accepted; the normalised text of the first belongs to
    the language again and denotes the same codes; and if the two denote the same codes
    their results are equal, down to the tokens and the normalised text. (The parser also
    accepts a piece with more than one hyphen, whose end it ignores; such a text is not in
    the language.) *)
Theorem parse_normalized_unique (s t : jsstr) (xs ys : list (option (Z * Z))) :
  reads s xs -> reads t ys ->
  ok (parseHttpStatusCodeRules (Some s)) = true
  /\ (exists zs, reads (normalized (parseHttpStatusCodeRules (Some s))) zs /\ forall n, denotes zs n <-> denotes xs n)
  /\ ((forall n, denotes xs n <-> denotes ys n) -> parseHttpStatusCodeRules (Some s) = parseHttpStatusCodeRules (Some t)).
Proof.
  intros [Hs Cs]%reads_parsed [Ht Ct]%reads_parsed. pose proof (parse_ranges_canonical_aux (Some s)) as Hcan. split; [done|]. split.
  - destruct (reads_tokens _ (proj2 Hcan)) as (zs & Hz & Hd). exists zs. rewrite (parse_accepted _ Hs) at 1. split; [exact Hz|].
    intros n. by rewrite Hd, Cs.
  - intros E. rewrite (parse_accepted _ Hs), (parse_accepted _ Ht). f_equal. apply canonical_unique; [done|apply parse_ranges_canonical_aux|].
    intros c. by rewrite Cs, Ct.
Qed.

(** Two ways to write 500 to 502. *)
Lemma sample_reads :
  reads (js "500,501-502") [Some (500, 500); Some (501, 502)] /\ reads (js "502, 500 - 501") [Some (502, 502); Some (500, 501)].
Proof.
  assert (forall d n, bool_decide (d <> []) && forallb is_digit d && (digits_value d =? n) && (100 <=? n) && (n <=? 599) = true -> code d n) as Hcode.
  { intros d n H. rewrite !andb_true_iff, bool_decide_eq_true, forallb_forall in H. destruct H as [[[[H1 H2] H3] H4] H5].
    split_and!; [done| |lia..]. apply Forall_forall. intros c Hc. by apply H2, list_elem_of_In. }
  assert (forall p, forallb (fun c => negb (c =? 44) && negb (c =? 65292)) p = true -> Forall (fun c => ~ comma c) p) as Hfree.
  { intros p H. apply Forall_forall. rewrite forallb_forall in H. intros c Hc%list_elem_of_In [-> | ->]; by specialize (H _ Hc). }
  split.
  - apply (reads_more (js "500") 44 (js "501-502")); [by apply Hfree|apply piece_code; by apply Hcode|by left|].
    apply reads_last; [by apply Hfree|]. apply (piece_range _ (js "501") (js "502")); [done|by apply Hcode|by apply Hcode|lia].
  - apply (reads_more (js "502") 44 (js " 500 - 501")); [by apply Hfree|apply piece_code; by apply Hcode|by left|].
    apply reads_last; [by apply Hfree|]. apply (piece_range _ (js "500") (js "501")); [done|by apply Hcode|by apply Hcode|lia].
Qed.

Lemma parse_normalized_unique_witness :
  parseHttpStatusCodeRules (Some (js "500,501-502")) = parseHttpStatusCodeRules (Some (js "502, 500 - 501")).
Proof.
  apply (parse_normalized_unique _ _ _ _ (proj1 sample_reads) (proj2 sample_reads)). intros n. unfold denotes.
  split; intros (a & b & H & Hn).
  - apply elem_of_cons in H as [[= -> ->]|[= -> ->]%list_elem_of_singleton].
    + exists 500, 501. split; [right; left|lia].
    + destruct (Z.eq_dec n 501) as [->|]; [exists 500, 501|exists 502, 502]; (split; [|lia]); [right; left|left].
  - apply elem_of_cons in H as [[= -> ->]|[= -> ->]%list_elem_of_singleton].
    + exists 501, 502. split; [right; left|lia].
    + destruct (Z.eq_dec n 500) as [->|]; [exists 500, 500|exists 501, 502]; (split; [|lia]); [left|right; left].
Defined.

End StatusCodeRules.
