(* ===== verification/AuthSession.v ===== *)
(** Authentication: the credential store (src/web/src/stores/auth-store.ts), the
    session logic with its refresh protocol (src/web/src/lib/auth-session.ts) and
    the cross-tab messages (src/web/src/lib/auth-session-sync.ts).

    The refresh of the access token is asynchronous: between its [await]s any
    other code of the tab may log in, log out or rotate the token.  [Sys] holds
    the store, the epoch counter and the single refresh in flight; [sys_step]
    executes one synchronous segment, either of the refresh or of other code. *)

From S2P Require Import Prelude JsValue.

Module AuthStore.

(** [AuthUser] objects are carried through as they came. *)
Definition AuthUser := val.

Record LoginSession := mkSession {
  sid : jsstr;
  current : bool;
  login_method : jsstr;
  ip : jsstr;
  user_agent : jsstr;
  created_at : num;
  last_active_at : num;
  expires_at : num
}.

Record AuthBundle := mkBundle {
  access_token : jsstr;
  token_type : jsstr;
  access_expires_at : num;
  b_user : AuthUser;
  b_session : LoginSession
}.

Inductive AuthBootstrapState := idle | checking | complete.

#[export] Instance AuthBootstrapState_eq_dec : EqDecision AuthBootstrapState.
Proof. solve_decision. Defined.

(** The data fields of [AuthState.auth]. *)
Record Auth := mkAuth {
  user : option AuthUser;
  accessToken : option jsstr;
  accessExpiresAt : option num;
  session : option LoginSession;
  pending2FAFlowToken : option jsstr;
  bootstrapState : AuthBootstrapState
}.

Definition initial : Auth := mkAuth None None None None None idle.

Definition setBundle (b : AuthBundle) (a : Auth) : Auth :=
  mkAuth (Some b.(b_user)) (Some b.(access_token)) (Some b.(access_expires_at))
    (Some b.(b_session)) None complete.

Definition setUser (u : option AuthUser) (a : Auth) : Auth :=
  mkAuth u a.(accessToken) a.(accessExpiresAt) a.(session) a.(pending2FAFlowToken) a.(bootstrapState).

Definition setPending2FAFlowToken (t : option jsstr) (a : Auth) : Auth :=
  mkAuth a.(user) a.(accessToken) a.(accessExpiresAt) a.(session) t a.(bootstrapState).

Definition setBootstrapState (bs : AuthBootstrapState) (a : Auth) : Auth :=
  mkAuth a.(user) a.(accessToken) a.(accessExpiresAt) a.(session) a.(pending2FAFlowToken) bs.

Definition reset (bs : AuthBootstrapState) (a : Auth) : Auth :=
  mkAuth None None None None None bs.

(** The credentials are all there or all absent. *)
Definition coherent (a : Auth) : Prop :=
  match a.(accessToken), a.(accessExpiresAt), a.(session) with
  | Some _, Some _, Some _ | None, None, None => True
  | _, _, _ => False
  end.

End AuthStore.

Module AuthSession.
Import AuthStore.

(** ** Type guards on response bodies *)

Definition isRecord (v : val) : bool := truthy v && typeof_object v.

Definition isAuthUser (v : val) : bool :=
  isRecord v
  && match get "id" v with VNum x => is_integer x && ngt x (num_of_Z 0) | _ => false end
  && typeof_string (get "username" v)
  && typeof_number (get "role" v).

Definition isLoginSession (v : val) : bool :=
  isRecord v
  && match get "sid" v with VStr s => truthy_str s | _ => false end
  && typeof_boolean (get "current" v)
  && typeof_string (get "login_method" v)
  && typeof_string (get "ip" v)
  && typeof_string (get "user_agent" v)
  && typeof_number (get "created_at" v)
  && typeof_number (get "last_active_at" v)
  && typeof_number (get "expires_at" v).

Definition hasValidTokenFields (v : val) : bool :=
  match get "access_token" v with VStr s => truthy_str s | _ => false end
  && match get "token_type" v with VStr s => truthy_str s | _ => false end
  && match get "access_expires_at" v with
     | VNum x => is_finite x && ngt x (num_of_Z 0)
     | _ => false
     end.

Definition isAuthBundle (v : val) : bool :=
  isRecord v && hasValidTokenFields v && isAuthUser (get "user" v) && isLoginSession (get "session" v).

Definition isAuthTokenRotation (v : val) : bool :=
  isRecord v && hasValidTokenFields v
  && match get "token_type" v with VStr s => streq s (js "Bearer") | _ => false end
  && isLoginSession (get "session" v)
  && truthy (get "current" (get "session" v)).

(** A value that passed a guard, at its TypeScript type. *)
Definition as_str (v : val) : jsstr := match v with VStr s => s | _ => [] end.
Definition as_num (v : val) : num := match v with VNum x => x | _ => S754_nan end.
Definition as_bool (v : val) : bool := match v with VBool b => b | _ => false end.

Definition as_LoginSession (v : val) : LoginSession :=
  mkSession (as_str (get "sid" v)) (as_bool (get "current" v)) (as_str (get "login_method" v))
    (as_str (get "ip" v)) (as_str (get "user_agent" v)) (as_num (get "created_at" v))
    (as_num (get "last_active_at" v)) (as_num (get "expires_at" v)).

Definition as_AuthBundle (v : val) : AuthBundle :=
  mkBundle (as_str (get "access_token" v)) (as_str (get "token_type" v))
    (as_num (get "access_expires_at" v)) (get "user" v) (as_LoginSession (get "session" v)).

(** [parseBundle] of the runtime built by [runRefresh]. *)
Definition parseBundle (v : val) : option AuthBundle :=
  if isAuthBundle v then Some (as_AuthBundle v) else None.

(** ** The module's state and the operations on it *)

Inductive SyncKind := authenticated_event | signed_out_event.

(** The store, the module variable [authEpoch], the messages posted to other
    tabs, and the [X-Auth-Session] headers of the refresh requests sent. *)
Record World := mkWorld {
  auth : Auth;
  authEpoch : Z;
  published : list (SyncKind * jsstr);
  sent : list (option jsstr)
}.

Definition initial_world : World := mkWorld AuthStore.initial 0 [] [].

Definition on_auth (f : Auth -> Auth) (w : World) : World :=
  mkWorld (f w.(auth)) w.(authEpoch) w.(published) w.(sent).

Definition bump_epoch (w : World) : World :=
  mkWorld w.(auth) (w.(authEpoch) + 1) w.(published) w.(sent).

(** [publishAuthSessionEvent] in a browser tab. *)
Definition publishAuthSessionEvent (k : SyncKind) (s : jsstr) (w : World) : World :=
  if truthy_str s then mkWorld w.(auth) w.(authEpoch) (w.(published) ++ [(k, s)]) w.(sent) else w.

Definition current_sid (w : World) : option jsstr := sid <$> w.(auth).(session).

Definition applyAuthBundle (b : AuthBundle) (synchronizeTabs : bool) (w : World) : World :=
  let previousSID := current_sid w in
  let w := on_auth (setBundle b) (bump_epoch w) in
  if synchronizeTabs && negb (bool_decide (previousSID = Some b.(b_session).(sid)))
  then publishAuthSessionEvent authenticated_event b.(b_session).(sid) w
  else w.

Inductive AuthRotationError :=
| InvalidRotationResponse | NoActiveSession | SessionMismatch.

(** [applyAuthRotation]: the exception or the new state. *)
Definition applyAuthRotation (v : val) (w : World) : AuthRotationError + World :=
  if negb (isAuthTokenRotation v) then inl InvalidRotationResponse
  else match w.(auth).(user), w.(auth).(session) with
       | Some u, Some s =>
           let vs := as_LoginSession (get "session" v) in
           if negb (streq vs.(sid) s.(sid)) then inl SessionMismatch
           else inr (applyAuthBundle
                       (mkBundle (as_str (get "access_token" v)) (as_str (get "token_type" v))
                          (as_num (get "access_expires_at" v)) u vs) false w)
       | _, _ => inl NoActiveSession
       end.

Definition clearAuthentication (synchronizeTabs : bool) (bs : AuthBootstrapState) (w : World) : World :=
  let s := current_sid w in
  let w := on_auth (reset bs) (bump_epoch w) in
  match s with
  | Some s => if synchronizeTabs then publishAuthSessionEvent signed_out_event s w else w
  | None => w
  end.

(** The [clear] of the runtime built by [runRefresh]; [None] is an omitted
    [bootstrapState], for which [clearAuthentication] defaults to [complete]. *)
Definition runtime_clear (synchronizeTabs : bool) (bs : option AuthBootstrapState) (w : World) : World :=
  if negb synchronizeTabs && bool_decide (bs = Some idle) then on_auth (reset idle) w
  else clearAuthentication synchronizeTabs (default complete bs) w.

(** ** The refresh protocol *)

(** [AuthRefreshHTTPResponse]; [status] is 0 when no response arrived. *)
Record Response := mkResponse { status : Z; data : val; error : val }.

Inductive RefreshError := Superseded | RequestFailed (e : val).

Inductive RefreshOutcome :=
| Authenticated (b : AuthBundle)
| Anonymous
| TransientError (e : RefreshError)
| OutOfSync (code : jsstr).

Definition refreshRaceDelays : list Z := [80; 200; 500].

(** Where an asynchronous [run] stands: queued behind the browser lock, waiting
    for the response of a request, waiting for a race delay before calling
    [run raceAttempt allowMismatchRetry] again, or resolved. *)
Inductive Phase :=
| Queued
| Requesting (raceAttempt : nat) (allowMismatchRetry : bool)
| Waiting (delay : Z) (raceAttempt : nat) (allowMismatchRetry : bool)
| Finished (o : RefreshOutcome).

Definition isCurrent (refreshEpoch : Z) (w : World) : bool := w.(authEpoch) =? refreshEpoch.

(** [run] up to its first [await]. *)
Definition run (refreshEpoch : Z) (raceAttempt : nat) (allow : bool) (w : World) : World * Phase :=
  if negb (isCurrent refreshEpoch w) then (w, Finished (TransientError Superseded))
  else (mkWorld w.(auth) w.(authEpoch) w.(published) (w.(sent) ++ [current_sid w]),
        Requesting raceAttempt allow).

(** [typeof responseData?.code === 'string' ? responseData.code : undefined] *)
Definition response_code (r : Response) : option jsstr :=
  if isRecord r.(data) then match get "code" r.(data) with VStr s => Some s | _ => None end
  else None.

(** The bundle of a successful response. *)
Definition response_bundle (r : Response) : option AuthBundle :=
  if isRecord r.(data)
  then match get "success" r.(data) with
       | VBool true => parseBundle (get "data" r.(data))
       | _ => None
       end
  else None.

(** [response.error ?? response.data] *)
Definition response_error (r : Response) : val :=
  match r.(error) with VUndef | VNull => r.(data) | e => e end.

(** [run] from the arrival of the response to its next [await] or its return. *)
Definition on_response (refreshEpoch : Z) (raceAttempt : nat) (allow : bool) (r : Response) (w : World)
    : World * Phase :=
  if negb (isCurrent refreshEpoch w) then (w, Finished (TransientError Superseded))
  else match response_bundle r with
  | Some b => (applyAuthBundle b false w, Finished (Authenticated b))
  | None =>
    let code := response_code r in
    if (r.(status) =? 409) && bool_decide (code = Some (js "AUTH_REFRESH_RACE")) then
      match refreshRaceDelays !! raceAttempt with
      | Some delay => (w, Waiting delay (S raceAttempt) allow)
      | None => (runtime_clear false None w, Finished (OutOfSync (js "AUTH_REFRESH_RACE")))
      end
    else if (r.(status) =? 409) && bool_decide (code = Some (js "AUTH_SESSION_MISMATCH")) then
      if allow then run refreshEpoch 0 false (runtime_clear false (Some idle) w)
      else (runtime_clear false None w, Finished (OutOfSync (js "AUTH_SESSION_MISMATCH")))
    else if r.(status) =? 401 then (runtime_clear true None w, Finished Anonymous)
    else if (r.(status) =? 0) || (500 <=? r.(status)) || (r.(status) =? 429) then
      (on_auth (setBootstrapState idle) w, Finished (TransientError (RequestFailed (response_error r))))
    else
      (runtime_clear false None w,
       Finished (OutOfSync (default (js "AUTH_INVALID_REFRESH_RESPONSE") code)))
  end.

(** ** The whole tab *)

(** [refreshPromise]: the refresh in flight and the epoch it was started in. *)
Record Flight := mkFlight { refreshEpoch : Z; phase : Phase }.

Record Sys := mkSys { world : World; flight : option Flight }.

Definition initial_sys : Sys := mkSys initial_world None.

(** The synchronous segments that can run: first those of the refresh in flight,
    then [refreshAuthentication] and the rest of the tab's code. *)
Inductive Event :=
| LockGranted
| ResponseArrived (r : Response)
| DelayElapsed
| Settled
| CallRefresh (hasLocks : bool)
| Login (b : AuthBundle) (synchronizeTabs : bool)
| Logout (synchronizeTabs : bool) (bs : AuthBootstrapState)
| Rotate (v : val)
| SetUser (u : option AuthUser)
| SetPending2FA (t : option jsstr)
| SetBootstrap (bs : AuthBootstrapState).

(** Code of the tab other than the refresh; an exception of the rotation leaves
    the state as it was. *)
Definition env_step (e : Event) (w : World) : World :=
  match e with
  | Login b sync => applyAuthBundle b sync w
  | Logout sync bs => clearAuthentication sync bs w
  | Rotate v => match applyAuthRotation v w with inr w' => w' | inl _ => w end
  | SetUser u => on_auth (setUser u) w
  | SetPending2FA t => on_auth (setPending2FAFlowToken t) w
  | SetBootstrap bs => on_auth (setBootstrapState bs) w
  | _ => w
  end.

(** One segment of the refresh; [None] when it is not waiting for that event. *)
Definition flight_step (ep : Z) (e : Event) (p : Phase) (w : World) : option (World * Phase) :=
  match e, p with
  | LockGranted, Queued => Some (run ep 0 true w)
  | ResponseArrived r, Requesting n allow => Some (on_response ep n allow r w)
  | DelayElapsed, Waiting _ n allow => Some (run ep n allow w)
  | _, _ => None
  end.

(** [refreshAuthentication]: start a refresh unless one is in flight; without
    [navigator.locks] it runs at once up to its first [await]. *)
Definition refreshAuthentication (hasLocks : bool) (s : Sys) : Sys :=
  match s.(flight) with
  | Some _ => s
  | None =>
      let ep := s.(world).(authEpoch) in
      if hasLocks then mkSys s.(world) (Some (mkFlight ep Queued))
      else let '(w, p) := run ep 0 true s.(world) in mkSys w (Some (mkFlight ep p))
  end.

Definition sys_step (s : Sys) (e : Event) : option Sys :=
  match e with
  | LockGranted | ResponseArrived _ | DelayElapsed =>
      match s.(flight) with
      | Some f =>
          match flight_step f.(refreshEpoch) e f.(phase) s.(world) with
          | Some (w, p) => Some (mkSys w (Some (mkFlight f.(refreshEpoch) p)))
          | None => None
          end
      | None => None
      end
  | Settled =>
      match s.(flight) with
      | Some f => match f.(phase) with Finished _ => Some (mkSys s.(world) None) | _ => None end
      | None => None
      end
  | CallRefresh hasLocks => Some (refreshAuthentication hasLocks s)
  | _ => Some (mkSys (env_step e s.(world)) s.(flight))
  end.

Fixpoint exec (s : Sys) (tr : list Event) : option Sys :=
  match tr with
  | [] => Some s
  | e :: tr => match sys_step s e with Some s' => exec s' tr | None => None end
  end.

(** ** Readers of the store *)

(** [currentValidAuthBundle]; [now] is [Math.floor(Date.now() / 1000)]. *)
Definition currentValidAuthBundle (now : num) (a : Auth) : option AuthBundle :=
  match a.(user), a.(accessToken), a.(accessExpiresAt), a.(session) with
  | Some u, Some t, Some x, Some s =>
      if truthy_str t && truthy_num x && negb (nle x now)
      then Some (mkBundle t (js "Bearer") x u s) else None
  | _, _, _, _ => None
  end.

Inductive BootstrapResult := Resolved (o : RefreshOutcome) | AwaitRefresh.

(** [bootstrapAuthentication] up to its call of [refreshAuthentication]. *)
Definition bootstrapAuthentication (now : num) (a : Auth) : Auth * BootstrapResult :=
  match currentValidAuthBundle now a with
  | Some b => (setBootstrapState complete a, Resolved (Authenticated b))
  | None =>
      let hasStaleSession := bool_decide (is_Some a.(user)) && bool_decide (is_Some a.(session)) in
      if bool_decide (a.(bootstrapState) = complete) && negb hasStaleSession
      then (a, Resolved Anonymous)
      else (setBootstrapState checking a, AwaitRefresh)
  end.

(** [getCommonHeaders]: the [Authorization] header, if any. *)
Definition getCommonHeaders (a : Auth) : option jsstr :=
  match a.(accessToken) with
  | Some t => if truthy_str t then Some (js "Bearer " ++ t) else None
  | None => None
  end.

Definition has_token_after (limit : num) (a : Auth) : bool :=
  match a.(accessToken), a.(accessExpiresAt) with
  | Some t, Some x => truthy_str t && truthy_num x && ngt x limit
  | _, _ => false
  end.

Inductive FreshHeaders :=
| Headers (h : option jsstr)
| RequestFailedError (e : RefreshError)
| SessionExpiredError.

(** [getFreshAuthHeaders]: [None] when it first awaits a refresh, whose outcome
    and the store at its resolution are then given to [getFreshAuthHeaders_after]. *)
Definition getFreshAuthHeaders (now : num) (a : Auth) : option FreshHeaders :=
  if has_token_after (nadd now (num_of_Z 60)) a then Some (Headers (getCommonHeaders a)) else None.

Definition getFreshAuthHeaders_after (now : num) (o : RefreshOutcome) (a : Auth) : FreshHeaders :=
  match o with
  | Authenticated _ => Headers (getCommonHeaders a)
  | _ =>
      if has_token_after now a then Headers (getCommonHeaders a)
      else match o with
           | TransientError e => RequestFailedError e
           | _ => SessionExpiredError
           end
  end.

(** ** Messages between tabs (auth-session-sync.ts) *)

(** [isAuthSessionSyncEvent] *)
Definition isAuthSessionSyncEvent (v : val) : bool :=
  truthy v && typeof_object v
  && match get "kind" v with
     | VStr k => streq k (js "authenticated") || streq k (js "signed_out")
     | _ => false
     end
  && match get "sid" v with VStr s => truthy_str s | _ => false end
  && typeof_string (get "source" v)
  && typeof_string (get "nonce" v)
  && typeof_number (get "timestamp" v).

Definition kind_name (k : SyncKind) : jsstr :=
  match k with authenticated_event => js "authenticated" | signed_out_event => js "signed_out" end.

(** The message [publishAuthSessionEvent] posts. *)
Definition sync_message (k : SyncKind) (s source nonce : jsstr) (now : num) : val :=
  VObj [(js "kind", VStr (kind_name k)); (js "sid", VStr s); (js "source", VStr source);
        (js "nonce", VStr nonce); (js "timestamp", VNum now)].

(** Whether [deliver] of [subscribeAuthSessionEvents] calls the listener. *)
Definition deliver (authSyncSource : jsstr) (now : num) (v : val) : bool :=
  isAuthSessionSyncEvent v
  && negb (streq (as_str (get "source" v)) authSyncSource)
  && nlt (nabs (nsub now (as_num (get "timestamp" v)))) (num_of_Z 60000).

(** ** Lemmas *)

Lemma publish_auth k s w : auth (publishAuthSessionEvent k s w) = auth w.
Proof. unfold publishAuthSessionEvent. by case_match. Qed.

Lemma publish_epoch k s w : authEpoch (publishAuthSessionEvent k s w) = authEpoch w.
Proof. unfold publishAuthSessionEvent. by case_match. Qed.

Lemma publish_sent k s w : sent (publishAuthSessionEvent k s w) = sent w.
Proof. unfold publishAuthSessionEvent. by case_match. Qed.

Lemma applyAuthBundle_auth b sync w : auth (applyAuthBundle b sync w) = setBundle b (auth w).
Proof. unfold applyAuthBundle. case_match; by rewrite ?publish_auth. Qed.

Lemma applyAuthBundle_epoch b sync w : authEpoch (applyAuthBundle b sync w) = authEpoch w + 1.
Proof. unfold applyAuthBundle. case_match; by rewrite ?publish_epoch. Qed.

Lemma applyAuthBundle_sent b sync w : sent (applyAuthBundle b sync w) = sent w.
Proof. unfold applyAuthBundle. case_match; by rewrite ?publish_sent. Qed.

Lemma clearAuthentication_auth sync bs w : auth (clearAuthentication sync bs w) = reset bs (auth w).
Proof. unfold clearAuthentication. repeat case_match; by rewrite ?publish_auth. Qed.

Lemma clearAuthentication_epoch sync bs w : authEpoch (clearAuthentication sync bs w) = authEpoch w + 1.
Proof. unfold clearAuthentication. repeat case_match; by rewrite ?publish_epoch. Qed.

Lemma clearAuthentication_sent sync bs w : sent (clearAuthentication sync bs w) = sent w.
Proof. unfold clearAuthentication. repeat case_match; by rewrite ?publish_sent. Qed.

Lemma runtime_clear_auth sync bs w :
  exists bs', auth (runtime_clear sync bs w) = reset bs' (auth w)
              /\ bs' = default complete bs.
Proof.
  unfold runtime_clear. case_match eqn:E.
  - exists idle. split; [done|]. apply andb_true_iff in E as [_ E%bool_decide_eq_true]. by subst.
  - eexists. by rewrite clearAuthentication_auth.
Qed.

Lemma runtime_clear_sent sync bs w : sent (runtime_clear sync bs w) = sent w.
Proof. unfold runtime_clear. case_match; [done|]. apply clearAuthentication_sent. Qed.

Create Rewrite HintDb authrw.
#[export] Hint Rewrite publish_auth publish_epoch publish_sent applyAuthBundle_auth applyAuthBundle_epoch
  applyAuthBundle_sent clearAuthentication_auth clearAuthentication_epoch clearAuthentication_sent
  runtime_clear_sent : authrw.

(** Other code never turns the epoch back and never sends refresh requests. *)
Lemma env_step_epoch e w : authEpoch w <= authEpoch (env_step e w).
Proof.
  destruct e; simpl; autorewrite with authrw; try lia.
  unfold applyAuthRotation. repeat case_match; simplify_eq; autorewrite with authrw; lia.
Qed.

Lemma env_step_sent e w : sent (env_step e w) = sent w.
Proof.
  destruct e; simpl; autorewrite with authrw; try done.
  unfold applyAuthRotation. repeat case_match; simplify_eq; by autorewrite with authrw.
Qed.

(** ** A refresh that lost the race leaves no trace *)

Definition is_flight_event (e : Event) : bool :=
  match e with LockGranted | ResponseArrived _ | DelayElapsed => true | _ => false end.

Definition is_settled (e : Event) : bool := match e with Settled => true | _ => false end.

(** Only the other code of the tab, in the order it ran. *)
Definition exec_env (tr : list Event) (w : World) : World := fold_left (fun w e => env_step e w) tr w.

Lemma run_stale ep n allow w :
  ep < authEpoch w -> run ep n allow w = (w, Finished (TransientError Superseded)).
Proof. intros. unfold run, isCurrent. by destruct (Z.eqb_spec (authEpoch w) ep); [lia|]. Qed.

Lemma on_response_stale ep n allow r w :
  ep < authEpoch w -> on_response ep n allow r w = (w, Finished (TransientError Superseded)).
Proof. intros. unfold on_response, isCurrent. by destruct (Z.eqb_spec (authEpoch w) ep); [lia|]. Qed.

Lemma flight_step_stale ep e p w w' p' :
  ep < authEpoch w -> flight_step ep e p w = Some (w', p') ->
  w' = w /\ p' = Finished (TransientError Superseded).
Proof.
  intros Hlt. destruct e, p; simpl; try done;
    rewrite ?run_stale, ?on_response_stale by done; naive_solver.
Qed.

(** A segment that does not settle the refresh keeps it in flight. *)
Lemma sys_step_flight s e s' f :
  s.(flight) = Some f -> is_settled e = false -> sys_step s e = Some s' ->
  exists p, s'.(flight) = Some (mkFlight f.(refreshEpoch) p)
            /\ (is_flight_event e = false -> s'.(world) = env_step e s.(world) /\ p = f.(phase))
            /\ (is_flight_event e = true ->
                flight_step f.(refreshEpoch) e f.(phase) s.(world) = Some (s'.(world), p)).
Proof.
  intros Hf He Hs. destruct s as [w fl], f as [ep p]; simpl in *; subst.
  destruct e; simpl in *; try done; simplify_eq; simpl;
    try (eexists; split_and!; [done|by intros|done]);
    repeat case_match; simplify_eq; (eexists; split_and!; [done|done|by intros]).
Qed.

(** C1: once other code of the tab has logged in, logged out or rotated the token
    (the epoch has moved on), the refresh that was already in flight can no longer
    write the store, post to other tabs or send a request: whatever responses and
    timers still arrive, the state is the one the other code alone produces. *)
Theorem stale_refresh_is_inert (s s' : Sys) (f : Flight) (tr : list Event) :
  s.(flight) = Some f ->
  f.(refreshEpoch) < authEpoch s.(world) ->
  forallb (fun e => negb (is_settled e)) tr = true ->
  exec s tr = Some s' ->
  s'.(world) = exec_env tr s.(world).
Proof.
  revert s f. induction tr as [|e tr IH]; intros s f Hf Hlt Htr Hex; simpl in *; [naive_solver|].
  apply andb_true_iff in Htr as [He Htr]. apply negb_true_iff in He.
  destruct (sys_step s e) as [s1|] eqn:E; [|done].
  destruct (sys_step_flight _ _ _ _ Hf He E) as (p & Hf1 & Henv & Hfl).
  destruct (is_flight_event e) eqn:Ee.
  - destruct (flight_step_stale _ _ _ _ _ _ Hlt (Hfl eq_refl)) as [Hw _].
    assert (env_step e (world s) = world s) as -> by by destruct e.
    rewrite <- Hw. eapply IH; [done|simpl; by rewrite Hw|done|done].
  - destruct (Henv eq_refl) as [Hw _]. rewrite <- Hw. eapply IH; [done| |done|done].
    simpl. rewrite Hw. pose proof (env_step_epoch e (world s)). lia.
Qed.

(** ** Termination of the refresh *)

(** Segments the refresh can still execute, and requests it can still send. *)
Definition segments_left (p : Phase) : Z :=
  match p with
  | Queued => 15
  | Requesting n allow => 2 * (3 - Z.of_nat n) + (if allow then 8 else 1)
  | Waiting _ n allow => 2 * (3 - Z.of_nat n) + (if allow then 9 else 2)
  | Finished _ => 0
  end.

Definition requests_left (p : Phase) : Z :=
  match p with
  | Queued => 8
  | Requesting n allow => 3 - Z.of_nat n + (if allow then 4 else 0)
  | Waiting _ n allow => 4 - Z.of_nat n + (if allow then 4 else 0)
  | Finished _ => 0
  end.

(** [raceAttempt] never runs past the delays. *)
Definition phase_ok (p : Phase) : Prop :=
  match p with Requesting n _ | Waiting _ n _ => (n <= 3)%nat | _ => True end.

Definition requests (w : World) : Z := Z.of_nat (length (sent w)).

Lemma run_bounds ep n allow w w' p' :
  (n <= 3)%nat -> run ep n allow w = (w', p') ->
  phase_ok p' /\ segments_left p' <= segments_left (Requesting n allow)
  /\ requests w' + requests_left p' <= requests w + 1 + requests_left (Requesting n allow).
Proof.
  intros Hn. unfold run. case_match; intros [= <- <-]; simpl.
  - destruct allow; lia.
  - unfold requests; simpl. rewrite length_app; simpl. lia.
Qed.

Lemma refreshRaceDelays_lookup n d : refreshRaceDelays !! n = Some d -> (n < 3)%nat.
Proof. intros H%lookup_lt_Some. done. Qed.

Lemma on_response_bounds ep n allow r w w' p' :
  (n <= 3)%nat -> on_response ep n allow r w = (w', p') ->
  phase_ok p' /\ segments_left p' < segments_left (Requesting n allow)
  /\ requests w' + requests_left p' <= requests w + requests_left (Requesting n allow).
Proof.
  intros Hn Hr. unfold on_response in Hr.
  repeat case_match; simplify_eq; simpl;
    try (unfold requests; autorewrite with authrw; try destruct allow; simpl; lia).
  - match goal with H : refreshRaceDelays !! _ = Some _ |- _ => apply refreshRaceDelays_lookup in H end.
    destruct allow; lia.
  - apply run_bounds in Hr as (? & ? & Hq); [|lia]. split; [done|]. simpl in *.
    unfold requests in *. autorewrite with authrw in Hq. lia.
Qed.

Lemma flight_step_bounds ep e p w w' p' :
  phase_ok p -> flight_step ep e p w = Some (w', p') ->
  phase_ok p' /\ segments_left p' < segments_left p
  /\ requests w' + requests_left p' <= requests w + requests_left p.
Proof.
  intros Hp. destruct e, p; simpl in *; try done; intros [= H].
  - apply run_bounds in H as (? & ? & ?); simpl in *; [split_and!; [done|lia|lia]|lia].
  - by apply on_response_bounds in H.
  - apply run_bounds in H as (? & ? & ?); simpl in *; [|lia].
    split_and!; [done|destruct allowMismatchRetry; lia..].
Qed.
Lemma flight_bounds ep s' tr s p :
  s.(flight) = Some (mkFlight ep p) -> phase_ok p ->
  forallb (fun e => negb (is_settled e)) tr = true -> exec s tr = Some s' ->
  Z.of_nat (length (List.filter is_flight_event tr)) <= segments_left p
  /\ requests s'.(world) <= requests s.(world) + requests_left p
  /\ exists p', s'.(flight) = Some (mkFlight ep p').
Proof.
  revert s p. induction tr as [|e tr IH]; intros s p Hf Hp Htr Hex; simpl in *.
  { simplify_eq. split_and!; [destruct p; simpl in *; repeat case_match; lia..|by exists p]. }
  apply andb_true_iff in Htr as [He Htr]. apply negb_true_iff in He.
  destruct (sys_step s e) as [s1|] eqn:E; [|done].
  destruct (sys_step_flight _ _ _ _ Hf He E) as (p1 & Hf1 & Henv & Hfl); simpl in *.
  destruct (is_flight_event e) eqn:Ee; simpl.
  - destruct (flight_step_bounds _ _ _ _ _ _ Hp (Hfl eq_refl)) as (Hp1 & Hs1 & Hr1).
    destruct (IH _ _ Hf1 Hp1 Htr Hex) as (H1 & H2 & H3). split_and!; [lia|lia|done].
  - destruct (Henv eq_refl) as [Hw ->].
    destruct (IH _ _ Hf1 Hp Htr Hex) as (H1 & H2 & H3). split_and!; [done| |done].
    unfold requests in *. by rewrite Hw, env_step_sent in H2.
Qed.

(** C35: a refresh resolves: between its start and its settlement it runs at most 15
    segments of its own (lock grant, responses, race delays) and sends at most 8
    requests, however the server answers and whatever else the tab does; and until
    it has resolved it is waiting for an event that advances it. *)
Theorem refresh_terminates (s s' : Sys) (ep : Z) (tr : list Event) :
  s.(flight) = Some (mkFlight ep Queued) ->
  forallb (fun e => negb (is_settled e)) tr = true ->
  exec s tr = Some s' ->
  Z.of_nat (length (List.filter is_flight_event tr)) <= 15
  /\ requests s'.(world) <= requests s.(world) + 8
  /\ exists p, s'.(flight) = Some (mkFlight ep p)
       /\ ((exists o, p = Finished o)
           \/ exists e s'', is_flight_event e = true /\ sys_step s' e = Some s'').
Proof.
  intros Hf Htr Hex. destruct (flight_bounds ep s' tr s Queued Hf I Htr Hex) as (H1 & H2 & p & Hp).
  split_and!; [done|done|]. exists p. split; [done|].
  destruct p as [|n a|d n a|o]; [right|right|right|by left; exists o].
  - exists LockGranted. unfold sys_step. rewrite Hp. simpl. destruct (run ep 0 true _). by eexists.
  - exists (ResponseArrived (mkResponse 0 VUndef VUndef)). unfold sys_step. rewrite Hp. simpl.
    destruct (on_response _ _ _ _ _). by eexists.
  - exists DelayElapsed. unfold sys_step. rewrite Hp. simpl. destruct (run _ _ _ _). by eexists.
Qed.

(** ** Concrete runs *)

Definition demo_user : val :=
  VObj [(js "id", VNum (num_of_Z 7)); (js "username", VStr (js "ada")); (js "role", VNum (num_of_Z 1))].
Definition demo_session (s : string) : val :=
  VObj [(js "sid", VStr (js s)); (js "current", VBool true); (js "login_method", VStr (js "password"));
        (js "ip", VStr (js "10.0.0.1")); (js "user_agent", VStr (js "ua"));
        (js "created_at", VNum (num_of_Z 1)); (js "last_active_at", VNum (num_of_Z 2));
        (js "expires_at", VNum (num_of_Z 3))].
Definition demo_bundle (s : string) : val :=
  VObj [(js "access_token", VStr (js "tok")); (js "token_type", VStr (js "Bearer"));
        (js "access_expires_at", VNum (num_of_Z 1000)); (js "user", demo_user);
        (js "session", demo_session s)].
Definition demo_success (s : string) : Response :=
  mkResponse 200 (VObj [(js "success", VBool true); (js "data", demo_bundle s)]) VUndef.
Definition demo_conflict (code : string) : Response :=
  mkResponse 409 (VObj [(js "code", VStr (js code))]) VUndef.

(** The longest refresh: three races, a mismatch, three more races, a fourth. *)
Definition demo_race := ResponseArrived (demo_conflict "AUTH_REFRESH_RACE").
Definition longest_refresh : list Event :=
  [LockGranted; demo_race; DelayElapsed; demo_race; DelayElapsed; demo_race; DelayElapsed;
   ResponseArrived (demo_conflict "AUTH_SESSION_MISMATCH");
   demo_race; DelayElapsed; demo_race; DelayElapsed; demo_race; DelayElapsed; demo_race].

(** The bounds are reached. *)
Example longest_refresh_run :
  (fun s => (length (sent (world s)), flight s)) <$> exec (mkSys initial_world (Some (mkFlight 0 Queued))) longest_refresh
  = Some (8%nat, Some (mkFlight 0 (Finished (OutOfSync (js "AUTH_REFRESH_RACE"))))).
Proof. vm_compute. reflexivity. Qed.

Lemma refresh_terminates_witness :
  exists s', exec (mkSys initial_world (Some (mkFlight 0 Queued))) longest_refresh = Some s'
  /\ requests (world s') <= 8.
Proof.
  eexists. split; [vm_compute; reflexivity|].
  refine (proj1 (proj2 (refresh_terminates (mkSys initial_world (Some (mkFlight 0 Queued))) _ 0
    longest_refresh eq_refl eq_refl _))).
  vm_compute. reflexivity.
Defined.

(** A login while a response is on its way. *)
Definition late_response : list Event := [ResponseArrived (demo_success "old"); SetBootstrap complete].
Definition sys_after_login : Sys :=
  mkSys (applyAuthBundle (as_AuthBundle (demo_bundle "new")) true initial_world)
        (Some (mkFlight 0 (Requesting 0 true))).

Lemma stale_refresh_is_inert_witness :
  exists s', exec sys_after_login late_response = Some s'
             /\ world s' = exec_env late_response (world sys_after_login).
Proof.
  eexists. split; [vm_compute; reflexivity|].
  refine (stale_refresh_is_inert sys_after_login _ (mkFlight 0 (Requesting 0 true)) late_response
            eq_refl _ eq_refl _); vm_compute; reflexivity.
Defined.

(** ** What the outcome of a refresh says about the store *)

(** The store without credentials. *)
Definition signed_out (bs : AuthBootstrapState) (a : Auth) : Prop :=
  a = mkAuth None None None None None bs.

Definition is_superseded (o : RefreshOutcome) : bool :=
  match o with TransientError Superseded => true | _ => false end.

(** What the segment that resolves the refresh has done to the state [w]. *)
Definition outcome_post (o : RefreshOutcome) (w w' : World) : Prop :=
  match o with
  | Authenticated b => auth w' = setBundle b (auth w) /\ published w' = published w
  | Anonymous =>
      signed_out complete (auth w')
      /\ published w' = published w ++
           match current_sid w with
           | Some s => if truthy_str s then [(signed_out_event, s)] else []
           | None => []
           end
  | TransientError Superseded => w' = w
  | TransientError (RequestFailed _) =>
      auth w' = setBootstrapState idle (auth w) /\ published w' = published w
  | OutOfSync _ => signed_out complete (auth w') /\ published w' = published w
  end.

Lemma run_not_finished ep n allow w w' o :
  run ep n allow w = (w', Finished o) -> o = TransientError Superseded /\ w' = w.
Proof. unfold run. case_match; naive_solver. Qed.

Lemma runtime_clear_quiet w :
  signed_out complete (auth (runtime_clear false None w))
  /\ published (runtime_clear false None w) = published w.
Proof.
  unfold runtime_clear, clearAuthentication. simpl. by destruct (current_sid w).
Qed.

(** the outcome tells the truth about the store: [authenticated] means the
    received bundle is stored, [anonymous] and [out_of_sync] mean no credential is
    left (only [anonymous] signs the other tabs out, and only if there was a
    session), a transient failure keeps every credential, and a superseded refresh
    changed nothing at all. *)
Theorem refresh_outcome_sound (ep : Z) (n : nat) (allow : bool) (r : Response) (w w' : World)
    (o : RefreshOutcome) :
  on_response ep n allow r w = (w', Finished o) -> outcome_post o w w'.
Proof.
  unfold on_response. intros H.
  repeat case_match; simplify_eq; simpl; try done;
    try apply runtime_clear_quiet; try (split; [by autorewrite with authrw|done]).
  - unfold run in H. assert (isCurrent ep (runtime_clear false (Some idle) w) = true) as E.
    { unfold runtime_clear, isCurrent in *. simpl. by apply negb_false_iff. }
    rewrite E in H. done.
  - unfold runtime_clear. simpl. rewrite clearAuthentication_auth. split; [done|].
    unfold clearAuthentication, publishAuthSessionEvent.
    destruct (current_sid w) as [sd|]; [|by rewrite app_nil_r].
    destruct (truthy_str sd); [done|by rewrite app_nil_r].
Qed.

Lemma refresh_outcome_sound_witness :
  outcome_post Anonymous (applyAuthBundle (as_AuthBundle (demo_bundle "a")) false initial_world)
    (fst (on_response 1 0 true (mkResponse 401 VNull VUndef)
       (applyAuthBundle (as_AuthBundle (demo_bundle "a")) false initial_world))).
Proof. eapply (refresh_outcome_sound 1 0 true (mkResponse 401 VNull VUndef)). reflexivity. Defined.

(** ** Coherence of the credentials *)

Lemma reset_coherent bs a : coherent (reset bs a).
Proof. done. Qed.

Lemma env_step_coherent e w : coherent (auth w) -> coherent (auth (env_step e w)).
Proof.
  intros H. destruct e; simpl; autorewrite with authrw; try done.
  unfold applyAuthRotation. repeat case_match; simplify_eq; by autorewrite with authrw.
Qed.

Lemma run_auth ep n allow w : auth (fst (run ep n allow w)) = auth w.
Proof. unfold run. by case_match. Qed.

Lemma on_response_coherent ep n allow r w :
  coherent (auth w) -> coherent (auth (fst (on_response ep n allow r w))).
Proof.
  intros H. unfold on_response.
  repeat case_match; simpl; rewrite ?run_auth, ?applyAuthBundle_auth; try done;
    match goal with |- context [runtime_clear ?x ?y ?z] =>
      by destruct (runtime_clear_auth x y z) as (? & -> & _) end.
Qed.

Lemma sys_step_coherent s e s' :
  coherent (auth s.(world)) -> sys_step s e = Some s' -> coherent (auth s'.(world)).
Proof.
  intros Hc Hs. destruct s as [w fl], e; simpl in *; simplify_eq; simpl;
    try (by apply (env_step_coherent (Login b synchronizeTabs)));
    try (by apply (env_step_coherent (Logout synchronizeTabs bs)));
    try (by apply (env_step_coherent (Rotate v)));
    try (destruct fl as [[ep p]|]; [|done]; destruct p; simpl in *; try done);
    try (match type of Hs with context [run ?a ?b ?c ?d] =>
           pose proof (run_auth a b c d); destruct (run a b c d); naive_solver congruence end).
  - pose proof (on_response_coherent ep raceAttempt allowMismatchRetry r w Hc).
    destruct (on_response _ _ _ _ _). by simplify_eq.
  - by simplify_eq.
  - unfold refreshAuthentication. simpl. destruct fl; [done|]. destruct hasLocks; [done|].
    pose proof (run_auth (authEpoch w) 0 true w). destruct (run _ _ _ _). simpl in *. congruence.
Qed.

(** C33: in every state the tab can reach, the access token, its expiry and the
    session are stored together or not at all. *)
Theorem credentials_coherent (tr : list Event) (s : Sys) :
  exec initial_sys tr = Some s -> coherent (auth s.(world)).
Proof.
  assert (coherent (auth (world initial_sys))) as H by done. revert H.
  generalize initial_sys. induction tr as [|e tr IH]; intros s0 H0 H; simpl in *; [naive_solver|].
  destruct (sys_step s0 e) as [s1|] eqn:E; [|done]. eauto using sys_step_coherent.
Qed.

Lemma credentials_coherent_witness :
  exists s, exec initial_sys [CallRefresh false; ResponseArrived (demo_success "s1"); Settled;
                              SetUser None; CallRefresh true] = Some s /\ coherent (auth (world s)).
Proof.
  eexists. split; [vm_compute; reflexivity|].
  eapply (credentials_coherent [CallRefresh false; ResponseArrived (demo_success "s1"); Settled;
                              SetUser None; CallRefresh true]). vm_compute. reflexivity.
Defined.

(** ** Rotation *)

(** a token rotation is applied only to the session it was issued for: it
    succeeds exactly for a well-formed [Bearer] rotation of the current session of a
    signed-in user, and then keeps the user and the session id, replaces the token
    and its expiry, supersedes refreshes in flight and tells the other tabs nothing;
    in every other case it throws. *)
Theorem rotation_spec (v : val) (w : World) :
  (forall w', applyAuthRotation v w = inr w' ->
     isAuthTokenRotation v = true
     /\ current_sid w = Some (as_str (get "sid" (get "session" v)))
     /\ current_sid w' = current_sid w
     /\ user (auth w') = user (auth w)
     /\ accessToken (auth w') = Some (as_str (get "access_token" v))
     /\ accessExpiresAt (auth w') = Some (as_num (get "access_expires_at" v))
     /\ authEpoch w' = authEpoch w + 1
     /\ published w' = published w)
  /\ (forall e, applyAuthRotation v w = inl e ->
       isAuthTokenRotation v = false \/ user (auth w) = None \/ session (auth w) = None
       \/ current_sid w <> Some (as_str (get "sid" (get "session" v)))).
Proof.
  unfold applyAuthRotation, current_sid. split.
  - intros w' H. repeat case_match; simplify_eq; simpl.
    repeat match goal with H : negb _ = false |- _ => apply negb_false_iff in H end.
    match goal with H : streq _ _ = true |- _ => apply streq_true in H; simpl in H; rewrite H end.
    by split_and!.
  - intros e H. repeat case_match; simplify_eq.
    + left. by apply negb_true_iff.
    + right; right; right. simpl. intros [= E].
      match goal with H : negb (streq _ _) = true |- _ =>
        apply negb_true_iff, streq_false in H; simpl in H; congruence end.
    + tauto.
    + tauto.
Qed.

(** ** Bootstrapping *)

(** Bootstrapping answers without a request exactly when the store decides:
    with an unexpired token it returns the stored credentials and marks the
    bootstrap complete; otherwise a completed bootstrap without a stale session is
    anonymous, and in all remaining cases a refresh is awaited in state [checking].
    The credentials themselves are never touched. *)
Theorem bootstrap_spec (now : num) (a : Auth) :
  let '(a', r) := bootstrapAuthentication now a in
  a' = setBootstrapState (bootstrapState a') a
  /\ match r with
     | Resolved (Authenticated b) =>
         bootstrapState a' = complete
         /\ user a = Some (b_user b) /\ session a = Some (b_session b)
         /\ accessToken a = Some (access_token b) /\ accessExpiresAt a = Some (access_expires_at b)
         /\ access_token b <> [] /\ nle (access_expires_at b) now = false
     | Resolved Anonymous =>
         bootstrapState a = complete /\ a' = a /\ (user a = None \/ session a = None)
     | Resolved _ => False
     | AwaitRefresh =>
         bootstrapState a' = checking
         /\ currentValidAuthBundle now a = None
         /\ (bootstrapState a <> complete \/ (is_Some (user a) /\ is_Some (session a)))
     end.
Proof.
  unfold bootstrapAuthentication.
  destruct (currentValidAuthBundle now a) as [b|] eqn:E; simpl.
  - split; [by destruct a|]. unfold currentValidAuthBundle in E. repeat case_match; simplify_eq; simpl.
    match goal with H : _ && _ && _ = true |- _ =>
      apply andb_true_iff in H as [[Ht Hx]%andb_true_iff Hn%negb_true_iff] end.
    split_and!; try done. by apply truthy_str_spec.
  - destruct (bool_decide (bootstrapState a = complete) && _) eqn:Ec; simpl; (split; [by destruct a|]).
    + apply andb_true_iff in Ec as [Ec%bool_decide_eq_true Hs%negb_true_iff].
      split_and!; [done|done|]. apply andb_false_iff in Hs as [Hs|Hs];
        apply bool_decide_eq_false in Hs; [left|right]; by apply eq_None_not_Some.
    + split_and!; [done|done|]. apply andb_false_iff in Ec as [Ec|Ec].
      * left. by apply bool_decide_eq_false in Ec.
      * right. apply negb_false_iff, andb_true_iff in Ec as [H1 H2].
        by split; eapply bool_decide_eq_true.
Qed.

(** ** Messages between tabs *)

(** A message that [publishAuthSessionEvent] posts is well formed, is ignored by
    the tab that sent it, and reaches the listener of another tab exactly when the
    clocks differ by less than a minute. *)
Theorem sync_message_delivery (k : SyncKind) (s source nonce receiver : jsstr) (sentAt now : num) :
  truthy_str s = true ->
  deliver receiver now (sync_message k s source nonce sentAt)
  = negb (streq source receiver) && nlt (nabs (nsub now sentAt)) (num_of_Z 60000).
Proof.
  intros Hs. unfold deliver.
  assert (isAuthSessionSyncEvent (sync_message k s source nonce sentAt) = true) as ->; [|done].
  unfold isAuthSessionSyncEvent.
  change (get "sid" (sync_message k s source nonce sentAt)) with (VStr s).
  cbv iota. rewrite Hs. by destruct k.
Qed.

Lemma sync_message_delivery_witness :
  deliver (js "tab2") (num_of_Z 1059) (sync_message signed_out_event (js "s1") (js "tab1") (js "n") (num_of_Z 1000)) = true.
Proof.
  rewrite (sync_message_delivery signed_out_event (js "s1") (js "tab1") (js "n") (js "tab2")) by reflexivity.
  reflexivity.
Defined.

End AuthSession.
