(* ===== verification/AuthRefinement.v ===== *)
(** The session as a component promises it: an abstract machine whose state is one
    credential cell, the profile of the user and the announcements to other tabs, and
    the proofs that the tab of [AuthSession] (store, epoch, refresh segments, browser
    lock) implements it and that a refresh in flight always resolves. *)

From S2P Require Import Prelude JsValue AuthSession.
Import AuthStore AuthSession.

Module AuthRefinement.

(** ** The specification *)

(** Token, expiry and session: one value, held or not. *)
Record Credentials := mkCredentials { c_token : jsstr; c_expiry : num; c_session : LoginSession }.

Record Abs := mkAbs {
  held : option Credentials;
  profile : option AuthUser;
  announced : list (SyncKind * jsstr)
}.

Definition nobody : Abs := mkAbs None None [].

Inductive Label :=
| Silent
| LoggedIn (b : AuthBundle) (tell : bool)
| LoggedOut (tell : bool)
| Rotated (b : AuthBundle)
| Refreshed (b : AuthBundle)
| Expired
| Desynchronised
| Profile (u : option AuthUser).

Definition held_sid (a : Abs) : option jsstr := (fun c => sid (c_session c)) <$> held a.

(** What is told to the other tabs about a session; an empty identifier is never sent. *)
Definition tell (k : SyncKind) (s : option jsstr) : list (SyncKind * jsstr) :=
  match s with Some s => if truthy_str s then [(k, s)] else [] | None => [] end.

Definition adopt (b : AuthBundle) (news : list (SyncKind * jsstr)) (a : Abs) : Abs :=
  mkAbs (Some (mkCredentials b.(access_token) b.(access_expires_at) b.(b_session))) (Some b.(b_user)) (announced a ++ news).
Definition release (news : list (SyncKind * jsstr)) (a : Abs) : Abs := mkAbs None None (announced a ++ news).

(** A login announces a session that was not held; only an own logout and an expiry announce
    that the held session ended; a rotation renews the held session for the same user;
    everything a refresh does happens in one step. *)
Inductive abs_step : Label -> Abs -> Abs -> Prop :=
| abs_silent a : abs_step Silent a a
| abs_login b shout a :
    abs_step (LoggedIn b shout) a
      (adopt b (if shout && negb (bool_decide (held_sid a = Some b.(b_session).(sid)))
                then tell authenticated_event (Some b.(b_session).(sid)) else []) a)
| abs_logout shout a :
    abs_step (LoggedOut shout) a (release (if shout then tell signed_out_event (held_sid a) else []) a)
| abs_rotate b a :
    held_sid a = Some b.(b_session).(sid) -> profile a = Some b.(b_user) -> abs_step (Rotated b) a (adopt b [] a)
| abs_refresh b a : abs_step (Refreshed b) a (adopt b [] a)
| abs_expire a : abs_step Expired a (release (tell signed_out_event (held_sid a)) a)
| abs_desync a : abs_step Desynchronised a (release [] a)
| abs_profile u a : abs_step (Profile u) a (mkAbs (held a) u (announced a)).

Inductive abs_run : list Label -> Abs -> Abs -> Prop :=
| abs_done a : abs_run [] a a
| abs_more l ls a a' a'' : abs_step l a a' -> abs_run ls a' a'' -> abs_run (l :: ls) a a''.

(** The labels an event of the tab may show. *)
Definition shows (e : Event) (l : Label) : Prop :=
  match e with
  | Login b shout => l = LoggedIn b shout
  | Logout shout _ => l = LoggedOut shout
  | Rotate v => l = Silent \/ (isAuthTokenRotation v = true /\ exists b, l = Rotated b)
  | SetUser u => l = Profile u
  | ResponseArrived r =>
      l = Silent \/ l = Desynchronised \/ (l = Expired /\ status r = 401)
      \/ exists b, response_bundle r = Some b /\ l = Refreshed b
  | _ => l = Silent
  end.

(** ** The abstraction *)

Definition credentials_of (a : Auth) : option Credentials :=
  match a.(accessToken), a.(accessExpiresAt), a.(session) with
  | Some t, Some x, Some s => Some (mkCredentials t x s)
  | _, _, _ => None
  end.

Definition abstraction (w : World) : Abs := mkAbs (credentials_of (auth w)) (user (auth w)) (published w).

Lemma abstraction_sid w : coherent (auth w) -> held_sid (abstraction w) = current_sid w.
Proof.
  unfold held_sid, abstraction, credentials_of, current_sid, coherent. cbn [held].
  by destruct (accessToken (auth w)), (accessExpiresAt (auth w)), (session (auth w)).
Qed.

Lemma published_bundle b shout w :
  published (applyAuthBundle b shout w)
  = published w ++ (if shout && negb (bool_decide (current_sid w = Some (sid (b_session b))))
                    then tell authenticated_event (Some (sid (b_session b))) else []).
Proof.
  unfold applyAuthBundle, publishAuthSessionEvent, tell. destruct (shout && _); [|by rewrite app_nil_r].
  destruct (truthy_str _); [done|by rewrite app_nil_r].
Qed.

Lemma published_clear shout bs w :
  published (clearAuthentication shout bs w)
  = published w ++ (if shout then tell signed_out_event (current_sid w) else []).
Proof.
  unfold clearAuthentication, publishAuthSessionEvent, tell.
  destruct (current_sid w) as [s|], shout; rewrite ?app_nil_r; try done.
  destruct (truthy_str s); [done|by rewrite app_nil_r].
Qed.

Lemma abstraction_bundle b shout w :
  coherent (auth w) ->
  abstraction (applyAuthBundle b shout w)
  = adopt b (if shout && negb (bool_decide (held_sid (abstraction w) = Some (sid (b_session b))))
             then tell authenticated_event (Some (sid (b_session b))) else []) (abstraction w).
Proof.
  intros Hc. rewrite abstraction_sid by done. unfold abstraction. by rewrite applyAuthBundle_auth, published_bundle.
Qed.

Lemma abstraction_clear shout bs w :
  coherent (auth w) ->
  abstraction (clearAuthentication shout bs w)
  = release (if shout then tell signed_out_event (held_sid (abstraction w)) else []) (abstraction w).
Proof.
  intros Hc. rewrite abstraction_sid by done. unfold abstraction. by rewrite clearAuthentication_auth, published_clear.
Qed.

(** A quiet adoption or a quiet release. *)
Lemma abstraction_quiet_bundle b w : coherent (auth w) -> abstraction (applyAuthBundle b false w) = adopt b [] (abstraction w).
Proof. intros Hc. by rewrite abstraction_bundle. Qed.

Lemma abstraction_quiet_clear bs w : coherent (auth w) -> abstraction (runtime_clear false bs w) = release [] (abstraction w).
Proof.
  intros Hc. unfold runtime_clear. cbn [negb andb]. case_bool_decide.
  - unfold abstraction, release, on_auth. cbn. by rewrite app_nil_r.
  - by rewrite abstraction_clear.
Qed.

Lemma abstraction_run ep n allow w : abstraction (run ep n allow w).1 = abstraction w.
Proof. unfold run. by case_match. Qed.

(** ** Simulation *)

Lemma silent_sim w w' : abstraction w' = abstraction w -> abs_step Silent (abstraction w) (abstraction w').
Proof. intros ->. constructor. Qed.

Lemma desync_sim w w' : abstraction w' = release [] (abstraction w) -> abs_step Desynchronised (abstraction w) (abstraction w').
Proof. intros ->. constructor. Qed.

Lemma on_response_sim ep n allow r w :
  coherent (auth w) ->
  exists l, shows (ResponseArrived r) l /\ abs_step l (abstraction w) (abstraction (on_response ep n allow r w).1).
Proof.
  intros Hc. unfold on_response. destruct (negb (isCurrent ep w)); [exists Silent; split; [by left|by apply silent_sim]|].
  destruct (response_bundle r) as [b|] eqn:Eb.
  { exists (Refreshed b). cbn [shows fst]. split; [right; right; right; eauto|].
    rewrite abstraction_quiet_bundle by done. constructor. }
  assert (forall bs, exists l, shows (ResponseArrived r) l /\ abs_step l (abstraction w) (abstraction (runtime_clear false bs w))) as Hdesync.
  { intros bs. exists Desynchronised. split; [by right; left|]. apply desync_sim. by apply abstraction_quiet_clear. }
  assert (exists l, shows (ResponseArrived r) l /\ abs_step l (abstraction w) (abstraction w)) as Hsilent
    by (exists Silent; split; [by left|constructor]).
  repeat case_match; cbn [fst]; try apply Hdesync; try exact Hsilent.
  - rewrite abstraction_run. apply Hdesync.
  - exists Expired. split; [right; right; left; split; [done|lia]|]. unfold runtime_clear. cbn [negb andb default from_option].
    rewrite abstraction_clear by done. constructor.
Qed.

Lemma env_sim e w :
  coherent (auth w) -> is_flight_event e = false ->
  exists l, shows e l /\ abs_step l (abstraction w) (abstraction (env_step e w)).
Proof.
  intros Hc He. destruct e; try done; cbn [env_step shows]; try (by exists Silent; split; [done|constructor]).
  - eexists. split; [done|]. rewrite abstraction_bundle by done. constructor.
  - eexists. split; [done|]. rewrite abstraction_clear by done. constructor.
  - unfold applyAuthRotation. destruct (isAuthTokenRotation v) eqn:Ev; cbn [negb]; [|by exists Silent; split; [left|constructor]].
    destruct (user (auth w)) as [u|] eqn:Eu; [|by exists Silent; split; [left|constructor]].
    destruct (session (auth w)) as [se|] eqn:Es; [|by exists Silent; split; [left|constructor]].
    destruct (streq _ _) eqn:Eq; cbn [negb]; [|by exists Silent; split; [left|constructor]].
    eexists. split; [right; eauto|]. rewrite abstraction_quiet_bundle by done. apply streq_true in Eq. constructor; [|done].
    rewrite abstraction_sid by done. unfold current_sid. rewrite Es. exact (f_equal Some (eq_sym Eq)).
  - eexists. split; [done|]. constructor.
Qed.

Lemma step_sim s e s' :
  coherent (auth (world s)) -> sys_step s e = Some s' ->
  exists l, shows e l /\ abs_step l (abstraction (world s)) (abstraction (world s')).
Proof.
  intros Hc Hs. destruct (is_flight_event e) eqn:He.
  - destruct s as [w [[ep p]|]]; [|by destruct e]. cbn [world flight] in *.
    destruct e; try done; destruct p; try done; cbn in Hs.
    + exists Silent. split; [done|]. apply silent_sim. pose proof (abstraction_run ep 0 true w) as Hr.
      destruct (run ep 0 true w) as [w1 p1]. injection Hs as <-. exact Hr.
    + destruct (on_response_sim ep raceAttempt allowMismatchRetry r w Hc) as (l & Hl & Hstep). exists l. split; [done|].
      destruct (on_response ep _ _ r w) as [w1 p1]. injection Hs as <-. exact Hstep.
    + exists Silent. split; [done|]. apply silent_sim. pose proof (abstraction_run ep raceAttempt allowMismatchRetry w) as Hr.
      destruct (run ep _ _ w) as [w1 p1]. injection Hs as <-. exact Hr.
  - destruct (env_sim e (world s) Hc He) as (l & Hl & Hstep).
    assert (abstraction (world s') = abstraction (env_step e (world s))) as ->; [|eauto].
    destruct s as [w fl], e; try done; cbn in Hs; simplify_eq; try done.
    + destruct fl as [[ep [| | |o]]|]; try done. by injection Hs as <-.
    + unfold refreshAuthentication. cbn [flight world]. destruct fl; [done|]. destruct hasLocks; [done|].
      pose proof (abstraction_run (authEpoch w) 0 true w) as Hr. by destruct (run _ _ _ _).
Qed.

(** C2: the tab implements the abstract session. Every run of the tab, with the refresh
    segments interleaved in any way with logins, logouts, rotations and profile
    changes, is a run of the specification: token, expiry and session change together
    as one cell, what a refresh does is one step of it, a rotation renews the session
    that is held, and the messages posted to other tabs are those the specification
    announces. *)
Theorem session_refinement (tr : list Event) (s : Sys) :
  exec initial_sys tr = Some s ->
  exists ls, Forall2 shows tr ls /\ abs_run ls nobody (abstraction (world s)).
Proof.
  change nobody with (abstraction (world initial_sys)).
  assert (coherent (auth (world initial_sys))) as H by done. revert H. generalize initial_sys.
  induction tr as [|e tr IH]; intros s0 Hc Hex; cbn [exec] in Hex; [simplify_eq; exists []; by split; constructor|].
  destruct (sys_step s0 e) as [s1|] eqn:E; [|done].
  destruct (step_sim _ _ _ Hc E) as (l & Hl & Hstep).
  destruct (IH s1 (sys_step_coherent _ _ _ Hc E) Hex) as (ls & Hls & Hrun).
  exists (l :: ls). split; [by constructor|by econstructor].
Qed.

Lemma session_refinement_witness :
  exists s ls, exec initial_sys [CallRefresh false; ResponseArrived (demo_success "s1"); Settled; Logout true complete] = Some s
    /\ Forall2 shows [CallRefresh false; ResponseArrived (demo_success "s1"); Settled; Logout true complete] ls
    /\ abs_run ls nobody (abstraction (world s)).
Proof.
  eexists. destruct (session_refinement [CallRefresh false; ResponseArrived (demo_success "s1"); Settled; Logout true complete] _
    ltac:(vm_compute; reflexivity)) as (ls & H1 & H2).
  exists ls. split; [vm_compute; reflexivity|]. split; [exact H1|exact H2].
Defined.

(** ** A refresh in flight resolves *)

Definition is_other (e : Event) : bool := negb (is_flight_event e) && negb (is_settled e).

(** [P] will hold, on every schedule that goes on delivering what the refresh waits
    for: however long other code runs first, the refresh then waits for an event that
    can happen, and from whichever it is [P] will hold. *)
Inductive inevitable (P : Sys -> Prop) : Sys -> Prop :=
| inevitable_now s : P s -> inevitable P s
| inevitable_later s :
    (forall others s1, forallb is_other others = true -> exec s others = Some s1 ->
       (exists e s2, is_flight_event e = true /\ sys_step s1 e = Some s2)
       /\ forall e s2, is_flight_event e = true -> sys_step s1 e = Some s2 -> inevitable P s2) ->
    inevitable P s.

(** The promise of the refresh is resolved, and settling it frees the tab for the next one. *)
Definition resolved (s : Sys) : Prop :=
  exists f o, flight s = Some f /\ phase f = Finished o
    /\ exists s', sys_step s Settled = Some s' /\ flight s' = None /\ world s' = world s.

Lemma others_keep_flight ep p others : forall s s',
  flight s = Some (mkFlight ep p) -> forallb is_other others = true -> exec s others = Some s' ->
  flight s' = Some (mkFlight ep p).
Proof.
  induction others as [|e others IH]; intros s s' Hf Ho Hex; cbn in *; [by simplify_eq|].
  apply andb_true_iff in Ho as [He Ho]. unfold is_other in He. apply andb_true_iff in He as [He1%negb_true_iff He2%negb_true_iff].
  destruct (sys_step s e) as [s1|] eqn:E; [|done].
  destruct (sys_step_flight _ _ _ _ Hf He2 E) as (p1 & Hf1 & Henv & _). destruct (Henv He1) as [_ ->].
  by apply (IH s1).
Qed.

Lemma waits_for ep p s :
  flight s = Some (mkFlight ep p) -> (exists o, p = Finished o) \/ exists e s', is_flight_event e = true /\ sys_step s e = Some s'.
Proof.
  intros Hf. destruct p as [|n a|d n a|o]; [right|right|right|left; eauto].
  - exists LockGranted. cbn. rewrite Hf. cbn. destruct (run _ _ _ _). eauto.
  - exists (ResponseArrived (mkResponse 0 VUndef VUndef)). cbn. rewrite Hf. cbn. destruct (on_response _ _ _ _ _). eauto.
  - exists DelayElapsed. cbn. rewrite Hf. cbn. destruct (run _ _ _ _). eauto.
Qed.

Lemma segments_nonneg p : phase_ok p -> 0 <= segments_left p.
Proof. destruct p; cbn; intros; repeat case_match; lia. Qed.

Definition is_finished (p : Phase) : bool := match p with Finished _ => true | _ => false end.

Lemma finished_resolved ep o s : flight s = Some (mkFlight ep (Finished o)) -> resolved s.
Proof.
  intros Hf. exists (mkFlight ep (Finished o)), o. split_and!; [done|done|].
  eexists. cbn. rewrite Hf. by split_and!.
Qed.

Lemma flight_inevitable n : forall ep p s,
  segments_left p < Z.of_nat n -> phase_ok p -> flight s = Some (mkFlight ep p) -> inevitable resolved s.
Proof.
  induction n as [|n IH]; intros ep p s Hn Hp Hf; [pose proof (segments_nonneg p Hp); lia|].
  destruct (is_finished p) eqn:Ep.
  { destruct p; try done. eapply inevitable_now, finished_resolved, Hf. }
  apply inevitable_later. intros others s1 Ho Hex. pose proof (others_keep_flight _ _ _ _ _ Hf Ho Hex) as Hf1. split.
  { destruct (waits_for ep p s1 Hf1) as [[o ->]|H]; [done|exact H]. }
  intros e s2 He Hs. assert (is_settled e = false) as Hns by (by destruct e).
  destruct (sys_step_flight _ _ _ _ Hf1 Hns Hs) as (p' & Hf2 & _ & Hstep).
  destruct (flight_step_bounds _ _ _ _ _ _ Hp (Hstep He)) as (Hp' & Hlt & _).
  apply (IH ep p'); [lia|done|exact Hf2].
Qed.

(** Every flight of a reachable tab is within the race delays. *)
Definition flight_ok (s : Sys) : Prop := match flight s with Some f => phase_ok (phase f) | None => True end.

Lemma sys_step_flight_ok s e s' : flight_ok s -> sys_step s e = Some s' -> flight_ok s'.
Proof.
  unfold flight_ok. intros Hok Hs. destruct (flight s) as [[ep p]|] eqn:Hf.
  - destruct (is_settled e) eqn:He.
    { destruct e; try done. cbn in Hs. rewrite Hf in Hs. destruct p; try done. by injection Hs as <-. }
    destruct (sys_step_flight _ _ _ _ Hf He Hs) as (p' & -> & Henv & Hfl). cbn [phase] in *.
    destruct (is_flight_event e); [|by destruct (Henv eq_refl) as [_ ->]].
    by destruct (flight_step_bounds _ _ _ _ _ _ Hok (Hfl eq_refl)).
  - destruct e; cbn in Hs; rewrite ?Hf in Hs; try done; injection Hs as <-; cbn [flight]; rewrite ?Hf; try done.
    unfold refreshAuthentication. rewrite Hf. destruct hasLocks; [done|].
    destruct (run _ _ _ _) as [w p] eqn:Er. cbn [flight phase]. eapply run_bounds, Er. lia.
Qed.

Lemma exec_flight_ok tr : forall s s', flight_ok s -> exec s tr = Some s' -> flight_ok s'.
Proof.
  induction tr as [|e tr IH]; intros s s' Hok Hex; cbn in Hex; [by simplify_eq|].
  destruct (sys_step s e) eqn:E; [|done]. eauto using sys_step_flight_ok.
Qed.

(** C34: a refresh that was started resolves, and frees the tab for the next one. From
    every state the tab can reach with a refresh in flight, however logins, logouts,
    rotations and further calls are scheduled in between: the refresh always waits for
    an event that can occur (the lock, a response, a delay), no other code can take
    that event away, and after finitely many of them, whichever responses arrive, it
    has an outcome whose settling clears [refreshPromise] and nothing else. *)
Theorem refresh_inevitable (tr : list Event) (s : Sys) (f : Flight) :
  exec initial_sys tr = Some s -> flight s = Some f -> inevitable resolved s.
Proof.
  intros Hex Hf. pose proof (exec_flight_ok tr initial_sys s I Hex) as Hok. unfold flight_ok in Hok. rewrite Hf in Hok.
  destruct f as [ep p]. cbn [phase] in Hok. pose proof (segments_nonneg p Hok).
  apply (flight_inevitable (S (Z.to_nat (segments_left p))) ep p); [lia|done|done].
Qed.

Lemma refresh_inevitable_witness :
  exists s, exec initial_sys [CallRefresh true; LockGranted; demo_race; CallRefresh false; Logout true complete] = Some s
    /\ inevitable resolved s.
Proof.
  eexists. split; [vm_compute; reflexivity|].
  refine (refresh_inevitable [CallRefresh true; LockGranted; demo_race; CallRefresh false; Logout true complete] _ _ _ _);
    vm_compute; reflexivity.
Defined.

End AuthRefinement.
