(* ===== verification/AdvancedCustom.v ===== *)
(** Advanced custom channels: the routing table an operator edits for a channel
    of type 58 and its validation before it is saved
    (src/web/src/features/channels/lib/advanced-custom.ts). *)

From stdpp Require Import gmap.
From S2P Require Import Prelude.

Module AdvancedCustom.

(** ** Data *)

(** Converters and auth types arrive as text and are checked at run time, so both
    are strings here; an omitted field is [None]. *)
Record AdvancedCustomRouteAuth := mkRouteAuth {
  auth_type : option jsstr;
  auth_name : option jsstr;
  auth_value : option jsstr
}.

Record AdvancedCustomRoute := mkRoute {
  incoming_path : option jsstr;
  upstream_path : option jsstr;
  converter : option jsstr;
  models : option (list jsstr);
  auth : option AdvancedCustomRouteAuth
}.

Record AdvancedCustomConfig := mkConfig { advanced_routes : option (list AdvancedCustomRoute) }.

Record AdvancedCustomValidationError := mkError { message : jsstr; routeIndex : option nat }.

Definition ADVANCED_CUSTOM_MODEL_LIST_PATH : jsstr := js "/v1/models".
Definition ADVANCED_CUSTOM_MODEL_LIST_LABEL : jsstr := js "OpenAI Models".
Definition ADVANCED_CUSTOM_MODEL_REGEX_PREFIX : jsstr := js "re:".

(** [value], [label], [triggerLabel] *)
Definition ADVANCED_CUSTOM_CONVERTER_OPTIONS : list (jsstr * jsstr * jsstr) := [
  (js "none", js "Native forwarding", js "Native forwarding");
  (js "anthropic_messages_to_openai_chat_completions",
   js "Anthropic Messages to OpenAI Chat", js "To OpenAI Chat");
  (js "openai_chat_completions_to_anthropic_messages",
   js "OpenAI Chat to Anthropic Messages", js "To Anthropic Messages");
  (js "openai_chat_completions_to_openai_responses",
   js "OpenAI Chat to OpenAI Responses", js "To OpenAI Responses");
  (js "openai_responses_to_openai_chat_completions",
   js "OpenAI Responses to OpenAI Chat", js "To OpenAI Chat");
  (js "openai_responses_to_gemini_generate_content",
   js "OpenAI Responses to Gemini Generate Content", js "To Gemini Generate Content");
  (js "gemini_generate_content_to_openai_chat_completions",
   js "Gemini Generate Content to OpenAI Chat", js "To OpenAI Chat");
  (js "openai_chat_completions_to_gemini_generate_content",
   js "OpenAI Chat to Gemini Generate Content", js "To Gemini Generate Content")].

(** [value], [label] *)
Definition ADVANCED_CUSTOM_INCOMING_PATH_OPTIONS : list (jsstr * jsstr) := [
  (js "/v1/chat/completions", js "OpenAI Chat");
  (js "/v1/responses", js "OpenAI Responses");
  (js "/v1/responses/compact", js "OpenAI Responses Compact");
  (js "/v1/alpha/search", js "OpenAI Alpha Search");
  (ADVANCED_CUSTOM_MODEL_LIST_PATH, ADVANCED_CUSTOM_MODEL_LIST_LABEL);
  (js "/v1/embeddings", js "OpenAI Embeddings");
  (js "/v1/images/generations", js "OpenAI Image Generations");
  (js "/v1/images/edits", js "OpenAI Image Edits");
  (js "/v1/completions", js "OpenAI Completions");
  (js "/v1/audio/speech", js "OpenAI Audio Speech");
  (js "/v1/audio/transcriptions", js "OpenAI Audio Transcriptions");
  (js "/v1/audio/translations", js "OpenAI Audio Translations");
  (js "/v1/rerank", js "OpenAI Rerank");
  (js "/v1/realtime", js "OpenAI Realtime");
  (js "/v1/messages", js "Claude Messages");
  (js "/v1beta/models/{model}:generateContent", js "Gemini Generate Content");
  (js "/v1beta/models/{model}:embedContent", js "Gemini Embed Content");
  (js "/v1beta/models/{model}:batchEmbedContents", js "Gemini Batch Embed Contents")].

Definition openAIChatPath : jsstr := js "/v1/chat/completions".
Definition openAIResponsesPath : jsstr := js "/v1/responses".
Definition claudeMessagesPath : jsstr := js "/v1/messages".
Definition geminiGenerateContentPath : jsstr := js "/v1beta/models/{model}:generateContent".

Definition bearerHeaderAuth : AdvancedCustomRouteAuth :=
  mkRouteAuth (Some (js "header")) (Some (js "Authorization")) (Some (js "Bearer {api_key}")).
Definition apiKeyHeaderAuth : AdvancedCustomRouteAuth :=
  mkRouteAuth (Some (js "header")) (Some (js "x-api-key")) (Some (js "{api_key}")).
Definition geminiQueryAuth : AdvancedCustomRouteAuth :=
  mkRouteAuth (Some (js "query")) (Some (js "key")) (Some (js "{api_key}")).

(** A route of a template. *)
Definition template_route (from to conv : jsstr) (a : AdvancedCustomRouteAuth) : AdvancedCustomRoute :=
  mkRoute (Some from) (Some to) (Some conv) None (Some a).
Definition native_route (path : jsstr) (a : AdvancedCustomRouteAuth) : AdvancedCustomRoute :=
  template_route path path (js "none") a.
Definition config_of (routes : list AdvancedCustomRoute) : AdvancedCustomConfig := mkConfig (Some routes).

(** [value], [label], [config] *)
Definition ADVANCED_CUSTOM_TEMPLATE_OPTIONS : list (jsstr * jsstr * AdvancedCustomConfig) := [
  (js "official_openai_chat", js "Official OpenAI Chat",
   config_of [native_route (js "/v1/chat/completions") bearerHeaderAuth]);
  (js "official_openai_responses", js "Official OpenAI Responses",
   config_of [native_route (js "/v1/responses") bearerHeaderAuth]);
  (js "official_openai_embeddings", js "Official OpenAI Embeddings",
   config_of [native_route (js "/v1/embeddings") bearerHeaderAuth]);
  (js "official_openai_images", js "Official OpenAI Images",
   config_of [native_route (js "/v1/images/generations") bearerHeaderAuth;
              native_route (js "/v1/images/edits") bearerHeaderAuth]);
  (js "official_claude_messages", js "Official Claude Messages",
   config_of [native_route (js "/v1/messages") apiKeyHeaderAuth]);
  (js "official_gemini_native", js "Official Gemini Native",
   config_of [native_route (js "/v1beta/models/{model}:generateContent") geminiQueryAuth;
              native_route (js "/v1beta/models/{model}:embedContent") geminiQueryAuth;
              native_route (js "/v1beta/models/{model}:batchEmbedContents") geminiQueryAuth]);
  (js "official_gemini_from_openai_chat", js "Official Gemini from OpenAI Chat",
   config_of [template_route (js "/v1/chat/completions") (js "/v1beta/models/{model}:generateContent")
                (js "openai_chat_completions_to_gemini_generate_content") geminiQueryAuth])].

(** [cloneAdvancedCustomConfig]: a deep copy through JSON; the value is the same. *)
Definition cloneAdvancedCustomConfig (c : AdvancedCustomConfig) : AdvancedCustomConfig := c.

Definition default_config : AdvancedCustomConfig :=
  config_of [native_route (js "/v1/chat/completions") bearerHeaderAuth].

Definition getAdvancedCustomTemplateConfig (templateKey : jsstr) : AdvancedCustomConfig :=
  cloneAdvancedCustomConfig
    match List.find (fun o => streq o.1.1 templateKey) ADVANCED_CUSTOM_TEMPLATE_OPTIONS with
    | Some o => o.2
    | None => default default_config (snd <$> head ADVANCED_CUSTOM_TEMPLATE_OPTIONS)
    end.

Definition createAdvancedCustomRoute : AdvancedCustomRoute :=
  mkRoute (Some openAIChatPath) (Some openAIChatPath) (Some (js "none")) None None.

Definition createAdvancedCustomConfig : AdvancedCustomConfig := config_of [createAdvancedCustomRoute].

(** ** Converters *)

Definition isAdvancedCustomConverter (value : jsstr) : bool :=
  existsb (fun o => streq o.1.1 value) ADVANCED_CUSTOM_CONVERTER_OPTIONS.

Definition isConverterPathAllowed (incomingPath conv : jsstr) : bool :=
  if streq conv (js "none") then true
  else if streq incomingPath (js "/v1/alpha/search") then false
  else if streq conv (js "anthropic_messages_to_openai_chat_completions") then
    streq incomingPath (js "/v1/messages")
  else if streq conv (js "openai_chat_completions_to_anthropic_messages")
       || streq conv (js "openai_chat_completions_to_openai_responses")
       || streq conv (js "openai_chat_completions_to_gemini_generate_content") then
    streq incomingPath (js "/v1/chat/completions")
  else if streq conv (js "openai_responses_to_openai_chat_completions") then
    streq incomingPath (js "/v1/responses")
  else if streq conv (js "openai_responses_to_gemini_generate_content") then
    streq incomingPath (js "/v1/responses")
  else includes (js ":generateContent") incomingPath
       || includes (js ":streamGenerateContent") incomingPath.

Definition getAdvancedCustomIncomingPathOptions (conv : jsstr) : list (jsstr * jsstr) :=
  List.filter (fun o => isConverterPathAllowed o.1 conv) ADVANCED_CUSTOM_INCOMING_PATH_OPTIONS.

Definition getDefaultAdvancedCustomIncomingPath (conv : jsstr) : jsstr :=
  or_str (default [] (fst <$> head (getAdvancedCustomIncomingPathOptions conv)))
    (js "/v1/chat/completions").

Definition getAdvancedCustomConverterOptions (incomingPath : jsstr) : list (jsstr * jsstr * jsstr) :=
  let normalizedIncomingPath := trim incomingPath in
  List.filter (fun o => streq o.1.1 (js "none") || isConverterPathAllowed normalizedIncomingPath o.1.1)
    ADVANCED_CUSTOM_CONVERTER_OPTIONS.

Definition getAdvancedCustomIncomingPathLabel (value : jsstr) : jsstr :=
  or_str (default [] (snd <$> List.find (fun o => streq o.1 value) ADVANCED_CUSTOM_INCOMING_PATH_OPTIONS))
    value.

Definition getAdvancedCustomNativeAuth (incomingPath : jsstr) : AdvancedCustomRouteAuth :=
  if streq incomingPath claudeMessagesPath then apiKeyHeaderAuth
  else if includes (js ":generateContent") incomingPath
       || includes (js ":streamGenerateContent") incomingPath
       || includes (js ":embedContent") incomingPath
       || includes (js ":batchEmbedContents") incomingPath then geminiQueryAuth
  else bearerHeaderAuth.

(** [upstream_path], [auth] *)
Definition getAdvancedCustomConverterDefaults (conv incomingPath : jsstr)
    : jsstr * AdvancedCustomRouteAuth :=
  let normalizedIncomingPath :=
    or_str (trim incomingPath) (getDefaultAdvancedCustomIncomingPath conv) in
  if streq conv (js "none") then
    (normalizedIncomingPath, getAdvancedCustomNativeAuth normalizedIncomingPath)
  else if streq conv (js "anthropic_messages_to_openai_chat_completions")
       || streq conv (js "gemini_generate_content_to_openai_chat_completions")
       || streq conv (js "openai_responses_to_openai_chat_completions") then
    (openAIChatPath, bearerHeaderAuth)
  else if streq conv (js "openai_chat_completions_to_openai_responses") then
    (openAIResponsesPath, bearerHeaderAuth)
  else if streq conv (js "openai_chat_completions_to_anthropic_messages") then
    (claudeMessagesPath, apiKeyHeaderAuth)
  else if streq conv (js "openai_chat_completions_to_gemini_generate_content")
       || streq conv (js "openai_responses_to_gemini_generate_content") then
    (geminiGenerateContentPath, geminiQueryAuth)
  else
    (or_str normalizedIncomingPath openAIChatPath, getAdvancedCustomNativeAuth normalizedIncomingPath).

Definition getAdvancedCustomUpstreamPathPlaceholder (conv : jsstr) (incomingPath : option jsstr) : jsstr :=
  fst (getAdvancedCustomConverterDefaults conv
         (default (getDefaultAdvancedCustomIncomingPath conv) incomingPath)).

(** ** Normalisation *)

Definition getAdvancedCustomRouteUpstreamPath (r : AdvancedCustomRoute) : jsstr :=
  trim (default [] r.(upstream_path)).

Definition normalizeAdvancedCustomRouteModels (ms : option (list jsstr)) : list jsstr :=
  List.filter truthy_str (map trim (default [] ms)).

(** [o || d] on an optional string. *)
Definition or_opt (o : option jsstr) (d : jsstr) : jsstr := or_str (default [] o) d.

Definition normalizeAdvancedCustomRoute (r : AdvancedCustomRoute) : AdvancedCustomRoute :=
  let ms := normalizeAdvancedCustomRouteModels r.(models) in
  mkRoute (Some (or_opt r.(incoming_path) []))
    (Some (getAdvancedCustomRouteUpstreamPath r))
    (Some (or_opt r.(converter) (js "none")))
    (match ms with [] => None | _ => Some ms end)
    ((fun a => mkRouteAuth a.(auth_type) (Some (or_opt a.(auth_name) []))
                 (Some (or_opt a.(auth_value) []))) <$> r.(auth)).

Definition normalizeAdvancedCustomConfig (c : AdvancedCustomConfig) : AdvancedCustomConfig :=
  mkConfig (Some (map normalizeAdvancedCustomRoute (default [] c.(advanced_routes)))).

Definition parseAdvancedCustomRouteModels (value : jsstr) : list jsstr :=
  dedup (List.filter truthy_str (map trim (split_on 44 value))).

(** [getAdvancedCustomModelRuleKind(m) === 'regex'] *)
Definition is_regex_rule (modelRule : jsstr) : bool :=
  starts_with ADVANCED_CUSTOM_MODEL_REGEX_PREFIX modelRule.

Definition getAdvancedCustomRegexModelPattern (modelRule : jsstr) : jsstr :=
  drop (length ADVANCED_CUSTOM_MODEL_REGEX_PREFIX) modelRule.

(** ** Validation *)

(** The entry of [routeModelsByPath] for one incoming path. *)
Record PathState := mkPathState { catchAllIndex : option nat; ruleOwners : gmap jsstr nat }.

Definition empty_path_state : PathState := mkPathState None ∅.

(** The loop over the rules of one route; [seen] is [seenInRoute]. *)
Fixpoint check_rules (routeIndex : nat) (ms seen : list jsstr) (owners : gmap jsstr nat)
    : jsstr + gmap jsstr nat :=
  match ms with
  | [] => inr owners
  | m :: ms' =>
      if is_regex_rule m && streq (getAdvancedCustomRegexModelPattern m) [] then
        inl (js "Model regex cannot be empty")
      else if bool_decide (m ∈ seen) then inl (js "Duplicate model in route models")
      else if bool_decide (is_Some (owners !! m)) then
        inl (js "Route models must be unique for the same incoming path")
      else check_rules routeIndex ms' (m :: seen) (<[m := routeIndex]> owners)
  end.

(** The error, or [routeModelsByPath] as the route leaves it. *)
Definition validateAdvancedCustomRouteModels (routeIndex : nat) (incomingPath : jsstr)
    (ms : list jsstr) (byPath : gmap jsstr PathState) : jsstr + gmap jsstr PathState :=
  let state := default empty_path_state (byPath !! incomingPath) in
  match ms with
  | [] =>
      match state.(catchAllIndex) with
      | Some _ => inl (js "Only one catch-all route is allowed for the same incoming path")
      | None => inr (<[incomingPath := mkPathState (Some routeIndex) state.(ruleOwners)]> byPath)
      end
  | _ =>
      match state.(catchAllIndex) with
      | Some _ => inl (js "Catch-all route must be last for the same incoming path")
      | None =>
          match check_rules routeIndex ms [] state.(ruleOwners) with
          | inl e => inl e
          | inr owners => inr (<[incomingPath := mkPathState None owners]> byPath)
          end
      end
  end.

Definition validateRouteAuth (a : option AdvancedCustomRouteAuth) : option jsstr :=
  match a with
  | None => None
  | Some a =>
      if bool_decide (a.(auth_type) = Some (js "none")) then None
      else if negb (bool_decide (a.(auth_type) = Some (js "header")))
              && negb (bool_decide (a.(auth_type) = Some (js "query"))) then
        Some (js "Auth type is invalid")
      else if negb (truthy_str (trim (default [] a.(auth_name)))) then Some (js "Auth name is required")
      else if negb (truthy_str (trim (default [] a.(auth_value)))) then Some (js "Auth value is required")
      else None
  end.

(** The path and rules of a route as the validation loop reads them. *)
Definition route_path (r : AdvancedCustomRoute) : jsstr := trim (default [] r.(incoming_path)).
Definition route_converter (r : AdvancedCustomRoute) : jsstr := or_opt r.(converter) (js "none").
Definition route_models (r : AdvancedCustomRoute) : list jsstr :=
  normalizeAdvancedCustomRouteModels r.(models).

Section Validation.

(** [new URL(value)] of the browser: its [host] and [protocol], or the exception. *)
Context (newURL : jsstr -> option (jsstr * jsstr)).

Definition isFullHttpURLOrAbsolutePath (value : jsstr) : bool :=
  if starts_with (js "/") value then negb (starts_with (js "//") value)
  else match newURL value with
       | Some (host, protocol) =>
           truthy_str host && (streq protocol (js "http:") || streq protocol (js "https:"))
       | None => false
       end.

(** The checks on the OpenAI Models route. *)
Definition check_model_list (r : AdvancedCustomRoute) (modelListRouteIndex : option nat) : option jsstr :=
  if bool_decide (is_Some modelListRouteIndex) then Some (js "Only one OpenAI Models route is allowed")
  else if negb (bool_decide (route_models r = [])) then
    Some (js "OpenAI Models route does not support client model rules")
  else if negb (streq (route_converter r) (js "none")) then
    Some (js "OpenAI Models route must use native forwarding")
  else if includes (js "{model}") (getAdvancedCustomRouteUpstreamPath r) then
    Some (js "OpenAI Models upstream path must not contain {model}")
  else None.

(** The checks after those on the rules. *)
Definition check_upstream (r : AdvancedCustomRoute) : option jsstr :=
  let upstreamPath := getAdvancedCustomRouteUpstreamPath r in
  if negb (truthy_str upstreamPath) then Some (js "Upstream path is required")
  else if negb (isFullHttpURLOrAbsolutePath upstreamPath) then
    Some (js "Upstream path must be a full URL or a path starting with /")
  else if negb (isAdvancedCustomConverter (route_converter r)) then Some (js "Converter is not registered")
  else if negb (isConverterPathAllowed (route_path r) (route_converter r)) then
    Some (js "Converter does not match incoming path")
  else validateRouteAuth r.(auth).

(** The loop of [validateAdvancedCustomConfig]. *)
Fixpoint validate_routes (index : nat) (routes : list AdvancedCustomRoute)
    (byPath : gmap jsstr PathState) (modelListRouteIndex : option nat)
    : option AdvancedCustomValidationError :=
  match routes with
  | [] => None
  | r :: rest =>
      let incomingPath := route_path r in
      let fail m := Some (mkError m (Some index)) in
      if negb (truthy_str incomingPath) then fail (js "Incoming path is required")
      else if negb (starts_with (js "/") incomingPath) then fail (js "Incoming path must start with /")
      else if includes (js "?") incomingPath then fail (js "Incoming path must not include query")
      else
        let is_list := streq incomingPath ADVANCED_CUSTOM_MODEL_LIST_PATH in
        match (if is_list then check_model_list r modelListRouteIndex else None) with
        | Some m => fail m
        | None =>
            match validateAdvancedCustomRouteModels index incomingPath (route_models r) byPath with
            | inl m => fail m
            | inr byPath' =>
                match check_upstream r with
                | Some m => fail m
                | None =>
                    validate_routes (S index) rest byPath'
                      (if is_list then Some index else modelListRouteIndex)
                end
            end
        end
  end.

Definition validateAdvancedCustomConfig (config : option AdvancedCustomConfig)
    : option AdvancedCustomValidationError :=
  match config with
  | None => Some (mkError (js "Advanced custom configuration is required") None)
  | Some c =>
      match default [] (normalizeAdvancedCustomConfig c).(advanced_routes) with
      | [] => Some (mkError (js "Advanced custom configuration requires at least one route") None)
      | routes => validate_routes 0 routes ∅ None
      end
  end.

Definition hasValidAdvancedCustomModelListRoute (config : option AdvancedCustomConfig) : bool :=
  match config with
  | None => false
  | Some c =>
      match validateAdvancedCustomConfig (Some c) with
      | Some _ => false
      | None => existsb (fun r => streq (route_path r) ADVANCED_CUSTOM_MODEL_LIST_PATH)
                  (default [] (normalizeAdvancedCustomConfig c).(advanced_routes))
      end
  end.

End Validation.

Definition advancedCustomConfigUsesRelativeUpstreamPath (config : option AdvancedCustomConfig) : bool :=
  match config with
  | None => false
  | Some c => existsb (fun r => starts_with (js "/") (getAdvancedCustomRouteUpstreamPath r))
                (default [] (normalizeAdvancedCustomConfig c).(advanced_routes))
  end.

(** ** The auth selector *)

Inductive AdvancedCustomAuthMode := mode_default | mode_none | mode_header | mode_query.

Definition mode_name (m : AdvancedCustomAuthMode) : jsstr :=
  match m with
  | mode_default => js "default" | mode_none => js "none"
  | mode_header => js "header" | mode_query => js "query"
  end.

Definition getAdvancedCustomAuthMode (r : AdvancedCustomRoute) : jsstr :=
  or_opt (r.(auth) ≫= auth_type) (js "default").

Definition buildAdvancedCustomAuth (mode : AdvancedCustomAuthMode)
    (previousAuth : option AdvancedCustomRouteAuth) : option AdvancedCustomRouteAuth :=
  match mode with
  | mode_default => None
  | mode_none => Some (mkRouteAuth (Some (js "none")) None None)
  | mode_header =>
      Some (mkRouteAuth (Some (js "header"))
              (Some (or_opt (previousAuth ≫= auth_name) (js "Authorization")))
              (Some (or_opt (previousAuth ≫= auth_value) (js "Bearer {api_key}"))))
  | mode_query =>
      Some (mkRouteAuth (Some (js "query"))
              (Some (or_opt (previousAuth ≫= auth_name) (js "api_key")))
              (Some (or_opt (previousAuth ≫= auth_value) (js "{api_key}"))))
  end.

(** ** Specification of a well-formed routing table *)

(** A rule that is not an empty regular expression. *)
Definition rule_ok (m : jsstr) : Prop :=
  is_regex_rule m = true -> getAdvancedCustomRegexModelPattern m <> [].

Section Spec.
Context (newURL : jsstr -> option (jsstr * jsstr)).

(** What a route must satisfy on its own. *)
Record route_ok (r : AdvancedCustomRoute) : Prop := {
  ok_path_given : route_path r <> [];
  ok_path_absolute : starts_with (js "/") (route_path r) = true;
  ok_path_no_query : includes (js "?") (route_path r) = false;
  ok_model_list : route_path r = ADVANCED_CUSTOM_MODEL_LIST_PATH ->
    route_models r = [] /\ route_converter r = js "none"
    /\ includes (js "{model}") (getAdvancedCustomRouteUpstreamPath r) = false;
  ok_rules : Forall rule_ok (route_models r);
  ok_rules_distinct : NoDup (route_models r);
  ok_upstream_given : getAdvancedCustomRouteUpstreamPath r <> [];
  ok_upstream : isFullHttpURLOrAbsolutePath newURL (getAdvancedCustomRouteUpstreamPath r) = true;
  ok_converter : isAdvancedCustomConverter (route_converter r) = true;
  ok_converter_path : isConverterPathAllowed (route_path r) (route_converter r) = true;
  ok_auth : validateRouteAuth r.(auth) = None
}.

(** Two routes, the first one earlier in the table: on the same path the earlier
    one is no catch-all and they share no rule. *)
Definition compatible (earlier later : AdvancedCustomRoute) : Prop :=
  route_path earlier = route_path later ->
  route_models earlier <> [] /\ forall m, m ∈ route_models earlier -> m ∉ route_models later.

Definition table_ok (routes : list AdvancedCustomRoute) : Prop :=
  routes <> [] /\ Forall route_ok routes /\ ForallOrdPairs compatible routes.

(** ** The loops decide it *)

Lemma check_rules_spec idx ms seen owners :
  (forall owners', check_rules idx ms seen owners = inr owners' ->
     forall m, is_Some (owners' !! m) <-> is_Some (owners !! m) \/ m ∈ ms)
  /\ ((exists owners', check_rules idx ms seen owners = inr owners')
      <-> Forall rule_ok ms /\ NoDup ms
          /\ forall m, m ∈ ms -> m ∉ seen /\ owners !! m = None).
Proof.
  revert seen owners. induction ms as [|m ms IH]; intros seen owners; simpl.
  { split; [intros ? [= <-] m; set_solver|]. split; [|by eexists].
    intros _. split_and!; [constructor|constructor|set_solver]. }
  destruct (is_regex_rule m && streq (getAdvancedCustomRegexModelPattern m) []) eqn:Er.
  { apply andb_true_iff in Er as [Er Ee%streq_true]. split; [done|]. split; [by intros [? ?]|].
    intros (Hr & _). apply Forall_cons in Hr as [Hr _]. by destruct (Hr Er). }
  case_bool_decide as Es.
  { split; [done|]. split; [by intros [? ?]|]. intros (_ & _ & H). by destruct (H m) as [? _]; [set_solver|]. }
  case_bool_decide as Eo.
  { split; [done|]. split; [by intros [? ?]|]. intros (_ & _ & H).
    destruct (H m) as [_ Hn]; [set_solver|]. rewrite Hn in Eo. by destruct Eo. }
  apply eq_None_not_Some in Eo.
  destruct (IH (m :: seen) (<[m:=idx]> owners)) as [IH1 IH2]. split.
  - intros owners' H x. rewrite (IH1 _ H x), lookup_insert, elem_of_cons.
    case_decide; [subst; naive_solver|naive_solver].
  - rewrite IH2. rewrite Forall_cons, NoDup_cons.
    assert (rule_ok m) as Hm.
    { intros Hr He. rewrite Hr in Er. simpl in Er. by rewrite He in Er. }
    split.
    + intros (Hf & Hnd & H). split_and!; [done|done| |done|].
      * intros Hin. destruct (H m Hin). set_solver.
      * intros x [->|Hx]%elem_of_cons; [done|]. destruct (H x Hx) as [Hs Ho].
        rewrite lookup_insert in Ho. case_decide; [done|]. set_solver.
    + intros ([_ Hf] & [Hni Hnd] & H). split_and!; [done|done|].
      intros x Hx. destruct (H x) as [Hs Ho]; [set_solver|].
      rewrite lookup_insert. case_decide as E; [by subst|]. set_solver.
Qed.

(** [routeModelsByPath] records exactly the routes processed so far. *)
Definition tracks (processed : list AdvancedCustomRoute) (byPath : gmap jsstr PathState) : Prop :=
  forall p, let st := default empty_path_state (byPath !! p) in
  (is_Some st.(catchAllIndex) <-> exists r, r ∈ processed /\ route_path r = p /\ route_models r = [])
  /\ forall m, is_Some (st.(ruleOwners) !! m)
       <-> exists r, r ∈ processed /\ route_path r = p /\ m ∈ route_models r.

Lemma tracks_nil : tracks [] ∅.
Proof.
  intros p. rewrite lookup_empty. simpl. split; [|intros m; rewrite lookup_empty];
    (split; [by intros [? ?]|set_solver]).
Qed.

Lemma tracks_cons processed byPath r st :
  tracks processed byPath ->
  let old := default empty_path_state (byPath !! route_path r) in
  (is_Some (catchAllIndex st) <-> is_Some (catchAllIndex old) \/ route_models r = []) ->
  (forall m, is_Some (ruleOwners st !! m) <-> is_Some (ruleOwners old !! m) \/ m ∈ route_models r) ->
  tracks (r :: processed) (<[route_path r := st]> byPath).
Proof.
  intros Ht old Hc Hr p. rewrite lookup_insert. destruct (Ht p) as [Hc0 Hr0].
  case_decide as E; [subst p; simpl; fold old in Hc0, Hr0|].
  - split; [rewrite Hc, Hc0|intros m; rewrite Hr, Hr0]; set_solver.
  - split; [rewrite Hc0|intros m; rewrite Hr0]; set_solver.
Qed.

Lemma validateModels_spec idx r processed byPath :
  tracks processed byPath ->
  (forall byPath', validateAdvancedCustomRouteModels idx (route_path r) (route_models r) byPath = inr byPath' ->
     tracks (r :: processed) byPath')
  /\ ((exists byPath', validateAdvancedCustomRouteModels idx (route_path r) (route_models r) byPath = inr byPath')
      <-> Forall rule_ok (route_models r) /\ NoDup (route_models r)
          /\ Forall (fun r' => compatible r' r) processed).
Proof.
  intros Ht. unfold validateAdvancedCustomRouteModels.
  pose proof (tracks_cons processed byPath r) as Hcons. simpl in Hcons.
  destruct (Ht (route_path r)) as [Hc Hr].
  set (old := default empty_path_state (byPath !! route_path r)) in *.
  assert (Forall (fun r' => compatible r' r) processed <->
          catchAllIndex old = None /\ forall m, m ∈ route_models r -> ruleOwners old !! m = None) as ->.
  { rewrite Forall_forall. unfold compatible. split.
    - intros H. split.
      + apply eq_None_not_Some. intros (r' & Hin & Hp & Hm)%Hc. by destruct (H r' Hin Hp).
      + intros m Hm. apply eq_None_not_Some. intros (r' & Hin & Hp & Hm')%Hr.
        destruct (H r' Hin Hp) as [_ Hd]. by apply (Hd m).
    - intros [Hn Hd] r' Hin Hp. split.
      + intros Hm. assert (is_Some (catchAllIndex old)) as [? ?] by (apply Hc; eauto). congruence.
      + intros m Hm' Hm. assert (is_Some (ruleOwners old !! m)) as [? ?] by (apply Hr; eauto).
        rewrite (Hd m Hm) in *. done. }
  destruct (route_models r) as [|m0 ms0] eqn:Em.
  - destruct (catchAllIndex old) eqn:Eco.
    + split; [done|]. split; [by intros [? ?]|naive_solver].
    + split.
      * intros ? [= <-]. apply Hcons; [done| |]; simpl; [naive_solver|set_solver].
      * split; [|by eexists]. intros _. split_and!; try constructor; set_solver.
  - rewrite <- Em. destruct (catchAllIndex old) eqn:Eco.
    + split; [done|]. split; [by intros [? ?]|naive_solver].
    + destruct (check_rules_spec idx (route_models r) [] (ruleOwners old)) as [H1 H2].
      destruct (check_rules idx (route_models r) [] (ruleOwners old)) as [e|owners] eqn:Ech.
      * split; [done|]. split; [by intros [? ?]|]. intros (Hf & Hnd & _ & Hd).
        destruct (proj2 H2) as [? ?]; [|done]. split_and!; [done|done|set_solver].
      * split.
        -- intros ? [= <-]. apply Hcons; [done| |]; simpl.
           ++ split; [by intros [? ?]|]. intros [[? ?]|E]; [done|congruence].
           ++ intros m. rewrite <- Em. apply (H1 _ eq_refl).
        -- split; [|by eexists]. intros _. destruct (proj1 H2) as (? & ? & Hd); [by eexists|].
           split_and!; [done|done|done|]. intros m Hm. by apply Hd.
Qed.

(** The message checks of one route, apart from those on its rules. *)
Lemma check_model_list_spec r mli :
  check_model_list r mli = None <->
  mli = None /\ route_models r = [] /\ route_converter r = js "none"
  /\ includes (js "{model}") (getAdvancedCustomRouteUpstreamPath r) = false.
Proof.
  unfold check_model_list.
  case_bool_decide as E1; [split; [done|intros (-> & _); by destruct E1]|].
  apply eq_None_not_Some in E1.
  case_bool_decide as E2; simpl; [|split; [done|naive_solver]].
  destruct (streq (route_converter r) _) eqn:E3; simpl.
  - apply streq_true in E3. destruct (includes _ _); split; naive_solver.
  - apply streq_false in E3. split; [done|naive_solver].
Qed.

Lemma check_upstream_spec r :
  check_upstream newURL r = None <->
  getAdvancedCustomRouteUpstreamPath r <> []
  /\ isFullHttpURLOrAbsolutePath newURL (getAdvancedCustomRouteUpstreamPath r) = true
  /\ isAdvancedCustomConverter (route_converter r) = true
  /\ isConverterPathAllowed (route_path r) (route_converter r) = true
  /\ validateRouteAuth r.(auth) = None.
Proof.
  unfold check_upstream. destruct (getAdvancedCustomRouteUpstreamPath r); simpl; [naive_solver|].
  destruct (isFullHttpURLOrAbsolutePath _ _); simpl; [|naive_solver].
  destruct (isAdvancedCustomConverter _); simpl; [|naive_solver].
  destruct (isConverterPathAllowed _ _); simpl; naive_solver.
Qed.

(** [modelListRouteIndex] is set once an OpenAI Models route was processed. *)
Definition tracks_list (processed : list AdvancedCustomRoute) (mli : option nat) : Prop :=
  is_Some mli <-> exists r, r ∈ processed /\ route_path r = ADVANCED_CUSTOM_MODEL_LIST_PATH.

(** A second OpenAI Models route never gets past the catch-all rule, so the
    dedicated index adds no condition. *)
Lemma model_list_unique processed mli r :
  Forall route_ok processed -> tracks_list processed mli ->
  Forall (fun r' => compatible r' r) processed ->
  route_path r = ADVANCED_CUSTOM_MODEL_LIST_PATH -> mli = None.
Proof.
  intros Hok Hl Hc Hp. apply eq_None_not_Some. intros (r' & Hin & Hp')%Hl.
  rewrite Forall_forall in Hok, Hc. destruct (Hc r' Hin) as [Hne _]; [congruence|].
  by destruct (ok_model_list _ (Hok r' Hin) Hp') as [? _].
Qed.

(** One iteration of the loop passes exactly on a route that is well formed and
    compatible with those before it. *)
Lemma route_step index r processed byPath mli :
  tracks processed byPath -> tracks_list processed mli -> Forall route_ok processed ->
  let is_list := streq (route_path r) ADVANCED_CUSTOM_MODEL_LIST_PATH in
  (truthy_str (route_path r) = true /\ starts_with (js "/") (route_path r) = true
   /\ includes (js "?") (route_path r) = false
   /\ (if is_list then check_model_list r mli else None) = None
   /\ (exists byPath', validateAdvancedCustomRouteModels index (route_path r) (route_models r) byPath = inr byPath')
   /\ check_upstream newURL r = None)
  <-> route_ok r /\ Forall (fun r' => compatible r' r) processed.
Proof.
  intros Ht Hl Hok is_list. destruct (validateModels_spec index r _ _ Ht) as [_ ->].
  rewrite check_upstream_spec. subst is_list. split.
  - intros (Hg & Ha & Hq & Hm & (Hr & Hd & Hc) & Hu & Hf & Hcv & Hp & Hau). split; [|done].
    split; try done; [by intros E; rewrite E in Hg|]. intros E. rewrite E in Hm.
    rewrite streq_refl in Hm. apply check_model_list_spec in Hm. naive_solver.
  - intros [[] Hc]. split_and!; try done; [by destruct (route_path r)|].
    destruct (streq _ _) eqn:E; [|done]. apply streq_true in E.
    apply check_model_list_spec. split; [by eapply model_list_unique|naive_solver].
Qed.

(** Moving the first route of the rest to the processed ones. *)
Lemma table_rest_cons r routes processed :
  Forall route_ok (r :: routes) /\ ForallOrdPairs compatible (r :: routes)
  /\ Forall (fun r0 => Forall (fun r' => compatible r' r0) processed) (r :: routes)
  <-> (route_ok r /\ Forall (fun r' => compatible r' r) processed)
      /\ Forall route_ok routes /\ ForallOrdPairs compatible routes
      /\ Forall (fun r0 => Forall (fun r' => compatible r' r0) (r :: processed)) routes.
Proof.
  assert (forall x, Forall (fun r' => compatible r' x) (r :: processed)
            <-> compatible r x /\ Forall (fun r' => compatible r' x) processed) as Hx
    by (intros x; by rewrite Forall_cons).
  rewrite !Forall_cons, (Forall_iff _ _ _ Hx), Forall_and.
  split.
  - intros ([? ?] & Ho & [? ?]). inversion Ho; subst. naive_solver.
  - intros ([? ?] & ? & ? & Hf & ?). split_and!; try done. by constructor.
Qed.

Lemma tracks_list_cons processed mli r index :
  tracks_list processed mli ->
  tracks_list (r :: processed)
    (if streq (route_path r) ADVANCED_CUSTOM_MODEL_LIST_PATH then Some index else mli).
Proof.
  unfold tracks_list. intros Hl. destruct (streq _ _) eqn:E.
  - apply streq_true in E. split; [|by eexists]. intros _. exists r. split; [left|done].
  - apply streq_false in E. rewrite Hl. set_solver.
Qed.

Lemma validate_routes_spec routes : forall index processed byPath mli,
  tracks processed byPath -> tracks_list processed mli -> Forall route_ok processed ->
  validate_routes newURL index routes byPath mli = None <->
  Forall route_ok routes /\ ForallOrdPairs compatible routes
  /\ Forall (fun r => Forall (fun r' => compatible r' r) processed) routes.
Proof.
  induction routes as [|r routes IH]; intros index processed byPath mli Ht Hl Hok.
  { split; [|done]. intros _. repeat constructor. }
  pose proof (route_step index r processed byPath mli Ht Hl Hok) as Hs.
  destruct (validateModels_spec index r _ _ Ht) as [Hnext _].
  pose proof (tracks_list_cons processed mli r index Hl) as Hl'.
  rewrite table_rest_cons, <- Hs. cbn [validate_routes]. cbv zeta in *.
  destruct (truthy_str (route_path r)); cbn [negb]; [|naive_solver].
  destruct (starts_with _ (route_path r)); cbn [negb]; [|naive_solver].
  destruct (includes _ (route_path r)); [naive_solver|].
  destruct (if streq _ _ then check_model_list r mli else None); [naive_solver|].
  destruct (validateAdvancedCustomRouteModels _ _ _ _) as [e|byPath']; [naive_solver|].
  destruct (check_upstream newURL r); [naive_solver|].
  assert (route_ok r) by naive_solver.
  rewrite (IH _ (r :: processed)) by auto. naive_solver.
Qed.

Lemma validate_iff_aux c :
  validateAdvancedCustomConfig newURL (Some c) = None <->
  table_ok (default [] (normalizeAdvancedCustomConfig c).(advanced_routes)).
Proof.
  unfold validateAdvancedCustomConfig, table_ok.
  destruct (default [] _) as [|r routes]; [split; [done|naive_solver]|].
  rewrite (validate_routes_spec _ _ []).
  - split; [naive_solver|]. intros (_ & ? & ?). split_and!; [done|done|].
    apply Forall_forall. intros. constructor.
  - apply tracks_nil.
  - split; [by intros [? ?]|set_solver].
  - constructor.
Qed.

End Spec.

(** ** Normalisation *)

Lemma or_opt_Some s d : or_opt (Some (or_opt s d)) d = or_opt s d.
Proof.
  unfold or_opt, or_str. simpl. destruct (truthy_str (default [] s)) eqn:E; [by rewrite E|].
  by destruct (truthy_str d).
Qed.

Lemma normalize_models_idem ms :
  List.filter truthy_str (map trim (normalizeAdvancedCustomRouteModels ms))
  = normalizeAdvancedCustomRouteModels ms.
Proof.
  unfold normalizeAdvancedCustomRouteModels.
  induction (default [] ms) as [|m l IH]; simpl; [done|].
  destruct (truthy_str (trim m)) eqn:E; simpl; [|done]. by rewrite trim_idem, E, IH.
Qed.

Lemma normalize_route_idem r :
  normalizeAdvancedCustomRoute (normalizeAdvancedCustomRoute r) = normalizeAdvancedCustomRoute r.
Proof.
  unfold normalizeAdvancedCustomRoute. simpl.
  assert (normalizeAdvancedCustomRouteModels
            match normalizeAdvancedCustomRouteModels r.(models) with [] => None | _ => Some (normalizeAdvancedCustomRouteModels r.(models)) end
          = normalizeAdvancedCustomRouteModels r.(models)) as ->.
  { pose proof (normalize_models_idem r.(models)) as H.
    destruct (normalizeAdvancedCustomRouteModels r.(models)); [done|exact H]. }
  unfold getAdvancedCustomRouteUpstreamPath. simpl. rewrite trim_idem, !or_opt_Some.
  destruct r.(auth); simpl; by rewrite ?or_opt_Some.
Qed.

Lemma normalize_config_idem c :
  normalizeAdvancedCustomConfig (normalizeAdvancedCustomConfig c) = normalizeAdvancedCustomConfig c.
Proof.
  unfold normalizeAdvancedCustomConfig. simpl. rewrite map_map. f_equal. f_equal.
  apply map_ext, normalize_route_idem.
Qed.

(** ** Claims *)

(** C27: The validation accepts a configuration exactly when its normalised table is
    not empty, every route is well formed on its own (absolute path without query,
    upstream path or http(s) URL, registered converter that fits the path, usable
    auth, distinct rules with no empty regular expression, a native OpenAI Models
    route), and of two routes on one path the earlier is no catch-all and shares
    no rule with the later. *)
Theorem validate_iff newURL c :
  validateAdvancedCustomConfig newURL (Some c) = None <->
  table_ok newURL (default [] (normalizeAdvancedCustomConfig c).(advanced_routes)).
Proof. apply validate_iff_aux. Qed.

(** Normalising a configuration before saving it changes nothing that the
    validation sees, the error included, and normalising twice is normalising
    once. *)
Theorem normalize_stable newURL c :
  normalizeAdvancedCustomConfig (normalizeAdvancedCustomConfig c) = normalizeAdvancedCustomConfig c
  /\ validateAdvancedCustomConfig newURL (Some (normalizeAdvancedCustomConfig c))
     = validateAdvancedCustomConfig newURL (Some c)
  /\ hasValidAdvancedCustomModelListRoute newURL (Some (normalizeAdvancedCustomConfig c))
     = hasValidAdvancedCustomModelListRoute newURL (Some c).
Proof.
  split_and!; [apply normalize_config_idem| |];
    unfold hasValidAdvancedCustomModelListRoute, validateAdvancedCustomConfig;
    by rewrite normalize_config_idem.
Qed.

Lemma template_keys_valid newURL :
  Forall (fun o => validateAdvancedCustomConfig newURL (Some o.2) = None) ADVANCED_CUSTOM_TEMPLATE_OPTIONS.
Proof. repeat constructor. Qed.

(** Whatever template key is asked for, known or not, the configuration handed
    out passes the validation, in any browser; and so does the configuration a new
    channel starts with. *)
Theorem templates_valid newURL templateKey :
  validateAdvancedCustomConfig newURL (Some (getAdvancedCustomTemplateConfig templateKey)) = None
  /\ validateAdvancedCustomConfig newURL (Some createAdvancedCustomConfig) = None.
Proof.
  split; [|reflexivity]. unfold getAdvancedCustomTemplateConfig, cloneAdvancedCustomConfig.
  destruct (List.find _ _) as [o|] eqn:E; [|reflexivity]. apply List.find_some in E as [Hin _].
  pose proof (template_keys_valid newURL) as H. rewrite Forall_forall in H.
  by apply H, list_elem_of_In.
Qed.

(** The route the editor writes when a converter is selected for a path. *)
Definition default_route (conv path : jsstr) : AdvancedCustomRoute :=
  let d := getAdvancedCustomConverterDefaults conv path in
  mkRoute (Some path) (Some d.1) (Some conv) None (Some d.2).

Lemma default_routes_valid newURL :
  Forall (fun c : jsstr * jsstr * jsstr =>
    Forall (fun p : jsstr * jsstr =>
      validateAdvancedCustomConfig newURL (Some (config_of [default_route c.1.1 p.1])) = None)
      (getAdvancedCustomIncomingPathOptions c.1.1)) ADVANCED_CUSTOM_CONVERTER_OPTIONS.
Proof.
  set (ok c := match validateAdvancedCustomConfig newURL (Some c) with None => true | _ => false end).
  assert (forallb (fun c : jsstr * jsstr * jsstr =>
            forallb (fun p : jsstr * jsstr => ok (config_of [default_route c.1.1 p.1]))
              (getAdvancedCustomIncomingPathOptions c.1.1)) ADVANCED_CUSTOM_CONVERTER_OPTIONS = true) as H
    by (vm_compute; reflexivity).
  rewrite forallb_forall in H. apply Forall_forall. intros c Hc%list_elem_of_In.
  specialize (H c Hc). rewrite forallb_forall in H. apply Forall_forall. intros p Hp%list_elem_of_In.
  specialize (H p Hp). unfold ok in H. by destruct (validateAdvancedCustomConfig _ _).
Qed.

(** For every registered converter and every incoming path the editor offers for
    it, the upstream path and auth it fills in make a valid route; and the path it
    selects by default for the converter is one of those offered. *)
Theorem converter_defaults_valid newURL conv path
    (Hc : isAdvancedCustomConverter conv = true)
    (Hp : path ∈ map fst (getAdvancedCustomIncomingPathOptions conv)) :
  validateAdvancedCustomConfig newURL (Some (config_of [default_route conv path])) = None
  /\ getDefaultAdvancedCustomIncomingPath conv ∈ map fst (getAdvancedCustomIncomingPathOptions conv).
Proof.
  apply existsb_exists in Hc as (c & Hin & <-%streq_true). apply list_elem_of_In in Hin.
  pose proof (default_routes_valid newURL) as H. rewrite Forall_forall in H.
  specialize (H c Hin). rewrite Forall_forall in H.
  apply list_elem_of_fmap in Hp as (p & -> & Hp). split; [by apply H|].
  unfold getDefaultAdvancedCustomIncomingPath.
  assert (Forall (fun o : jsstr * jsstr => fst o <> []) (getAdvancedCustomIncomingPathOptions c.1.1)) as Hne.
  { apply Forall_forall. intros o Ho. apply list_elem_of_In, filter_In in Ho as [Ho _].
    apply list_elem_of_In in Ho. revert o Ho. apply Forall_forall. by repeat constructor. }
  destruct (getAdvancedCustomIncomingPathOptions c.1.1) as [|o l]; [by apply not_elem_of_nil in Hp|].
  apply Forall_cons in Hne as [Hne _]. simpl. unfold or_str.
  destruct (o.1) eqn:E; [done|]. simpl. rewrite <- E. left.
Qed.

Lemma converter_defaults_valid_witness :
  validateAdvancedCustomConfig (fun _ => None)
    (Some (config_of [default_route (js "anthropic_messages_to_openai_chat_completions") (js "/v1/messages")])) = None
  /\ getDefaultAdvancedCustomIncomingPath (js "anthropic_messages_to_openai_chat_completions")
     ∈ map fst (getAdvancedCustomIncomingPathOptions (js "anthropic_messages_to_openai_chat_completions")).
Proof. apply converter_defaults_valid; [reflexivity|left]. Defined.

Lemma or_opt_not_blank o d :
  trim d <> [] -> (forall s, o = Some s -> s = [] \/ trim s <> []) -> truthy_str (trim (or_opt o d)) = true.
Proof.
  intros Hd Ho. assert (trim (or_opt o d) <> []) as H; [|by destruct (trim (or_opt o d)) in H |- *].
  unfold or_opt, or_str. destruct o as [[|c s]|]; simpl; [done| |done].
  by destruct (Ho _ eq_refl).
Qed.

(** Choosing an auth mode in the editor gives an auth the selector reads back as
    that mode, and one the validation accepts whenever the previous name and value,
    where present, are not blank. *)
Theorem auth_mode_roundtrip r mode prev
    (Hn : forall s, prev ≫= auth_name = Some s -> s = [] \/ trim s <> [])
    (Hv : forall s, prev ≫= auth_value = Some s -> s = [] \/ trim s <> []) :
  let a := buildAdvancedCustomAuth mode prev in
  getAdvancedCustomAuthMode (mkRoute r.(incoming_path) r.(upstream_path) r.(converter) r.(models) a)
    = mode_name mode
  /\ validateRouteAuth a = None.
Proof.
  destruct mode; simpl; (split; [done|]); [done|done| |];
    unfold validateRouteAuth; simpl;
    rewrite !or_opt_not_blank by done; reflexivity.
Qed.

Lemma auth_mode_roundtrip_witness :
  validateRouteAuth (buildAdvancedCustomAuth mode_query (Some apiKeyHeaderAuth)) = None.
Proof.
  apply (auth_mode_roundtrip createAdvancedCustomRoute mode_query (Some apiKeyHeaderAuth));
    intros s [= <-]; right; vm_compute; discriminate.
Defined.

(** The rules typed into the editor as comma separated text come out trimmed, not
    empty and without duplicates, and the normalisation keeps them as they are. *)
Theorem parsed_models_canonical value :
  let ms := parseAdvancedCustomRouteModels value in
  NoDup ms /\ Forall (fun m => m <> [] /\ trim m = m) ms
  /\ normalizeAdvancedCustomRouteModels (Some ms) = ms
  /\ forall m, m ∈ ms <-> m <> [] /\ exists part, part ∈ split_on 44 value /\ m = trim part.
Proof.
  unfold parseAdvancedCustomRouteModels. set (l := map trim (split_on 44 value)).
  assert (forall m, m ∈ dedup (List.filter truthy_str l) <->
            m <> [] /\ exists part, part ∈ split_on 44 value /\ m = trim part) as Hin.
  { intros m. rewrite elem_of_dedup, list_elem_of_In, filter_In, <- list_elem_of_In.
    unfold l. rewrite list_elem_of_fmap. destruct m; simpl; naive_solver. }
  assert (Forall (fun m => m <> [] /\ trim m = m) (dedup (List.filter truthy_str l))) as Hf.
  { apply Forall_forall. intros m (Hm & p & _ & ->)%Hin. by rewrite trim_idem. }
  split_and!; [apply NoDup_dedup|done| |done].
  unfold normalizeAdvancedCustomRouteModels. simpl. clear Hin.
  induction Hf as [|m ms [Hne Ht] _ IH]; [done|]. simpl. rewrite Ht. by destruct m; simpl; [|rewrite IH].
Qed.

End AdvancedCustom.
