(* ===== verification/JsonString.v ===== *)
(** The part of [JSON.stringify] and [JSON.parse] that deals with strings, on lists
    of UTF-16 code units: quoting with the escapes of ECMAScript (lone surrogates
    included) and the strict parser, with the round trip between them. *)

From S2P Require Import Prelude.

(** A code unit. *)
Definition is_unit (c : Z) : bool := (0 <=? c) && (c <=? 65535).
Definition is_high (c : Z) : bool := (55296 <=? c) && (c <=? 56319).
Definition is_low (c : Z) : bool := (56320 <=? c) && (c <=? 57343).

Definition hex_digit (d : Z) : Z := if d <? 10 then 48 + d else 87 + d.

(** [\uXXXX] *)
Definition u_escape (c : Z) : jsstr :=
  [92; 117; hex_digit (c / 4096); hex_digit (c / 256 mod 16); hex_digit (c / 16 mod 16); hex_digit (c mod 16)].

(** The escape of one code unit that is not part of a surrogate pair. *)
Definition escape_unit (c : Z) : jsstr :=
  if c =? 34 then [92; 34]
  else if c =? 92 then [92; 92]
  else if c =? 8 then [92; 98]
  else if c =? 9 then [92; 116]
  else if c =? 10 then [92; 110]
  else if c =? 12 then [92; 102]
  else if c =? 13 then [92; 114]
  else if (c <? 32) || is_high c || is_low c then u_escape c
  else [c].

(** The body of the literal; [kept] says that the next unit is the second half of a
    surrogate pair whose first half was just written. *)
Fixpoint escape_body (kept : bool) (s : jsstr) : jsstr :=
  match s with
  | [] => []
  | c :: s' =>
      if kept then c :: escape_body false s'
      else match s' with
           | d :: _ => if is_high c && is_low d then c :: escape_body true s'
                       else escape_unit c ++ escape_body false s'
           | [] => escape_unit c
           end
  end.

(** [JSON.stringify(s)] of a string. *)
Definition json_quote (s : jsstr) : jsstr := 34 :: escape_body false s ++ [34].

Definition hex_val (c : Z) : option Z :=
  if (48 <=? c) && (c <=? 57) then Some (c - 48)
  else if (97 <=? c) && (c <=? 102) then Some (c - 87)
  else if (65 <=? c) && (c <=? 70) then Some (c - 55)
  else None.

(** The value of a one letter escape. *)
Definition short_escape (e : Z) : option Z :=
  if (e =? 34) || (e =? 92) || (e =? 47) then Some e
  else if e =? 98 then Some 8
  else if e =? 102 then Some 12
  else if e =? 110 then Some 10
  else if e =? 114 then Some 13
  else if e =? 116 then Some 9
  else None.

(** The string up to the closing quote, and the text after it. *)
Fixpoint unescape_body (s : jsstr) : option (jsstr * jsstr) :=
  match s with
  | [] => None
  | c :: s' =>
      if c =? 34 then Some ([], s')
      else if c <? 32 then None
      else if c =? 92 then
        match s' with
        | [] => None
        | e :: t =>
            if e =? 117 then
              match t with
              | h1 :: h2 :: h3 :: h4 :: t' =>
                  a ← hex_val h1; b ← hex_val h2; c ← hex_val h3; d ← hex_val h4;
                  '(w, rest) ← unescape_body t';
                  Some (4096 * a + 256 * b + 16 * c + d :: w, rest)
              | _ => None
              end
            else
              v ← short_escape e; '(w, rest) ← unescape_body t; Some (v :: w, rest)
        end
      else '(w, rest) ← unescape_body s'; Some (c :: w, rest)
  end.

(** [JSON.parse(s)] where [s] is a string literal and nothing else. *)
Definition json_unquote (s : jsstr) : option jsstr :=
  match s with
  | 34 :: s' => '(w, rest) ← unescape_body s'; match rest with [] => Some w | _ => None end
  | _ => None
  end.

(** ** The round trip *)

Lemma hex_digit_val d : 0 <= d < 16 -> hex_val (hex_digit d) = Some d.
Proof.
  intros H. unfold hex_digit, hex_val. destruct (d <? 10) eqn:E.
  - apply Z.ltb_lt in E.
    replace ((48 <=? 48 + d) && (48 + d <=? 57)) with true by (symmetry; apply andb_true_iff; lia).
    f_equal. lia.
  - apply Z.ltb_ge in E.
    replace ((48 <=? 87 + d) && (87 + d <=? 57)) with false by (symmetry; apply andb_false_iff; lia).
    replace ((97 <=? 87 + d) && (87 + d <=? 102)) with true by (symmetry; apply andb_true_iff; lia).
    f_equal. lia.
Qed.

Lemma top_digit c : 0 <= c <= 65535 -> 0 <= c / 4096 < 16.
Proof. intros. split; [apply Z.div_pos|apply Z.div_lt_upper_bound]; lia. Qed.

Lemma unescape_u c s w rest :
  is_unit c = true -> unescape_body s = Some (w, rest) ->
  unescape_body (u_escape c ++ s) = Some (c :: w, rest).
Proof.
  unfold is_unit. intros [Hc1 Hc2]%andb_true_iff Hs. apply Z.leb_le in Hc1, Hc2. simpl.
  rewrite !hex_digit_val by (try apply Z.mod_pos_bound; try apply top_digit; lia). simpl.
  rewrite Hs. simpl. f_equal. f_equal. f_equal.
  pose proof (Z.div_mod c 16). pose proof (Z.div_mod (c / 16) 16). pose proof (Z.div_mod (c / 256) 16).
  replace (c / 256) with (c / 16 / 16) in * by (by rewrite Z.div_div by lia).
  replace (c / 4096) with (c / 16 / 16 / 16) by (by rewrite !Z.div_div by lia). lia.
Qed.

Lemma unescape_unit c s w rest :
  is_unit c = true -> unescape_body s = Some (w, rest) ->
  unescape_body (escape_unit c ++ s) = Some (c :: w, rest).
Proof.
  intros Hc Hs. unfold escape_unit.
  repeat match goal with
  | |- context [if c =? ?k then [_; _] else _] =>
      destruct (Z.eqb_spec c k) as [->|]; [simpl; by rewrite Hs|]
  end.
  destruct (_ || is_low c) eqn:E; [by apply unescape_u|].
  apply orb_false_iff in E as [[E%Z.ltb_ge _]%orb_false_iff _]. simpl.
  rewrite (proj2 (Z.eqb_neq c 34)), (proj2 (Z.ltb_ge c 32)), (proj2 (Z.eqb_neq c 92)) by lia.
  by rewrite Hs.
Qed.

Lemma unescape_escape s : forall kept rest,
  Forall (fun c => is_unit c = true) s ->
  (kept = true -> exists c s', s = c :: s' /\ is_low c = true) ->
  unescape_body (escape_body kept s ++ 34 :: rest) = Some (s, rest).
Proof.
  induction s as [|c s IH]; intros kept rest Hu Hk; [done|].
  apply Forall_cons in Hu as [Hc Hu].
  assert (forall c k, is_high c = true \/ is_low c = true ->
            (k = true -> exists c s', s = c :: s' /\ is_low c = true) ->
            unescape_body (c :: escape_body k s ++ 34 :: rest) = Some (c :: s, rest)) as Hkeep.
  { intros x k Hx Hk'. unfold is_high, is_low in Hx. simpl.
    rewrite (proj2 (Z.eqb_neq x 34)), (proj2 (Z.ltb_ge x 32)), (proj2 (Z.eqb_neq x 92)) by lia.
    by rewrite IH. }
  destruct kept; cbn [escape_body].
  - destruct (Hk eq_refl) as (? & ? & [= <- <-] & Hl). simpl. apply Hkeep; auto. done.
  - destruct s as [|d s']; [by apply unescape_unit|].
    destruct (is_high c && is_low d) eqn:E.
    + apply andb_true_iff in E as [E1 E2]. apply Hkeep; eauto.
    + rewrite <- app_assoc. apply unescape_unit; [done|]. by apply IH.
Qed.

(** [JSON.parse(JSON.stringify(s)) === s] *)
Lemma json_roundtrip s :
  Forall (fun c => is_unit c = true) s -> json_unquote (json_quote s) = Some s.
Proof. intros H. simpl. by rewrite unescape_escape. Qed.

(** ** What a quoted string is made of *)

(** A code unit that needs no escape. *)
Definition is_plain (c : Z) : bool :=
  negb (c <? 32) && negb (c =? 34) && negb (c =? 92) && negb (is_high c) && negb (is_low c).

Lemma escape_plain s : Forall (fun c => is_plain c = true) s -> escape_body false s = s.
Proof.
  induction 1 as [|c s Hc Hs IH]; [done|]. cbn [escape_body].
  assert (is_high c = false /\ escape_unit c = [c]) as [Eh Ee].
  { unfold is_plain in Hc. rewrite !andb_true_iff, !negb_true_iff in Hc.
    destruct Hc as ((((? & ?) & ?) & Hh) & Hl). split; [done|]. unfold escape_unit.
    rewrite H0, H1, H, Hh, Hl. simpl.
    by rewrite !(proj2 (Z.eqb_neq c _)) by (apply Z.ltb_ge in H; lia). }
  destruct s as [|d s']; [done|]. rewrite Eh, Ee. simpl andb. cbn iota. by rewrite IH.
Qed.

Lemma json_quote_plain s : Forall (fun c => is_plain c = true) s -> json_quote s = 34 :: s ++ [34].
Proof. intros H. unfold json_quote. by rewrite escape_plain. Qed.

(** The units of an escape other than the one escaped: backslash, quote, lower case
    letters and digits. *)
Definition is_escape_char (c : Z) : bool :=
  (c =? 92) || (c =? 34) || ((48 <=? c) && (c <=? 57)) || ((97 <=? c) && (c <=? 122)).

Lemma hex_digit_escape_char d : 0 <= d < 16 -> is_escape_char (hex_digit d) = true.
Proof.
  intros H. unfold hex_digit, is_escape_char. destruct (d <? 10) eqn:E;
    [apply Z.ltb_lt in E|apply Z.ltb_ge in E];
    rewrite !orb_true_iff, !andb_true_iff; lia.
Qed.

Lemma escape_unit_elem c x : is_unit c = true -> x ∈ escape_unit c -> x = c \/ is_escape_char x = true.
Proof.
  unfold is_unit. intros [H1%Z.leb_le H2%Z.leb_le]%andb_true_iff. unfold escape_unit.
  repeat match goal with
  | |- context [if c =? ?k then [_; _] else _] =>
      destruct (Z.eqb_spec c k) as [->|]; [rewrite !elem_of_cons, elem_of_nil; naive_solver|]
  end.
  destruct (_ || is_low c); [|rewrite elem_of_cons, elem_of_nil; naive_solver].
  unfold u_escape. rewrite !elem_of_cons, elem_of_nil.
  intros Hx. right. repeat destruct Hx as [->|Hx]; try done;
    apply hex_digit_escape_char; try apply Z.mod_pos_bound; try apply top_digit; lia.
Qed.

Lemma escape_body_elem s : forall kept x,
  Forall (fun c => is_unit c = true) s ->
  x ∈ escape_body kept s -> x ∈ s \/ is_escape_char x = true.
Proof.
  induction s as [|c s IH]; intros kept x Hu; cbn [escape_body]; [auto|].
  apply Forall_cons in Hu as [Hc Hu].
  assert (forall k, x ∈ c :: escape_body k s -> x ∈ c :: s \/ is_escape_char x = true) as Hkeep.
  { intros k [->|Hx]%elem_of_cons; [left; left|]. destruct (IH k x Hu Hx); [left; by right|auto]. }
  assert (x ∈ escape_unit c ++ escape_body false s -> x ∈ c :: s \/ is_escape_char x = true) as Hesc.
  { intros [Hx|Hx]%elem_of_app.
    - destruct (escape_unit_elem c x Hc Hx) as [->|?]; [left; left|auto].
    - destruct (IH _ x Hu Hx); [left; by right|auto]. }
  destruct kept; [apply Hkeep|]. destruct s as [|d s'].
  - intros Hx. apply Hesc. apply elem_of_app. by left.
  - destruct (is_high c && is_low d); [apply Hkeep|apply Hesc].
Qed.

Lemma json_quote_elem s x :
  Forall (fun c => is_unit c = true) s -> x ∈ json_quote s -> x ∈ s \/ is_escape_char x = true.
Proof.
  intros Hu. unfold json_quote. rewrite elem_of_cons, elem_of_app, elem_of_cons, elem_of_nil.
  intros [->|[Hx|[->|[]]]]; [by right| |by right]. by eapply escape_body_elem.
Qed.

Example quote_ex : json_quote (js "a") ++ json_quote [34; 10; 55357; 56832; 55357] =
  [34; 97; 34; 34; 92; 34; 92; 110; 55357; 56832; 92; 117; 100; 56; 51; 100; 34].
Proof. reflexivity. Qed.
