(* ===== verification/Scan.v ===== *)
(** Scanning combinators: the anchored regular expressions of the sources are
    deterministic (each repeated class excludes what follows it), so each is
    modelled as a left to right scan made of these pieces. *)

From S2P Require Import Prelude.

(** A literal: the text after it. *)
Fixpoint eat (p s : jsstr) : option jsstr :=
  match p, s with
  | [], _ => Some s
  | a :: p', b :: s' => if a =? b then eat p' s' else None
  | _ :: _, [] => None
  end.

(** A greedy class [[P]*]: what it takes and what is left. *)
Fixpoint span (P : Z -> bool) (s : jsstr) : jsstr * jsstr :=
  match s with
  | [] => ([], [])
  | c :: s' => if P c then (let '(a, b) := span P s' in (c :: a, b)) else ([], s)
  end.

(** [[P]+] *)
Definition span1 (P : Z -> bool) (s : jsstr) : option (jsstr * jsstr) :=
  match span P s with ([], _) => None | ab => Some ab end.

(** An ordered choice of literals; none may be a prefix of another. *)
Fixpoint eat_one (ps : list jsstr) (s : jsstr) : option (jsstr * jsstr) :=
  match ps with
  | [] => None
  | p :: ps' => match eat p s with Some r => Some (p, r) | None => eat_one ps' s end
  end.

(** A literal at the end of the text: the text before it. *)
Definition eat_end (p s : jsstr) : option jsstr := reverse <$> eat (reverse p) (reverse s).

(** [$] *)
Definition at_end (s : jsstr) : option unit := match s with [] => Some tt | _ => None end.

(** ** Lemmas *)

Lemma eat_app p s : eat p (p ++ s) = Some s.
Proof. induction p as [|a p IH]; simpl; [done|]. by rewrite Z.eqb_refl. Qed.

Lemma eat_Some p s r : eat p s = Some r <-> s = p ++ r.
Proof.
  split; [|intros ->; apply eat_app]. revert s. induction p as [|a p IH]; intros s; simpl.
  - by intros [= ->].
  - destruct s as [|b s]; [done|]. destruct (Z.eqb_spec a b) as [->|]; [|done].
    intros H. by rewrite (IH _ H).
Qed.

Lemma eat_within p q q' s : eat p q = Some q' -> eat p (q ++ s) = Some (q' ++ s).
Proof. rewrite !eat_Some. intros ->. by rewrite app_assoc. Qed.

(** Two literals that differ at a position both have. *)
Fixpoint clash (p q : jsstr) : bool :=
  match p, q with
  | a :: p', b :: q' => negb (a =? b) || clash p' q'
  | _, _ => false
  end.

Lemma eat_clash p q s : clash p q = true -> eat p (q ++ s) = None.
Proof.
  revert q. induction p as [|a p IH]; intros [|b q]; simpl; try done.
  destruct (a =? b); simpl; [|done]. apply IH.
Qed.

Lemma eat_end_app p s : eat_end p (s ++ p) = Some s.
Proof. unfold eat_end. rewrite reverse_app, eat_app. simpl. by rewrite reverse_involutive. Qed.

Lemma span_app P a b :
  Forall (fun c => P c = true) a -> match b with [] => True | c :: _ => P c = false end ->
  span P (a ++ b) = (a, b).
Proof.
  induction 1 as [|c a Hc _ IH]; simpl; intros Hb.
  - destruct b as [|d b]; simpl; [done|]. by rewrite Hb.
  - rewrite Hc, IH by done. done.
Qed.

Lemma span_spec P s a b : span P s = (a, b) -> s = a ++ b /\ Forall (fun c => P c = true) a.
Proof.
  revert a b. induction s as [|c s IH]; simpl; intros a b.
  - intros [= <- <-]. by split.
  - destruct (P c) eqn:E; [|intros [= <- <-]; by split].
    destruct (span P s) as [a' b']. intros [= <- <-]. destruct (IH a' b' eq_refl) as [-> Hf].
    split; [done|by constructor].
Qed.

Lemma span1_app P a b :
  a <> [] -> Forall (fun c => P c = true) a -> match b with [] => True | c :: _ => P c = false end ->
  span1 P (a ++ b) = Some (a, b).
Proof. intros Ha Hf Hb. unfold span1. rewrite span_app by done. by destruct a. Qed.

Lemma span1_all P a : a <> [] -> Forall (fun c => P c = true) a -> span1 P a = Some (a, []).
Proof. intros Ha Hf. rewrite <- (app_nil_r a) at 1. by apply span1_app. Qed.

Lemma eat_one_here p ps r s :
  Forall (fun q => clash q p = true) r -> eat_one (r ++ p :: ps) (p ++ s) = Some (p, s).
Proof.
  induction 1 as [|q r Hq _ IH]; simpl; [by rewrite eat_app|].
  by rewrite eat_clash.
Qed.

Lemma eat_one_clash ps q s : Forall (fun p => clash p q = true) ps -> eat_one ps (q ++ s) = None.
Proof. induction 1 as [|p ps Hp _ IH]; simpl; [done|]. by rewrite eat_clash. Qed.
