(* ===== verification/Regex.v ===== *)
(** Regular expressions as ECMA-262 runs them: a backtracking matcher in continuation
    passing style with capture groups, greedy quantifiers that refuse empty
    iterations, and the calls the console makes of it ([match], [exec] with the flag
    [g], [split], [replace], [test]).  The language of an expression and the
    soundness of the matcher for it are what the proofs about concrete patterns
    rest on. *)

From S2P Require Import Prelude.

Declare Scope regex_scope.
Delimit Scope regex_scope with re.

(** ** Syntax *)

Inductive re :=
| Eps
| Cls (P : Z -> bool)
| Seq (a b : re)
| Alt (a b : re)
| Star (a : re)
| Opt (a : re)
| Grp (n : nat) (a : re)
| Bol
| Eol
| WordB.

Definition Plus (a : re) : re := Seq a (Star a).
Definition Chr (c : Z) : re := Cls (Z.eqb c).

(** A literal text. *)
Fixpoint Lit (s : jsstr) : re := match s with [] => Eps | c :: s => Seq (Chr c) (Lit s) end.
Definition lit (s : string) : re := Lit (js s).

(** [\s], [\d], [\w] *)
Definition space : re := Cls is_space.
Definition digit : re := Cls is_digit.
Definition is_word (c : Z) : bool :=
  is_digit c || ((65 <=? c) && (c <=? 90)) || ((97 <=? c) && (c <=? 122)) || (c =? 95).

(** The character class of the units of a text, and its complement. *)
Definition in_text (s : string) (c : Z) : bool := bool_decide (c ∈ js s).

Infix "⋅" := Seq (at level 46, right associativity) : regex_scope.
Infix "∥" := Alt (at level 47, right associativity) : regex_scope.

(** ** The matcher *)

(** The text already passed, last unit first; the text to come; the captures, last first. *)
Record mstate := mkM { before : jsstr; rest : jsstr; caps : list (nat * jsstr) }.

(** The groups of an expression: an iteration starts with them undefined. *)
Fixpoint groups (r : re) : list nat :=
  match r with
  | Eps | Cls _ | Bol | Eol | WordB => []
  | Seq a b | Alt a b => groups a ++ groups b
  | Star a | Opt a => groups a
  | Grp n a => n :: groups a
  end.

Definition clear (gs : list nat) (x : mstate) : mstate :=
  match gs with
  | [] => x
  | _ => mkM (before x) (rest x) (List.filter (fun p => negb (bool_decide (p.1 ∈ gs))) (caps x))
  end.

Definition progress (x y : mstate) : bool := (length (rest y) <? length (rest x))%nat.

Definition at_boundary (x : mstate) : bool :=
  let w o := match o with Some c => is_word c | None => false end in
  xorb (w (head (before x))) (w (head (rest x))).

Section Matcher.
Context {A : Type}.
Notation cont := (mstate -> option A).

(** The greedy loop of [a*]; every iteration consumes, so the length of the text is
    fuel enough. *)
Fixpoint star_loop (m : cont -> cont) (gs : list nat) (k : cont) (n : nat) (x : mstate) : option A :=
  match n with
  | O => k x
  | S n =>
      match m (fun y => if progress x y then star_loop m gs k n y else None) (clear gs x) with
      | Some v => Some v
      | None => k x
      end
  end.

Fixpoint rmatch (r : re) (k : cont) (x : mstate) {struct r} : option A :=
  match r with
  | Eps => k x
  | Cls P =>
      match rest x with
      | c :: s => if P c then k (mkM (c :: before x) s (caps x)) else None
      | [] => None
      end
  | Seq a b => rmatch a (rmatch b k) x
  | Alt a b => match rmatch a k x with Some v => Some v | None => rmatch b k x end
  | Star a => star_loop (rmatch a) (groups a) k (length (rest x)) x
  | Opt a =>
      match rmatch a (fun y => if progress x y then k y else None) (clear (groups a) x) with
      | Some v => Some v
      | None => k x
      end
  | Grp n a =>
      rmatch a (fun y => k (mkM (before y) (rest y)
                              ((n, take (length (rest x) - length (rest y)) (rest x)) :: caps y))) x
  | Bol => match before x with [] => k x | _ => None end
  | Eol => match rest x with [] => k x | _ => None end
  | WordB => if at_boundary x then k x else None
  end.

End Matcher.

(** The text of a group. *)
Fixpoint cap_in (n : nat) (cs : list (nat * jsstr)) : option jsstr :=
  match cs with
  | [] => None
  | (i, s) :: cs => if (i =? n)%nat then Some s else cap_in n cs
  end.
Definition cap (n : nat) (x : mstate) : option jsstr := cap_in n (caps x).

(** ** The calls *)

(** A match at the first place that has one: the text before it and where it ends. *)
Fixpoint search (r : re) (b s : jsstr) : option (jsstr * mstate) :=
  match rmatch r Some (mkM b s []) with
  | Some y => Some ([], y)
  | None =>
      match s with
      | [] => None
      | c :: s => match search r (c :: b) s with Some (u, y) => Some (c :: u, y) | None => None end
      end
  end.

(** [s.match(r)] and [r.test(s)] *)
Definition re_match (r : re) (s : jsstr) : option mstate := snd <$> search r [] s.
Definition re_test (r : re) (s : jsstr) : bool := bool_decide (is_Some (re_match r s)).

(** [while ((m = r.exec(s)) !== null)] of a global expression that matches no empty text. *)
Fixpoint exec_all (fuel : nat) (r : re) (b s : jsstr) : list mstate :=
  match fuel with
  | O => []
  | S fuel =>
      match search r b s with
      | Some (_, y) => y :: exec_all fuel r (before y) (rest y)
      | None => []
      end
  end.
Definition re_exec_all (r : re) (s : jsstr) : list mstate := exec_all (S (length s)) r [] s.

(** [s.split(r)] for an expression without groups: [acc] is the part being read, last
    unit first; an empty match separates nothing. *)
Fixpoint split_from (fuel : nat) (r : re) (b acc s : jsstr) : list jsstr :=
  match fuel, s with
  | O, _ | _, [] => [reverse acc]
  | S fuel, c :: s' =>
      match rmatch r Some (mkM b s []) with
      | Some y =>
          if (length (rest y) <? length s)%nat
          then reverse acc :: split_from fuel r (before y) [] (rest y)
          else split_from fuel r (c :: b) (c :: acc) s'
      | None => split_from fuel r (c :: b) (c :: acc) s'
      end
  end.
Definition re_split (r : re) (s : jsstr) : list jsstr := split_from (S (length s)) r [] [] s.

(** ** The language of an expression *)

Inductive star_lang (L : jsstr -> Prop) : jsstr -> Prop :=
| star_nil : star_lang L []
| star_more w1 w2 : L w1 -> star_lang L w2 -> star_lang L (w1 ++ w2).

(** The assertions are left out: the language contains all that can be matched. *)
Fixpoint lang (r : re) (w : jsstr) : Prop :=
  match r with
  | Eps | Bol | Eol | WordB => w = []
  | Cls P => exists c, w = [c] /\ P c = true
  | Seq a b => exists w1 w2, w = w1 ++ w2 /\ lang a w1 /\ lang b w2
  | Alt a b => lang a w \/ lang b w
  | Star a => star_lang (lang a) w
  | Opt a => w = [] \/ lang a w
  | Grp _ a => lang a w
  end.

(** [y] is reached from [x] by passing [w]. *)
Definition passes (w : jsstr) (x y : mstate) : Prop :=
  rest x = w ++ rest y /\ before y = reverse w ++ before x.

Lemma passes_nil x : passes [] x x.
Proof. done. Qed.

Lemma passes_app w1 w2 x y z : passes w1 x y -> passes w2 y z -> passes (w1 ++ w2) x z.
Proof.
  intros [H1 H2] [H3 H4]. split; [by rewrite H1, H3, app_assoc|]. by rewrite H4, H2, reverse_app, app_assoc.
Qed.

Lemma passes_clear gs w x y : passes w (clear gs x) y <-> passes w x y.
Proof. unfold passes, clear. by destruct gs. Qed.

Lemma clear_rest gs x : rest (clear gs x) = rest x.
Proof. by destruct gs. Qed.

Lemma passes_progress w x y : passes w x y -> progress x y = bool_decide (w <> []).
Proof.
  intros [H _]. unfold progress. rewrite H, length_app. destruct w; [by apply Nat.ltb_irrefl|].
  rewrite bool_decide_eq_true_2 by done. apply Nat.ltb_lt. simpl. lia.
Qed.

Lemma progress_app w s b c b' c' : w <> [] -> progress (mkM b (w ++ s) c) (mkM b' s c') = true.
Proof. intros H. unfold progress. cbn [rest]. apply Nat.ltb_lt. rewrite length_app. destruct w; [done|]. simpl. lia. Qed.

Section Laws.
Context {A : Type}.
Implicit Types (k : mstate -> option A) (x y : mstate) (v : A).

Lemma rmatch_sound r : forall k x v,
  rmatch r k x = Some v -> exists w y, lang r w /\ passes w x y /\ k y = Some v.
Proof.
  induction r as [|P|a IHa b IHb|a IHa b IHb|a IHa|a IHa|n a IHa| | |]; intros k x v H; cbn [rmatch] in H.
  - by exists [], x.
  - destruct (rest x) as [|c s] eqn:E; [done|]. destruct (P c) eqn:Ec; [|done].
    exists [c]. eexists. split; [by exists c|]. split; [|exact H]. split; [by rewrite E|done].
  - apply IHa in H as (w1 & y & L1 & P1 & H). apply IHb in H as (w2 & z & L2 & P2 & H).
    exists (w1 ++ w2), z. split; [by exists w1, w2|]. eauto using passes_app.
  - destruct (rmatch a k x) eqn:E.
    + injection H as <-. apply IHa in E as (w & y & ? & ?). exists w, y. naive_solver.
    + apply IHb in H as (w & y & ? & ?). exists w, y. naive_solver.
  - revert H. generalize (length (rest x)) as n. intros n. revert x. induction n as [|n IH]; intros x H; cbn [star_loop] in H.
    { exists [], x. by split; [constructor|]. }
    destruct (rmatch a _ _) eqn:E.
    + injection H as <-. apply IHa in E as (w1 & y & L1 & P1 & E). destruct (progress x y); [|done].
      apply IH in E as (w2 & z & L2 & P2 & E). apply passes_clear in P1.
      exists (w1 ++ w2), z. split; [by constructor|]. eauto using passes_app.
    + exists [], x. by split; [constructor|].
  - destruct (rmatch a _ _) eqn:E.
    + injection H as <-. apply IHa in E as (w & y & ? & Hp & E). apply passes_clear in Hp. destruct (progress x y); [|done].
      exists w, y. cbn. intuition.
    + exists [], x. cbn. eauto using passes_nil.
  - apply IHa in H as (w & y & L & P & H). eexists w, _. split; [exact L|]. split; [|exact H]. exact P.
  - destruct (before x) eqn:E; [|done]. by exists [], x.
  - destruct (rest x) eqn:E; [|done]. by exists [], x.
  - destruct (at_boundary x); [|done]. by exists [], x.
Qed.

(** No word of the language begins the text. *)
Lemma rmatch_none r k x :
  (forall w s, rest x = w ++ s -> lang r w -> False) -> rmatch r k x = None.
Proof.
  intros H. destruct (rmatch r k x) eqn:E; [|done]. apply rmatch_sound in E as (w & y & L & [P _] & _). by destruct (H w (rest y)).
Qed.

Lemma rmatch_ext r : forall k1 k2 x, (forall y, k1 y = k2 y) -> rmatch r k1 x = rmatch r k2 x.
Proof.
  induction r as [|P|a IHa b IHb|a IHa b IHb|a IHa|a IHa|n a IHa| | |]; intros k1 k2 x H; cbn [rmatch]; try done.
  - destruct (rest x); [done|]. by destruct (P z).
  - by apply IHa; intros; apply IHb.
  - by rewrite (IHa k1 k2), (IHb k1 k2).
  - generalize (length (rest x)) as n. intros n. revert x. induction n as [|n IH]; intros x; cbn [star_loop]; [done|].
    rewrite (IHa _ (fun y => if progress x y then star_loop (rmatch a) (groups a) k2 n y else None)) by (intros y; by destruct (progress x y)).
    by rewrite H.
  - rewrite (IHa _ (fun y => if progress x y then k2 y else None)) by (intros y; by destruct (progress x y)). by rewrite H.
  - by apply IHa.
  - by destruct (before x).
  - by destruct (rest x).
  - by destruct (at_boundary x).
Qed.

Lemma star_loop_fuel a k n : forall m x,
  (length (rest x) <= n)%nat -> (length (rest x) <= m)%nat ->
  star_loop (rmatch a) (groups a) k n x = star_loop (rmatch a) (groups a) k m x.
Proof.
  assert (forall x j, (length (rest x) = 0)%nat -> star_loop (rmatch a) (groups a) k j x = k x) as Hend.
  { intros x j H. destruct j; [done|]. cbn [star_loop]. destruct (rmatch a _ _) eqn:E; [|done].
    apply rmatch_sound in E as (w & y & _ & _ & E). unfold progress in E. rewrite H in E. by destruct (length (rest y)). }
  induction n as [|n IH]; intros m x Hn Hm.
  { by rewrite !Hend by lia. }
  destruct m as [|m]; [by rewrite !Hend by lia|]. cbn [star_loop].
  rewrite (rmatch_ext a _ (fun y => if progress x y then star_loop (rmatch a) (groups a) k m y else None)); [done|].
  intros y. destruct (progress x y) eqn:Hp; [|done]. apply Nat.ltb_lt in Hp. apply IH; lia.
Qed.

Lemma rmatch_star a k x :
  rmatch (Star a) k x
  = match rmatch a (fun y => if progress x y then rmatch (Star a) k y else None) (clear (groups a) x) with
    | Some v => Some v
    | None => k x
    end.
Proof.
  cbn [rmatch]. rewrite (star_loop_fuel a k _ (S (length (rest x)))) by lia. cbn [star_loop].
  rewrite (rmatch_ext a _ (fun y => if progress x y then star_loop (rmatch a) (groups a) k (length (rest y)) y else None)); [done|].
  intros y. destruct (progress x y) eqn:Hp; [|done]. apply Nat.ltb_lt in Hp. apply star_loop_fuel; lia.
Qed.

(** ** Steps of a successful match *)

Lemma rmatch_Seq a b k x : rmatch (Seq a b) k x = rmatch a (rmatch b k) x.
Proof. done. Qed.

Lemma rmatch_Bol k s c : rmatch Bol k (mkM [] s c) = k (mkM [] s c).
Proof. done. Qed.

Lemma rmatch_Lit p k b s c : rmatch (Lit p) k (mkM b (p ++ s) c) = k (mkM (reverse p ++ b) s c).
Proof.
  revert b. induction p as [|u p IH]; intros b; [done|].
  cbn [Lit Chr rmatch rest before caps app]. by rewrite Z.eqb_refl, IH, reverse_cons, <- app_assoc.
Qed.

Lemma star_stop a k x :
  (forall w s, rest x = w ++ s -> w <> [] -> lang a w -> False) -> rmatch (Star a) k x = k x.
Proof.
  intros H. rewrite rmatch_star. destruct (rmatch a _ _) eqn:E; [|done].
  apply rmatch_sound in E as (w & y & L & P & E). apply passes_clear in P. rewrite (passes_progress _ _ _ P) in E.
  case_bool_decide; [|done]. destruct P as [P _]. by destruct (H w (rest y)).
Qed.

Lemma star_step a k x v :
  rmatch a (fun y => if progress x y then rmatch (Star a) k y else None) (clear (groups a) x) = Some v ->
  rmatch (Star a) k x = Some v.
Proof. intros H. by rewrite rmatch_star, H. Qed.

(** A greedy run of a class that the text ends at once. *)
Definition stops (P : Z -> bool) (s : jsstr) : Prop := match s with [] => True | c :: _ => P c = false end.

Lemma star_run P k run b s c v :
  Forall (fun u => P u = true) run -> stops P s ->
  k (mkM (reverse run ++ b) s c) = Some v -> rmatch (Star (Cls P)) k (mkM b (run ++ s) c) = Some v.
Proof.
  intros Hr Hs. revert b. induction Hr as [|u run Hu _ IH]; intros b H.
  - rewrite star_stop; [done|]. cbn. intros w t E Hne (d & -> & Hd). destruct s as [|d' s]; [done|].
    cbn in E. injection E as -> _. cbn in Hs. congruence.
  - apply star_step. cbn [rmatch groups clear rest before caps app]. rewrite Hu. unfold progress. cbn [rest].
    assert (length (run ++ s) <? length (u :: run ++ s) = true)%nat as -> by (apply Nat.ltb_lt; simpl; lia).
    apply IH. revert H. rewrite reverse_cons, <- app_assoc. done.
Qed.

Lemma plus_run P k run b s c v :
  run <> [] -> Forall (fun u => P u = true) run -> stops P s ->
  k (mkM (reverse run ++ b) s c) = Some v -> rmatch (Plus (Cls P)) k (mkM b (run ++ s) c) = Some v.
Proof.
  intros Hne Hr Hs H. destruct Hr as [|u run Hu Hr]; [done|]. unfold Plus. cbn [rmatch rest app]. rewrite Hu. cbn [before caps].
  rewrite reverse_cons, <- app_assoc in H. exact (star_run P k run (u :: b) s c v Hr Hs H).
Qed.

Lemma opt_some a k x v :
  rmatch a (fun y => if progress x y then k y else None) (clear (groups a) x) = Some v -> rmatch (Opt a) k x = Some v.
Proof. intros H. cbn [rmatch]. by rewrite H. Qed.

Lemma opt_none a k x :
  (forall w s, rest x = w ++ s -> w <> [] -> lang a w -> False) -> rmatch (Opt a) k x = k x.
Proof.
  intros H. cbn [rmatch]. destruct (rmatch a _ _) eqn:E; [|done].
  apply rmatch_sound in E as (w & y & L & P & E). apply passes_clear in P. rewrite (passes_progress _ _ _ P) in E.
  case_bool_decide; [|done]. destruct P as [P _]. by destruct (H w (rest y)).
Qed.

(** A group whose expression passes [w] records [w]. *)
Lemma group_some n a k b w s c v :
  rmatch a (fun y => k (mkM (before y) (rest y) ((n, take (length (w ++ s) - length (rest y)) (w ++ s)) :: caps y))) (mkM b (w ++ s) c) = Some v ->
  rmatch (Grp n a) k (mkM b (w ++ s) c) = Some v.
Proof. done. Qed.

Lemma captured (w s : jsstr) : take (length (w ++ s) - length s) (w ++ s) = w.
Proof. rewrite length_app. rewrite take_app_length'; [done|lia]. Qed.

Lemma group_run n P k run b s c v :
  run <> [] -> Forall (fun u => P u = true) run -> stops P s ->
  k (mkM (reverse run ++ b) s ((n, run) :: c)) = Some v ->
  rmatch (Grp n (Plus (Cls P))) k (mkM b (run ++ s) c) = Some v.
Proof.
  intros Hne Hr Hs H. apply group_some. apply plus_run; try done. cbn [before rest caps]. by rewrite captured.
Qed.

Lemma group_star_run n P k run b s c v :
  Forall (fun u => P u = true) run -> stops P s ->
  k (mkM (reverse run ++ b) s ((n, run) :: c)) = Some v ->
  rmatch (Grp n (Star (Cls P))) k (mkM b (run ++ s) c) = Some v.
Proof.
  intros Hr Hs H. apply group_some. apply star_run; try done. cbn [before rest caps]. by rewrite captured.
Qed.

(** Captures of smaller groups survive the start of an iteration. *)
Lemma clear_fresh gs b s c :
  (forall p, p ∈ c -> p.1 ∉ gs) -> clear gs (mkM b s c) = mkM b s c.
Proof.
  intros H. unfold clear. destruct gs as [|g gs]; [done|]. cbn [before rest caps]. f_equal.
  induction c as [|p c IH]; [done|]. cbn [List.filter]. rewrite bool_decide_eq_false_2 by (apply H; left).
  cbn. rewrite IH; [done|]. intros q Hq. apply H. by right.
Qed.

End Laws.

(** ** Words *)

Lemma lang_Lit p w : lang (Lit p) w <-> w = p.
Proof.
  revert w. induction p as [|c p IH]; intros w; [done|]. cbn. split.
  - intros (w1 & w2 & -> & (d & -> & Hd%Z.eqb_eq) & ->%IH). by subst.
  - intros ->. exists [c], p. split_and!; [done| |by apply IH]. exists c. split; [done|]. apply Z.eqb_refl.
Qed.

Lemma star_lang_Forall P w : star_lang (fun w => exists c, w = [c] /\ P c = true) w <-> Forall (fun c => P c = true) w.
Proof.
  split.
  - induction 1 as [|w1 w2 (c & -> & H) _ IH]; [constructor|]. by constructor.
  - induction 1 as [|c w H _ IH]; [constructor|]. apply (star_more _ [c]); [by exists c|done].
Qed.

Lemma lang_Star_Cls P w : lang (Star (Cls P)) w <-> Forall (fun c => P c = true) w.
Proof. apply star_lang_Forall. Qed.

(** A unit that no class of the expression has. *)
Fixpoint never (u : Z) (r : re) : bool :=
  match r with
  | Cls P => negb (P u)
  | Seq a b | Alt a b => never u a && never u b
  | Star a | Opt a | Grp _ a => never u a
  | _ => true
  end.

Lemma never_lang u r : never u r = true -> forall w, lang r w -> u ∉ w.
Proof.
  induction r as [|P|a IHa b IHb|a IHa b IHb|a IHa|a IHa|n a IHa| | |]; cbn [never lang]; intros Hn w Hw;
    try (subst w; apply not_elem_of_nil).
  - destruct Hw as (c & -> & Hc). intros ->%list_elem_of_singleton. by rewrite Hc in Hn.
  - apply andb_true_iff in Hn as [Ha Hb]. destruct Hw as (w1 & w2 & -> & H1 & H2). rewrite not_elem_of_app. auto.
  - apply andb_true_iff in Hn as [Ha Hb]. destruct Hw; auto.
  - induction Hw as [|w1 w2 H1 _ IH]; [apply not_elem_of_nil|]. rewrite not_elem_of_app. auto.
  - destruct Hw as [->|Hw]; [apply not_elem_of_nil|auto].
  - auto.
Qed.

Lemma groups_Lit p : groups (Lit p) = [].
Proof. by induction p. Qed.

(** ** Searching *)

Lemma search_skip r b c s :
  rmatch r Some (mkM b (c :: s) []) = None ->
  search r b (c :: s) = match search r (c :: b) s with Some (u, y) => Some (c :: u, y) | None => None end.
Proof. intros H. cbn [search]. by rewrite H. Qed.

Lemma search_here r b s y : rmatch r Some (mkM b s []) = Some y -> search r b s = Some ([], y).
Proof. intros H. destruct s; cbn [search]; by rewrite H. Qed.

(** An expression that is bound to the start of the text. *)
Lemma search_bol_none r s : rmatch r Some (mkM [] s []) = None -> search (Seq Bol r) [] s = None.
Proof.
  intros H. assert (forall s b, b <> [] -> search (Seq Bol r) b s = None) as Hlate.
  { clear. induction s as [|c s IH]; intros b Hb; destruct b as [|u b]; try done. cbn. by rewrite IH. }
  destruct s as [|c s]; cbn [search]; rewrite rmatch_Seq, rmatch_Bol, H; [done|]. by rewrite Hlate.
Qed.

(** A unit all words of the language have, and the text has not. *)
Lemma search_missing r u b s :
  (forall w, lang r w -> u ∈ w) -> u ∉ s -> search r b s = None.
Proof.
  intros Hl. revert b. induction s as [|c s IH]; intros b Hu; cbn [search].
  - rewrite rmatch_none; [done|]. cbn. intros w t E L. symmetry in E. apply app_nil in E as [-> ->]. by apply Hl, elem_of_nil in L.
  - rewrite rmatch_none.
    + rewrite IH; [done|]. intros H. apply Hu. by right.
    + cbn. intros w t E L. apply Hu. rewrite E. apply elem_of_app. left. by apply Hl.
Qed.

(** Every match of the language starts with a unit of [P]. *)
Lemma search_skips r P b u s :
  (forall w, lang r w -> exists c w', w = c :: w' /\ P c = true) -> Forall (fun c => P c = false) u ->
  search r b (u ++ s) = match search r (reverse u ++ b) s with Some (u', y) => Some (u ++ u', y) | None => None end.
Proof.
  intros Hl Hu. revert b. induction Hu as [|c u Hc _ IH]; intros b; cbn [app].
  - change (reverse [] ++ b) with b. by destruct (search r b s) as [[]|].
  - rewrite search_skip.
    + rewrite IH, reverse_cons, <- app_assoc. cbn [app]. by destruct (search r _ s) as [[]|].
    + apply rmatch_none. cbn. intros w t E L. destruct (Hl w L) as (d & w' & -> & Hd). cbn in E. injection E as -> _. congruence.
Qed.
