(* ===== verification/NumText.v ===== *)
(** Numbers and their texts: [String(x)], [Number(s)] and [x.toFixed(n)] of ECMA-262,
    on the doubles of [JsValue]. A double is compared with decimals exactly, as a
    fraction of integers, so nothing here depends on a library of conversions. *)

From S2P Require Import Prelude JsValue Scan.

(** ** From decimals to doubles *)

(** The double nearest to [m * 10^e]; [neg] is the sign, also of zero. *)
Definition num_of_dec (neg : bool) (m e : Z) : num :=
  match m with
  | Zpos p =>
      if 0 <=? e then binary_normalize prec64 emax64 (if neg then - (Zpos p * 10 ^ e) else Zpos p * 10 ^ e) 0 neg
      else SFdiv prec64 emax64 (S754_finite neg p 0) (S754_finite false (Z.to_pos (10 ^ (- e))) 0)
  | _ => S754_zero neg
  end.

(** ** From doubles to decimals *)

(** A positive finite double as a fraction. *)
Definition fraction (m : positive) (e : Z) : Z * Z :=
  if 0 <=? e then (Zpos m * 2 ^ e, 1) else (Zpos m, 2 ^ (- e)).

(** The least [j] with [1 <= x * 10^j], for [x < 1]; doubles need at most 324. *)
Fixpoint leading_zeros (fuel : nat) (n d j : Z) : Z :=
  match fuel with
  | O => j
  | S f => if d <=? n then j else leading_zeros f (10 * n) d (j + 1)
  end.

(** The [n] with [10^(n-1) <= x < 10^n]. *)
Definition decimal_exponent (n d : Z) : Z :=
  if d <=? n then Z.of_nat (length (dec (n / d))) else 1 - leading_zeros 400 n d 0.

(** [x / 10^j] as a fraction. *)
Definition scaled (n d j : Z) : Z * Z := if 0 <=? j then (n, d * 10 ^ j) else (n * 10 ^ (- j), d).

(** The [k] digits [s] with [s * 10^(n-k)] rounding to [x], the closer one first; [10^k]
    stands for the first [k] digits of the next exponent. *)
Definition digits_at (x : num) (n d e10 k : Z) : option Z :=
  let '(a, b) := scaled n d (e10 - k) in
  let lo := a / b in
  let rest := a mod b in
  let first := if (2 * rest <? b) || ((2 * rest =? b) && Z.even lo) then lo else lo + 1 in
  let second := if first =? lo then lo + 1 else lo in
  if bool_decide (num_of_dec false first (e10 - k) = x) then Some first
  else if bool_decide (num_of_dec false second (e10 - k) = x) then Some second
  else None.

(** The shortest digits; seventeen always are enough. *)
Fixpoint shortest (fuel : nat) (x : num) (n d e10 k : Z) : Z * Z :=
  match fuel with
  | O => (let '(a, b) := scaled n d (e10 - k) in a / b, k)
  | S f => match digits_at x n d e10 k with
           | Some s => (s, k)
           | None => shortest f x n d e10 (k + 1)
           end
  end.

Definition zeros (n : Z) : jsstr := repeat 48 (Z.to_nat n).

(** The layout of digits [s], [k] of them, for the exponent [n]. *)
Definition layout (s k n : Z) : jsstr :=
  let ds := dec s in
  if (k <=? n) && (n <=? 21) then ds ++ zeros (n - k)
  else if (0 <? n) && (n <=? 21) then take (Z.to_nat n) ds ++ js "." ++ drop (Z.to_nat n) ds
  else if (-6 <? n) && (n <=? 0) then js "0." ++ zeros (- n) ++ ds
  else
    let e := n - 1 in
    let sign := if 0 <=? e then js "+" else js "-" in
    if k =? 1 then ds ++ js "e" ++ sign ++ dec (Z.abs e)
    else take 1 ds ++ js "." ++ drop 1 ds ++ js "e" ++ sign ++ dec (Z.abs e).

Definition positive_text (m : positive) (e : Z) : jsstr :=
  let '(n, d) := fraction m e in
  let e10 := decimal_exponent n d in
  let '(s, k) := shortest 17 (S754_finite false m e) n d e10 1 in
  if s =? 10 ^ k then layout (10 ^ (k - 1)) k (e10 + 1) else layout s k e10.

(** [String(x)] *)
Definition num_text (x : num) : jsstr :=
  match x with
  | S754_nan => js "NaN"
  | S754_zero _ => js "0"
  | S754_infinity s => (if s then js "-" else []) ++ js "Infinity"
  | S754_finite s m e => (if s then js "-" else []) ++ positive_text m e
  end.

(** ** [toFixed] *)

(** The digits of [x.toFixed(f)]: the integer nearest to [x * 10^f], the larger of two. *)
Definition fixed_digits (f : Z) (n d : Z) : Z := (2 * (n * 10 ^ f) + d) / (2 * d).

Definition fixed_layout (f n : Z) : jsstr :=
  let m := dec n in
  if f =? 0 then m
  else
    let k := Z.of_nat (length m) in
    let m := if k <=? f then zeros (f + 1 - k) ++ m else m in
    let cut := (length m - Z.to_nat f)%nat in
    take cut m ++ js "." ++ drop cut m.

(** [x.toFixed(f)] *)
Definition toFixed (f : Z) (x : num) : jsstr :=
  match x with
  | S754_zero _ => fixed_layout f 0
  | S754_finite s m e =>
      let '(n, d) := fraction m e in
      if 10 ^ 21 * d <=? n then num_text x
      else (if s then js "-" else []) ++ fixed_layout f (fixed_digits f n d)
  | _ => num_text x
  end.

(** ** From texts to doubles *)

(** [\d+], [\.\d*] and [e[+-]?\d+] one after the other, each optional. *)
Definition eat_exponent (s : jsstr) : option (Z * jsstr) :=
  match s with
  | c :: s' =>
      if (c =? 101) || (c =? 69) then
        let '(neg, s') := match s' with 43 :: t => (false, t) | 45 :: t => (true, t) | _ => (false, s') end in
        match span1 is_digit s' with
        | Some (ds, rest) => Some ((if neg : bool then - digits_value ds else digits_value ds), rest)
        | None => None
        end
      else Some (0, s)
  | [] => Some (0, [])
  end.

(** An unsigned decimal literal that makes up the whole text. *)
Definition decimal_literal (neg : bool) (s : jsstr) : option num :=
  let '(int, s) := span is_digit s in
  let '(frac, s) := match s with 46 :: t => span is_digit t | _ => ([], s) end in
  match int ++ frac with
  | [] => None
  | ds =>
      match eat_exponent s with
      | Some (e, []) => Some (num_of_dec neg (digits_value ds) (e - Z.of_nat (length frac)))
      | _ => None
      end
  end.

Definition radix_digit (c : Z) : Z :=
  if is_digit c then c - 48
  else if (97 <=? c) && (c <=? 122) then c - 87
  else if (65 <=? c) && (c <=? 90) then c - 55
  else 99.

Definition radix_literal (radix : Z) (s : jsstr) : option num :=
  if truthy_str s && forallb (fun c => radix_digit c <? radix) s
  then Some (num_of_Z (fold_left (fun a c => radix * a + radix_digit c) s 0))
  else None.

Definition signed_literal (neg : bool) (s : jsstr) : option num :=
  if streq s (js "Infinity") then Some (S754_infinity neg) else decimal_literal neg s.

(** [Number(s)] of a string. *)
Definition string_to_number (s : jsstr) : num :=
  default S754_nan
    match trim s with
    | [] => Some (num_of_Z 0)
    | 43 :: t => signed_literal false t
    | 45 :: t => signed_literal true t
    | 48 :: x :: t =>
        if (x =? 120) || (x =? 88) then radix_literal 16 t
        else if (x =? 111) || (x =? 79) then radix_literal 8 t
        else if (x =? 98) || (x =? 66) then radix_literal 2 t
        else signed_literal false (48 :: x :: t)
    | t => signed_literal false t
    end.

(** [parseFloat(s)]: the longest prefix that is a decimal literal. *)
Definition parseFloat (s : jsstr) : num :=
  let '(neg, s) := match trim_start s with 43 :: t => (false, t) | 45 :: t => (true, t) | t => (false, t) end in
  if starts_with (js "Infinity") s then S754_infinity neg
  else
    let '(int, s) := span is_digit s in
    let '(frac, s) := match s with 46 :: t => span is_digit t | _ => ([], s) end in
    match int ++ frac with
    | [] => S754_nan
    | ds => num_of_dec neg (digits_value ds) (match eat_exponent s with Some (e, _) => e | None => 0 end - Z.of_nat (length frac))
    end.

(** [Math.round(x)]: the nearest integer, the larger of two. *)
Definition math_round (x : num) : num :=
  match x with
  | S754_finite s m e =>
      let '(n, d) := fraction m e in
      let k := if s then (d - 2 * n) / (2 * d) else (2 * n + d) / (2 * d) in
      if k =? 0 then S754_zero s else num_of_Z k
  | _ => x
  end.

Example text_ex1 : map num_text [num_of_decimal 1 1; num_of_decimal 123456 3; num_of_Z 1000000; num_of_dec false 15 (-8);
    num_of_dec true 1 21; num_of_dec false 12 25; num_of_dec false 1 (-7); num_of_dec false 1 23; nadd (num_of_decimal 1 1) (num_of_decimal 2 1); num_of_dec false 5 (-324)]
  = [js "0.1"; js "123.456"; js "1000000"; js "1.5e-7"; js "-1e+21"; js "1.2e+26"; js "1e-7"; js "1e+23"; js "0.30000000000000004"; js "5e-324"].
Proof. vm_compute. reflexivity. Qed.

Example fixed_ex1 : map (toFixed 2) [num_of_decimal 1005 3; num_of_decimal 5 1; num_of_Z 12; num_of_decimal (-1) 3; num_of_dec false 1 22]
  = [js "1.00"; js "0.50"; js "12.00"; js "-0.00"; js "1e+22"].
Proof. vm_compute. reflexivity. Qed.

Example parse_num_ex1 : map string_to_number [js " 12.50 "; js "1e3"; js ".5"; js "5."; js "0x1F"; js ""; js "-0"; js "1e"; js "."; js "1 2"]
  = [num_of_decimal 125 1; num_of_Z 1000; num_of_decimal 5 1; num_of_Z 5; num_of_Z 31; num_of_Z 0; S754_zero true; S754_nan; S754_nan; S754_nan].
Proof. vm_compute. reflexivity. Qed.

Example parse_float_ex1 : map parseFloat [js " 12.50abc"; js "1e3"; js ".5"; js "5.e"; js "1e"; js "-Infinityx"; js "."; js "0x1F"]
  = [num_of_decimal 125 1; num_of_Z 1000; num_of_decimal 5 1; num_of_Z 5; num_of_Z 1; S754_infinity true; S754_nan; num_of_Z 0].
Proof. vm_compute. reflexivity. Qed.

Example round_ex1 : map math_round [num_of_decimal 25 1; num_of_decimal (-25) 1; num_of_decimal (-26) 1; num_of_decimal (-5) 1; num_of_decimal 49 2; num_of_dec false 1 300]
  = [num_of_Z 3; num_of_Z (-2); num_of_Z (-3); S754_zero true; num_of_Z 0; num_of_dec false 1 300].
Proof. vm_compute. reflexivity. Qed.
