(* ===== verification/Json.v ===== *)
(** [JSON.parse] and [JSON.stringify] on the values of [JsValue], with the property
    order of JavaScript objects, and the conversions [String(v)] and [Number(v)]. *)

From S2P Require Import Prelude JsValue Scan NumText JsonString.

(** ** Objects *)

(** An array index: the keys that come first, in numeric order. *)
Definition is_index (k : jsstr) : bool :=
  match k with
  | [] => false
  | c :: t => forallb is_digit k && (negb (c =? 48) || negb (truthy_str t)) && (digits_value k <? 4294967295)
  end.

(** Where a new key goes. *)
Fixpoint insert_field (k : jsstr) (v : val) (fields : list (jsstr * val)) : list (jsstr * val) :=
  match fields with
  | [] => [(k, v)]
  | (k', v') :: fs =>
      if is_index k && (negb (is_index k') || (digits_value k <? digits_value k'))
      then (k, v) :: fields
      else (k', v') :: insert_field k v fs
  end.

Fixpoint replace_field (k : jsstr) (v : val) (fields : list (jsstr * val)) : option (list (jsstr * val)) :=
  match fields with
  | [] => None
  | (k', v') :: fs =>
      if streq k k' then Some ((k', v) :: fs)
      else match replace_field k v fs with Some fs' => Some ((k', v') :: fs') | None => None end
  end.

(** [o[k] = v] *)
Definition set_field (k : jsstr) (v : val) (fields : list (jsstr * val)) : list (jsstr * val) :=
  match replace_field k v fields with Some fs => fs | None => insert_field k v fields end.

(** An object literal, or the members of a parsed object, in the order written. *)
Definition mk_fields (members : list (jsstr * val)) : list (jsstr * val) :=
  fold_left (fun fs m => set_field m.1 m.2 fs) members [].

(** [delete o.k] *)
Definition drop_field (k : jsstr) (fs : list (jsstr * val)) : list (jsstr * val) := List.filter (fun f => negb (streq k f.1)) fs.

(** Fields in the order an object has them. *)
Definition proper_fields (fields : list (jsstr * val)) : Prop := mk_fields fields = fields.

Fixpoint indexed {A} (i : Z) (l : list A) : list (jsstr * A) := match l with [] => [] | x :: l' => (dec i, x) :: indexed (i + 1) l' end.

(** The own enumerable properties of a value: [Object.entries] and the spread of an object. *)
Definition own_fields (v : val) : list (jsstr * val) :=
  match v with
  | VObj fields => fields
  | VArr l => indexed 0 l
  | VStr s => map (fun e => (e.1, VStr [e.2])) (indexed 0 s)
  | _ => []
  end.

(** [{ ...base, ...over }] *)
Definition spread_over (base over : list (jsstr * val)) : list (jsstr * val) := fold_left (fun fs f => set_field f.1 f.2 fs) over base.

(** ** [JSON.stringify] *)

Definition defined (v : val) : bool := match v with VUndef => false | _ => true end.

(** The text of a value other than [undefined]; [gap] is the indentation unit, [ind]
    the current indentation. *)
Fixpoint json_text (gap ind : jsstr) (v : val) : jsstr :=
  let nl i := match gap with [] => [] | _ => 10 :: i end in
  match v with
  | VUndef | VNull => js "null"
  | VBool b => if b then js "true" else js "false"
  | VNum x => if is_finite x then num_text x else js "null"
  | VStr s => json_quote s
  | VArr [] => js "[]"
  | VArr l =>
      js "[" ++ nl (ind ++ gap) ++ join (44 :: nl (ind ++ gap)) (map (json_text gap (ind ++ gap)) l)
      ++ nl ind ++ js "]"
  | VObj fields =>
      match flat_map (fun f => match f with
                               | (_, VUndef) => []
                               | (k, w) => [json_quote k ++ js ":" ++ (match gap with [] => [] | _ => [32] end)
                                              ++ json_text gap (ind ++ gap) w]
                               end) fields with
      | [] => js "{}"
      | members => js "{" ++ nl (ind ++ gap) ++ join (44 :: nl (ind ++ gap)) members ++ nl ind ++ js "}"
      end
  end.

(** [JSON.stringify(v)] and [JSON.stringify(v, null, 2)]. *)
Definition stringify (v : val) : jsstr := json_text [] [] v.
Definition stringify2 (v : val) : jsstr := json_text [32; 32] [] v.

(** ** [JSON.parse] *)

Definition is_ws (c : Z) : bool := (c =? 32) || (c =? 9) || (c =? 10) || (c =? 13).
Definition skip_ws (s : jsstr) : jsstr := (span is_ws s).2.

(** [-?(0|[1-9]\d* )(\.\d+)?([eE][+-]?\d+)?] *)
Definition eat_number (s : jsstr) : option (num * jsstr) :=
  let '(neg, s) := match s with 45 :: t => (true, t) | _ => (false, s) end in
  '(int, s) ← match s with 48 :: t => Some ([48], t) | _ => span1 is_digit s end;
  '(frac, s) ← match s with 46 :: t => span1 is_digit t | _ => Some ([], s) end;
  '(e, s) ← eat_exponent s;
  Some (num_of_dec neg (digits_value (int ++ frac)) (e - Z.of_nat (length frac)), s).

Section Parser.
Context (value : jsstr -> option (val * jsstr)).

(** The rest of an array after its first element. *)
Fixpoint elements (fuel : nat) (acc : list val) (s : jsstr) : option (list val * jsstr) :=
  match fuel with
  | O => None
  | S f =>
      match skip_ws s with
      | 93 :: t => Some (reverse acc, t)
      | 44 :: t => '(v, r) ← value t; elements f (v :: acc) r
      | _ => None
      end
  end.

(** A quoted key, a colon and a value. *)
Definition member (s : jsstr) : option (jsstr * val * jsstr) :=
  match skip_ws s with
  | 34 :: t =>
      '(k, r) ← unescape_body t;
      match skip_ws r with
      | 58 :: t' => '(v, r') ← value t'; Some (k, v, r')
      | _ => None
      end
  | _ => None
  end.

Fixpoint members (fuel : nat) (acc : list (jsstr * val)) (s : jsstr) : option (list (jsstr * val) * jsstr) :=
  match fuel with
  | O => None
  | S f =>
      match skip_ws s with
      | 125 :: t => Some (reverse acc, t)
      | 44 :: t => '(k, v, r) ← member t; members f ((k, v) :: acc) r
      | _ => None
      end
  end.

End Parser.

(** A value after white space, and the text after it. Every round consumes a
    character, so the length of the text is enough fuel. *)
Fixpoint parse_value (fuel : nat) (s : jsstr) : option (val * jsstr) :=
  match fuel with
  | O => None
  | S f =>
      match skip_ws s with
      | [] => None
      | c :: t =>
          if c =? 34 then '(w, r) ← unescape_body t; Some (VStr w, r)
          else if c =? 91 then
            match skip_ws t with
            | 93 :: r => Some (VArr [], r)
            | _ => '(v, r) ← parse_value f t;
                   '(vs, r') ← elements (parse_value f) f [v] r; Some (VArr vs, r')
            end
          else if c =? 123 then
            match skip_ws t with
            | 125 :: r => Some (VObj [], r)
            | _ => '(k, v, r) ← member (parse_value f) t;
                   '(ms, r') ← members (parse_value f) f [(k, v)] r; Some (VObj (mk_fields ms), r')
            end
          else if c =? 116 then r ← eat (js "rue") t; Some (VBool true, r)
          else if c =? 102 then r ← eat (js "alse") t; Some (VBool false, r)
          else if c =? 110 then r ← eat (js "ull") t; Some (VNull, r)
          else '(x, r) ← eat_number (c :: t); Some (VNum x, r)
      end
  end.

(** [JSON.parse(s)]; [None] stands for a SyntaxError. *)
Definition json_parse (s : jsstr) : option val :=
  '(v, r) ← parse_value (S (length s)) s;
  match skip_ws r with [] => Some v | _ => None end.

(** A literal with single quotes standing for double quotes. *)
Definition jq (s : string) : jsstr := map (fun c => if c =? 39 then 34 else c) (js s).

Example json_ex1 :
  json_parse (jq "{ 'b': [1, 2.5e1,-0.5], '10':null,'2': 'x\n' , 'b' :{}}")
  = Some (VObj [(js "2", VStr (js "x" ++ [10])); (js "10", VNull); (js "b", VObj [])]).
Proof. vm_compute. reflexivity. Qed.

Example json_ex2 :
  map json_parse [jq "[1,]"; jq "{'a' 1}"; jq "01"; jq "'\q'"; jq "nul"; jq "1 2"; []; jq "-"; jq "1."] = repeat None 9.
Proof. vm_compute. reflexivity. Qed.

(** ** Conversions *)

(** [String(v)]; [None] stands for the TypeError of an object whose own [toString] is
    not a function. *)
Fixpoint to_string (v : val) : option jsstr :=
  match v with
  | VUndef => Some (js "undefined")
  | VNull => Some (js "null")
  | VBool b => Some (if b then js "true" else js "false")
  | VNum x => Some (num_text x)
  | VStr s => Some s
  | VArr l =>
      (fix go (first : bool) (l : list val) : option jsstr :=
         match l with
         | [] => Some []
         | w :: l' =>
             a ← match w with VUndef | VNull => Some [] | _ => to_string w end;
             b ← go false l';
             Some ((if first then [] else [44]) ++ a ++ b)
         end) true l
  | VObj fields =>
      match lookup_field (js "toString") fields with
      | VUndef => Some (js "[object Object]")
      | _ => None
      end
  end.

(** [Number(v)] *)
Definition to_number (v : val) : option num :=
  match v with
  | VUndef => Some S754_nan
  | VNull => Some (num_of_Z 0)
  | VBool b => Some (num_of_Z (if b then 1 else 0))
  | VNum x => Some x
  | VStr s => Some (string_to_number s)
  | VArr _ | VObj _ => string_to_number <$> to_string v
  end.

Example to_string_ex1 :
  to_string (VArr [VNum (num_of_Z 1); VNull; VArr [VStr (js "a"); VBool true]; VObj []]) = Some (js "1,,a,true,[object Object]").
Proof. vm_compute. reflexivity. Qed.

(** ** The round trip *)

(** Induction that reaches into arrays and objects. *)
Section ValInd.
Context (P : val -> Prop).
Context (Hundef : P VUndef) (Hnull : P VNull) (Hbool : forall b, P (VBool b)) (Hnum : forall x, P (VNum x))
  (Hstr : forall s, P (VStr s)) (Harr : forall l, Forall P l -> P (VArr l))
  (Hobj : forall fs, Forall (fun f => P f.2) fs -> P (VObj fs)).

Fixpoint val_nested_ind (v : val) : P v :=
  match v with
  | VUndef => Hundef
  | VNull => Hnull
  | VBool b => Hbool b
  | VNum x => Hnum x
  | VStr s => Hstr s
  | VArr l => Harr l ((fix go l := match l return Forall P l with
                                   | [] => Forall_nil_2 _
                                   | w :: l' => Forall_cons_2 _ w l' (val_nested_ind w) (go l')
                                   end) l)
  | VObj fs => Hobj fs ((fix go fs := match fs return Forall (fun f => P f.2) fs with
                                      | [] => Forall_nil_2 _
                                      | f :: fs' => Forall_cons_2 _ f fs' (val_nested_ind f.2) (go fs')
                                      end) fs)
  end.
End ValInd.

(** A double whose text reads back as that double. Every finite double but [-0] is
    one; the predicate decides it for the number at hand. *)
Definition num_ok (x : num) : bool :=
  is_finite x && bool_decide (eat_number (num_text x) = Some (x, [])).

Definition units (s : jsstr) : Prop := Forall (fun c => is_unit c = true) s.

(** The values that JSON can carry. *)
Inductive wf_val : val -> Prop :=
| wf_null : wf_val VNull
| wf_bool b : wf_val (VBool b)
| wf_num x : num_ok x = true -> wf_val (VNum x)
| wf_str s : units s -> wf_val (VStr s)
| wf_arr l : Forall wf_val l -> wf_val (VArr l)
| wf_obj fs : proper_fields fs -> Forall (fun f => units f.1 /\ wf_val f.2) fs -> wf_val (VObj fs).

Lemma units_trim s : units s -> units (trim s).
Proof. unfold units. rewrite !Forall_forall. intros H c Hc. by apply H, trim_elem. Qed.

Lemma units_js (s : string) : units (js s).
Proof.
  apply Forall_forall. intros c Hc. unfold js in Hc. apply list_elem_of_fmap in Hc as (a & -> & _).
  pose proof (N_ascii_bounded a). unfold is_unit. lia.
Qed.

Lemma skip_ws_app ws s :
  Forall (fun c => is_ws c = true) ws -> match s with [] => True | c :: _ => is_ws c = false end ->
  skip_ws (ws ++ s) = s.
Proof. intros Hw Hs. unfold skip_ws. by rewrite span_app. Qed.

(** What may follow a number. *)
Definition number_char (c : Z) : bool := is_digit c || (c =? 46) || (c =? 101) || (c =? 69).
Definition stops (rest : jsstr) : Prop := match rest with [] => True | c :: _ => number_char c = false end.

Lemma span_extend P s a b rest :
  span P s = (a, b) -> match rest with [] => True | c :: _ => P c = false end ->
  span P (s ++ rest) = (a, b ++ rest).
Proof.
  revert a b. induction s as [|c s IH]; intros a b; cbn [span app].
  - intros [= <- <-] Hr. destruct rest as [|d rest]; [done|]. cbn [span]. by rewrite Hr.
  - destruct (P c); [|by intros [= <- <-]]. destruct (span P s) as [a' b'] eqn:E.
    intros [= <- <-] Hr. by rewrite (IH a' b' eq_refl Hr).
Qed.

Lemma span1_extend P s a b rest :
  span1 P s = Some (a, b) -> match rest with [] => True | c :: _ => P c = false end ->
  span1 P (s ++ rest) = Some (a, b ++ rest).
Proof.
  unfold span1. destruct (span P s) as [[|x a'] b'] eqn:E; [done|]. intros [= <- <-] Hr.
  by rewrite (span_extend _ _ _ _ _ E Hr).
Qed.

Lemma stops_digit rest : stops rest -> match rest with [] => True | c :: _ => is_digit c = false end.
Proof.
  destruct rest as [|c rest]; [done|]. unfold stops, number_char. by destruct (is_digit c).
Qed.

Lemma eat_exponent_extend s e b rest :
  eat_exponent s = Some (e, b) -> stops rest -> eat_exponent (s ++ rest) = Some (e, b ++ rest).
Proof.
  intros H Hr. pose proof (stops_digit _ Hr) as Hd. destruct s as [|c s]; cbn [eat_exponent app] in *.
  - injection H as <- <-. destruct rest as [|c rest]; [done|]. cbn [app eat_exponent].
    unfold stops, number_char in Hr. destruct (c =? 101); [lia|]. destruct (c =? 69); [lia|done].
  - destruct ((c =? 101) || (c =? 69)); [|by injection H as <- <-].
    destruct s as [|d s]; [done|]. cbn [app].
    assert (forall neg t, match span1 is_digit t with
              | Some (ds, r) => Some (if neg : bool then - digits_value ds else digits_value ds, r) | None => None end = Some (e, b) ->
              match span1 is_digit (t ++ rest) with
              | Some (ds, r) => Some (if neg then - digits_value ds else digits_value ds, r) | None => None end = Some (e, b ++ rest)) as Hsp.
    { intros neg t. destruct (span1 is_digit t) as [[ds r]|] eqn:E; [|done]. intros [= <- <-].
      by rewrite (span1_extend _ _ _ _ _ E Hd). }
    destruct (decide (d = 43)) as [->|]; [by apply (Hsp false)|].
    destruct (decide (d = 45)) as [->|]; [by apply (Hsp true)|].
    assert (forall u : jsstr, match d :: u with 43 :: t => (false, t) | 45 :: t => (true, t) | _ => (false, d :: u) end = (false, d :: u)) as Hu
      by (intros u; repeat case_match; congruence).
    rewrite Hu in H. rewrite Hu. by apply (Hsp false (d :: s)).
Qed.

Lemma eat_number_extend s x rest :
  eat_number s = Some (x, []) -> stops rest -> eat_number (s ++ rest) = Some (x, rest).
Proof.
  intros H Hr. pose proof (stops_digit _ Hr) as Hd. unfold eat_number in *.
  destruct s as [|c s]; [done|].
  assert (exists neg t, match c :: s with 45 :: t => (true, t) | _ => (false, c :: s) end = (neg, t)
    /\ match (c :: s) ++ rest with 45 :: t => (true, t) | _ => (false, (c :: s) ++ rest) end = (neg, t ++ rest)) as (neg & t & E1 & E2).
  { destruct (decide (c = 45)) as [->|Hc]; [by exists true, s|]. exists false, (c :: s).
    split; cbn [app]; repeat case_match; congruence. }
  rewrite E1 in H. rewrite E2. clear E1 E2.
  destruct t as [|d t]; [done|]. cbn [app].
  assert (forall int r, match d :: t with 48 :: u => Some ([48], u) | _ => span1 is_digit (d :: t) end = Some (int, r) ->
    match d :: t ++ rest with 48 :: u => Some ([48], u) | _ => span1 is_digit (d :: t ++ rest) end = Some (int, r ++ rest)) as Hint.
  { intros int r. destruct (decide (d = 48)) as [->|Hd48]; [by intros [= <- <-]|].
    intros Hs. assert (forall (A : Type) (a b : A), match d with 48 => a | _ => b end = b) as Hm
      by (intros; repeat case_match; congruence).
    rewrite Hm in *. by apply (span1_extend _ (d :: t)). }
  destruct (match d :: t with 48 :: u => Some ([48], u) | _ => span1 is_digit (d :: t) end) as [[int r]|] eqn:E; [|done].
  rewrite (Hint _ _ eq_refl). cbn [mbind option_bind] in *. clear Hint E.
  assert (forall frac u, match r with 46 :: t => span1 is_digit t | _ => Some ([], r) end = Some (frac, u) ->
    match r ++ rest with 46 :: t => span1 is_digit t | _ => Some ([], r ++ rest) end = Some (frac, u ++ rest)) as Hfr.
  { intros frac u. destruct r as [|a r].
    - intros [= <- <-]. cbn [app]. destruct rest as [|b rest]; [done|]. unfold stops, number_char in Hr.
      repeat case_match; try done; subst; done.
    - destruct (decide (a = 46)) as [->|Ha]; [intros Hs; by apply span1_extend|].
      cbn [app]. assert (forall (A : Type) (x y : A), match a with 46 => x | _ => y end = y) as Hm
        by (intros; repeat case_match; congruence).
      rewrite !Hm. by intros [= <- <-]. }
  destruct (match r with 46 :: t => span1 is_digit t | _ => Some ([], r) end) as [[frac u]|] eqn:E; [|done].
  rewrite (Hfr _ _ eq_refl). cbn [mbind option_bind] in *. clear Hfr E.
  destruct (eat_exponent u) as [[e w]|] eqn:E; [|done]. cbn [mbind option_bind] in *. injection H as <- ->.
  by rewrite (eat_exponent_extend _ _ _ _ E Hr).
Qed.

Lemma eat_number_head c t r : eat_number (c :: t) = Some r -> c = 45 \/ is_digit c = true.
Proof.
  intros H. destruct (decide (c = 45)) as [->|Hc]; [by left|right].
  assert (forall (A : Type) (x y : A), match c with 45 => x | _ => y end = y) as Hm
    by (intros; repeat case_match; congruence).
  unfold eat_number in H. rewrite Hm in H.
  destruct (decide (c = 48)) as [->|H48]; [done|].
  assert (forall (A : Type) (x y : A), match c with 48 => x | _ => y end = y) as Hm'
    by (intros; repeat case_match; congruence).
  rewrite Hm' in H. unfold span1 in H. cbn [span] in H. by destruct (is_digit c).
Qed.

(** White space written before an element, none in the compact form. *)
Definition newline (gap ind : jsstr) : jsstr := match gap with [] => [] | _ => 10 :: ind end.
Definition all_ws (s : jsstr) : Prop := Forall (fun c => is_ws c = true) s.

Lemma newline_ws gap ind : all_ws gap -> all_ws ind -> all_ws (newline gap ind).
Proof. intros Hg Hi. unfold newline. destruct gap; [constructor|by constructor]. Qed.

Definition member_text (gap ind : jsstr) (f : jsstr * val) : jsstr :=
  json_quote f.1 ++ js ":" ++ (match gap with [] => [] | _ => [32] end) ++ json_text gap ind f.2.

Lemma wf_defined v : wf_val v -> v <> VUndef.
Proof. by destruct 1. Qed.

Lemma json_text_arr gap ind v l :
  json_text gap ind (VArr (v :: l))
  = js "[" ++ newline gap (ind ++ gap) ++ json_text gap (ind ++ gap) v
    ++ concat (map (fun w => 44 :: newline gap (ind ++ gap) ++ json_text gap (ind ++ gap) w) l)
    ++ newline gap ind ++ js "]".
Proof.
  change (json_text gap ind (VArr (v :: l))) with
    (js "[" ++ newline gap (ind ++ gap) ++ join (44 :: newline gap (ind ++ gap)) (map (json_text gap (ind ++ gap)) (v :: l))
     ++ newline gap ind ++ js "]").
  cbn [map]. rewrite join_cons, map_map, <- !app_assoc. done.
Qed.

Lemma json_text_obj gap ind f fs :
  Forall (fun f => f.2 <> VUndef) (f :: fs) ->
  json_text gap ind (VObj (f :: fs))
  = js "{" ++ newline gap (ind ++ gap) ++ member_text gap (ind ++ gap) f
    ++ concat (map (fun g => 44 :: newline gap (ind ++ gap) ++ member_text gap (ind ++ gap) g) fs)
    ++ newline gap ind ++ js "}".
Proof.
  intros Hd.
  assert (forall fs, Forall (fun f : jsstr * val => f.2 <> VUndef) fs ->
    flat_map (fun f => match f with
                       | (_, VUndef) => []
                       | (k, w) => [json_quote k ++ js ":" ++ (match gap with [] => [] | _ => [32] end) ++ json_text gap (ind ++ gap) w]
                       end) fs = map (member_text gap (ind ++ gap)) fs) as Hm.
  { clear. induction 1 as [|[k w] fs Hw _ IH]; [done|]. cbn [flat_map map snd] in *. rewrite IH. by destruct w. }
  cbn [json_text]. rewrite Hm by done. cbn [map]. rewrite join_cons, map_map, <- !app_assoc. done.
Qed.

Lemma elements_comma value n acc t :
  elements value (S n) acc (44 :: t) = '(v, r) ← value t; elements value n (v :: acc) r.
Proof. done. Qed.

Lemma members_comma value n acc t :
  members value (S n) acc (44 :: t) = '(k, v, r) ← member value t; members value n ((k, v) :: acc) r.
Proof. done. Qed.

Lemma elements_close value n acc ws rest :
  all_ws ws -> elements value (S n) acc (ws ++ 93 :: rest) = Some (reverse acc, rest).
Proof. intros Hw. cbn [elements]. by rewrite skip_ws_app. Qed.

Lemma members_close value n acc ws rest :
  all_ws ws -> members value (S n) acc (ws ++ 125 :: rest) = Some (reverse acc, rest).
Proof. intros Hw. cbn [members]. by rewrite skip_ws_app. Qed.

Section Fuel.
Context (gap : jsstr) (Hgap : all_ws gap).

(** What is proved of each value: its text parses back, whatever follows. *)
Definition parses (v : val) : Prop :=
  forall ind ws rest fuel, all_ws ind -> all_ws ws -> stops rest ->
    (length (json_text gap ind v) <= fuel)%nat ->
    parse_value fuel (ws ++ json_text gap ind v ++ rest) = Some (v, rest).

Lemma stops_concat {A} (g : A -> jsstr) l rest :
  stops rest -> stops (concat (map (fun w => 44 :: g w) l) ++ rest).
Proof. by destruct l. Qed.

Lemma elements_parse ind (Hi : all_ws ind) f l : forall n acc rest,
  Forall parses l -> Forall (fun v => (length (json_text gap ind v) <= f)%nat) l -> (length l < n)%nat -> stops rest ->
  elements (parse_value f) n acc
    (concat (map (fun w => 44 :: newline gap ind ++ json_text gap ind w) l) ++ rest)
  = elements (parse_value f) (n - length l) (reverse l ++ acc) rest.
Proof.
  induction l as [|v l IH]; intros n acc rest Hp Hl Hn Hs; [by rewrite Nat.sub_0_r|].
  apply Forall_cons in Hp as [Hv Hp]. apply Forall_cons in Hl as [Hf Hl]. cbn [length] in Hn.
  destruct n as [|n]; [lia|]. cbn [map concat]. rewrite <- !app_comm_cons, <- !app_assoc, elements_comma.
  rewrite Hv; [|done|by apply newline_ws|by apply stops_concat|done].
  cbn [mbind option_bind]. rewrite IH by (done || lia). cbn [length Nat.sub]. by rewrite reverse_cons, <- app_assoc.
Qed.

Lemma member_parse ind (Hi : all_ws ind) f (m : jsstr * val) ws rest :
  units m.1 -> parses m.2 -> (length (json_text gap ind m.2) <= f)%nat -> all_ws ws -> stops rest ->
  member (parse_value f) (ws ++ member_text gap ind m ++ rest) = Some (m.1, m.2, rest).
Proof.
  intros Hu Hp Hf Hw Hs. unfold member, member_text. rewrite <- !app_assoc.
  change (json_quote m.1 ++ ?s) with (34 :: (escape_body false m.1 ++ [34]) ++ s).
  rewrite skip_ws_app by done. rewrite <- app_assoc. change ([34] ++ ?s) with (34 :: s).
  rewrite unescape_escape by done. cbn [mbind option_bind].
  change (skip_ws (js ":" ++ ?s)) with (58 :: s). cbv iota beta.
  rewrite Hp; [done|done| |done|done]. destruct gap; repeat constructor.
Qed.

Lemma members_parse ind (Hi : all_ws ind) f l : forall n acc rest,
  Forall (fun m => units m.1 /\ parses m.2) l ->
  Forall (fun m => (length (json_text gap ind m.2) <= f)%nat) l -> (length l < n)%nat -> stops rest ->
  members (parse_value f) n acc
    (concat (map (fun g => 44 :: newline gap ind ++ member_text gap ind g) l) ++ rest)
  = members (parse_value f) (n - length l) (reverse l ++ acc) rest.
Proof.
  induction l as [|m l IH]; intros n acc rest Hp Hl Hn Hs; [by rewrite Nat.sub_0_r|].
  apply Forall_cons in Hp as [[Hu Hv] Hp]. apply Forall_cons in Hl as [Hf Hl]. cbn [length] in Hn.
  destruct n as [|n]; [lia|]. cbn [map concat]. rewrite <- !app_comm_cons, <- !app_assoc, members_comma.
  rewrite member_parse by (done || by apply newline_ws || by apply stops_concat).
  cbn [mbind option_bind]. rewrite IH by (done || lia). cbn [length Nat.sub]. destruct m.
  by rewrite reverse_cons, <- app_assoc.
Qed.

Lemma fuel_pos fuel (s : jsstr) : s <> [] -> (length s <= fuel)%nat -> exists f, fuel = S f /\ (length s <= S f)%nat.
Proof. destruct s; [done|]. intros _ H. destruct fuel as [|f]; [cbn in H; lia|]. by exists f. Qed.

Lemma parses_num x : num_ok x = true -> parses (VNum x).
Proof.
  intros [Hf Hok%bool_decide_eq_true]%andb_true_iff ind ws rest fuel _ Hw Hs. cbn [json_text]. rewrite Hf. intros Hl.
  destruct (num_text x) as [|c t] eqn:E; [done|].
  destruct fuel as [|f]; [cbn in Hl; lia|].
  assert (is_ws c = false /\ (c =? 34) = false /\ (c =? 91) = false /\ (c =? 123) = false
    /\ (c =? 116) = false /\ (c =? 102) = false /\ (c =? 110) = false) as (H0 & H1 & H2 & H3 & H4 & H5 & H6).
  { apply eat_number_head in Hok. unfold is_digit, is_ws in *. lia. }
  cbn [parse_value]. rewrite skip_ws_app by done. cbn [app]. rewrite H1, H2, H3, H4, H5, H6.
  change (c :: t ++ rest) with ((c :: t) ++ rest). by rewrite (eat_number_extend _ _ _ Hok Hs).
Qed.

Lemma concat_length_le {A} (g : A -> jsstr) l :
  (length l <= length (concat (map (fun w => 44%Z :: g w) l)))%nat.
Proof. induction l as [|w l IH]; cbn [map concat length]; [lia|]. rewrite length_app. cbn [length]. lia. Qed.

Lemma concat_length_elem {A} (g : A -> jsstr) l :
  Forall (fun w => (length (g w) <= length (concat (map (fun w => 44%Z :: g w) l)))%nat) l.
Proof.
  induction l as [|w l IH]; constructor; cbn [map concat]; rewrite length_app; cbn [length]; [lia|].
  eapply Forall_impl; [exact IH|]. cbv beta. intros. lia.
Qed.

Lemma parse_not_close f s r t : parse_value f s = Some r -> skip_ws s <> 93 :: t.
Proof. destruct f as [|f]; [done|]. cbn [parse_value]. by intros H E; rewrite E in H. Qed.

Lemma member_not_close value s r t : member value s = Some r -> skip_ws s <> 125 :: t.
Proof. unfold member. by intros H E; rewrite E in H. Qed.

Lemma match_93 {A} (s : jsstr) (x : jsstr -> A) (y : A) :
  (forall t, s <> 93 :: t) -> match s with 93 :: r => x r | _ => y end = y.
Proof. intros H. destruct s as [|a s]; [done|]. repeat case_match; try done; by destruct (H s). Qed.

Lemma match_125 {A} (s : jsstr) (x : jsstr -> A) (y : A) :
  (forall t, s <> 125 :: t) -> match s with 125 :: r => x r | _ => y end = y.
Proof. intros H. destruct s as [|a s]; [done|]. repeat case_match; try done; by destruct (H s). Qed.

Lemma parse_array f ws t r v vs r' :
  all_ws ws -> parse_value f t = Some (v, r) -> elements (parse_value f) f [v] r = Some (vs, r') ->
  parse_value (S f) (ws ++ 91 :: t) = Some (VArr vs, r').
Proof.
  intros Hw Hv He. cbn [parse_value]. rewrite skip_ws_app by done. cbn [Z.eqb Pos.eqb].
  rewrite match_93 by (intros u; by eapply parse_not_close). rewrite Hv. cbn [mbind option_bind]. by rewrite He.
Qed.

Lemma parse_object f ws t r k v ms r' :
  all_ws ws -> member (parse_value f) t = Some (k, v, r) -> members (parse_value f) f [(k, v)] r = Some (ms, r') ->
  parse_value (S f) (ws ++ 123 :: t) = Some (VObj (mk_fields ms), r').
Proof.
  intros Hw Hv He. cbn [parse_value]. rewrite skip_ws_app by done. cbn [Z.eqb Pos.eqb].
  rewrite match_125 by (intros u; by eapply member_not_close). rewrite Hv. cbn [mbind option_bind]. by rewrite He.
Qed.

Lemma parses_arr l : Forall parses l -> parses (VArr l).
Proof.
  intros Hp ind ws rest fuel Hi Hw Hs Hl. assert (all_ws (ind ++ gap)) as Hi' by (by apply Forall_app).
  destruct l as [|v l].
  { destruct fuel as [|f]; [cbn in Hl; lia|]. cbn [parse_value json_text]. by rewrite skip_ws_app. }
  rewrite json_text_arr in *. apply Forall_cons in Hp as [Hv Hp].
  set (tail := concat _) in *. rewrite !length_app in Hl.
  assert (length (js "[") = 1 /\ length (js "]") = 1)%nat as [L1 L2] by done.
  destruct fuel as [|f]; [lia|]. change (js "[") with [91] in *. rewrite <- !app_assoc.
  pose proof (concat_length_le (fun w => newline gap (ind ++ gap) ++ json_text gap (ind ++ gap) w) l) as Hc. cbv beta in Hc. fold tail in Hc.
  pose proof (concat_length_elem (fun w => newline gap (ind ++ gap) ++ json_text gap (ind ++ gap) w) l) as Hle. cbv beta in Hle. fold tail in Hle.
  eapply parse_array; [done| |].
  - apply Hv; [done|by apply newline_ws| |lia]. unfold tail. apply stops_concat. unfold newline. by destruct gap.
  - unfold tail. rewrite elements_parse; [|done|done| |lia|unfold newline; by destruct gap].
    + replace (f - length l)%nat with (S (f - length l - 1)) by lia.
      change (js "]" ++ rest) with (93 :: rest). rewrite elements_close by (by apply newline_ws). by rewrite reverse_app, reverse_involutive.
    + eapply Forall_impl; [exact Hle|]. cbv beta. intros w. rewrite length_app. lia.
Qed.

Lemma parses_obj fs :
  proper_fields fs -> Forall (fun f => units f.1 /\ wf_val f.2) fs -> Forall (fun f => parses f.2) fs -> parses (VObj fs).
Proof.
  intros Hpr Hwf Hp ind ws rest fuel Hi Hw Hs Hl. assert (all_ws (ind ++ gap)) as Hi' by (by apply Forall_app).
  destruct fs as [|m l].
  { destruct fuel as [|f]; [cbn in Hl; lia|]. cbn [parse_value json_text flat_map]. by rewrite skip_ws_app. }
  assert (Forall (fun m => units m.1 /\ parses m.2) (m :: l)) as Hup.
  { rewrite Forall_forall in *. intros f Hf. split; [by apply Hwf|by apply Hp]. }
  rewrite json_text_obj in * by (eapply Forall_impl; [exact Hwf|]; intros f [_ H]; by apply wf_defined).
  set (tail := concat _) in *. rewrite !length_app in Hl. apply Forall_cons in Hup as [[Hu Hv] Hup].
  assert (length (js "{") = 1 /\ length (js "}") = 1)%nat as [L1 L2] by done.
  destruct fuel as [|f]; [lia|]. change (js "{") with [123] in *. rewrite <- !app_assoc.
  pose proof (concat_length_le (fun w => newline gap (ind ++ gap) ++ member_text gap (ind ++ gap) w) l) as Hc. cbv beta in Hc. fold tail in Hc.
  pose proof (concat_length_elem (fun w => newline gap (ind ++ gap) ++ member_text gap (ind ++ gap) w) l) as Hle. cbv beta in Hle. fold tail in Hle.
  rewrite <- Hpr. eapply parse_object; [done| |].
  - apply member_parse; [done|done|done| |by apply newline_ws|].
    + unfold member_text in Hl. rewrite !length_app in Hl. lia.
    + unfold tail. apply stops_concat. unfold newline. by destruct gap.
  - unfold tail. rewrite members_parse; [|done|done| |lia|unfold newline; by destruct gap].
    + replace (f - length l)%nat with (S (f - length l - 1)) by lia.
      change (js "}" ++ rest) with (125 :: rest). rewrite members_close by (by apply newline_ws). rewrite reverse_app, reverse_involutive. by destruct m.
    + eapply Forall_impl; [exact Hle|]. cbv beta. intros w. unfold member_text. rewrite !length_app. lia.
Qed.

Lemma wf_parses v : wf_val v -> parses v.
Proof.
  induction v as [| |b|x|s|l IH|fs IH] using val_nested_ind; intros Hwf; inversion Hwf; subst.
  - intros ind ws rest fuel _ Hw Hs Hl. destruct fuel as [|f]; [cbn in Hl; lia|]. cbn [parse_value]. by rewrite skip_ws_app.
  - intros ind ws rest fuel _ Hw Hs Hl. destruct fuel as [|f]; [destruct b; cbn in Hl; lia|]. cbn [parse_value].
    rewrite skip_ws_app by (by destruct b). by destruct b.
  - by apply parses_num.
  - intros ind ws rest fuel _ Hw Hs Hl. destruct fuel as [|f]; [cbn in Hl; lia|]. cbn [parse_value json_text].
    rewrite skip_ws_app by done. change (json_quote s ++ rest) with (34 :: (escape_body false s ++ [34]) ++ rest).
    cbn [Z.eqb Pos.eqb]. rewrite <- app_assoc. change ([34] ++ rest) with (34 :: rest). by rewrite unescape_escape.
  - apply parses_arr. rewrite Forall_forall in *. auto.
  - apply parses_obj; [done|done|]. rewrite Forall_forall in *. intros f Hf. apply IH; [done|]. by apply H1.
Qed.
End Fuel.

(** A value written by [JSON.stringify], compact or indented, is read back. *)
Theorem parse_stringify gap v : all_ws gap -> wf_val v -> json_parse (json_text gap [] v) = Some v.
Proof.
  intros Hg Hv. unfold json_parse. pose proof (wf_parses gap Hg v Hv [] [] [] (S (length (json_text gap [] v)))) as H.
  rewrite app_nil_r in H. cbn [app] in H. rewrite H; [done|constructor|constructor|done|lia].
Qed.

(** ** Objects built key by key *)

Lemma replace_field_None k v fs : k ∉ map fst fs -> replace_field k v fs = None.
Proof.
  induction fs as [|[k' v'] fs IH]; [done|]. cbn [map fst]. intros [Hne Hn]%not_elem_of_cons.
  cbn [replace_field]. rewrite (proj2 (streq_false k k')) by congruence. by rewrite IH.
Qed.

Lemma insert_field_plain k v fs : is_index k = false -> insert_field k v fs = fs ++ [(k, v)].
Proof. intros Hk. induction fs as [|[k' v'] fs IH]; [done|]. cbn [insert_field]. by rewrite Hk, IH. Qed.

Lemma set_field_new k v fs : is_index k = false -> k ∉ map fst fs -> set_field k v fs = fs ++ [(k, v)].
Proof. intros Hk Hn. unfold set_field. by rewrite replace_field_None, insert_field_plain. Qed.

(** Distinct keys that are not array indices stay in the order they are written. *)
Lemma plain_fields_proper fs :
  NoDup (map fst fs) -> Forall (fun f => is_index f.1 = false) fs -> proper_fields fs.
Proof.
  unfold proper_fields, mk_fields. induction fs as [|[k v] fs IH] using rev_ind; [done|].
  rewrite map_app, NoDup_app, Forall_app, fold_left_app. cbn [map fst fold_left snd].
  intros (Hd & Hn & _) [Hf [Hk _]%Forall_cons]. rewrite IH by done. apply set_field_new; [exact Hk|].
  intros Hin. by apply (Hn k Hin), list_elem_of_singleton.
Qed.

Lemma replace_field_Some k v fs fs' :
  replace_field k v fs = Some fs' ->
  map fst fs' = map fst fs /\ k ∈ map fst fs /\ (forall k', lookup_field k' fs' = if streq k' k then v else lookup_field k' fs).
Proof.
  revert fs'. induction fs as [|[k1 v1] fs IH]; intros fs'; cbn [replace_field]; [done|].
  destruct (streq k k1) eqn:E.
  - apply streq_true in E as ->. intros [= <-]. split_and!; [done|left|]. intros k'. cbn [lookup_field].
    by destruct (streq k' k1).
  - destruct (replace_field k v fs) as [fs1|]; [|done]. intros [= <-]. destruct (IH fs1 eq_refl) as (Hm & Hin & Hl).
    cbn [map fst]. split_and!; [by rewrite Hm|by right|]. intros k'. cbn [lookup_field]. rewrite Hl.
    destruct (streq k' k1) eqn:E1; [|done]. apply streq_true in E1 as ->. rewrite (proj2 (streq_false k1 k)); [done|].
    apply streq_false in E. congruence.
Qed.

Lemma replace_field_elem k v fs fs' f : replace_field k v fs = Some fs' -> f ∈ fs' -> f ∈ fs \/ f = (k, v).
Proof.
  revert fs'. induction fs as [|[k1 v1] fs IH]; intros fs'; cbn [replace_field]; [done|].
  destruct (streq k k1) eqn:E.
  - apply streq_true in E as ->. intros [= <-] [->|Hf]%elem_of_cons; [by right|left; by right].
  - destruct (replace_field k v fs) as [fs1|]; [|done]. intros [= <-] [->|Hf]%elem_of_cons; [left; left|].
    destruct (IH fs1 eq_refl Hf) as [?| ->]; [left; by right|by right].
Qed.

Lemma lookup_field_None k fs : k ∉ map fst fs -> lookup_field k fs = VUndef.
Proof.
  induction fs as [|[k' v'] fs IH]; [done|]. cbn [map fst]. intros [Hne Hn]%not_elem_of_cons.
  cbn [lookup_field]. rewrite (proj2 (streq_false k k')) by congruence. by apply IH.
Qed.

Lemma lookup_field_app k fs gs : k ∉ map fst fs -> lookup_field k (fs ++ gs) = lookup_field k gs.
Proof.
  induction fs as [|[k' v'] fs IH]; [done|]. cbn [map fst]. intros [Hne Hn]%not_elem_of_cons.
  cbn [lookup_field app]. rewrite (proj2 (streq_false k k')) by congruence. by apply IH.
Qed.

Lemma lookup_field_snoc k k' v fs : k <> k' -> lookup_field k (fs ++ [(k', v)]) = lookup_field k fs.
Proof.
  intros Hne. induction fs as [|[k1 v1] fs IH]; cbn [lookup_field app].
  - by rewrite (proj2 (streq_false k k')).
  - by destruct (streq k k1).
Qed.

(** Reading a key after writing one. *)
Lemma lookup_set_field k k' v fs :
  is_index k' = false -> lookup_field k (set_field k' v fs) = if streq k k' then v else lookup_field k fs.
Proof.
  intros Hk. unfold set_field. destruct (replace_field k' v fs) as [fs'|] eqn:E.
  - by apply replace_field_Some in E as (_ & _ & ->).
  - rewrite insert_field_plain by done. destruct (streq k k') eqn:Es.
    + apply streq_true in Es as ->. rewrite lookup_field_app.
      * cbn [lookup_field]. by rewrite streq_refl.
      * intros Hin. clear Hk. induction fs as [|[k1 v1] fs IH]; [by apply elem_of_nil in Hin|].
        cbn [replace_field map fst] in *. destruct (streq k' k1) eqn:E1; [done|]. apply streq_false in E1.
        apply elem_of_cons in Hin as [->|Hin]; [done|]. by destruct (replace_field k' v fs); [|apply IH].
    + apply lookup_field_snoc. by apply streq_false.
Qed.

Lemma lookup_insert_field k k' v fs :
  k' ∉ map fst fs -> lookup_field k (insert_field k' v fs) = if streq k k' then v else lookup_field k fs.
Proof.
  induction fs as [|[k1 v1] fs IH]; intros Hn; [done|]. cbn [insert_field map fst] in *. apply not_elem_of_cons in Hn as [Hne Hn].
  destruct (is_index k' && _); cbn [lookup_field]; [done|]. rewrite IH by done. destruct (streq k k1) eqn:E1, (streq k k') eqn:E2; try done.
  apply streq_true in E1 as <-. apply streq_true in E2 as <-. done.
Qed.

Lemma replace_field_absent k v fs : replace_field k v fs = None -> k ∉ map fst fs.
Proof.
  induction fs as [|[k1 v1] fs IH]; cbn [replace_field map fst]; [intros _; apply not_elem_of_nil|].
  destruct (streq k k1) eqn:E; [done|]. destruct (replace_field k v fs); [done|]. intros _. apply not_elem_of_cons. split; [by apply streq_false|by apply IH].
Qed.

(** Reading after writing, for any key. *)
Lemma lookup_set_any k k' v fs : lookup_field k (set_field k' v fs) = if streq k k' then v else lookup_field k fs.
Proof.
  unfold set_field. destruct (replace_field k' v fs) as [fs'|] eqn:E; [by apply replace_field_Some in E as (_ & _ & ->)|].
  apply lookup_insert_field. by eapply replace_field_absent.
Qed.

(** Objects with plain keys and well-formed values. *)
Definition plain_obj (fs : list (jsstr * val)) : Prop :=
  NoDup (map fst fs) /\ Forall (fun f => is_index f.1 = false /\ units f.1 /\ wf_val f.2) fs.

Lemma plain_obj_wf fs : plain_obj fs -> wf_val (VObj fs).
Proof.
  intros [Hd Hf]. constructor.
  - apply plain_fields_proper; [done|]. eapply Forall_impl; [exact Hf|]. by intros f (? & _).
  - eapply Forall_impl; [exact Hf|]. by intros f (_ & ? & ?).
Qed.

Lemma plain_obj_set k v fs :
  is_index k = false -> units k -> wf_val v -> plain_obj fs -> plain_obj (set_field k v fs).
Proof.
  intros Hk Hu Hv [Hd Hf]. unfold set_field. destruct (replace_field k v fs) as [fs'|] eqn:E.
  - split; [by apply replace_field_Some in E as (-> & _)|]. rewrite Forall_forall in *. intros f Hin.
    destruct (replace_field_elem _ _ _ _ _ E Hin) as [?| ->]; [by apply Hf|done].
  - rewrite insert_field_plain by done. split.
    + rewrite map_app, NoDup_app. split_and!; [done| |apply NoDup_singleton]. cbn [map fst].
      intros k' Hin ->%list_elem_of_singleton. clear Hk Hu Hd Hf.
      induction fs as [|[k1 v1] fs IH]; [by apply elem_of_nil in Hin|].
      cbn [replace_field map fst] in *. destruct (streq k k1) eqn:E1; [done|]. apply streq_false in E1.
      apply elem_of_cons in Hin as [->|Hin]; [done|]. by destruct (replace_field k v fs); [|apply IH].
    + apply Forall_app. split; [done|]. by apply Forall_singleton.
Qed.

Lemma lookup_drop_field k k' fs : lookup_field k (drop_field k' fs) = if streq k k' then VUndef else lookup_field k fs.
Proof.
  unfold drop_field. induction fs as [|[k1 v] fs IH]; cbn [List.filter lookup_field fst]; [by destruct (streq k k')|].
  destruct (streq k' k1) eqn:E; cbn [negb lookup_field]; rewrite IH.
  - apply streq_true in E as <-. by destruct (streq k k').
  - destruct (streq k k1) eqn:E1, (streq k k') eqn:E2; try done. apply streq_true in E1 as <-. apply streq_true in E2 as <-. by rewrite streq_refl in E.
Qed.

(** The spread of an object without repeated keys. *)
Lemma lookup_spread k over base :
  NoDup (map fst over) -> lookup_field k (spread_over base over) = if bool_decide (k ∈ map fst over) then lookup_field k over else lookup_field k base.
Proof.
  unfold spread_over. revert base. induction over as [|[k1 v1] over IH]; intros base Hd; [done|]. cbn [fold_left map fst snd] in *. apply NoDup_cons in Hd as [Hn Hd].
  rewrite IH, lookup_set_any by done. cbn [lookup_field]. destruct (streq k k1) eqn:E.
  - apply streq_true in E as ->. rewrite (bool_decide_eq_false_2 (k1 ∈ map fst over)) by done. by rewrite bool_decide_eq_true_2 by left.
  - apply streq_false in E. rewrite (bool_decide_ext (k ∈ k1 :: map fst over) (k ∈ map fst over)); [done|]. rewrite elem_of_cons. naive_solver.
Qed.

Lemma lookup_spread_nil k fs : NoDup (map fst fs) -> lookup_field k (spread_over [] fs) = lookup_field k fs.
Proof. intros Hd. rewrite lookup_spread by done. case_bool_decide; [done|]. by rewrite (lookup_field_None k fs). Qed.

Lemma drop_field_keys k k' fs : k ∈ map fst (drop_field k' fs) <-> k ∈ map fst fs /\ k <> k'.
Proof.
  unfold drop_field. induction fs as [|[k1 v] fs IH]; cbn [List.filter map fst].
  - rewrite elem_of_nil. tauto.
  - destruct (streq k' k1) eqn:E; cbn [negb map fst]; rewrite ?elem_of_cons, IH.
    + apply streq_true in E as <-. naive_solver.
    + apply streq_false in E. naive_solver.
Qed.

Lemma plain_obj_drop k fs : plain_obj fs -> plain_obj (drop_field k fs).
Proof.
  intros [Hd Hf]. split.
  - unfold drop_field. induction fs as [|[k1 v] fs IH]; [done|]. cbn [List.filter map fst]. apply NoDup_cons in Hd as [Hn Hd].
    apply Forall_cons in Hf as [_ Hf]. destruct (streq k k1); cbn [negb]; [by apply IH|]. cbn [map fst]. apply NoDup_cons. split; [|by apply IH].
    intros Hin. by apply (drop_field_keys k1 k fs) in Hin as [? _].
  - rewrite Forall_forall in *. intros f Hin. apply Hf. unfold drop_field in Hin. apply list_elem_of_In, filter_In in Hin as [Hin _]. by apply list_elem_of_In.
Qed.
