(* ===== verification/TierExpr.v ===== *)
(** Tier expressions: the visual configuration of a tiered price, the text it is stored
    as and the parser that reads the text back
    (src/web/src/features/pricing/lib/tier-expr.ts), and the parser with which the
    pricing page shows the same text (the tier parser of
    src/web/src/features/pricing/lib/billing-expr.ts). The regular expressions are
    those of the source, run by the matcher of [Regex]. *)

From S2P Require Import Prelude JsValue Scan NumText Regex.

Module TierExpr.
Local Open Scope regex_scope.

(** ** The variables *)

(** The fields of a tier that hold a unit cost. *)
Inductive CostField :=
| input_unit | output_unit | cache_read_unit | cache_create_unit | cache_create_1h_unit
| image_unit | image_output_unit | audio_input_unit | audio_output_unit.

#[export] Instance CostField_eq_dec : EqDecision CostField.
Proof. solve_decision. Defined.

Inductive Side := input_side | output_side | condition_side.
Inductive VarGroup := cache_group | media_group.

#[export] Instance VarGroup_eq_dec : EqDecision VarGroup.
Proof. solve_decision. Defined.

Record BillingVar := mkVar {
  key : jsstr;
  field : option jsstr;
  tierField : option CostField;
  var_label : jsstr;
  shortLabel : jsstr;
  side : Side;
  isBase : bool;
  isConditionOnly : bool;
  group : option VarGroup
}.

Definition BILLING_VARS : list BillingVar :=
  [mkVar (js "p") (Some (js "inputPrice")) (Some input_unit) (js "Input price") (js "Input") input_side true false None;
   mkVar (js "c") (Some (js "outputPrice")) (Some output_unit) (js "Completion price") (js "Output") output_side true false None;
   mkVar (js "len") None None (js "Input length") (js "Length") condition_side false true None;
   mkVar (js "cr") (Some (js "cacheReadPrice")) (Some cache_read_unit) (js "Cache read price") (js "Cache Read") input_side false false (Some cache_group);
   mkVar (js "cc") (Some (js "cacheCreatePrice")) (Some cache_create_unit) (js "Cache create price") (js "Cache Write") input_side false false (Some cache_group);
   mkVar (js "cc1h") (Some (js "cacheCreate1hPrice")) (Some cache_create_1h_unit) (js "Cache create (1h) price") (js "Cache Write (1h)") input_side false false (Some cache_group);
   mkVar (js "img") (Some (js "imagePrice")) (Some image_unit) (js "Image input price") (js "Image In") input_side false false (Some media_group);
   mkVar (js "img_o") (Some (js "imageOutputPrice")) (Some image_output_unit) (js "Image output price") (js "Image Out") output_side false false (Some media_group);
   mkVar (js "ai") (Some (js "audioInputPrice")) (Some audio_input_unit) (js "Audio input price") (js "Audio In") input_side false false (Some media_group);
   mkVar (js "ao") (Some (js "audioOutputPrice")) (Some audio_output_unit) (js "Audio output price") (js "Audio Out") output_side false false (Some media_group)].

Definition BILLING_PRICING_VARS : list BillingVar := List.filter (fun v => negb (isConditionOnly v)) BILLING_VARS.
Definition BILLING_EXTRA_VARS : list BillingVar :=
  List.filter (fun v => negb (isBase v) && negb (isConditionOnly v)) BILLING_VARS.
Definition BILLING_CONDITION_VARS : list jsstr :=
  map key (List.filter (fun v => isBase v || isConditionOnly v) BILLING_VARS).

(** [{ field, exprVar }] of the extra variables. *)
Definition BILLING_CACHE_VAR_MAP : list (CostField * jsstr) :=
  omap (fun v => match tierField v with Some f => Some (f, key v) | None => None end) BILLING_EXTRA_VARS.

Definition BILLING_VAR_KEY_TO_FIELD : list (jsstr * jsstr) :=
  omap (fun v => match field v with Some f => Some (key v, f) | None => None end) BILLING_PRICING_VARS.

(** ** Visual configurations *)

Inductive CacheMode := CACHE_MODE_TIMED | CACHE_MODE_GENERIC.

#[export] Instance CacheMode_eq_dec : EqDecision CacheMode.
Proof. solve_decision. Defined.

Inductive TierVar := var_p | var_c | var_len.
Inductive TierOp := op_lt | op_le | op_gt | op_ge.
#[export] Instance TierVar_eq_dec : EqDecision TierVar.
Proof. solve_decision. Defined.
#[export] Instance TierOp_eq_dec : EqDecision TierOp.
Proof. solve_decision. Defined.

(** [number | string] *)
Inductive TierValue := ValueNum (x : num) | ValueText (s : jsstr).

Record TierConditionInput := mkCond { cond_var : TierVar; cond_op : TierOp; cond_value : TierValue }.

Record VisualTier := mkTier {
  label : jsstr;
  conditions : list TierConditionInput;
  input_unit_cost : num;
  output_unit_cost : num;
  cache_mode : CacheMode;
  cache_read_unit_cost : option num;
  cache_create_unit_cost : option num;
  cache_create_1h_unit_cost : option num;
  image_unit_cost : option num;
  image_output_unit_cost : option num;
  audio_input_unit_cost : option num;
  audio_output_unit_cost : option num
}.

(** [Partial<VisualTier>]: the fields that are there. *)
Record PartialTier := mkPartial {
  p_label : option jsstr;
  p_conditions : option (list TierConditionInput);
  p_mode : option CacheMode;
  p_cost : CostField -> option num
}.

Definition VisualConfig := list VisualTier.

(** A tier's cost fields, and a tier seen as a partial one. *)
Definition tier_cost (t : VisualTier) (f : CostField) : option num :=
  match f with
  | input_unit => Some (input_unit_cost t)
  | output_unit => Some (output_unit_cost t)
  | cache_read_unit => cache_read_unit_cost t
  | cache_create_unit => cache_create_unit_cost t
  | cache_create_1h_unit => cache_create_1h_unit_cost t
  | image_unit => image_unit_cost t
  | image_output_unit => image_output_unit_cost t
  | audio_input_unit => audio_input_unit_cost t
  | audio_output_unit => audio_output_unit_cost t
  end.

Definition as_partial (t : VisualTier) : PartialTier :=
  mkPartial (Some (label t)) (Some (conditions t)) (Some (cache_mode t)) (tier_cost t).

(** [Number(x) || 0] of a number that may be missing. *)
Definition zero : num := num_of_Z 0.
Definition num_or_0 (x : option num) : num :=
  match x with Some x => if truthy_num x then x else zero | None => zero end.

Definition getTierCacheMode (t : PartialTier) : CacheMode :=
  match p_mode t with
  | Some m => m
  | None =>
      match p_cost t cache_create_1h_unit with
      | Some x => if ngt x zero then CACHE_MODE_TIMED else CACHE_MODE_GENERIC
      | None => CACHE_MODE_GENERIC
      end
  end.

(** The spread [...tier] puts the fields that are there over the first five. *)
Definition normalizeVisualTier (t : PartialTier) : VisualTier :=
  mkTier (default [] (p_label t)) (default [] (p_conditions t))
    (match p_cost t input_unit with Some x => x | None => zero end)
    (match p_cost t output_unit with Some x => x | None => zero end)
    (getTierCacheMode t)
    (Some (num_or_0 (p_cost t cache_read_unit))) (Some (num_or_0 (p_cost t cache_create_unit)))
    (Some (num_or_0 (p_cost t cache_create_1h_unit))) (Some (num_or_0 (p_cost t image_unit)))
    (Some (num_or_0 (p_cost t image_output_unit))) (Some (num_or_0 (p_cost t audio_input_unit)))
    (Some (num_or_0 (p_cost t audio_output_unit))).

(** Costs given one by one. *)
Definition costs_of (l : list (CostField * num)) (f : CostField) : option num :=
  snd <$> List.find (fun p => bool_decide (p.1 = f)) l.

Definition createDefaultVisualConfig : VisualConfig :=
  [normalizeVisualTier (mkPartial (Some (js "base")) (Some []) (Some CACHE_MODE_GENERIC)
     (costs_of [(input_unit, zero); (output_unit, zero)]))].

Definition normalizeVisualConfig (c : option VisualConfig) : VisualConfig :=
  match c with
  | None | Some [] => createDefaultVisualConfig
  | Some tiers => map (fun t => normalizeVisualTier (as_partial t)) tiers
  end.

(** ** The text of a configuration *)

Definition var_text (v : TierVar) : jsstr :=
  match v with var_p => js "p" | var_c => js "c" | var_len => js "len" end.
Definition op_text (o : TierOp) : jsstr :=
  match o with op_lt => js "<" | op_le => js "<=" | op_gt => js ">" | op_ge => js ">=" end.
Definition value_text (v : TierValue) : jsstr :=
  match v with ValueNum x => num_text x | ValueText s => s end.

(** [c.var && c.op && c.value != null && c.value !== ''] *)
Definition has_value (c : TierConditionInput) : bool :=
  match cond_value c with ValueText s => truthy_str s | ValueNum _ => true end.

Definition condition_text (c : TierConditionInput) : jsstr :=
  var_text (cond_var c) ++ js " " ++ op_text (cond_op c) ++ js " " ++ value_text (cond_value c).

Definition buildConditionStr (cs : list TierConditionInput) : jsstr :=
  join (js " && ") (map condition_text (List.filter has_value cs)).

Definition buildTierBodyExpr (t : VisualTier) : jsstr :=
  let ic := num_or_0 (Some (input_unit_cost t)) in
  let oc := num_or_0 (Some (output_unit_cost t)) in
  let extra '(f, v) :=
    let x := num_or_0 (tier_cost t f) in
    if neq x zero then [] else [v ++ js " * " ++ num_text x] in
  join (js " + ") ((js "p * " ++ num_text ic) :: (js "c * " ++ num_text oc) :: concat (map extra BILLING_CACHE_VAR_MAP)).

(** The call of [tier] with the quoted label and the body. *)
Definition quote : jsstr := [34].
Definition tier_text (l : jsstr) (t : VisualTier) : jsstr :=
  js "tier(" ++ quote ++ l ++ quote ++ js ", " ++ buildTierBodyExpr t ++ js ")".

Fixpoint tier_parts (i : Z) (tiers : list VisualTier) : list jsstr :=
  match tiers with
  | [] => []
  | t :: rest =>
      let body := tier_text (or_str (label t) (js "tier_" ++ dec (i + 1))) t in
      let cond := buildConditionStr (conditions t) in
      (match rest with
       | _ :: _ => if truthy_str cond then cond ++ js " ? " ++ body else body
       | [] => body
       end) :: tier_parts (i + 1) rest
  end.

Definition generateExprFromVisualConfig (c : option VisualConfig) : jsstr :=
  match c with
  | None | Some [] => js "p * 0 + c * 0"
  | Some [t] =>
      let body := tier_text (or_str (label t) (js "default")) t in
      let cond := buildConditionStr (conditions t) in
      if truthy_str cond then cond ++ js " ? " ++ body ++ js " : p * 0 + c * 0" else body
  | Some tiers => join (js " : ") (tier_parts 0 tiers)
  end.

(** ** The patterns *)

(** [\s*] *)
Definition ws : re := Star space.

(** The classes [[\d.eE+-]] and [[\d.eE+]]. *)
Definition is_cost_unit (c : Z) : bool := is_digit c || in_text ".eE+-" c.
Definition is_bound_unit (c : Z) : bool := is_digit c || in_text ".eE+" c.

(** A variable, an asterisk and a number, which is group [n]. *)
Definition factor (v : jsstr) (n : nat) : re :=
  Lit v ⋅ ws ⋅ lit "*" ⋅ ws ⋅ Grp n (Plus (Cls is_cost_unit)).

(** For each variable, an optional plus sign with a factor of it. *)
Fixpoint optCacheStr (n : nat) (vs : list jsstr) : re :=
  match vs with
  | [] => Eps
  | v :: vs => Opt (ws ⋅ lit "+" ⋅ ws ⋅ factor v n) ⋅ optCacheStr (S n) vs
  end.

Definition cacheVarNames : list jsstr := map snd BILLING_CACHE_VAR_MAP.

Definition bodyPat (n : nat) : re :=
  factor (js "p") n ⋅ ws ⋅ lit "+" ⋅ ws ⋅ factor (js "c") (S n) ⋅ optCacheStr (S (S n)) cacheVarNames.

(** The call up to the body; the label is group [n]. *)
Definition not_quote (c : Z) : bool := negb (c =? 34).
Definition tierHead (n : nat) : re :=
  lit "tier(" ⋅ Lit quote ⋅ Grp n (Star (Cls not_quote)) ⋅ Lit quote ⋅ lit "," ⋅ ws.

Definition singleRe : re := Bol ⋅ tierHead 1 ⋅ bodyPat 2 ⋅ lit ")" ⋅ Eol.

(** [(?:p|c|len)] and [(?:<|<=|>|>=)] *)
Definition var_re : re := lit "p" ∥ lit "c" ∥ lit "len".
Definition op_re : re := lit "<" ∥ lit "<=" ∥ lit ">" ∥ lit ">=".
Definition cond_re : re := var_re ⋅ ws ⋅ op_re ⋅ ws ⋅ Plus (Cls is_bound_unit).
Definition condGroup (n : nat) : re := Grp n (cond_re ⋅ Star (ws ⋅ lit "&&" ⋅ ws ⋅ cond_re)).
Definition condPrefix (n : nat) : re := Opt (condGroup n ⋅ ws ⋅ lit "?" ⋅ ws).

Definition tierRe : re := condPrefix 1 ⋅ tierHead 2 ⋅ bodyPat 3 ⋅ lit ")".

(** The version prefix: its number and the rest of the text. *)
Definition versionRe : re :=
  Bol ⋅ lit "v" ⋅ Grp 1 (Plus digit) ⋅ lit ":" ⋅ Grp 2 (Star (Cls (fun _ => true))) ⋅ Eol.

(** The separator of conditions, and a text that is one condition. *)
Definition andRe : re := ws ⋅ lit "&&" ⋅ ws.
Definition singleCondRe : re :=
  Bol ⋅ Grp 1 var_re ⋅ ws ⋅ Grp 2 op_re ⋅ ws ⋅ Grp 3 (Plus (Cls is_bound_unit)) ⋅ Eol.

(** ** Parsing *)

Definition group_text (n : nat) (x : mstate) : jsstr := default [] (cap n x).

(** The variable and the operator a group has matched. *)
Definition var_of (s : jsstr) : TierVar :=
  if streq s (js "p") then var_p else if streq s (js "c") then var_c else var_len.
Definition op_of (s : jsstr) : TierOp :=
  if streq s (js "<") then op_lt else if streq s (js "<=") then op_le else if streq s (js ">") then op_gt else op_ge.

Definition parse_condition (cp : jsstr) : option (TierVar * TierOp * num) :=
  match re_match singleCondRe (trim cp) with
  | Some m => Some (var_of (group_text 1 m), op_of (group_text 2 m), string_to_number (group_text 3 m))
  | None => None
  end.

Definition parse_conditions (condStr : jsstr) : list (TierVar * TierOp * num) :=
  if truthy_str condStr then omap parse_condition (re_split andRe condStr) else [].

Definition condition_input (c : TierVar * TierOp * num) : TierConditionInput :=
  mkCond c.1.1 c.1.2 (ValueNum c.2).

(** The tier whose costs are the groups from [n] on. *)
Definition matched_tier (l : jsstr) (cs : list TierConditionInput) (n : nat) (m : mstate) : VisualTier :=
  let extra i := match cap i m with Some v => Some (string_to_number v) | None => None end in
  let found := imap (fun i '(f, _) => (f, extra (n + 2 + i)%nat)) BILLING_CACHE_VAR_MAP in
  normalizeVisualTier
    (mkPartial (Some l) (Some cs) None
       (costs_of ((input_unit, string_to_number (group_text n m))
          :: (output_unit, string_to_number (group_text (n + 1) m))
          :: omap (fun '(f, x) => pair f <$> x) found))).

Definition strip_spaces (s : jsstr) : jsstr := List.filter (fun c => negb (is_space c)) s.

Definition stripVersion (s : jsstr) : jsstr :=
  match re_match versionRe s with Some m => group_text 2 m | None => s end.

Definition tryParseVisualConfig (exprStr : jsstr) : option VisualConfig :=
  if truthy_str exprStr then
    let body := stripVersion exprStr in
    match re_match singleRe body with
    | Some m => Some (normalizeVisualConfig (Some [matched_tier (group_text 1 m) [] 2 m]))
    | None =>
        let tiers := map (fun m => matched_tier (group_text 2 m) (map condition_input (parse_conditions (group_text 1 m))) 3 m)
                       (re_exec_all tierRe body) in
        match tiers with
        | [] => None
        | _ =>
            let cfg := normalizeVisualConfig (Some tiers) in
            if streq (strip_spaces (generateExprFromVisualConfig (Some cfg))) (strip_spaces body) then Some cfg else None
        end
    end
  else None.

(** ** The parser of the pricing page *)

Record ParsedTier := mkParsed {
  parsed_label : jsstr;
  parsed_conditions : list (TierVar * TierOp * num);
  prices : list (jsstr * num)
}.

(** A pricing variable at a word boundary with its number. *)
Fixpoint any_of (vs : list jsstr) : re :=
  match vs with
  | [] => Eps
  | [v] => Lit v
  | v :: vs => Lit v ∥ any_of vs
  end.
Definition BILLING_VAR_REGEX : re :=
  WordB ⋅ Grp 1 (any_of (map key BILLING_PRICING_VARS)) ⋅ ws ⋅ lit "*" ⋅ ws ⋅ Grp 2 (Plus (Cls is_cost_unit)).

(** [if (!(m[1] in coeffs)) coeffs[m[1]] = Number(m[2])] *)
Fixpoint lookup_coeff (k : jsstr) (l : list (jsstr * num)) : option num :=
  match l with
  | [] => None
  | (k', x) :: l => if streq k k' then Some x else lookup_coeff k l
  end.
Definition add_coeff (coeffs : list (jsstr * num)) (m : mstate) : list (jsstr * num) :=
  match lookup_coeff (group_text 1 m) coeffs with
  | Some _ => coeffs
  | None => coeffs ++ [(group_text 1 m, string_to_number (group_text 2 m))]
  end.

Definition parseTierBody (body : jsstr) : list (jsstr * num) :=
  let coeffs := fold_left add_coeff (re_exec_all BILLING_VAR_REGEX body) [] in
  map (fun '(k, f) => (f, num_or_0 (lookup_coeff k coeffs))) BILLING_VAR_KEY_TO_FIELD.

Record StrippedExpr := mkStripped { version : num; stripped_body : jsstr }.
Definition stripExprVersion (s : jsstr) : StrippedExpr :=
  if truthy_str s then
    match re_match versionRe s with
    | Some m => mkStripped (string_to_number (group_text 1 m)) (group_text 2 m)
    | None => mkStripped (num_of_Z 1) s
    end
  else mkStripped (num_of_Z 1) [].

(** As [tierRe], with any text up to a closing parenthesis as the body. *)
Definition pageTierRe : re :=
  condPrefix 1 ⋅ tierHead 2 ⋅ Grp 3 (Plus (Cls (fun c => negb (c =? 41)))) ⋅ lit ")".

Definition parsed_tier (m : mstate) : ParsedTier :=
  mkParsed (group_text 2 m) (parse_conditions (group_text 1 m)) (parseTierBody (group_text 3 m)).

Definition parseTiersFromExpr (exprStr : jsstr) : list ParsedTier :=
  if truthy_str exprStr then map parsed_tier (re_exec_all pageTierRe (stripped_body (stripExprVersion exprStr))) else [].

(** ** The estimator's variables *)

Definition ESTIMATOR_VARS : list jsstr :=
  [js "cr"; js "cc"; js "cc1h"; js "img"; js "img_o"; js "ai"; js "ao"].

Definition exprUsesExtraVars (exprStr : jsstr) : bool :=
  truthy_str exprStr && re_test (WordB ⋅ Grp 1 (any_of ESTIMATOR_VARS) ⋅ WordB) exprStr.

End TierExpr.
