(* ===== verification/TierRoundTrip.v ===== *)
(** The round trips of tier expressions: the text the visual editor writes is read back
    by its own parser as the configuration it was made from, and by the parser of the
    pricing page as the same labels, conditions and prices. *)

From S2P Require Import Prelude JsValue Scan NumText Json Regex TierExpr.
Import TierExpr.

Module TierRoundTrip.
Local Open Scope regex_scope.

(** ** Well-formed configurations *)

(** A cost whose text is a run of the number class that [Number] reads back; a double
    that is neither infinite nor not a number always is. *)
Definition cost_ok (x : num) : bool :=
  truthy_str (num_text x) && forallb is_cost_unit (num_text x) && bool_decide (string_to_number (num_text x) = x).

(** A bound that is written without a minus sign and reads back as it is written. *)
Definition bound_ok (v : TierValue) : bool :=
  truthy_str (value_text v) && forallb is_bound_unit (value_text v)
  && streq (num_text (string_to_number (value_text v))) (value_text v).

Definition all_costs : list CostField :=
  [input_unit; output_unit; cache_read_unit; cache_create_unit; cache_create_1h_unit;
   image_unit; image_output_unit; audio_input_unit; audio_output_unit].

Definition tier_ok (t : VisualTier) : bool :=
  forallb not_quote (label t)
  && forallb (fun f => cost_ok (num_or_0 (tier_cost t f))) all_costs
  && forallb (fun c => negb (has_value c) || bound_ok (cond_value c)) (conditions t).

(** What is left of a condition and of a tier in the text: the conditions with a value,
    as numbers, the costs as numbers, and the cache mode the costs imply. *)
Definition canonical_cond (c : TierConditionInput) : TierConditionInput :=
  mkCond (cond_var c) (cond_op c) (ValueNum (string_to_number (value_text (cond_value c)))).

Definition canonical_tier (l : jsstr) (cs : list TierConditionInput) (t : VisualTier) : VisualTier :=
  let x f := num_or_0 (tier_cost t f) in
  mkTier l (map canonical_cond (List.filter has_value cs)) (x input_unit) (x output_unit)
    (if ngt (x cache_create_1h_unit) zero then CACHE_MODE_TIMED else CACHE_MODE_GENERIC)
    (Some (x cache_read_unit)) (Some (x cache_create_unit)) (Some (x cache_create_1h_unit)) (Some (x image_unit))
    (Some (x image_output_unit)) (Some (x audio_input_unit)) (Some (x audio_output_unit)).

Fixpoint canonical_tiers (i : Z) (tiers : list VisualTier) : list VisualTier :=
  match tiers with
  | [] => []
  | t :: rest =>
      canonical_tier (or_str (label t) (js "tier_" ++ dec (i + 1))) (match rest with [] => [] | _ => conditions t end) t
      :: canonical_tiers (i + 1) rest
  end.

(** An only tier keeps its conditions; of several, the last one is the fallback. *)
Definition canonical (c : VisualConfig) : VisualConfig :=
  match c with
  | [t] => [canonical_tier (or_str (label t) (js "default")) (conditions t) t]
  | _ => canonical_tiers 0 c
  end.

(** ** Bodies *)

(** The factors after the first two. *)
Definition extras (t : VisualTier) (vs : list (CostField * jsstr)) : list (jsstr * jsstr) :=
  omap (fun '(f, v) => let x := num_or_0 (tier_cost t f) in if neq x zero then None else Some (v, num_text x)) vs.

Definition extra_text (e : jsstr * jsstr) : jsstr := js " + " ++ e.1 ++ js " * " ++ e.2.

Definition base_text (t : VisualTier) : jsstr :=
  js "p * " ++ num_text (num_or_0 (Some (input_unit_cost t))) ++ js " + c * " ++ num_text (num_or_0 (Some (output_unit_cost t))).

Lemma extras_text t vs :
  concat (map (fun x => js " + " ++ x)
    (concat (map (fun '(f, v) => let x := num_or_0 (tier_cost t f) in if neq x zero then [] else [v ++ js " * " ++ num_text x]) vs)))
  = concat (map extra_text (extras t vs)).
Proof.
  induction vs as [|[f v] vs IH]; [done|]. unfold extras in *. cbn [map concat omap list_omap].
  destruct (neq _ zero); [exact IH|]. cbn [app map concat]. rewrite IH. unfold extra_text. cbn [fst snd]. by rewrite <- !app_assoc.
Qed.

Lemma body_text t : buildTierBodyExpr t = base_text t ++ concat (map extra_text (extras t BILLING_CACHE_VAR_MAP)).
Proof.
  unfold buildTierBodyExpr, base_text. rewrite join_cons. cbn [map concat]. rewrite extras_text, <- !app_assoc.
  by do 2 f_equal.
Qed.

(** ** Units of numbers *)

Lemma forallb_Forall {A} (P : A -> bool) l : forallb P l = true -> Forall (fun x => P x = true) l.
Proof. induction l as [|x l IH]; cbn; intros H; [constructor|]. apply andb_true_iff in H as [? ?]. constructor; auto. Qed.

Lemma in_text_range s c lo hi : in_text s c = true -> forallb (fun d => (lo <=? d) && (d <=? hi)) (js s) = true -> lo <= c <= hi.
Proof.
  unfold in_text. intros H%bool_decide_eq_true Hf%forallb_Forall. rewrite Forall_forall in Hf. specialize (Hf c H). lia.
Qed.

Lemma cost_unit_range c : is_cost_unit c = true -> 43 <= c <= 101.
Proof.
  unfold is_cost_unit, is_digit. intros [H|H]%orb_true_iff; [lia|]. by apply (in_text_range ".eE+-" c).
Qed.

Lemma bound_unit_cost c : is_bound_unit c = true -> is_cost_unit c = true.
Proof.
  unfold is_bound_unit, is_cost_unit. intros [->|H]%orb_true_iff; [done|]. apply orb_true_iff. right.
  unfold in_text in *. apply bool_decide_eq_true in H. apply bool_decide_eq_true.
  change (js ".eE+-") with (js ".eE+" ++ js "-"). apply elem_of_app. by left.
Qed.

Lemma range_not_space c : 43 <= c <= 101 -> is_space c = false.
Proof. unfold is_space. lia. Qed.

Lemma stops_range (P : Z -> bool) run s :
  run <> [] -> Forall (fun c => is_cost_unit c = true) run -> (forall c, 43 <= c <= 101 -> P c = false) -> stops P (run ++ s).
Proof.
  intros Hne Hr HP. destruct run as [|c run]; [done|]. apply Forall_cons in Hr as [Hc _]. by apply HP, cost_unit_range.
Qed.

(** The text of an admissible cost. *)
Lemma cost_ok_run x :
  cost_ok x = true -> num_text x <> [] /\ Forall (fun c => is_cost_unit c = true) (num_text x) /\ string_to_number (num_text x) = x.
Proof.
  unfold cost_ok. intros [[Ht Hc]%andb_true_iff Hr]%andb_true_iff. split_and!.
  - by apply truthy_str_spec.
  - by apply forallb_Forall.
  - by apply bool_decide_eq_true in Hr.
Qed.

(** ** Words of the patterns *)

Notation spaces := (Forall (fun c => is_space c = true)).

(** A text splits in one way into a run of a class and a rest that stops it. *)
Lemma span_unique (P : Z -> bool) a b x y :
  Forall (fun c => P c = true) a -> Forall (fun c => P c = true) b -> stops P x -> stops P y ->
  a ++ x = b ++ y -> a = b /\ x = y.
Proof.
  intros Ha. revert b. induction Ha as [|c a Hc Ha IH]; intros b Hb Hx Hy E.
  - destruct Hb as [|d b Hd Hb]; [done|]. cbn in E. subst x. cbn in Hx. congruence.
  - destruct Hb as [|d b Hd Hb]; cbn in E.
    + subst y. cbn in Hy. congruence.
    + injection E as -> E. destruct (IH b Hb Hx Hy E). by subst.
Qed.

Lemma lang_ws w : lang ws w <-> spaces w.
Proof. apply lang_Star_Cls. Qed.

(** A name of a variable: a non-empty run of word units. *)
Definition name_ok (v : jsstr) : Prop := v <> [] /\ Forall (fun c => is_word c = true) v.

Lemma word_not_space c : is_word c = true -> is_space c = false.
Proof. unfold is_word, is_digit, is_space. lia. Qed.

Lemma name_stops v s : name_ok v -> stops is_space (v ++ s).
Proof.
  intros [Hne Hv]. destruct v as [|c v]; [done|]. apply Forall_cons in Hv as [Hc _]. by apply word_not_space.
Qed.

Lemma factor_word v n w :
  lang (factor v n) w -> exists w1 w2, w = v ++ w1 ++ 42 :: w2 /\ spaces w1.
Proof.
  intros (a & r & -> & ->%lang_Lit & w1 & r' & -> & H1%lang_ws & a' & r'' & -> & ->%lang_Lit & _).
  exists w1. eexists. by split.
Qed.

Lemma extra_word v n w :
  lang (ws ⋅ lit "+" ⋅ ws ⋅ factor v n) w ->
  exists w1 w2 w3 w4, w = w1 ++ 43 :: w2 ++ v ++ w3 ++ 42 :: w4 /\ spaces w1 /\ spaces w2 /\ spaces w3.
Proof.
  intros (w1 & r & -> & H1%lang_ws & a & r' & -> & ->%lang_Lit & w2 & r'' & -> & H2%lang_ws & (w3 & w4 & -> & H3)%factor_word).
  by exists w1, w2, w3, w4.
Qed.

Lemma spaces_stop_star s w : spaces w -> stops is_word (w ++ 42 :: s).
Proof.
  intros Hw. destruct Hw as [|c w Hc _]; [done|]. cbn. destruct (is_word c) eqn:E; [|done]. apply word_not_space in E. congruence.
Qed.

Lemma extra_clash v n u x s w r :
  name_ok v -> name_ok u -> u <> v -> lang (ws ⋅ lit "+" ⋅ ws ⋅ factor v n) w -> extra_text (u, x) ++ s = w ++ r -> False.
Proof.
  intros Hv Hu Huv (w1 & w2 & w3 & w4 & -> & H1 & H2 & H3)%extra_word E.
  unfold extra_text in E. cbn [fst snd] in E. rewrite <- !app_assoc in E. cbn [app] in E.
  change (js " + " ++ u ++ js " * " ++ x ++ s) with ([32] ++ 43 :: [32] ++ u ++ 32 :: 42 :: 32 :: x ++ s) in E.
  apply (span_unique is_space) in E as [<- E]; [|by repeat constructor|done|done|done].
  injection E as E. rewrite <- ?app_assoc in E. cbn [app] in E. rewrite <- ?app_assoc in E.
  change (32 :: u ++ 32 :: 42 :: 32 :: x ++ s) with ([32] ++ u ++ 32 :: 42 :: 32 :: x ++ s) in E.
  apply (span_unique is_space) in E as [<- E]; [|by repeat constructor|done|by apply name_stops|by apply name_stops].
  apply (span_unique is_word) in E as [-> _]; [done|apply Hu|apply Hv|done|].
  cbn [app]. by apply spaces_stop_star.
Qed.

Lemma extra_not_paren v n s w r : lang (ws ⋅ lit "+" ⋅ ws ⋅ factor v n) w -> 41 :: s = w ++ r -> False.
Proof.
  intros (w1 & w2 & w3 & w4 & -> & H1 & _)%extra_word E. destruct H1 as [|c w1 Hc _]; [done|]. cbn in E. injection E as <- _. done.
Qed.

(** ** Steps of the patterns *)

Section Steps.
Context {A : Type}.
Implicit Types (k : mstate -> option A) (v : A).

Lemma reverse_cons_app (u : Z) l b : reverse (u :: l) ++ b = reverse l ++ u :: b.
Proof. by rewrite reverse_cons, <- app_assoc. Qed.

(** One blank where [\s*] is allowed. *)
Lemma ws_one k b s c v :
  stops is_space s -> k (mkM (32 :: b) s c) = Some v -> rmatch ws k (mkM b (32 :: s) c) = Some v.
Proof. intros Hs H. apply (star_run is_space k [32]); [by repeat constructor|done|exact H]. Qed.

Lemma ws_none k b s c : stops is_space s -> rmatch ws k (mkM b s c) = k (mkM b s c).
Proof.
  intros Hs. apply star_stop. cbn. intros w t E Hne (d & -> & Hd). destruct s as [|d' s]; [done|].
  cbn in E. injection E as -> _. cbn in Hs. congruence.
Qed.

Lemma factor_step name x n k b s c v :
  cost_ok x = true -> stops is_cost_unit s ->
  k (mkM (reverse (name ++ js " * " ++ num_text x) ++ b) s ((n, num_text x) :: c)) = Some v ->
  rmatch (factor name n) k (mkM b (name ++ js " * " ++ num_text x ++ s) c) = Some v.
Proof.
  intros (Hne & Hrun & _)%cost_ok_run Hs H. unfold factor. cbn [rmatch]. rewrite rmatch_Lit.
  change (js " * " ++ num_text x ++ s) with (32 :: [42] ++ 32 :: num_text x ++ s).
  apply ws_one; [done|]. unfold lit. rewrite (rmatch_Lit [42]). apply ws_one; [by apply stops_range, range_not_space|].
  apply group_run; try done. revert H. rewrite !reverse_app, <- !app_assoc. exact (fun H => H).
Qed.

(** The optional factors: those that are there are captured, the others are passed over. *)
Fixpoint extra_caps (t : VisualTier) (n : nat) (vs : list (CostField * jsstr)) (c : list (nat * jsstr)) : list (nat * jsstr) :=
  match vs with
  | [] => c
  | (f, _) :: vs =>
      let x := num_or_0 (tier_cost t f) in
      extra_caps t (S n) vs (if neq x zero then c else (n, num_text x) :: c)
  end.

Lemma extras_names t vs u x : (u, x) ∈ extras t vs -> u ∈ map snd vs.
Proof.
  unfold extras. intros H%list_elem_of_omap. destruct H as ([f w] & Hin & H). destruct (neq _ zero); [done|].
  injection H as -> _. apply list_elem_of_fmap. by exists (f, u).
Qed.

Lemma extra_absent t vs name n s w r :
  Forall name_ok (map snd vs) -> name_ok name -> name ∉ map snd vs -> lang (ws ⋅ lit "+" ⋅ ws ⋅ factor name n) w ->
  concat (map extra_text (extras t vs)) ++ 41 :: s = w ++ r -> False.
Proof.
  intros Hn Hname Hfresh Hw E. destruct (extras t vs) as [|[u x] es] eqn:Ex; [exact (extra_not_paren _ _ _ _ _ Hw E)|].
  assert (u ∈ map snd vs) as Hu by (eapply (extras_names t vs u x); rewrite Ex; left).
  cbn [map concat] in E. rewrite <- app_assoc in E. eapply (extra_clash name n u x); try done.
  - rewrite Forall_forall in Hn. by apply Hn.
  - by intros ->.
Qed.

(** One factor that is there. *)
Lemma extra_step name x n k b s c v :
  name_ok name -> cost_ok x = true -> stops is_cost_unit s ->
  k (mkM (reverse (extra_text (name, num_text x)) ++ b) s ((n, num_text x) :: c)) = Some v ->
  rmatch (ws ⋅ lit "+" ⋅ ws ⋅ factor name n) k (mkM b (extra_text (name, num_text x) ++ s) c) = Some v.
Proof.
  intros Hn Hx Hs H. unfold extra_text in *. cbn [fst snd] in *. rewrite <- !app_assoc.
  change (js " + " ++ ?y) with (32 :: [43] ++ 32 :: y) in H |- *. rewrite !rmatch_Seq.
  apply ws_one; [done|]. rewrite rmatch_Seq. unfold lit. rewrite (rmatch_Lit [43]), rmatch_Seq.
  apply ws_one; [by apply name_stops|]. apply factor_step; try done.
  cbn [app] in H. by rewrite !reverse_cons_app in H.
Qed.

Lemma extras_stop t vs s : stops is_cost_unit (concat (map extra_text (extras t vs)) ++ 41 :: s).
Proof. by destruct (extras t vs) as [|[u x] es]. Qed.

Lemma extras_step t vs : forall n k b s c v,
  Forall name_ok (map snd vs) -> NoDup (map snd vs) ->
  Forall (fun p => cost_ok (num_or_0 (tier_cost t p.1)) = true) vs ->
  (forall p, p ∈ c -> (p.1 < n)%nat) ->
  k (mkM (reverse (concat (map extra_text (extras t vs))) ++ b) (41 :: s) (extra_caps t n vs c)) = Some v ->
  rmatch (optCacheStr n (map snd vs)) k (mkM b (concat (map extra_text (extras t vs)) ++ 41 :: s) c) = Some v.
Proof.
  induction vs as [|[f name] vs IH]; intros n k b s c v Hn Hd Hc Hcaps H; [exact H|].
  cbn [map snd] in Hn, Hd |- *. apply Forall_cons in Hn as [Hname Hn]. apply NoDup_cons in Hd as [Hfresh Hd].
  apply Forall_cons in Hc as [Hx Hc]. cbn [fst] in Hx. cbn [optCacheStr]. rewrite rmatch_Seq.
  change (extras t ((f, name) :: vs)) with
    (match (if neq (num_or_0 (tier_cost t f)) zero then None else Some (name, num_text (num_or_0 (tier_cost t f)))) with
     | Some e => e :: extras t vs | None => extras t vs end) in H |- *.
  cbn [extra_caps] in H. destruct (neq (num_or_0 (tier_cost t f)) zero).
  - rewrite opt_none; [|by intros w r E _ Hw; eapply extra_absent]. apply IH; try done. intros q Hq. specialize (Hcaps q Hq). lia.
  - cbn [map concat] in H |- *. rewrite <- app_assoc. apply opt_some.
    rewrite clear_fresh.
    + apply extra_step; [done|done|apply extras_stop|]. unfold progress. cbn [rest]. rewrite (length_app (extra_text _)).
      replace (_ <? _)%nat with true by (symmetry; apply Nat.ltb_lt; cbn; lia).
      apply IH; try done.
      * intros q [->|Hq]%elem_of_cons; [cbn; lia|]. specialize (Hcaps q Hq). lia.
      * by rewrite reverse_app, <- app_assoc in H.
    + cbn. rewrite groups_Lit. cbn. intros q Hq E%list_elem_of_singleton. specialize (Hcaps q Hq). lia.
Qed.

(** A plus sign between blanks. *)
Lemma plus_sep r k b s c v :
  stops is_space s -> rmatch r k (mkM (32 :: 43 :: 32 :: b) s c) = Some v ->
  rmatch (ws ⋅ lit "+" ⋅ ws ⋅ r) k (mkM b (32 :: 43 :: 32 :: s) c) = Some v.
Proof.
  intros Hs H. rewrite rmatch_Seq. apply ws_one; [done|]. rewrite rmatch_Seq. unfold lit.
  rewrite (rmatch_Lit [43] _ _ (32 :: s)), rmatch_Seq. by apply ws_one.
Qed.

(** A whole body. *)
Definition body_caps (t : VisualTier) (n : nat) (c : list (nat * jsstr)) : list (nat * jsstr) :=
  extra_caps t (S (S n)) BILLING_CACHE_VAR_MAP
    ((S n, num_text (num_or_0 (Some (output_unit_cost t)))) :: (n, num_text (num_or_0 (Some (input_unit_cost t)))) :: c).

Lemma names_of_vars : Forall name_ok cacheVarNames /\ NoDup cacheVarNames.
Proof.
  split; [|by apply (bool_decide_unpack _); vm_compute].
  change cacheVarNames with [js "cr"; js "cc"; js "cc1h"; js "img"; js "img_o"; js "ai"; js "ao"].
  repeat (apply Forall_cons; split; [split; [done|by repeat constructor]|]). constructor.
Qed.

Lemma body_step t n k b s c v :
  Forall (fun f => cost_ok (num_or_0 (tier_cost t f)) = true) all_costs -> (forall p, p ∈ c -> (p.1 < n)%nat) ->
  k (mkM (reverse (buildTierBodyExpr t) ++ b) (41 :: s) (body_caps t n c)) = Some v ->
  rmatch (bodyPat n) k (mkM b (buildTierBodyExpr t ++ 41 :: s) c) = Some v.
Proof.
  intros Hc Hcaps H. rewrite body_text in *. unfold base_text in *. rewrite <- !app_assoc in *.
  unfold bodyPat. rewrite !rmatch_Seq.
  assert (forall f, cost_ok (num_or_0 (tier_cost t f)) = true) as Hcost.
  { intros f. rewrite Forall_forall in Hc. apply Hc. destruct f; set_solver. }
  apply (factor_step (js "p") (num_or_0 (Some (input_unit_cost t)))); [exact (Hcost input_unit)|done|].
  apply plus_sep; [done|]. rewrite rmatch_Seq.
  apply (factor_step (js "c") (num_or_0 (Some (output_unit_cost t)))); [exact (Hcost output_unit)|apply extras_stop|].
  apply extras_step; try apply names_of_vars.
  - apply Forall_forall. intros p _. apply Hcost.
  - intros p [->|[->|Hp]%elem_of_cons]%elem_of_cons; cbn; [lia|lia|]. specialize (Hcaps p Hp). lia.
  - revert H. rewrite !reverse_app, <- !app_assoc. exact (fun H => H).
Qed.

(** The call of [tier] up to the body, and the whole call. *)
Lemma head_step l n k b s c v :
  forallb not_quote l = true -> stops is_space s ->
  k (mkM (reverse (js "tier(" ++ quote ++ l ++ quote ++ js ", ") ++ b) s ((n, l) :: c)) = Some v ->
  rmatch (tierHead n) k (mkM b (js "tier(" ++ quote ++ l ++ quote ++ js ", " ++ s) c) = Some v.
Proof.
  intros Hl%forallb_Forall Hs H. unfold tierHead, lit. rewrite rmatch_Seq, rmatch_Lit, rmatch_Seq, rmatch_Lit, rmatch_Seq.
  apply group_star_run; [done|done|]. rewrite rmatch_Seq, rmatch_Lit, rmatch_Seq.
  change (js ", " ++ s) with (js "," ++ 32 :: s). rewrite rmatch_Lit. apply ws_one; [done|].
  revert H. rewrite !reverse_app, <- !app_assoc. exact (fun H => H).
Qed.

Lemma body_starts t s : stops is_space (buildTierBodyExpr t ++ s).
Proof. by rewrite body_text. Qed.

Lemma call_step t l n k b s c v :
  forallb not_quote l = true -> Forall (fun f => cost_ok (num_or_0 (tier_cost t f)) = true) all_costs ->
  (forall p, p ∈ c -> (p.1 < n)%nat) ->
  k (mkM (reverse (tier_text l t) ++ b) s (body_caps t (S n) ((n, l) :: c))) = Some v ->
  rmatch (tierHead n) (rmatch (bodyPat (S n)) (rmatch (lit ")") k)) (mkM b (tier_text l t ++ s) c) = Some v.
Proof.
  intros Hl Hc Hcaps H. unfold tier_text in *. rewrite <- !app_assoc in *.
  apply head_step; [done|apply body_starts|]. change (js ")" ++ s) with (41 :: s). apply body_step; [done| |].
  - intros p [->|Hp]%elem_of_cons; cbn; [lia|]. specialize (Hcaps p Hp). lia.
  - unfold lit. rewrite (rmatch_Lit [41] k _ s). revert H. rewrite !reverse_app, <- !app_assoc. exact (fun H => H).
Qed.

(** Conditions. *)
Lemma var_step x k b s c : rmatch var_re k (mkM b (var_text x ++ s) c) = k (mkM (reverse (var_text x) ++ b) s c).
Proof. destruct x; cbn; by destruct (k _). Qed.

Lemma op_step o k b s c :
  (forall b' c', k (mkM b' (61 :: 32 :: s) c') = None) ->
  rmatch op_re k (mkM b (op_text o ++ 32 :: s) c) = k (mkM (reverse (op_text o) ++ b) (32 :: s) c).
Proof. intros Hk. destruct o; cbn; rewrite ?Hk; by destruct (k _). Qed.

Lemma bound_after_eq q k b s c :
  (forall w, lang q w -> exists d w', w = d :: w' /\ is_bound_unit d = true) ->
  rmatch ws (rmatch q k) (mkM b (61 :: s) c) = None.
Proof.
  intros Hq. rewrite <- rmatch_Seq. apply rmatch_none. cbn [rest]. intros w u E (w1 & r1 & -> & H1%lang_ws & L).
  destruct (Hq _ L) as (d & w' & -> & Hd). destruct H1 as [|x w1 Hx _]; cbn in E; injection E as <- _; done.
Qed.

Lemma plus_word P w : lang (Plus (Cls P)) w -> exists d w', w = d :: w' /\ P d = true.
Proof. intros (w1 & w2 & -> & (d & -> & Hd) & _). by exists d, w2. Qed.

Lemma bound_ok_run x :
  bound_ok x = true ->
  value_text x <> [] /\ Forall (fun c => is_bound_unit c = true) (value_text x)
  /\ num_text (string_to_number (value_text x)) = value_text x.
Proof.
  unfold bound_ok. intros [[Ht Hc]%andb_true_iff Hr]%andb_true_iff. split_and!.
  - by apply truthy_str_spec.
  - by apply forallb_Forall.
  - by apply streq_true in Hr.
Qed.

Lemma bound_run_starts x s : bound_ok x = true -> stops is_space (value_text x ++ s).
Proof.
  intros (Hne & Hr & _)%bound_ok_run. apply stops_range, range_not_space; [done|].
  eapply Forall_impl; [exact Hr|]. apply bound_unit_cost.
Qed.

Lemma cond_step x k b s c v :
  bound_ok (cond_value x) = true -> stops is_bound_unit s ->
  k (mkM (reverse (condition_text x) ++ b) s c) = Some v ->
  rmatch cond_re k (mkM b (condition_text x ++ s) c) = Some v.
Proof.
  intros Hx Hs H. pose proof (bound_ok_run _ Hx) as (Hne & Hr & _). unfold condition_text, cond_re in *. rewrite <- !app_assoc.
  rewrite rmatch_Seq, var_step, rmatch_Seq. apply ws_one; [by destruct (cond_op x)|]. rewrite rmatch_Seq.
  change (js " " ++ value_text (cond_value x) ++ s) with (32 :: value_text (cond_value x) ++ s).
  rewrite op_step by (intros b' c'; rewrite rmatch_Seq; apply bound_after_eq, plus_word). rewrite rmatch_Seq.
  apply ws_one; [by apply bound_run_starts|]. apply plus_run; try done.
  revert H. rewrite !reverse_app, <- !app_assoc. exact (fun H => H).
Qed.

(** The conditions after the first, and a word that begins them. *)
Definition more_text (x : TierConditionInput) : jsstr := js " && " ++ condition_text x.

Lemma and_word r w : lang (ws ⋅ lit "&&" ⋅ r) w -> exists w1 w2, w = w1 ++ 38 :: w2 /\ spaces w1.
Proof.
  intros (w1 & r1 & -> & H1%lang_ws & w2 & r2 & -> & ->%lang_Lit & _). eexists w1, _. by split.
Qed.

Lemma and_clash r w u s d : lang (ws ⋅ lit "&&" ⋅ r) w -> d <> 38 -> is_space d = false -> 32 :: d :: s = w ++ u -> False.
Proof.
  intros (w1 & w2 & -> & H1)%and_word Hd Hsp E. rewrite <- app_assoc in E.
  change (32 :: d :: s) with ([32] ++ d :: s) in E. apply (span_unique is_space) in E as [_ E]; [|by repeat constructor|done|done|done].
  injection E as -> _. done.
Qed.

Lemma conds_step xs : forall k b s c v,
  Forall (fun x => bound_ok (cond_value x) = true) xs ->
  k (mkM (reverse (concat (map more_text xs)) ++ b) (32 :: 63 :: s) c) = Some v ->
  rmatch (Star (ws ⋅ lit "&&" ⋅ ws ⋅ cond_re)) k (mkM b (concat (map more_text xs) ++ 32 :: 63 :: s) c) = Some v.
Proof.
  induction xs as [|x xs IH]; intros k b s c v Hok H.
  - rewrite star_stop; [exact H|]. cbn [rest map concat app]. intros w u E _ L. by eapply (and_clash _ _ _ _ 63).
  - apply Forall_cons in Hok as [Hx Hok]. apply star_step. cbn [map concat] in *. rewrite <- app_assoc. unfold more_text at 1.
    change (groups _) with (@nil nat). cbn [clear]. rewrite <- app_assoc. rewrite rmatch_Seq.
    change (js " && " ++ condition_text x ++ concat (map more_text xs) ++ 32 :: 63 :: s)
      with (32 :: js "&&" ++ 32 :: condition_text x ++ concat (map more_text xs) ++ 32 :: 63 :: s).
    apply ws_one; [done|]. rewrite rmatch_Seq. unfold lit.
    rewrite (rmatch_Lit (js "&&") _ _ (32 :: condition_text x ++ concat (map more_text xs) ++ 32 :: 63 :: s)), rmatch_Seq.
    apply ws_one; [by unfold condition_text; destruct (cond_var x)|]. apply cond_step; [done|by destruct xs|].
    rewrite (progress_app (32 :: js "&&" ++ 32 :: condition_text x) (concat (map more_text xs) ++ 32 :: 63 :: s)) by done.
    apply IH; [done|]. revert H. unfold more_text at 1. rewrite !reverse_app, <- !app_assoc. exact (fun H => H).
Qed.

(** The conditions of a tier before its call. *)
Definition cond_prefix (cs : list TierConditionInput) : jsstr :=
  let cond := buildConditionStr cs in if truthy_str cond then cond ++ js " ? " else [].
Definition cond_caps (cs : list TierConditionInput) : list (nat * jsstr) :=
  let cond := buildConditionStr cs in if truthy_str cond then [(1%nat, cond)] else [].

Lemma build_cons x xs cs :
  List.filter has_value cs = x :: xs -> buildConditionStr cs = condition_text x ++ concat (map more_text xs).
Proof. intros E. unfold buildConditionStr. rewrite E. cbn [map]. rewrite join_cons, map_map. done. Qed.

Lemma condition_text_truthy x s : truthy_str (condition_text x ++ s) = true.
Proof. unfold condition_text. by destruct (cond_var x). Qed.

Lemma cond_first w : lang cond_re w -> exists d w', w = d :: w' /\ in_text "pcl" d = true.
Proof.
  intros (w1 & w2 & -> & [ ->%lang_Lit | [ ->%lang_Lit | ->%lang_Lit ] ] & _); eexists _, _; by split.
Qed.

Lemma condGroup_first n r w : lang (condGroup n ⋅ r) w -> exists d w', w = d :: w' /\ in_text "pcl" d = true.
Proof.
  intros (w1 & w2 & -> & (w3 & w4 & -> & (d & w' & -> & Hd)%cond_first & _) & _). exists d. eexists. by split.
Qed.

Lemma effective_ok cs :
  forallb (fun c => negb (has_value c) || bound_ok (cond_value c)) cs = true ->
  Forall (fun x => bound_ok (cond_value x) = true) (List.filter has_value cs).
Proof.
  intros Hok%forallb_Forall. induction Hok as [|c cs Hc _ IH]; [constructor|]. cbn [List.filter].
  destruct (has_value c); [by constructor|done].
Qed.

Lemma prefix_step n cs k b s v :
  forallb (fun c => negb (has_value c) || bound_ok (cond_value c)) cs = true ->
  match s with d :: _ => in_text "pcl" d = false /\ is_space d = false | [] => True end ->
  k (mkM (reverse (cond_prefix cs) ++ b) s (if truthy_str (buildConditionStr cs) then [(n, buildConditionStr cs)] else [])) = Some v ->
  rmatch (condPrefix n) k (mkM b (cond_prefix cs ++ s) []) = Some v.
Proof.
  intros Hok Hs H. unfold cond_prefix in *. destruct (List.filter has_value cs) as [|x xs] eqn:E.
  - assert (buildConditionStr cs = []) as Hc by (unfold buildConditionStr; by rewrite E). rewrite Hc in *.
    change (truthy_str []) with false in *. cbv beta iota in *. cbn [app] in *. change (reverse [] ++ b) with b in H. unfold condPrefix. rewrite opt_none; [done|]. cbn [rest].
    intros w u Ew _ (d & w' & -> & Hd)%condGroup_first. subst s. destruct Hs. congruence.
  - rewrite (build_cons x xs cs E), condition_text_truthy in *.
    pose proof (effective_ok cs Hok) as Hxs. rewrite E in Hxs. apply Forall_cons in Hxs as [Hx Hxs]. unfold condPrefix. apply opt_some. rewrite clear_fresh by (intros ? []%elem_of_nil).
    rewrite <- !app_assoc. rewrite rmatch_Seq.
    change (condition_text x ++ concat (map more_text xs) ++ js " ? " ++ s)
      with (condition_text x ++ concat (map more_text xs) ++ 32 :: 63 :: 32 :: s).
    unfold condGroup. rewrite app_assoc. apply group_some. rewrite <- app_assoc. rewrite rmatch_Seq. apply cond_step; [done|by destruct xs|].
    apply conds_step; [done|]. cbn [before rest caps]. rewrite (app_assoc (condition_text x)), captured. rewrite rmatch_Seq. apply ws_one; [done|]. rewrite rmatch_Seq.
    unfold lit. rewrite (rmatch_Lit [63] _ _ (32 :: s)). apply ws_one; [by destruct s; [|apply Hs]|].
    unfold progress. cbn [rest]. replace (_ <? _)%nat with true
      by (symmetry; apply Nat.ltb_lt; rewrite !length_app; cbn [length]; lia).
    revert H. rewrite !reverse_app, <- !app_assoc. exact (fun H => H).
Qed.

End Steps.

(** ** Texts made of parts *)

(** A label, conditions and the tier they are written with. *)
Definition Part : Type := jsstr * list TierConditionInput * VisualTier.

Definition part_ok (p : Part) : bool :=
  let '(l, cs, t) := p in
  forallb not_quote l && forallb (fun f => cost_ok (num_or_0 (tier_cost t f))) all_costs
  && forallb (fun c => negb (has_value c) || bound_ok (cond_value c)) cs.

Definition part_text (p : Part) : jsstr := let '(l, cs, t) := p in cond_prefix cs ++ tier_text l t.
Definition part_caps (p : Part) : list (nat * jsstr) :=
  let '(l, cs, t) := p in body_caps t 3 ((2%nat, l) :: cond_caps cs).
Definition parts_text (ps : list Part) : jsstr := concat (map (fun p => js " : " ++ part_text p) ps).

Lemma part_step p b s :
  part_ok p = true ->
  rmatch tierRe Some (mkM b (part_text p ++ s) []) = Some (mkM (reverse (part_text p) ++ b) s (part_caps p)).
Proof.
  destruct p as [[l cs] t]. cbn [part_ok part_text part_caps]. intros [[Hl Hc%forallb_Forall]%andb_true_iff Hcs]%andb_true_iff.
  unfold tierRe. rewrite rmatch_Seq, <- app_assoc. apply prefix_step; [done|done|].
  change (if truthy_str (buildConditionStr cs) then _ else _) with (cond_caps cs).
  apply (call_step (A := mstate) t l 2); [done|done| |].
  - unfold cond_caps. intros q. case_match; [intros ->%list_elem_of_singleton; cbn; lia|by intros []%elem_of_nil].
  - by rewrite reverse_app, <- app_assoc.
Qed.

(** Every match begins with a letter of a condition or a call and contains a quote. *)
Lemma tier_first r w : lang (condPrefix 1 ⋅ tierHead 2 ⋅ r) w -> exists d w', w = d :: w' /\ in_text "pclt" d = true.
Proof.
  intros (w1 & w2 & -> & [->|(d & w' & -> & Hd)%condGroup_first] & w3 & w4 & -> & (w5 & w6 & -> & ->%lang_Lit & _) & _).
  - eexists _, _. by split.
  - exists d. eexists. split; [done|]. unfold in_text in *. apply bool_decide_eq_true in Hd. apply bool_decide_eq_true.
    change (js "pclt") with (js "pcl" ++ js "t"). apply elem_of_app. by left.
Qed.

Lemma tier_quote r w : lang (condPrefix 1 ⋅ tierHead 2 ⋅ r) w -> 34 ∈ w.
Proof.
  intros (w1 & w2 & -> & _ & w3 & w4 & -> & (w5 & w6 & -> & _ & w7 & w8 & -> & ->%lang_Lit & _) & _). set_solver.
Qed.

Section Exec.
Context (r : re) (pc : Part -> list (nat * jsstr)).
Hypothesis r_part : forall p b s, part_ok p = true ->
  rmatch r Some (mkM b (part_text p ++ s) []) = Some (mkM (reverse (part_text p) ++ b) s (pc p)).
Hypothesis r_first : forall w, lang r w -> exists d w', w = d :: w' /\ in_text "pclt" d = true.
Hypothesis r_quote : forall w, lang r w -> 34 ∈ w.

Lemma exec_part fuel b u p s :
  Forall (fun c => in_text "pclt" c = false) u -> part_ok p = true ->
  exec_all (S fuel) r b (u ++ part_text p ++ s)
  = mkM (reverse (part_text p) ++ reverse u ++ b) s (pc p) :: exec_all fuel r (reverse (part_text p) ++ reverse u ++ b) s.
Proof.
  intros Hu Hp. cbn [exec_all]. rewrite (search_skips r (in_text "pclt")) by done.
  rewrite (search_here r _ _ _ (r_part p (reverse u ++ b) s Hp)). done.
Qed.

Lemma exec_parts ps : forall b fuel tail,
  Forall (fun p => part_ok p = true) ps -> 34 ∉ tail -> (length ps < fuel)%nat ->
  map caps (exec_all fuel r b (parts_text ps ++ tail)) = map pc ps.
Proof.
  induction ps as [|p ps IH]; intros b fuel tail Hok Ht Hf; (destruct fuel as [|fuel]; [lia|]).
  - cbn [exec_all parts_text map concat app]. by rewrite (search_missing r 34).
  - apply Forall_cons in Hok as [Hp Hok]. unfold parts_text. cbn [map concat]. rewrite <- !app_assoc.
    rewrite exec_part by (done || by repeat constructor). cbn [map caps]. f_equal. apply IH; [done|done|]. cbn in Hf. lia.
Qed.

Lemma exec_all_parts p ps tail :
  Forall (fun p => part_ok p = true) (p :: ps) -> 34 ∉ tail ->
  map caps (re_exec_all r (part_text p ++ parts_text ps ++ tail)) = map pc (p :: ps).
Proof.
  intros [Hp Hok]%Forall_cons Ht. unfold re_exec_all. rewrite (exec_part _ [] [] p (parts_text ps ++ tail)) by (done || constructor).
  cbn [map caps]. f_equal. apply exec_parts; [done|done|].
  assert (length ps <= length (parts_text ps))%nat as Hle.
  { clear. unfold parts_text. induction ps as [|q ps IH]; [done|]. cbn [map concat length]. rewrite !length_app.
    change (length (js " : ")) with 3%nat. lia. }
  rewrite !length_app. destruct p as [[l cs] t]. cbn [part_text]. unfold tier_text. rewrite !length_app.
  change (length (js "tier(")) with 5%nat. lia.
Qed.

End Exec.

(** ** Reading the captures *)

Lemma cap_extra_lt t vs : forall n c j, (j < n)%nat -> cap_in j (extra_caps t n vs c) = cap_in j c.
Proof.
  induction vs as [|[f w] vs IH]; intros n c j Hj; [done|]. cbn [extra_caps]. rewrite IH by lia.
  destruct (neq _ zero); [done|]. cbn [cap_in]. destruct (Nat.eqb_spec n j); [lia|done].
Qed.

Lemma cap_fresh n c : (forall p, p ∈ c -> (p.1 < n)%nat) -> cap_in n c = None.
Proof.
  induction c as [|[i s] c IH]; intros H; [done|]. cbn. destruct (Nat.eqb_spec i n) as [->|].
  - specialize (H (n, s)). cbn in H. lapply H; [lia|left].
  - apply IH. intros p Hp. apply H. by right.
Qed.

Definition extra_value (t : VisualTier) (f : CostField) : option num :=
  let x := num_or_0 (tier_cost t f) in if neq x zero then None else Some x.

Lemma cap_extra t vs : forall n c i f w,
  (forall p, p ∈ c -> (p.1 < n)%nat) -> vs !! i = Some (f, w) ->
  cap_in (n + i) (extra_caps t n vs c) = num_text <$> extra_value t f.
Proof.
  induction vs as [|[f' w'] vs IH]; intros n c i f w Hc Hi; [done|]. cbn [extra_caps]. destruct i as [|i]; cbn in Hi.
  - injection Hi as -> ->. rewrite Nat.add_0_r, cap_extra_lt by lia. unfold extra_value.
    destruct (neq _ zero); cbn; [by apply cap_fresh|]. by rewrite Nat.eqb_refl.
  - rewrite Nat.add_succ_r, <- Nat.add_succ_l. eapply IH; [|done]. intros p.
    destruct (neq _ zero); [|intros [->|Hp]%elem_of_cons; [cbn; lia|]]; [intros Hp|]; specialize (Hc p Hp); lia.
Qed.

Lemma neq_zero_num_or_0 x : neq (num_or_0 x) zero = true -> num_or_0 x = zero.
Proof.
  unfold num_or_0. destruct x as [x|]; [|done]. destruct (truthy_num x) eqn:E; [|done]. by destruct x as [[]|[]| |[] ? ?].
Qed.

Lemma extra_value_num t f : num_or_0 (extra_value t f) = num_or_0 (tier_cost t f).
Proof.
  unfold extra_value. destruct (neq _ zero) eqn:E; [symmetry; by apply neq_zero_num_or_0|].
  unfold num_or_0. destruct (tier_cost t f) as [x|]; [|done]. destruct (truthy_num x) eqn:Ex; [by rewrite Ex|done].
Qed.

Lemma costs_of_omap (g : CostField -> option num) fs f :
  costs_of (omap (fun '(f, x) => pair f <$> x) (map (fun f => (f, g f)) fs)) f = if bool_decide (f ∈ fs) then g f else None.
Proof.
  unfold costs_of. induction fs as [|f0 fs IH]; [done|]. cbn [map omap list_omap].
  destruct (g f0) as [x|] eqn:E; cbn [fmap option_fmap option_map].
  - cbn [List.find fst]. destruct (decide (f0 = f)) as [->|Hne].
    + by rewrite !bool_decide_eq_true_2 by (done || left).
    + rewrite (bool_decide_eq_false_2 (f0 = f)), IH by done. erewrite bool_decide_ext; [done|]. set_solver.
  - rewrite IH. destruct (decide (f0 = f)) as [->|Hne].
    + rewrite (bool_decide_eq_true_2 (f ∈ f :: fs)) by left. rewrite E. by case_match.
    + erewrite bool_decide_ext; [done|]. set_solver.
Qed.

Definition extra_fields : list CostField := map fst BILLING_CACHE_VAR_MAP.

(** A match whose captures are those of a body gives back its costs. *)
Lemma matched_extras t n c m :
  caps m = body_caps t n c -> (forall p, p ∈ c -> (p.1 < n)%nat) ->
  Forall (fun f => cost_ok (num_or_0 (tier_cost t f)) = true) all_costs ->
  imap (fun i '(f, _) => (f, match cap (n + 2 + i) m with Some v => Some (string_to_number v) | None => None end)) BILLING_CACHE_VAR_MAP
  = map (fun f => (f, extra_value t f)) extra_fields.
Proof.
  intros Hm Hc Hcost. apply list_eq. intros i. unfold extra_fields. rewrite map_map.
  rewrite list_lookup_imap. change (map ?f ?l) with (f <$> l). rewrite list_lookup_fmap.
  destruct (BILLING_CACHE_VAR_MAP !! i) as [[f w]|] eqn:E; [|done]. cbn. do 2 f_equal. unfold cap. rewrite Hm. unfold body_caps.
  replace (n + 2 + i)%nat with (S (S n) + i)%nat by lia. rewrite (cap_extra t _ _ _ _ f w); [|intros p|done].
  - unfold extra_value. destruct (neq _ zero); [done|]. cbn. f_equal.
    rewrite Forall_forall in Hcost. apply cost_ok_run, Hcost. destruct f; set_solver.
  - intros [->|[->|Hp]%elem_of_cons]%elem_of_cons; cbn; [lia|lia|]. specialize (Hc p Hp). lia.
Qed.

Lemma cap_body_base t n c m :
  caps m = body_caps t n c ->
  group_text n m = num_text (num_or_0 (Some (input_unit_cost t))) /\ group_text (n + 1) m = num_text (num_or_0 (Some (output_unit_cost t))).
Proof.
  intros Hm. unfold group_text, cap. rewrite Hm. unfold body_caps. rewrite !cap_extra_lt by lia. cbn [cap_in].
  rewrite Nat.add_1_r, !Nat.eqb_refl. destruct (Nat.eqb_spec (S n) n); [lia|done].
Qed.

Lemma matched_canonical t l cs n c m :
  caps m = body_caps t n c -> (forall p, p ∈ c -> (p.1 < n)%nat) ->
  Forall (fun f => cost_ok (num_or_0 (tier_cost t f)) = true) all_costs ->
  matched_tier l (map canonical_cond (List.filter has_value cs)) n m = canonical_tier l cs t.
Proof.
  intros Hm Hc Hcost. unfold matched_tier. rewrite (matched_extras t n c m Hm Hc Hcost).
  destruct (cap_body_base t n c m Hm) as [-> ->].
  assert (forall f, string_to_number (num_text (num_or_0 (tier_cost t f))) = num_or_0 (tier_cost t f)) as Hx.
  { intros f. rewrite Forall_forall in Hcost. apply cost_ok_run, Hcost. destruct f; set_solver. }
  change (Some (input_unit_cost t)) with (tier_cost t input_unit). change (Some (output_unit_cost t)) with (tier_cost t output_unit).
  rewrite !Hx. set (pc := costs_of _).
  assert (forall f, bool_decide (f ∈ extra_fields) = true -> pc f = extra_value t f) as Hpc.
  { intros f Hf. transitivity (costs_of (omap (fun '(f, x) => pair f <$> x) (map (fun f => (f, extra_value t f)) extra_fields)) f).
    - by destruct f.
    - by rewrite costs_of_omap, Hf. }
  assert (pc input_unit = Some (num_or_0 (tier_cost t input_unit))) as Hi by done.
  assert (pc output_unit = Some (num_or_0 (tier_cost t output_unit))) as Ho by done.
  clearbody pc. unfold normalizeVisualTier, canonical_tier, getTierCacheMode. cbn [p_label p_conditions p_mode p_cost default].
  rewrite Hi, Ho, !Hpc, !extra_value_num by done. f_equal. unfold extra_value. destruct (neq _ zero) eqn:E; [|done].
  by rewrite (neq_zero_num_or_0 _ E).
Qed.

(** ** Reading the conditions *)

(** No separator starts within a condition. *)
Lemma no_and k b w s c d :
  38 ∉ w -> last w = Some d -> is_space d = false -> rmatch (A := mstate) andRe k (mkM b (w ++ s) c) = None.
Proof.
  intros Hw Hl Hd. apply rmatch_none. cbn [rest]. intros w' u E (w1 & w2 & -> & H1)%and_word. rewrite <- app_assoc in E.
  apply app_eq_app in E as (l & [[-> E]|[-> E]]).
  - destruct l as [|x l]; cbn in E.
    + rewrite app_nil_r in *. rewrite Forall_forall in H1. apply last_Some_elem_of in Hl. specialize (H1 d Hl). congruence.
    + injection E as <- E. apply Hw. set_solver.
  - apply last_Some_elem_of in Hl. rewrite Forall_forall in H1. specialize (H1 d ltac:(set_solver)). congruence.
Qed.

Lemma split_word w : forall fuel b acc s d,
  38 ∉ w -> last w = Some d -> is_space d = false ->
  split_from (length w + fuel) andRe b acc (w ++ s) = split_from fuel andRe (reverse w ++ b) (reverse w ++ acc) s.
Proof.
  induction w as [|x w IH]; intros fuel b acc s d Hw Hl Hd; [done|]. cbn [length Nat.add app split_from].
  rewrite (no_and _ _ (x :: w) s [] d) by done. destruct w as [|y w].
  - done.
  - rewrite (IH _ _ _ _ d); [by rewrite !reverse_cons_app|set_solver|done|done].
Qed.

Lemma split_sep fuel b acc s :
  stops is_space s ->
  split_from (S fuel) andRe b acc (js " && " ++ s) = reverse acc :: split_from fuel andRe (reverse (js " && ") ++ b) [] s.
Proof.
  intros Hs. change (js " && " ++ s) with (32 :: js "&&" ++ 32 :: s).
  assert (rmatch andRe Some (mkM b (32 :: js "&&" ++ 32 :: s) []) = Some (mkM (reverse (js " && ") ++ b) s [])) as Hm.
  { unfold andRe. rewrite rmatch_Seq. apply ws_one; [done|]. rewrite rmatch_Seq. unfold lit.
    rewrite (rmatch_Lit (js "&&") _ _ (32 :: s)). by apply ws_one. }
  cbn [split_from]. rewrite Hm. cbn [rest before].
  replace (_ <? _)%nat with true; [done|]. symmetry. apply Nat.ltb_lt. cbn. lia.
Qed.

(** A condition has no ampersand and ends with its bound. *)
Lemma condition_text_clean x :
  bound_ok (cond_value x) = true -> 38 ∉ condition_text x /\ exists d, last (condition_text x) = Some d /\ is_space d = false.
Proof.
  intros (Hne & Hr & _)%bound_ok_run. unfold condition_text. split.
  - assert (38 ∉ value_text (cond_value x)) as Hv.
    { rewrite Forall_forall in Hr. intros H%Hr. done. }
    rewrite !not_elem_of_app. split_and!; [by destruct (cond_var x); apply (bool_decide_unpack _)|by apply (bool_decide_unpack _)| |by apply (bool_decide_unpack _)|done].
    by destruct (cond_op x); apply (bool_decide_unpack _).
  - destruct (last (value_text (cond_value x))) as [d|] eqn:Hl; [|by apply last_None in Hl].
    exists d. split; [by rewrite !last_app, Hl|]. apply last_Some_elem_of in Hl. rewrite Forall_forall in Hr.
    apply range_not_space, cost_unit_range, bound_unit_cost, Hr, Hl.
Qed.

Lemma condition_stops x s : stops is_space (condition_text x ++ s).
Proof. unfold condition_text. by destruct (cond_var x). Qed.

Lemma split_conditions xs : forall x b fuel,
  Forall (fun x => bound_ok (cond_value x) = true) (x :: xs) ->
  (length (condition_text x ++ concat (map more_text xs)) < fuel)%nat ->
  split_from fuel andRe b [] (condition_text x ++ concat (map more_text xs)) = map condition_text (x :: xs).
Proof.
  induction xs as [|y xs IH]; intros x b fuel Hok Hf; apply Forall_cons in Hok as [Hx Hok];
    destruct (condition_text_clean x Hx) as (Hamp & d & Hl & Hd); rewrite length_app in Hf.
  - replace fuel with (length (condition_text x) + (fuel - length (condition_text x)))%nat by lia.
    rewrite (split_word _ _ _ _ _ d) by done. cbn [map concat]. destruct (fuel - _)%nat; cbn [split_from]; by rewrite app_nil_r, reverse_involutive.
  - cbn [map concat] in *. rewrite length_app in Hf. unfold more_text in Hf at 1. rewrite length_app in Hf.
    change (length (js " && ")) with 4%nat in Hf.
    replace fuel with (length (condition_text x) + S (fuel - S (length (condition_text x))))%nat by lia.
    rewrite (split_word _ _ _ _ _ d) by done. unfold more_text at 1. rewrite <- app_assoc, split_sep by apply condition_stops.
    rewrite app_nil_r, reverse_involutive. f_equal. apply IH; [done|]. rewrite length_app. lia.
Qed.

Lemma condition_text_trim x : bound_ok (cond_value x) = true -> trim (condition_text x) = condition_text x.
Proof.
  intros Hx. destruct (condition_text_clean x Hx) as (_ & d & Hl & Hd). apply last_Some in Hl as [l Hl].
  pose proof (condition_stops x []) as Hs. rewrite app_nil_r in Hs. rewrite Hl in *. destruct l as [|u l]; [|by apply trim_solid].
  unfold condition_text in Hl. by destruct (cond_var x).
Qed.

Lemma single_cond_match x :
  bound_ok (cond_value x) = true ->
  exists b, rmatch singleCondRe Some (mkM [] (condition_text x) [])
            = Some (mkM b [] [(3%nat, value_text (cond_value x)); (2%nat, op_text (cond_op x)); (1%nat, var_text (cond_var x))]).
Proof.
  intros Hx. pose proof (bound_ok_run _ Hx) as (Hne & Hr & _). unfold condition_text, singleCondRe. eexists.
  rewrite rmatch_Seq, rmatch_Bol, rmatch_Seq. rewrite <- (app_nil_r (value_text _)) at 1. apply group_some. rewrite var_step. cbn [before rest caps]. rewrite captured, rmatch_Seq.
  apply ws_one; [by destruct (cond_op x)|]. rewrite rmatch_Seq. apply group_some.
  change (js " " ++ value_text (cond_value x) ++ []) with (32 :: value_text (cond_value x) ++ []).
  rewrite op_step.
  - cbn [before rest caps]. rewrite captured, rmatch_Seq. apply ws_one; [by apply bound_run_starts|]. rewrite rmatch_Seq.
    apply group_run; [done|done|done|]. reflexivity.
  - intros b' c'. cbn [before rest caps]. rewrite rmatch_Seq. apply bound_after_eq.
    intros w (w1 & w2 & -> & (d & w' & -> & Hd)%plus_word & _). by exists d, (w' ++ w2).
Qed.

Lemma var_of_text x : var_of (var_text x) = x.
Proof. by destruct x. Qed.
Lemma op_of_text x : op_of (op_text x) = x.
Proof. by destruct x. Qed.

Lemma parse_condition_text x :
  bound_ok (cond_value x) = true ->
  parse_condition (condition_text x) = Some (cond_var x, cond_op x, string_to_number (value_text (cond_value x))).
Proof.
  intros Hx. unfold parse_condition, re_match. rewrite condition_text_trim by done. destruct (single_cond_match x Hx) as [b Hm].
  rewrite (search_here _ _ _ _ Hm). cbn. unfold group_text, cap. cbn. by rewrite var_of_text, op_of_text.
Qed.

Lemma parse_built_conditions cs :
  forallb (fun c => negb (has_value c) || bound_ok (cond_value c)) cs = true ->
  parse_conditions (buildConditionStr cs)
  = map (fun c => (cond_var c, cond_op c, string_to_number (value_text (cond_value c)))) (List.filter has_value cs).
Proof.
  intros Hok%effective_ok. unfold parse_conditions. destruct (List.filter has_value cs) as [|x xs] eqn:E.
  - unfold buildConditionStr. by rewrite E.
  - rewrite (build_cons x xs cs E), condition_text_truthy. unfold re_split. rewrite split_conditions by (done || lia).
    clear E. induction Hok as [|y ys Hy _ IH]; [done|]. cbn [map omap list_omap]. by rewrite parse_condition_text, IH.
Qed.

(** ** The parts of a configuration *)

Fixpoint parts_of (i : Z) (tiers : list VisualTier) : list Part :=
  match tiers with
  | [] => []
  | t :: rest =>
      (or_str (label t) (js "tier_" ++ dec (i + 1)), match rest with [] => [] | _ => conditions t end, t) :: parts_of (i + 1) rest
  end.

Definition canonical_part (p : Part) : VisualTier := let '(l, cs, t) := p in canonical_tier l cs t.

Lemma canonical_parts tiers : forall i, canonical_tiers i tiers = map canonical_part (parts_of i tiers).
Proof. induction tiers as [|t tiers IH]; intros i; [done|]. cbn. by rewrite IH. Qed.

Lemma tier_parts_text tiers : forall i, tier_parts i tiers = map part_text (parts_of i tiers).
Proof.
  induction tiers as [|t tiers IH]; intros i; [done|]. cbn [tier_parts parts_of map]. rewrite IH. f_equal.
  unfold part_text, cond_prefix. destruct tiers; [done|]. destruct (truthy_str _); [|done]. by rewrite <- app_assoc.
Qed.

Lemma label_ok_default l d : forallb not_quote l = true -> forallb not_quote d = true -> forallb not_quote (or_str l d) = true.
Proof. unfold or_str. by destruct (truthy_str l). Qed.

Lemma tier_name_ok i : 0 <= i -> forallb not_quote (js "tier_" ++ dec (i + 1)) = true.
Proof.
  intros Hi. rewrite forallb_app. apply andb_true_iff. split; [done|].
  induction (dec_digits (i + 1) ltac:(lia)) as [|c l Hc _ IH]; [done|]. cbn [forallb]. rewrite IH, andb_true_r.
  unfold not_quote, is_digit in *. lia.
Qed.

Lemma parts_ok tiers : forall i, 0 <= i -> Forall (fun t => tier_ok t = true) tiers -> Forall (fun p => part_ok p = true) (parts_of i tiers).
Proof.
  induction tiers as [|t tiers IH]; intros i Hi Hok; [constructor|]. apply Forall_cons in Hok as [Ht Hok].
  cbn [parts_of]. constructor; [|apply IH; [lia|done]]. unfold tier_ok in Ht. apply andb_true_iff in Ht as [[Hl Hc]%andb_true_iff Hcs].
  cbn [part_ok]. rewrite label_ok_default, Hc by (done || by apply tier_name_ok). by destruct tiers.
Qed.

Lemma parts_text_join tiers i :
  match parts_of i tiers with
  | p :: ps => join (js " : ") (tier_parts i tiers) = part_text p ++ parts_text ps
  | [] => True
  end.
Proof.
  rewrite tier_parts_text. destruct (parts_of i tiers) as [|p ps]; [done|]. cbn [map]. rewrite join_cons, map_map. done.
Qed.

(** ** Canonical configurations are written as they are *)

Lemma num_or_0_idem x : num_or_0 (Some (num_or_0 x)) = num_or_0 x.
Proof. unfold num_or_0. destruct x as [x|]; [|done]. destruct (truthy_num x) eqn:E; [by rewrite E|done]. Qed.

Lemma canonical_cost l cs t f : num_or_0 (tier_cost (canonical_tier l cs t) f) = num_or_0 (tier_cost t f).
Proof. destruct f; cbn [tier_cost canonical_tier]; apply num_or_0_idem. Qed.

Lemma extras_canonical l cs t vs : extras (canonical_tier l cs t) vs = extras t vs.
Proof.
  unfold extras. induction vs as [|[f w] vs IH]; [done|]. cbn [omap list_omap]. rewrite canonical_cost, IH. done.
Qed.

Lemma canonical_text l l' cs t : tier_text l (canonical_tier l' cs t) = tier_text l t.
Proof.
  unfold tier_text. rewrite !body_text. unfold base_text.
  change (Some (input_unit_cost ?x)) with (tier_cost x input_unit). change (Some (output_unit_cost ?x)) with (tier_cost x output_unit).
  by rewrite !canonical_cost, extras_canonical.
Qed.

Lemma canonical_conditions cs :
  forallb (fun c => negb (has_value c) || bound_ok (cond_value c)) cs = true ->
  buildConditionStr (map canonical_cond (List.filter has_value cs)) = buildConditionStr cs.
Proof.
  intros Hok%effective_ok. unfold buildConditionStr. f_equal. induction Hok as [|c l Hc _ IH]; [done|].
  cbn [map List.filter has_value canonical_cond cond_value]. rewrite IH. f_equal. unfold condition_text.
  apply bound_ok_run in Hc as (_ & _ & Hc). cbn. by rewrite Hc.
Qed.

Lemma or_str_or l d e : d <> [] -> or_str (or_str l d) e = or_str l d.
Proof. intros Hd. unfold or_str. destruct (truthy_str l) eqn:E; [by rewrite E|]. apply truthy_str_spec in Hd. by rewrite Hd. Qed.

Lemma canonical_tier_parts tiers : forall i,
  Forall (fun t => tier_ok t = true) tiers -> tier_parts i (canonical_tiers i tiers) = tier_parts i tiers.
Proof.
  induction tiers as [|t tiers IH]; intros i Hok; [done|]. apply Forall_cons in Hok as [Ht Hok].
  cbn [canonical_tiers tier_parts]. rewrite IH by done. f_equal. unfold tier_ok in Ht. apply andb_true_iff in Ht as [_ Hcs].
  destruct tiers as [|t' tiers]; cbn [canonical_tiers].
  - rewrite canonical_text. cbn [label canonical_tier]. by rewrite or_str_or.
  - rewrite canonical_text. cbn [label conditions canonical_tier]. by rewrite or_str_or, canonical_conditions.
Qed.

Lemma canonical_generate c :
  Forall (fun t => tier_ok t = true) c -> generateExprFromVisualConfig (Some (canonical c)) = generateExprFromVisualConfig (Some c).
Proof.
  intros Hok. destruct c as [|t [|t' c]]; [done| |].
  - apply Forall_cons in Hok as [Hok _]. unfold tier_ok in Hok. apply andb_true_iff in Hok as [_ Hcs].
    cbn [canonical generateExprFromVisualConfig]. rewrite canonical_text. cbn [label conditions canonical_tier].
    by rewrite or_str_or, canonical_conditions.
  - exact (f_equal (join (js " : ")) (canonical_tier_parts (t :: t' :: c) 0 Hok)).
Qed.

Lemma canonical_normal l cs t : normalizeVisualTier (as_partial (canonical_tier l cs t)) = canonical_tier l cs t.
Proof.
  unfold normalizeVisualTier, as_partial, canonical_tier, getTierCacheMode. cbn [p_label p_conditions p_mode p_cost default tier_cost label conditions
    cache_mode input_unit_cost output_unit_cost cache_read_unit_cost cache_create_unit_cost cache_create_1h_unit_cost
    image_unit_cost image_output_unit_cost audio_input_unit_cost audio_output_unit_cost].
  by rewrite !num_or_0_idem.
Qed.

Lemma normal_config (c : VisualConfig) :
  c <> [] -> Forall (fun t => exists l cs t', t = canonical_tier l cs t') c -> normalizeVisualConfig (Some c) = c.
Proof.
  intros Hne Hc. transitivity (map (fun t => normalizeVisualTier (as_partial t)) c); [by destruct c|]. clear Hne.
  induction Hc as [|x d (l & cs & t' & ->) _ IH]; [done|]. cbn [map]. by rewrite canonical_normal, IH.
Qed.

(** ** The round trip *)

(** A match with the captures of a part is the part's canonical tier. *)
Lemma matched_part m p :
  part_ok p = true -> caps m = part_caps p ->
  matched_tier (group_text 2 m) (map condition_input (parse_conditions (group_text 1 m))) 3 m = canonical_part p.
Proof.
  destruct p as [[l cs] t]. cbn [part_ok part_caps canonical_part]. intros [[Hl Hc%forallb_Forall]%andb_true_iff Hcs]%andb_true_iff Hm.
  assert (forall q, q ∈ (2%nat, l) :: cond_caps cs -> (q.1 < 3)%nat) as Hcaps.
  { intros q [->|Hq]%elem_of_cons; [cbn; lia|]. unfold cond_caps in Hq. case_match; [|by apply elem_of_nil in Hq].
    apply list_elem_of_singleton in Hq as ->. cbn. lia. }
  assert (group_text 2 m = l) as ->.
  { unfold group_text, cap. rewrite Hm. unfold body_caps. by rewrite cap_extra_lt by lia. }
  assert (group_text 1 m = buildConditionStr cs) as ->.
  { unfold group_text, cap. rewrite Hm. unfold body_caps. rewrite cap_extra_lt by lia. cbn [cap_in Nat.eqb]. unfold cond_caps.
    destruct (truthy_str (buildConditionStr cs)) eqn:E; [done|]. cbn. destruct (buildConditionStr cs) eqn:E'; [done|].
    by rewrite (proj2 (truthy_str_spec _)) in E. }
  rewrite parse_built_conditions, map_map by done. by apply (matched_canonical t l cs 3 ((2%nat, l) :: cond_caps cs)).
Qed.

Lemma matched_parts ms ps :
  Forall (fun p => part_ok p = true) ps -> map caps ms = map part_caps ps ->
  map (fun m => matched_tier (group_text 2 m) (map condition_input (parse_conditions (group_text 1 m))) 3 m) ms = map canonical_part ps.
Proof.
  intros Hok. revert ms. induction Hok as [|p ps Hp _ IH]; intros ms E; destruct ms as [|m ms]; try done.
  cbn [map] in E |- *. injection E as Em E. by rewrite (matched_part m p), IH.
Qed.

(** A text made of parts begins with a letter of a condition or a call. *)
Lemma part_first p s : exists d s', part_text p ++ s = d :: s' /\ in_text "pclt" d = true.
Proof.
  destruct p as [[l cs] t]. cbn [part_text]. unfold cond_prefix. destruct (truthy_str _) eqn:E.
  - destruct (List.filter has_value cs) as [|x xs] eqn:Ex; [unfold buildConditionStr in E; by rewrite Ex in E|].
    rewrite (build_cons x xs cs Ex). unfold condition_text. destruct (cond_var x); eexists _, _; by split.
  - eexists _, _. by split.
Qed.

Lemma no_version p s : stripVersion (part_text p ++ s) = part_text p ++ s.
Proof.
  unfold stripVersion, re_match, versionRe. rewrite search_bol_none; [done|]. apply rmatch_none. cbn [rest].
  intros w u E (w1 & w2 & -> & ->%lang_Lit & _). destruct (part_first p s) as (d & s' & Ed & Hd). rewrite Ed in E.
  cbn in E. injection E as -> _. done.
Qed.

(** The pattern of an only tier without conditions. *)
Lemma single_hit l t :
  forallb not_quote l = true -> Forall (fun f => cost_ok (num_or_0 (tier_cost t f)) = true) all_costs ->
  exists m, re_match singleRe (tier_text l t) = Some m /\ caps m = body_caps t 2 [(1%nat, l)].
Proof.
  intros Hl Hc. eexists. unfold re_match. rewrite (search_here singleRe [] (tier_text l t) (mkM (reverse (tier_text l t) ++ []) [] (body_caps t 2 [(1%nat, l)]))).
  - by split.
  - unfold singleRe. rewrite rmatch_Seq, rmatch_Bol. rewrite <- (app_nil_r (tier_text l t)) at 1.
    apply (call_step (A := mstate) t l 1); [done|done|by intros ? []%elem_of_nil|]. done.
Qed.

Definition call_re : re := tierHead 1 ⋅ bodyPat 2 ⋅ lit ")".

Lemma single_miss s : (forall w, lang call_re w -> s <> w) -> re_match singleRe s = None.
Proof.
  intros H. unfold re_match, singleRe. rewrite search_bol_none; [done|].
  change (rmatch call_re (rmatch Eol Some) (mkM [] s []) = None). destruct (rmatch call_re _ _) eqn:E; [|done].
  apply rmatch_sound in E as (w & y & L & [P _] & E). cbn [rmatch] in E. destruct (rest y) eqn:Ey; [|done].
  cbn in P. rewrite app_nil_r in P. by destruct (H w L).
Qed.

Lemma call_word w :
  lang call_re w -> exists l w', w = js "tier(" ++ quote ++ l ++ 34 :: w' /\ Forall (fun c => not_quote c = true) l /\ 34 ∉ w'.
Proof.
  intros (w1 & w2 & -> & (w3 & w4 & -> & ->%lang_Lit & w5 & w6 & -> & ->%lang_Lit & l & w7 & -> & Hl%star_lang_Forall
    & w8 & w9 & -> & ->%lang_Lit & L1) & L2).
  exists l, (w9 ++ w2). split; [by rewrite <- !app_assoc|]. split; [done|]. rewrite not_elem_of_app.
  split; [apply (never_lang 34 (lit "," ⋅ ws) eq_refl _ L1)|apply (never_lang 34 (bodyPat 2 ⋅ lit ")") eq_refl _ L2)].
Qed.

Lemma not_single p s :
  part_ok p = true -> (let '(_, cs, _) := p in truthy_str (buildConditionStr cs) = true) \/ 34 ∈ s ->
  re_match singleRe (part_text p ++ s) = None.
Proof.
  destruct p as [[l cs] t]. cbn [part_ok]. intros [[Hl%forallb_Forall _]%andb_true_iff _]%andb_true_iff Hs.
  apply single_miss. intros w (l' & w' & -> & Hl' & Hw')%call_word E. cbn [part_text] in E. unfold cond_prefix in E.
  destruct (truthy_str (buildConditionStr cs)) eqn:Ec.
  - destruct (List.filter has_value cs) as [|x xs] eqn:Ex; [unfold buildConditionStr in Ec; by rewrite Ex in Ec|].
    rewrite (build_cons x xs cs Ex) in E. unfold condition_text in E. by destruct (cond_var x).
  - destruct Hs as [|Hs]; [done|]. cbn [app] in E. unfold tier_text in E. rewrite <- !app_assoc in E.
    apply app_inv_head, app_inv_head in E. change (quote ++ ?z) with (34 :: z) in E.
    apply (span_unique not_quote) in E as [_ E]; [|done|done|done|done]. injection E as E. apply Hw'. rewrite <- E. set_solver.
Qed.

Lemma parse_parts p ps tail :
  Forall (fun p => part_ok p = true) (p :: ps) -> 34 ∉ tail ->
  re_match singleRe (part_text p ++ parts_text ps ++ tail) = None ->
  generateExprFromVisualConfig (Some (map canonical_part (p :: ps))) = part_text p ++ parts_text ps ++ tail ->
  tryParseVisualConfig (part_text p ++ parts_text ps ++ tail) = Some (map canonical_part (p :: ps)).
Proof.
  intros Hok Ht Hn Hgen. unfold tryParseVisualConfig. rewrite no_version, Hn.
  destruct (part_first p (parts_text ps ++ tail)) as (d & s' & Ed & _). rewrite Ed at 1. cbn [truthy_str].
  pose proof (matched_parts _ _ Hok (exec_all_parts tierRe part_caps part_step (tier_first _) (tier_quote _) p ps tail Hok Ht)) as Hms.
  assert (normalizeVisualConfig (Some (map canonical_part (p :: ps))) = map canonical_part (p :: ps)) as Hnorm.
  { apply normal_config; [done|]. apply Forall_fmap, Forall_forall. intros [[l cs] t] _. by exists l, cs, t. }
  cbv zeta. unfold VisualConfig in *. by rewrite Hms, Hnorm, Hgen, streq_refl.
Qed.

Lemma unconditional cs : truthy_str (buildConditionStr cs) = false -> List.filter has_value cs = [].
Proof.
  intros H. destruct (List.filter has_value cs) as [|x xs] eqn:E; [done|].
  by rewrite (build_cons x xs cs E), condition_text_truthy in H.
Qed.

Lemma parse_single l t :
  forallb not_quote l = true -> forallb (fun f => cost_ok (num_or_0 (tier_cost t f))) all_costs = true ->
  truthy_str (buildConditionStr (conditions t)) = false ->
  tryParseVisualConfig (tier_text l t) = Some [canonical_tier l (conditions t) t].
Proof.
  intros Hl Hc%forallb_Forall Hcond. destruct (single_hit l t Hl Hc) as (m & Hm & Hcaps).
  pose proof (no_version (l, [], t) []) as Hv. rewrite app_nil_r in Hv. change (part_text (l, [], t)) with (tier_text l t) in Hv.
  unfold tryParseVisualConfig. rewrite Hv, Hm. change (truthy_str (tier_text l t)) with true. cbv beta iota zeta.
  assert (group_text 1 m = l) as ->.
  { unfold group_text, cap. rewrite Hcaps. unfold body_caps. by rewrite cap_extra_lt by lia. }
  pose proof (matched_canonical t l (conditions t) 2 [(1%nat, l)] m Hcaps) as Hmt. rewrite unconditional in Hmt by done. cbn [map] in Hmt.
  rewrite Hmt; [|intros q ->%list_elem_of_singleton; cbn; lia|done]. f_equal. apply normal_config; [done|].
  constructor; [by exists l, (conditions t), t|constructor].
Qed.

Lemma parts_quote p ps : 34 ∈ parts_text (p :: ps).
Proof.
  destruct p as [[l cs] t]. unfold parts_text. cbn [map concat part_text]. unfold tier_text, quote. set_solver.
Qed.

(** The round trip, for the clients of this file. *)
Lemma generated_text_parses (c : VisualConfig) :
  c <> [] -> forallb tier_ok c = true ->
  tryParseVisualConfig (generateExprFromVisualConfig (Some c)) = Some (canonical c)
  /\ generateExprFromVisualConfig (Some (canonical c)) = generateExprFromVisualConfig (Some c).
Proof.
  intros Hne Hok%forallb_Forall. pose proof (canonical_generate c Hok) as Hgen. split; [|exact Hgen].
  destruct c as [|t [|t' c]]; [done| |].
  - apply Forall_cons in Hok as [Ht _]. unfold tier_ok in Ht. apply andb_true_iff in Ht as [[Hl Hc]%andb_true_iff Hcs].
    pose (p := (or_str (label t) (js "default"), conditions t, t) : Part).
    assert (part_ok p = true) as Hp by (cbn [part_ok p]; by rewrite label_ok_default, Hc).
    cbn [generateExprFromVisualConfig canonical] in *. destruct (truthy_str (buildConditionStr (conditions t))) eqn:Ec.
    + assert (forall s, buildConditionStr (conditions t) ++ js " ? " ++ tier_text (or_str (label t) (js "default")) t ++ s
                        = part_text p ++ parts_text [] ++ s) as Ht.
      { intros s. cbn [part_text p parts_text map concat app]. unfold cond_prefix. by rewrite Ec, <- !app_assoc. }
      rewrite Ht in *. apply (parse_parts p []); [by constructor|by apply (bool_decide_unpack _)|apply not_single; [done|by left]|exact Hgen].
    + apply parse_single; [by apply label_ok_default|done|done].
  - pose proof (parts_ok (t :: t' :: c) 0 ltac:(lia) Hok) as Hps. pose proof (parts_text_join (t :: t' :: c) 0) as Hj.
    change (canonical (t :: t' :: c)) with (canonical_tiers 0 (t :: t' :: c)) in *. rewrite canonical_parts in *.
    change (generateExprFromVisualConfig (Some (t :: t' :: c))) with (join (js " : ") (tier_parts 0 (t :: t' :: c))) in *.
    cbn [parts_of] in Hps, Hj, Hgen |- *. rewrite Hj in Hgen |- *. rewrite <- (app_nil_r (parts_text _)) in Hgen |- *.
    apply parse_parts; [exact Hps|apply not_elem_of_nil| |exact Hgen].
    apply not_single; [by apply Forall_cons in Hps as [? _]|]. right. rewrite app_nil_r. apply parts_quote.
Qed.

(** C4: the text the visual editor writes for a tiered price is read back by the editor
    as the same configuration. For every non-empty configuration whose labels contain
    no quote and whose numbers are finite with bounds written without a minus sign,
    the parser accepts the generated text and returns the configuration in canonical
    form: missing labels are numbered, conditions without a value and conditions of the
    last of several tiers are gone, and the cache mode is the one the costs imply.
    The canonical form is written as the same text. *)
Theorem tier_expr_roundtrip (c : VisualConfig) :
  c <> [] -> forallb tier_ok c = true ->
  tryParseVisualConfig (generateExprFromVisualConfig (Some c)) = Some (canonical c)
  /\ generateExprFromVisualConfig (Some (canonical c)) = generateExprFromVisualConfig (Some c).
Proof. apply generated_text_parses. Qed.

Definition sample_tier (l : string) (cs : list TierConditionInput) (i o cr : Z) : VisualTier :=
  normalizeVisualTier (mkPartial (Some (js l)) (Some cs) None
    (costs_of [(input_unit, num_of_decimal i 2); (output_unit, num_of_decimal o 2); (cache_read_unit, num_of_decimal cr 2)])).
Definition sample_config : VisualConfig :=
  [sample_tier "standard" [mkCond var_len op_le (ValueNum (num_of_Z 272000)); mkCond var_c op_lt (ValueNum (num_of_Z 100000))] 250 1500 25;
   sample_tier "" [] 500 2250 50].

Lemma tier_expr_roundtrip_witness :
  tryParseVisualConfig (generateExprFromVisualConfig (Some sample_config)) = Some (canonical sample_config).
Proof. refine (proj1 (tier_expr_roundtrip sample_config _ _)); [done|vm_compute; reflexivity]. Defined.

(** ** The pricing page *)

(** What the page shows of a tier. *)
Definition shown (t : VisualTier) : ParsedTier :=
  mkParsed (label t)
    (omap (fun c => match cond_value c with ValueNum x => Some (cond_var c, cond_op c, x) | ValueText _ => None end) (conditions t))
    (omap (fun v => match field v, tierField v with Some f, Some tf => Some (f, num_or_0 (tier_cost t tf)) | _, _ => None end) BILLING_PRICING_VARS).

Definition page_caps (p : Part) : list (nat * jsstr) :=
  let '(l, cs, t) := p in (3%nat, buildTierBodyExpr t) :: (2%nat, l) :: cond_caps cs.

(** The factors of a body. *)
Definition factors (t : VisualTier) : list (jsstr * jsstr) :=
  (js "p", num_text (num_or_0 (tier_cost t input_unit))) :: (js "c", num_text (num_or_0 (tier_cost t output_unit)))
  :: extras t BILLING_CACHE_VAR_MAP.
Definition factor_text (e : jsstr * jsstr) : jsstr := e.1 ++ js " * " ++ e.2.
Definition pricing_names : list jsstr := map key BILLING_PRICING_VARS.

Lemma body_factors t : buildTierBodyExpr t = join (js " + ") (map factor_text (factors t)).
Proof.
  rewrite body_text. unfold factors. rewrite map_cons, join_cons, map_map. cbn [map concat]. unfold base_text, factor_text at 1 2.
  cbn [fst snd]. by rewrite <- !app_assoc.
Qed.

(** A factor of the body: a known name and an admissible number. *)
Definition factor_ok (e : jsstr * jsstr) : Prop :=
  e.1 ∈ pricing_names /\ e.2 <> [] /\ Forall (fun c => is_cost_unit c = true) e.2.

Lemma pricing_names_ok : Forall name_ok pricing_names.
Proof.
  change pricing_names with [js "p"; js "c"; js "cr"; js "cc"; js "cc1h"; js "img"; js "img_o"; js "ai"; js "ao"].
  repeat (apply Forall_cons; split; [split; [done|by repeat constructor]|]). constructor.
Qed.

Lemma factors_ok t :
  Forall (fun f => cost_ok (num_or_0 (tier_cost t f)) = true) all_costs -> Forall factor_ok (factors t).
Proof.
  intros Hc. assert (forall f, cost_ok (num_or_0 (tier_cost t f)) = true) as Hcost.
  { intros f. rewrite Forall_forall in Hc. apply Hc. destruct f; set_solver. }
  assert (forall f, num_text (num_or_0 (tier_cost t f)) <> [] /\ Forall (fun c => is_cost_unit c = true) (num_text (num_or_0 (tier_cost t f)))) as Hn.
  { intros f. by destruct (cost_ok_run _ (Hcost f)) as (? & ? & _). }
  unfold factors. constructor; [|constructor].
  - split; [by apply (bool_decide_unpack _); vm_compute|apply Hn].
  - split; [by apply (bool_decide_unpack _); vm_compute|apply Hn].
  - apply Forall_forall. intros [u x] Hux. pose proof (extras_names t _ _ _ Hux) as Hu.
    unfold extras in Hux. apply list_elem_of_omap in Hux as ([f w] & Hin & H). destruct (neq _ zero); [done|]. injection H as -> <-.
    split; [|apply Hn]. change pricing_names with (js "p" :: js "c" :: map snd BILLING_CACHE_VAR_MAP). right. by right.
Qed.

(** A name is passed over when another one is written: an asterisk has to follow. *)
Definition star_follows {A} (k : mstate -> option A) : Prop :=
  forall y v, k y = Some v -> exists w1 w2, rest y = w1 ++ 42 :: w2 /\ spaces w1.

Section Prices.
Context {A : Type}.
Implicit Types (k : mstate -> option A) (v : A).

Lemma other_name u e k b s c :
  name_ok u -> name_ok e.1 -> u <> e.1 -> star_follows k -> rmatch (Lit u) k (mkM b (factor_text e ++ s) c) = None.
Proof.
  intros Hu He Hne Hk. destruct (rmatch (Lit u) k _) eqn:E; [|done].
  apply rmatch_sound in E as (w & y & ->%lang_Lit & [P _] & (w1 & w2 & Hr & H1)%Hk).
  cbn [rest] in P. rewrite Hr in P. unfold factor_text in P. rewrite <- !app_assoc in P.
  apply (span_unique is_word) in P as [? _]; [congruence|apply He|apply Hu|done|by apply spaces_stop_star].
Qed.

Lemma any_step names e k b s c v :
  Forall name_ok names -> e.1 ∈ names -> star_follows k ->
  k (mkM (reverse e.1 ++ b) (js " * " ++ e.2 ++ s) c) = Some v -> rmatch (any_of names) k (mkM b (factor_text e ++ s) c) = Some v.
Proof.
  intros Hn Hin Hk H. assert (name_ok e.1) as He by (rewrite Forall_forall in Hn; by apply Hn).
  assert (rmatch (Lit e.1) k (mkM b (factor_text e ++ s) c) = Some v) as Hhit.
  { unfold factor_text. rewrite <- !app_assoc. by rewrite rmatch_Lit. }
  induction Hn as [|u names Hu Hn IH]; [by apply elem_of_nil in Hin|]. destruct (decide (u = e.1)) as [->|Hne].
  - destruct names; [exact Hhit|]. cbn [any_of rmatch]. by rewrite Hhit.
  - apply elem_of_cons in Hin as [Heq|Hin]; [congruence|]. destruct names as [|u' names]; [by apply elem_of_nil in Hin|].
    change (any_of (u :: u' :: names)) with (Lit u ∥ any_of (u' :: names)). cbn [rmatch].
    change (match rmatch (Lit u) k (mkM b (factor_text e ++ s) c) with Some v => Some v | None => rmatch (any_of (u' :: names)) k (mkM b (factor_text e ++ s) c) end = Some v).
    rewrite other_name by done. by apply IH.
Qed.

End Prices.

Lemma price_hit e b s :
  factor_ok e -> match b with c :: _ => is_word c = false | [] => True end -> stops is_cost_unit s ->
  rmatch BILLING_VAR_REGEX Some (mkM b (factor_text e ++ s) [])
  = Some (mkM (reverse (factor_text e) ++ b) s [(2%nat, e.2); (1%nat, e.1)]).
Proof.
  intros (Hname & Hne & Hrun) Hb Hs. unfold BILLING_VAR_REGEX. rewrite rmatch_Seq.
  assert (name_ok e.1) as He by (pose proof pricing_names_ok as Hn; rewrite Forall_forall in Hn; by apply Hn).
  assert (at_boundary (mkM b (factor_text e ++ s) []) = true) as Hbd.
  { unfold at_boundary, factor_text. cbn [before rest]. destruct He as [Hn0 Hw]. destruct e as [[|c n] x]; [done|].
    cbn [fst app head]. apply Forall_cons in Hw as [-> _]. destruct b as [|d b]; [done|]. cbn [head]. by rewrite Hb. }
  cbn [rmatch]. rewrite Hbd.
  change (rmatch (Grp 1 (any_of pricing_names)) (rmatch (ws ⋅ lit "*" ⋅ ws ⋅ Grp 2 (Plus (Cls is_cost_unit))) Some) (mkM b (factor_text e ++ s) [])
          = Some (mkM (reverse (factor_text e) ++ b) s [(2%nat, e.2); (1%nat, e.1)])).
  apply group_some. apply any_step; [apply pricing_names_ok|done| |].
  - intros y v H. apply rmatch_sound in H as (w & z & (w1 & r1 & -> & H1%lang_ws & w2 & r2 & -> & ->%lang_Lit & _) & [P _] & _).
    cbn [rest] in P. exists w1. eexists. split; [|done]. rewrite P, <- !app_assoc. done.
  - cbn [before rest caps]. unfold factor_text at 1 2. rewrite <- !app_assoc, captured.
    rewrite rmatch_Seq. apply ws_one; [done|]. rewrite rmatch_Seq. unfold lit. rewrite (rmatch_Lit [42] _ _ (32 :: e.2 ++ s)), rmatch_Seq.
    apply ws_one; [by apply stops_range, range_not_space|]. apply group_run; [done|done|done|].
    unfold factor_text. rewrite !reverse_app, <- !app_assoc. done.
Qed.

Lemma any_of_lang names w : names <> [] -> lang (any_of names) w -> w ∈ names.
Proof.
  induction names as [|u names IH]; [done|]. intros _ Hw. destruct names as [|u' names]; [apply lang_Lit in Hw as ->; left|].
  destruct Hw as [->%lang_Lit|Hw]; [left|]. right. by apply IH.
Qed.

Lemma price_word w : lang BILLING_VAR_REGEX w -> exists d w', w = d :: w' /\ in_text "pcia" d = true /\ 42 ∈ w.
Proof.
  intros (w0 & r0 & -> & -> & n & r1 & -> & Hn & w1 & r2 & -> & _ & w2 & r3 & -> & ->%lang_Lit & _). apply any_of_lang in Hn; [|done].
  assert (Forall (fun n => match n with d :: _ => in_text "pcia" d = true | [] => False end) (map key BILLING_PRICING_VARS)) as Hall
    by (by repeat constructor).
  rewrite Forall_forall in Hall. specialize (Hall n Hn). destruct n as [|d n]; [done|]. exists d. eexists. split; [done|]. split; [done|]. set_solver.
Qed.

Definition factor_caps (e : jsstr * jsstr) : list (nat * jsstr) := [(2%nat, e.2); (1%nat, e.1)].
Definition more_factors (es : list (jsstr * jsstr)) : jsstr := concat (map (fun e => js " + " ++ factor_text e) es).

Lemma more_factors_stop es : stops is_cost_unit (more_factors es).
Proof. by destruct es. Qed.

Lemma more_factors_cons e es : more_factors (e :: es) = js " + " ++ factor_text e ++ more_factors es.
Proof. unfold more_factors. cbn [map concat]. by rewrite <- app_assoc. Qed.

Lemma exec_factors es : forall b fuel,
  Forall factor_ok es -> (length es < fuel)%nat ->
  map caps (exec_all fuel BILLING_VAR_REGEX b (more_factors es)) = map factor_caps es.
Proof.
  induction es as [|e es IH]; intros b fuel Hok Hf; (destruct fuel as [|fuel]; [lia|]).
  - cbn [exec_all more_factors map concat]. rewrite (search_missing _ 42); [done| |apply not_elem_of_nil].
    by intros w (d & w' & _ & _ & ?)%price_word.
  - apply Forall_cons in Hok as [He Hok]. rewrite more_factors_cons. cbn [exec_all].
    rewrite (search_skips _ (in_text "pcia")); [|intros w (d & w' & ? & ? & _)%price_word; eauto|by repeat constructor].
    rewrite (search_here _ _ _ _ (price_hit e (reverse (js " + ") ++ b) (more_factors es) He eq_refl (more_factors_stop es))).
    cbn [map caps before rest]. f_equal. apply IH; [done|]. cbn in Hf. lia.
Qed.

Lemma exec_all_factors e es :
  Forall factor_ok (e :: es) ->
  map caps (re_exec_all BILLING_VAR_REGEX (factor_text e ++ more_factors es)) = map factor_caps (e :: es).
Proof.
  intros [He Hok]%Forall_cons. unfold re_exec_all. cbn [exec_all].
  rewrite (search_here _ _ _ _ (price_hit e [] (more_factors es) He I (more_factors_stop es))).
  cbn [map caps before rest]. f_equal. apply exec_factors; [done|].
  assert (length es <= length (more_factors es))%nat.
  { clear. unfold more_factors. induction es as [|q es IH]; [done|]. cbn [map concat length]. rewrite !length_app.
    change (length (js " + ")) with 3%nat. lia. }
  unfold factor_text. rewrite !length_app. change (length (js " * ")) with 3%nat. lia.
Qed.

Definition coeff (e : jsstr * jsstr) : jsstr * num := (e.1, string_to_number e.2).

Lemma lookup_coeff_None k l : k ∉ map fst l -> lookup_coeff k l = None.
Proof.
  induction l as [|[k' x] l IH]; intros H; [done|]. cbn in *. apply not_elem_of_cons in H as [H1 H2].
  destruct (streq k k') eqn:E; [by apply streq_true in E|auto].
Qed.

Lemma fold_coeffs es : forall ms acc,
  map caps ms = map factor_caps es -> NoDup (map fst acc ++ map fst es) ->
  fold_left add_coeff ms acc = acc ++ map coeff es.
Proof.
  induction es as [|e es IH]; intros ms acc E Hd; destruct ms as [|m ms]; try done; [by rewrite app_nil_r|].
  cbn [map] in E. injection E as Em E. cbn [fold_left]. unfold add_coeff at 2.
  assert (group_text 1 m = e.1 /\ group_text 2 m = e.2) as [-> ->] by (unfold group_text, cap; by rewrite Em).
  rewrite lookup_coeff_None.
  - rewrite (IH ms _ E); [by rewrite <- app_assoc|]. rewrite map_app, <- app_assoc. exact Hd.
  - cbn [map] in Hd. apply NoDup_app in Hd as (_ & Hd & _). intros H. apply (Hd _ H). left.
Qed.

Lemma extras_fst t vs k : k ∈ map fst (map coeff (extras t vs)) -> k ∈ map snd vs.
Proof. rewrite map_map. intros ([u x] & -> & H)%list_elem_of_fmap. by apply (extras_names t vs u x). Qed.

Lemma lookup_extras t vs f k :
  NoDup (map snd vs) -> (f, k) ∈ vs ->
  lookup_coeff k (map coeff (extras t vs)) = (fun x => string_to_number (num_text x)) <$> extra_value t f.
Proof.
  induction vs as [|[f0 k0] vs IH]; intros Hd Hin; [by apply elem_of_nil in Hin|]. cbn [map snd] in Hd. apply NoDup_cons in Hd as [Hf Hd].
  change (extras t ((f0, k0) :: vs)) with
    (match (if neq (num_or_0 (tier_cost t f0)) zero then None else Some (k0, num_text (num_or_0 (tier_cost t f0)))) with
     | Some e => e :: extras t vs | None => extras t vs end).
  apply elem_of_cons in Hin as [[= -> ->]|Hin].
  - unfold extra_value. destruct (neq _ zero); [|cbn; by rewrite streq_refl].
    apply lookup_coeff_None. by intros H%extras_fst.
  - destruct (neq _ zero); [by apply IH|]. cbn [map coeff fst snd lookup_coeff]. destruct (streq k k0) eqn:E; [|by apply IH].
    apply streq_true in E as ->. exfalso. apply Hf, list_elem_of_fmap. by exists (f, k0).
Qed.

Lemma extras_nodup t vs : NoDup (map snd vs) -> NoDup (map fst (extras t vs)).
Proof.
  induction vs as [|[f k] vs IH]; intros Hd; [constructor|]. cbn [map snd] in Hd. apply NoDup_cons in Hd as [Hf Hd].
  unfold extras in *. cbn [omap list_omap]. destruct (neq _ zero); [by apply IH|]. cbn [map fst]. constructor; [|by apply IH].
  intros ([u x] & -> & H)%list_elem_of_fmap. apply Hf. by apply (extras_names t vs u x).
Qed.

Lemma factors_nodup t : NoDup (map fst (factors t)).
Proof.
  assert (forall k, k ∈ map fst (extras t BILLING_CACHE_VAR_MAP) -> k ∈ cacheVarNames) as Hsub.
  { intros k ([u x] & -> & H)%list_elem_of_fmap. by apply (extras_names t _ u x). }
  unfold factors. cbn [map fst]. repeat constructor.
  - intros [H|H]%elem_of_cons; [done|]. apply Hsub in H. revert H. by apply (bool_decide_unpack _); vm_compute.
  - intros H%Hsub. revert H. by apply (bool_decide_unpack _); vm_compute.
  - apply extras_nodup, names_of_vars.
Qed.

(** The coefficient of a variable is its unit cost. *)
Lemma lookup_factor t tf k :
  Forall (fun f => cost_ok (num_or_0 (tier_cost t f)) = true) all_costs ->
  (tf, k) ∈ (input_unit, js "p") :: (output_unit, js "c") :: BILLING_CACHE_VAR_MAP ->
  num_or_0 (lookup_coeff k (map coeff (factors t))) = num_or_0 (tier_cost t tf).
Proof.
  intros Hc Hin. assert (forall f, string_to_number (num_text (num_or_0 (tier_cost t f))) = num_or_0 (tier_cost t f)) as Hx.
  { intros f. rewrite Forall_forall in Hc. apply cost_ok_run, Hc. destruct f; set_solver. }
  unfold factors. apply elem_of_cons in Hin as [[= -> ->]|[[= -> ->]|Hin]%elem_of_cons].
  - cbn [map coeff fst snd lookup_coeff]. rewrite streq_refl, Hx. apply num_or_0_idem.
  - cbn [map coeff fst snd lookup_coeff]. change (streq (js "c") (js "p")) with false. rewrite streq_refl, Hx. apply num_or_0_idem.
  - assert (k ∈ cacheVarNames) as Hk by (apply list_elem_of_fmap; by exists (tf, k)).
    cbn [map coeff fst snd lookup_coeff].
    rewrite (proj2 (streq_false k (js "p"))), (proj2 (streq_false k (js "c")))
      by (intros ->; revert Hk; by apply (bool_decide_unpack _); vm_compute).
    rewrite (lookup_extras t _ tf k) by (done || apply names_of_vars). rewrite <- extra_value_num. unfold extra_value.
    destruct (neq _ zero); [done|]. cbn [fmap option_fmap option_map]. by rewrite Hx.
Qed.

Lemma parse_body t :
  Forall (fun f => cost_ok (num_or_0 (tier_cost t f)) = true) all_costs ->
  parseTierBody (buildTierBodyExpr t)
  = omap (fun v => match field v, tierField v with Some f, Some tf => Some (f, num_or_0 (tier_cost t tf)) | _, _ => None end) BILLING_PRICING_VARS.
Proof.
  intros Hc. unfold parseTierBody. rewrite body_factors. pose proof (factors_ok t Hc) as Hok. pose proof (factors_nodup t) as Hd.
  assert (forall tf k, (tf, k) ∈ (input_unit, js "p") :: (output_unit, js "c") :: BILLING_CACHE_VAR_MAP ->
            num_or_0 (lookup_coeff k (map coeff (factors t))) = num_or_0 (tier_cost t tf)) as Hl by (intros; by apply lookup_factor).
  destruct (factors t) as [|e es] eqn:Ef; [done|]. rewrite map_cons, join_cons, map_map.
  change (concat _) with (more_factors es).
  rewrite (fold_coeffs (e :: es) _ [] (exec_all_factors e es Hok) Hd). cbn [app].
  cbn [BILLING_VAR_KEY_TO_FIELD BILLING_PRICING_VARS BILLING_VARS List.filter isConditionOnly negb omap list_omap field tierField key map].
  repeat (apply f_equal2; [apply (f_equal (pair _)), Hl; by apply (bool_decide_unpack _); vm_compute|]). done.
Qed.

(** Parts as the page reads them. *)
Lemma body_no_paren t :
  Forall (fun f => cost_ok (num_or_0 (tier_cost t f)) = true) all_costs ->
  Forall (fun c => negb (c =? 41) = true) (buildTierBodyExpr t).
Proof.
  intros Hc. rewrite body_factors. pose proof (factors_ok t Hc) as Hok.
  assert (Forall (fun e => Forall (fun c => negb (c =? 41) = true) (factor_text e)) (factors t)) as Hf.
  { eapply Forall_impl; [exact Hok|]. intros [n x] (Hn & _ & Hx). unfold factor_text. cbn [fst snd] in *. rewrite !Forall_app. split_and!.
    - pose proof pricing_names_ok as Hall. rewrite Forall_forall in Hall. destruct (Hall n Hn) as [_ Hw].
      eapply Forall_impl; [exact Hw|]. intros c. unfold is_word, is_digit. cbn. lia.
    - by repeat constructor.
    - eapply Forall_impl; [exact Hx|]. intros c Hcu%cost_unit_range. lia. }
  clear Hok. destruct Hf as [|e es He Hes]; [constructor|]. rewrite map_cons, join_cons, Forall_app. split; [done|].
  rewrite map_map. induction Hes as [|e' es' He' _ IH]; [constructor|]. cbn [map concat]. rewrite !Forall_app.
  split; [|exact IH]. split; [by repeat constructor|done].
Qed.

Lemma page_step p b s :
  part_ok p = true ->
  rmatch pageTierRe Some (mkM b (part_text p ++ s) []) = Some (mkM (reverse (part_text p) ++ b) s (page_caps p)).
Proof.
  destruct p as [[l cs] t]. cbn [part_ok part_text page_caps]. intros [[Hl Hc%forallb_Forall]%andb_true_iff Hcs]%andb_true_iff.
  unfold pageTierRe. rewrite rmatch_Seq, <- app_assoc. apply prefix_step; [done|done|].
  change (if truthy_str (buildConditionStr cs) then _ else _) with (cond_caps cs). rewrite rmatch_Seq. unfold tier_text. rewrite <- !app_assoc.
  apply head_step; [done|apply body_starts|]. rewrite rmatch_Seq. change (js ")" ++ s) with (41 :: s).
  apply group_run; [by rewrite body_text|by apply body_no_paren|done|]. unfold lit. rewrite (rmatch_Lit [41] Some _ s).
  rewrite !reverse_app, <- !app_assoc. done.
Qed.

Lemma shown_part m p : part_ok p = true -> caps m = page_caps p -> parsed_tier m = shown (canonical_part p).
Proof.
  destruct p as [[l cs] t]. cbn [part_ok page_caps canonical_part]. intros [[Hl Hc%forallb_Forall]%andb_true_iff Hcs]%andb_true_iff Hm.
  unfold parsed_tier, group_text, cap. rewrite Hm. cbn [cap_in Nat.eqb]. change (default [] (Some ?x)) with x.
  assert (default [] (cap_in 1 (cond_caps cs)) = buildConditionStr cs) as ->.
  { unfold cond_caps. destruct (truthy_str (buildConditionStr cs)) eqn:E; [done|]. unfold buildConditionStr. by rewrite unconditional. }
  rewrite parse_built_conditions, parse_body by done. unfold shown. cbn [label conditions canonical_tier]. f_equal.
  - clear. induction (List.filter has_value cs) as [|c l IH]; [done|]. cbn [map omap list_omap]. by rewrite <- IH.
  - clear. induction BILLING_PRICING_VARS as [|v vs IH]; [done|]. cbn [omap list_omap]. rewrite IH.
    destruct (field v), (tierField v); try done. by rewrite canonical_cost.
Qed.

Lemma shown_parts ms ps :
  Forall (fun p => part_ok p = true) ps -> map caps ms = map page_caps ps -> map parsed_tier ms = map shown (map canonical_part ps).
Proof.
  intros Hok. revert ms. induction Hok as [|p ps Hp _ IH]; intros ms E; destruct ms as [|m ms]; try done.
  cbn [map] in E |- *. injection E as Em E. by rewrite (shown_part m p), IH.
Qed.

Lemma page_parts p ps tail :
  Forall (fun p => part_ok p = true) (p :: ps) -> 34 ∉ tail ->
  parseTiersFromExpr (part_text p ++ parts_text ps ++ tail) = map shown (map canonical_part (p :: ps)).
Proof.
  intros Hok Ht. unfold parseTiersFromExpr.
  assert (stripped_body (stripExprVersion (part_text p ++ parts_text ps ++ tail)) = part_text p ++ parts_text ps ++ tail) as ->.
  { unfold stripExprVersion. pose proof (no_version p (parts_text ps ++ tail)) as Hv. unfold stripVersion in Hv.
    destruct (truthy_str _) eqn:E; [by destruct (re_match versionRe _)|].
    destruct (part_first p (parts_text ps ++ tail)) as (d & s' & Ed & _). by rewrite Ed in E. }
  destruct (part_first p (parts_text ps ++ tail)) as (d & s' & Ed & _). rewrite Ed at 1. cbn [truthy_str].
  apply shown_parts; [done|].
  exact (exec_all_parts pageTierRe page_caps page_step (tier_first _) (tier_quote _) p ps tail Hok Ht).
Qed.

(** The text of a configuration as parts, and what is left behind them. *)
Lemma config_parts (c : VisualConfig) :
  c <> [] -> Forall (fun t => tier_ok t = true) c ->
  exists p ps tail, Forall (fun p => part_ok p = true) (p :: ps) /\ 34 ∉ tail
    /\ generateExprFromVisualConfig (Some c) = part_text p ++ parts_text ps ++ tail
    /\ canonical c = map canonical_part (p :: ps).
Proof.
  intros Hne Hok. destruct c as [|t [|t' c]]; [done| |].
  - apply Forall_cons in Hok as [Ht _]. unfold tier_ok in Ht. apply andb_true_iff in Ht as [[Hl Hc]%andb_true_iff Hcs].
    exists (or_str (label t) (js "default"), conditions t, t), [],
      (if truthy_str (buildConditionStr (conditions t)) then js " : p * 0 + c * 0" else []).
    split; [constructor; [cbn [part_ok]; by rewrite label_ok_default, Hc|constructor]|].
    split; [by destruct (truthy_str _); apply (bool_decide_unpack _)|]. split; [|done].
    cbn [generateExprFromVisualConfig part_text parts_text map concat]. unfold cond_prefix.
    destruct (truthy_str _); [by rewrite <- !app_assoc|by rewrite !app_nil_r].
  - pose proof (parts_ok (t :: t' :: c) 0 ltac:(lia) Hok) as Hps. pose proof (parts_text_join (t :: t' :: c) 0) as Hj.
    destruct (parts_of 0 (t :: t' :: c)) as [|p ps] eqn:E; [done|]. exists p, ps, []. split; [done|]. split; [apply not_elem_of_nil|].
    split; [by rewrite app_nil_r|]. change (canonical (t :: t' :: c)) with (canonical_tiers 0 (t :: t' :: c)). by rewrite canonical_parts, E.
Qed.

(** the pricing page shows what the visual editor was given: the tiers parsed from
    the generated text carry, in order, the labels, the conditions with a value and
    the unit costs of every variable (zero where none is set) of the configuration. *)
Theorem page_shows_editor (c : VisualConfig) :
  c <> [] -> forallb tier_ok c = true ->
  parseTiersFromExpr (generateExprFromVisualConfig (Some c)) = map shown (canonical c).
Proof.
  intros Hne Hok%forallb_Forall. destruct (config_parts c Hne Hok) as (p & ps & tail & Hps & Ht & -> & ->).
  by apply page_parts.
Qed.

Lemma page_shows_editor_witness :
  map parsed_label (parseTiersFromExpr (generateExprFromVisualConfig (Some sample_config))) = [js "standard"; js "tier_2"].
Proof. rewrite (page_shows_editor sample_config); [reflexivity|done|vm_compute; reflexivity]. Defined.

(** A sum written without blanks is shown without its first price: the class of a number
    takes the plus sign along. *)
Example page_loses_price :
  map (fun t => head (prices t)) (parseTiersFromExpr (jq "tier('base', p * 2+c * 4)")) = [Some (js "inputPrice", zero)]
  /\ map input_unit_cost (default [] (tryParseVisualConfig (jq "tier('base', p * 2+c * 4)"))) = [num_of_Z 2].
Proof. split; vm_compute; reflexivity. Qed.

(** Two conditions of the last tier are not written. *)
Example fallback_conditions_lost :
  let cfg := [sample_tier "a" [] 1 1 0; sample_tier "b" [mkCond var_p op_lt (ValueNum (num_of_Z 5))] 1 1 0] in
  map conditions (canonical cfg) = [[]; []].
Proof. vm_compute. reflexivity. Qed.

End TierRoundTrip.
