(* ===== verification/BillingExpr.v ===== *)
(** Billing expressions: the request rules (conditional multipliers) that an
    operator edits as groups of conditions, stored as one text next to the base
    expression, and parsed back for the editor and the pricing page
    (src/web/src/features/pricing/lib/billing-expr.ts). *)

From S2P Require Import Prelude Scan JsonString.

Module BillingExpr.

(** ** Constants and data *)

Definition SOURCE_PARAM : jsstr := js "param".
Definition SOURCE_HEADER : jsstr := js "header".
Definition SOURCE_TIME : jsstr := js "time".

Definition MATCH_EQ : jsstr := js "eq".
Definition MATCH_CONTAINS : jsstr := js "contains".
Definition MATCH_GT : jsstr := js "gt".
Definition MATCH_GTE : jsstr := js "gte".
Definition MATCH_LT : jsstr := js "lt".
Definition MATCH_LTE : jsstr := js "lte".
Definition MATCH_EXISTS : jsstr := js "exists".
Definition MATCH_RANGE : jsstr := js "range".

Definition TIME_FUNCS : list jsstr := [js "hour"; js "minute"; js "weekday"; js "month"; js "day"].

(** ['param' | 'header'] *)
Inductive Source := src_param | src_header.

#[export] Instance Source_eq_dec : EqDecision Source.
Proof. solve_decision. Defined.

Inductive RequestCondition :=
  | TimeCondition (timeFunc timezone mode value rangeStart rangeEnd : jsstr)
  | ParamHeaderCondition (source : Source) (path mode value : jsstr).

#[export] Instance RequestCondition_eq_dec : EqDecision RequestCondition.
Proof. solve_decision. Defined.

Record RequestRuleGroup := mkGroup { conditions : list RequestCondition; multiplier : jsstr }.

#[export] Instance RequestRuleGroup_eq_dec : EqDecision RequestRuleGroup.
Proof. solve_decision. Defined.

(** [Partial<RequestCondition>]: every field may be missing. *)
Record PartialCondition := mkPartial {
  p_source : option jsstr;
  p_timeFunc : option jsstr;
  p_timezone : option jsstr;
  p_path : option jsstr;
  p_mode : option jsstr;
  p_value : option jsstr;
  p_rangeStart : option jsstr;
  p_rangeEnd : option jsstr
}.

Definition partial_of (c : RequestCondition) : PartialCondition :=
  match c with
  | TimeCondition f tz m v s e =>
      mkPartial (Some SOURCE_TIME) (Some f) (Some tz) None (Some m) (Some v) (Some s) (Some e)
  | ParamHeaderCondition src p m v =>
      mkPartial (Some (match src with src_param => SOURCE_PARAM | src_header => SOURCE_HEADER end))
        None None (Some p) (Some m) (Some v) None None
  end.

(** ** Character classes *)

(** [\d.eE+-] *)
Definition is_num_char (c : Z) : bool :=
  is_digit c || (c =? 46) || (c =? 101) || (c =? 69) || (c =? 43) || (c =? 45).

(** [^] and a double quote, bracketed *)
Definition not_quote (c : Z) : bool := negb (c =? 34).

(** A line terminator, which [.] does not match without the [s] flag. *)
Definition is_line_end (c : Z) : bool := (c =? 10) || (c =? 13) || (c =? 8232) || (c =? 8233).

(** The exponent part of [NUMERIC_LITERAL_REGEX], to the end. *)
Definition exponent_end (s : jsstr) : bool :=
  match s with
  | [] => true
  | c :: s' =>
      if (c =? 101) || (c =? 69) then
        let digits := match s' with
                      | d :: s'' => if (d =? 43) || (d =? 45) then s'' else s'
                      | [] => s'
                      end in
        match digits with [] => false | _ => forallb is_digit digits end
      else false
  end.

(** [NUMERIC_LITERAL_REGEX.test(s)] *)
Definition NUMERIC_LITERAL (s : jsstr) : bool :=
  let s := match s with 45 :: s' => s' | _ => s end in
  match span is_digit s with
  | ([], 46 :: s') => match span is_digit s' with ([], _) => false | (_, r) => exponent_end r end
  | ([], _) => false
  | (_, 46 :: s') => exponent_end (span is_digit s').2
  | (_, r) => exponent_end r
  end.

(** ** Splitting at the top level *)

Definition paren_depth (depth : Z) (c : Z) : Z :=
  if c =? 40 then depth + 1 else if c =? 41 then depth - 1 else depth.

(** The loop of [splitTopLevelMultiply] and [splitTopLevelAnd]: [skip] counts the
    units of a separator still to pass over, [cur] holds [expr.slice(start, index)]
    in reverse. *)
Fixpoint split_loop (sep : jsstr) (skip : nat) (depth : Z) (cur expr : jsstr) : list jsstr :=
  match expr with
  | [] => [trim (reverse cur)]
  | c :: rest =>
      match skip with
      | S k => split_loop sep k depth cur rest
      | O =>
          let depth := paren_depth depth c in
          if (depth =? 0) && starts_with sep expr
          then trim (reverse cur) :: split_loop sep (length sep - 1) depth [] rest
          else split_loop sep 0 depth (c :: cur) rest
      end
  end.

Definition splitTopLevelMultiply (expr : jsstr) : list jsstr :=
  List.filter truthy_str (split_loop (js " * ") 0 0 [] expr).

Definition splitTopLevelAnd (expr : jsstr) : list jsstr :=
  List.filter truthy_str (split_loop (js " && ") 0 0 [] expr).

(** ** Parsing request rules *)

(** A call that may raise. *)
Inductive exc (A : Type) := Throw | Ret (a : A).
Arguments Throw {A}.
Arguments Ret {A} a.

(** [("name")]: the name. *)
Definition eat_arg (s : jsstr) : option (jsstr * jsstr) :=
  s ← eat (40 :: [34]) s; '(x, s) ← span1 not_quote s; s ← eat [34; 41] s; Some (x, s).

(** The inside of a string literal, with its quotes: an opening quote, units other than
    quote and backslash or a backslash and any unit but a line end, a closing quote. *)
Fixpoint literal_body (s : jsstr) : option (jsstr * jsstr) :=
  match s with
  | [] => None
  | c :: s' =>
      if c =? 34 then Some ([34], s')
      else if c =? 92 then
        match s' with
        | d :: s'' => if is_line_end d then None
                      else '(w, r) ← literal_body s''; Some (92 :: d :: w, r)
        | [] => None
        end
      else '(w, r) ← literal_body s'; Some (c :: w, r)
  end.

Definition eat_string_literal (s : jsstr) : option (jsstr * jsstr) :=
  s ← eat [34] s; '(w, r) ← literal_body s; Some (34 :: w, r).

(** The overnight range without its end anchor: the condition and the rest. *)
Definition match_range (s : jsstr) : option (RequestCondition * jsstr) :=
  '(f, s) ← eat_one TIME_FUNCS s;
  '(tz, s) ← eat_arg s;
  s ← eat (js " >= ") s;
  '(a, s) ← span1 is_num_char s;
  s ← eat (js " || ") s;
  s ← eat f s; s ← eat ([40; 34] ++ tz ++ [34; 41]) s;
  s ← eat (js " < ") s;
  '(b, s) ← span1 is_num_char s;
  Some (TimeCondition f tz MATCH_RANGE [] a b, s).

(** [(==|>=|<) ] and the mode it stands for. *)
Definition match_time_op (s : jsstr) : option (jsstr * jsstr) :=
  '(op, s) ← eat_one [js "== "; js ">= "; js "< "] s;
  Some (if streq op (js "== ") then MATCH_EQ else if streq op (js ">= ") then MATCH_GTE else MATCH_LT, s).

Definition match_time_simple (s : jsstr) : option RequestCondition :=
  '(f, s) ← eat_one TIME_FUNCS s;
  '(tz, s) ← eat_arg s;
  s ← eat (js " ") s;
  '(m, s) ← match_time_op s;
  '(v, s) ← span1 is_num_char s;
  _ ← at_end s;
  Some (TimeCondition f tz m v [] []).

(** The first result of a list of attempts, tried in order. *)
Definition orelse {A} (a b : option A) : option A := match a with Some _ => a | None => b end.

Definition tryParseTimeCondition (expr : jsstr) : option RequestCondition :=
  orelse ('(c, s) ← match_range expr; _ ← at_end s; Some c)
  (orelse (s ← eat (js "(") expr; '(c, s) ← match_range s; s ← eat (js ")") s; _ ← at_end s; Some c)
          (match_time_simple expr)).

(** [header("X") != ""] *)
Definition match_header_exists (s : jsstr) : option RequestCondition :=
  s ← eat (js "header") s; '(x, s) ← eat_arg s; s ← eat (js " != " ++ [34; 34]) s; _ ← at_end s;
  Some (ParamHeaderCondition src_header x MATCH_EXISTS []).

(** [param("X") != nil] *)
Definition match_param_exists (s : jsstr) : option RequestCondition :=
  s ← eat (js "param") s; '(x, s) ← eat_arg s; s ← eat (js " != nil") s; _ ← at_end s;
  Some (ParamHeaderCondition src_param x MATCH_EXISTS []).

(** [has(header("X"), lit)]: the name and the literal. *)
Definition match_header_contains (s : jsstr) : option (jsstr * jsstr) :=
  s ← eat (js "has(header") s; '(x, s) ← eat_arg s; s ← eat (js ", ") s;
  '(lit, s) ← eat_string_literal s; s ← eat (js ")") s; _ ← at_end s; Some (x, lit).

(** [param("X") != nil && has(param("Y"), lit)] *)
Definition match_param_contains (s : jsstr) : option (jsstr * jsstr) :=
  s ← eat (js "param") s; '(x, s) ← eat_arg s; s ← eat (js " != nil && has(param") s;
  '(y, s) ← eat_arg s; s ← eat (js ", ") s;
  '(lit, s) ← eat_string_literal s; s ← eat (js ")") s; _ ← at_end s;
  if streq x y then Some (x, lit) else None.

(** [param("X") != nil && param("Y") op number] *)
Definition match_param_compare (s : jsstr) : option RequestCondition :=
  s ← eat (js "param") s; '(x, s) ← eat_arg s; s ← eat (js " != nil && param") s;
  '(y, s) ← eat_arg s; s ← eat (js " ") s;
  '(op, s) ← eat_one [js "> "; js ">= "; js "< "; js "<= "] s;
  '(v, s) ← span1 is_num_char s; _ ← at_end s;
  if streq x y then
    Some (ParamHeaderCondition src_param x
      (if streq op (js "> ") then MATCH_GT else if streq op (js ">= ") then MATCH_GTE
       else if streq op (js "< ") then MATCH_LT else MATCH_LTE) v)
  else None.

(** [(param|header)("X") == anything]: the source, the name, the operand. *)
Definition match_eq (s : jsstr) : option (Source * jsstr * jsstr) :=
  '(src, s) ← match eat (js "param") s with
              | Some s => Some (src_param, s)
              | None => (fun s => (src_header, s)) <$> eat (js "header") s
              end;
  '(x, s) ← eat_arg s; s ← eat (js " == ") s;
  if truthy_str s && negb (existsb is_line_end s) then Some (src, x, s) else None.

Section Parse.

(** [JSON.parse] of an array or object text and [String] of the value: [None] where
    the text is rejected, [Throw] where the conversion to a string raises. *)
Context (compoundLiteral : jsstr -> option (exc jsstr)).

(** [String(parseExprLiteral(raw))]; [None] for [null]. *)
Definition parseExprLiteral (raw : jsstr) : option (exc jsstr) :=
  let text := trim raw in
  if streq text (js "true") || streq text (js "false") then Some (Ret text)
  else if NUMERIC_LITERAL text then Some (Ret text)
  else match text with
       | 34 :: _ => Ret <$> json_unquote text
       | 91 :: _ | 123 :: _ => compoundLiteral text
       | _ => None
       end.

(** A condition with a string literal that [JSON.parse] may reject. *)
Definition contains_condition (src : Source) (m : jsstr * jsstr) : exc (option RequestCondition) :=
  match json_unquote m.2 with
  | Some v => Ret (Some (ParamHeaderCondition src m.1 MATCH_CONTAINS v))
  | None => Throw
  end.

Definition tryParseRequestCondition (expr : jsstr) : exc (option RequestCondition) :=
  match orelse (tryParseTimeCondition expr)
          (orelse (match_header_exists expr) (match_param_exists expr)) with
  | Some c => Ret (Some c)
  | None =>
  match match_header_contains expr with
  | Some m => contains_condition src_header m
  | None =>
  match match_param_contains expr with
  | Some m => contains_condition src_param m
  | None =>
  match match_param_compare expr with
  | Some c => Ret (Some c)
  | None =>
  match match_eq expr with
  | Some (src, x, operand) =>
      match parseExprLiteral operand with
      | None => Ret None
      | Some Throw => Throw
      | Some (Ret v) => Ret (Some (ParamHeaderCondition src x MATCH_EQ v))
      end
  | None => Ret None
  end end end end end.

(** A loop that stops with [null] at the first [null], or raises. *)
Fixpoint all_some {A B} (f : A -> exc (option B)) (l : list A) : exc (option (list B)) :=
  match l with
  | [] => Ret (Some [])
  | a :: l' =>
      match f a with
      | Throw => Throw
      | Ret None => Ret None
      | Ret (Some b) =>
          match all_some f l' with
          | Ret (Some bs) => Ret (Some (b :: bs))
          | other => other
          end
      end
  end.

(** [(condition ? multiplier : 1)] *)
Definition match_factor (part : jsstr) : option (jsstr * jsstr) :=
  s ← eat (js "(") part;
  s ← eat_end (js " : 1)") s;
  '(m, s) ← span1 is_num_char (reverse s);
  s ← eat_end (js " ? ") (reverse s);
  if truthy_str s then Some (s, reverse m) else None.

Definition tryParseRuleGroupFactor (part : jsstr) : exc (option RequestRuleGroup) :=
  match match_factor part with
  | None => Ret None
  | Some (conditionStr, mult) =>
      match all_some (fun ap => tryParseRequestCondition (trim ap)) (splitTopLevelAnd conditionStr) with
      | Throw => Throw
      | Ret None | Ret (Some []) => Ret None
      | Ret (Some conds) => Ret (Some (mkGroup conds mult))
      end
  end.

Definition tryParseRequestRuleExpr (expr : jsstr) : exc (option (list RequestRuleGroup)) :=
  let trimmed := trim expr in
  if negb (truthy_str trimmed) then Ret (Some [])
  else all_some tryParseRuleGroupFactor (splitTopLevelMultiply trimmed).

(** ** Combining and splitting *)

Fixpoint outer_loop (depth : Z) (s : jsstr) : bool :=
  match s with
  | [] => depth =? 0
  | c :: s' =>
      let depth := paren_depth depth c in
      if (depth =? 0) && truthy_str s' then false else outer_loop depth s'
  end.

Definition hasFullOuterParens (expr : jsstr) : bool :=
  starts_with (js "(") expr && starts_with (js ")") (reverse expr) && outer_loop 0 expr.

(** [s.slice(1, -1)] *)
Definition slice_1_m1 (s : jsstr) : jsstr := removelast (tail s).

(** The loop of [unwrapOuterParens]; each round drops at least a parenthesis, so the
    length of the text is enough fuel. *)
Fixpoint unwrap_loop (fuel : nat) (current : jsstr) : jsstr :=
  match fuel with
  | O => current
  | S f => if hasFullOuterParens current then unwrap_loop f (trim (slice_1_m1 current)) else current
  end.

Definition unwrapOuterParens (expr : jsstr) : jsstr :=
  let current := trim expr in unwrap_loop (length current) current.

(** A part of the product that is a request rule. *)
Definition is_rule_part (part : jsstr) : exc (option bool) :=
  match tryParseRequestRuleExpr part with
  | Throw => Throw
  | Ret (Some (_ :: _)) => Ret (Some true)
  | Ret _ => Ret (Some false)
  end.

(** [billingExpr], [requestRuleExpr] *)
Definition splitBillingExprAndRequestRules (expr : jsstr) : exc (jsstr * jsstr) :=
  let trimmed := trim expr in
  if negb (truthy_str trimmed) then Ret ([], [])
  else
    let parts := splitTopLevelMultiply trimmed in
    if bool_decide (length parts <= 1)%nat then Ret (trimmed, [])
    else
      match all_some is_rule_part parts with
      | Throw => Throw
      | Ret None => Throw
      | Ret (Some flags) =>
          let tagged := zip parts flags in
          let ruleParts := map fst (List.filter (fun x => x.2) tagged) in
          let baseParts := map fst (List.filter (fun x => negb x.2) tagged) in
          match ruleParts, baseParts with
          | _ :: _, [base] => Ret (unwrapOuterParens base, join (js " * ") ruleParts)
          | _, _ => Ret (trimmed, [])
          end
      end.

End Parse.

Definition combineBillingExpr (baseExpr requestRuleExpr : jsstr) : jsstr :=
  let base := trim baseExpr in
  let rules := trim requestRuleExpr in
  if negb (truthy_str base) then []
  else if negb (truthy_str rules) then base
  else js "(" ++ base ++ js ") * " ++ rules.

(** ** Editor: empty conditions, match options, normalisation *)

Definition createEmptyCondition : RequestCondition := ParamHeaderCondition src_param [] MATCH_EQ [].
Definition createEmptyTimeCondition : RequestCondition :=
  TimeCondition (js "hour") (js "Asia/Shanghai") MATCH_GTE [] [] [].
Definition createEmptyRuleGroup : RequestRuleGroup := mkGroup [createEmptyCondition] [].
Definition createEmptyTimeRuleGroup : RequestRuleGroup := mkGroup [createEmptyTimeCondition] [].

(** [value], [labelKey] *)
Definition getRequestRuleMatchOptions (source : jsstr) : list (jsstr * jsstr) :=
  if streq source SOURCE_TIME then
    [(MATCH_EQ, js "Equals"); (MATCH_GTE, js "Greater than or equal");
     (MATCH_LT, js "Less than"); (MATCH_RANGE, js "Overnight range")]
  else
    let base := [(MATCH_EQ, js "Equals"); (MATCH_CONTAINS, js "Contains"); (MATCH_EXISTS, js "Exists")] in
    if streq source SOURCE_HEADER then base
    else base ++ [(MATCH_GT, js "Greater than"); (MATCH_GTE, js "Greater than or equal");
                  (MATCH_LT, js "Less than"); (MATCH_LTE, js "Less than or equal")].

Definition isTimeFunc (value : jsstr) : bool := existsb (streq value) TIME_FUNCS.

(** [options.some((item) => item.value === mode) ? mode : fallback] *)
Definition allowed_mode (source : jsstr) (mode : option jsstr) (fallback : jsstr) : jsstr :=
  match mode with
  | Some m => if existsb (fun o => streq o.1 m) (getRequestRuleMatchOptions source) then m else fallback
  | None => fallback
  end.

Definition normalizeCondition (cond : option PartialCondition) : RequestCondition :=
  let field f := cond ≫= f in
  let text f := default [] (field f) in
  if bool_decide (field p_source = Some SOURCE_TIME) then
    TimeCondition
      (match field p_timeFunc with Some f => if isTimeFunc f then f else js "hour" | None => js "hour" end)
      (or_str (text p_timezone) (js "Asia/Shanghai"))
      (allowed_mode SOURCE_TIME (field p_mode) MATCH_GTE)
      (text p_value) (text p_rangeStart) (text p_rangeEnd)
  else
    let header := bool_decide (field p_source = Some SOURCE_HEADER) in
    ParamHeaderCondition (if header then src_header else src_param)
      (text p_path)
      (allowed_mode (if header then SOURCE_HEADER else SOURCE_PARAM) (field p_mode) MATCH_EQ)
      (text p_value).

(** ** Editor: building the text *)

Definition buildExprLiteral (mode value : jsstr) : jsstr :=
  let text := trim value in
  if streq mode MATCH_CONTAINS then json_quote text
  else if streq text (js "true") || streq text (js "false") then text
  else if NUMERIC_LITERAL text then text
  else json_quote text.

Definition buildTimeConditionExpr (timeFunc timezone mode value rangeStart rangeEnd : jsstr) : jsstr :=
  let fn := timeFunc ++ js "(" ++ json_quote timezone ++ js ")" in
  if streq mode MATCH_RANGE then
    let s := trim rangeStart in
    let e := trim rangeEnd in
    if negb (NUMERIC_LITERAL s) || negb (NUMERIC_LITERAL e) then []
    else fn ++ js " >= " ++ s ++ js " || " ++ fn ++ js " < " ++ e
  else
    let v := trim value in
    if negb (NUMERIC_LITERAL v) then []
    else
      let op := if streq mode MATCH_EQ then js "=="
                else if streq mode MATCH_GTE then js ">="
                else if streq mode MATCH_LT then js "<" else js "==" in
      fn ++ js " " ++ op ++ js " " ++ v.

(** The four comparisons with a number. *)
Definition compare_op (mode : jsstr) : option jsstr :=
  if streq mode MATCH_GT then Some (js ">")
  else if streq mode MATCH_GTE then Some (js ">=")
  else if streq mode MATCH_LT then Some (js "<")
  else if streq mode MATCH_LTE then Some (js "<=")
  else None.

Definition buildParamHeaderExpr (source : Source) (path0 mode value : jsstr) : jsstr :=
  let path := trim path0 in
  if negb (truthy_str path) then []
  else
    let sourceExpr := match source with
                      | src_header => js "header(" ++ json_quote path ++ js ")"
                      | src_param => js "param(" ++ json_quote path ++ js ")"
                      end in
    if streq mode MATCH_EXISTS then
      match source with
      | src_header => sourceExpr ++ js " != " ++ [34; 34]
      | src_param => sourceExpr ++ js " != nil"
      end
    else if streq mode MATCH_CONTAINS then
      let has := js "has(" ++ sourceExpr ++ js ", " ++ buildExprLiteral mode value ++ js ")" in
      match source with
      | src_header => has
      | src_param => sourceExpr ++ js " != nil && " ++ has
      end
    else
      match compare_op mode with
      | Some op =>
          let numText := trim value in
          if negb (NUMERIC_LITERAL numText) then []
          else sourceExpr ++ js " != nil && " ++ sourceExpr ++ js " " ++ op ++ js " " ++ numText
      | None => sourceExpr ++ js " == " ++ buildExprLiteral mode value
      end.

(** Both builders normalise the condition first. *)
Definition buildRequestConditionExpr (cond : RequestCondition) : jsstr :=
  match normalizeCondition (Some (partial_of cond)) with
  | TimeCondition f tz m v s e => buildTimeConditionExpr f tz m v s e
  | ParamHeaderCondition src p m v => buildParamHeaderExpr src p m v
  end.

Definition buildRuleGroupFactor (group : RequestRuleGroup) : jsstr :=
  let mult := trim group.(multiplier) in
  if negb (NUMERIC_LITERAL mult) then []
  else
    match List.filter truthy_str (map buildRequestConditionExpr group.(conditions)) with
    | [] => []
    | condExprs =>
        let combined :=
          match condExprs with
          | [e] => e
          | _ => join (js " && ")
                   (map (fun e => if includes (js " || ") e then js "(" ++ e ++ js ")" else e) condExprs)
          end in
        js "(" ++ combined ++ js " ? " ++ mult ++ js " : 1)"
    end.

Definition buildRequestRuleExpr (groups : list RequestRuleGroup) : jsstr :=
  join (js " * ") (List.filter truthy_str (map buildRuleGroupFactor groups)).

(** ** Examples *)

Definition no_compound : jsstr -> option (exc jsstr) := fun _ => None.

Definition ex_groups : list RequestRuleGroup := [
  mkGroup [ParamHeaderCondition src_param (js "service_tier") MATCH_EQ (js "fast");
           ParamHeaderCondition src_header (js "anthropic-beta") MATCH_CONTAINS (js "fast-mode")] (js "6");
  mkGroup [TimeCondition (js "hour") (js "Asia/Shanghai") MATCH_RANGE [] (js "21") (js "6");
           TimeCondition (js "weekday") (js "UTC") MATCH_EQ (js "1") [] [];
           ParamHeaderCondition src_param (js "stream") MATCH_EXISTS []] (js "0.5");
  mkGroup [ParamHeaderCondition src_header (js "x") MATCH_EXISTS []] (js "1e-3")].

Example parse_build_ex :
  tryParseRequestRuleExpr no_compound (buildRequestRuleExpr ex_groups) = Ret (Some ex_groups).
Proof. vm_compute. reflexivity. Qed.

End BillingExpr.
