(* ===== verification/BillingRoundTrip.v ===== *)
(** The editor's round trip for billing expressions: what the builders of
    [BillingExpr] write, its parsers read back, and a combined expression splits
    into the base and the rules it was made of. *)

From S2P Require Import Prelude Scan JsonString BillingExpr.

Module BillingRoundTrip.
Import BillingExpr.

(** ** The conditions the text form can carry *)

(** No parenthesis, ampersand or bar: units the splitters or the builder look at. *)
Definition is_safe (c : Z) : bool :=
  negb (c =? 40) && negb (c =? 41) && negb (c =? 38) && negb (c =? 124).

(** A name: header, parameter path or time zone. *)
Definition ok_name (p : jsstr) : bool :=
  truthy_str p && forallb (fun c => is_plain c && is_safe c) p.

(** A value compared with: trimmed, on one line. *)
Definition ok_value (v : jsstr) : bool :=
  streq (trim v) v && forallb (fun c => is_unit c && is_safe c && negb (is_line_end c)) v.

(** The conditions that survive the round trip. The parameter conditions with a
    guard ([contains] and the comparisons) are not among them. *)
Definition ok_condition (c : RequestCondition) : bool :=
  match c with
  | TimeCondition f tz m v s e =>
      isTimeFunc f && ok_name tz
      && (if streq m MATCH_RANGE then streq v [] && NUMERIC_LITERAL s && NUMERIC_LITERAL e
          else existsb (streq m) [MATCH_EQ; MATCH_GTE; MATCH_LT]
               && NUMERIC_LITERAL v && streq s [] && streq e [])
  | ParamHeaderCondition src p m v =>
      ok_name p && streq (trim p) p
      && (if streq m MATCH_EXISTS then streq v []
          else if streq m MATCH_CONTAINS then bool_decide (src = src_header) && ok_value v
          else streq m MATCH_EQ && ok_value v)
  end.

Definition ok_group (g : RequestRuleGroup) : bool :=
  negb (bool_decide (g.(conditions) = [])) && forallb ok_condition g.(conditions)
  && NUMERIC_LITERAL g.(multiplier).

(** ** Numeric literals *)

Lemma digit_num_char c : is_digit c = true -> is_num_char c = true.
Proof. unfold is_num_char. by intros ->. Qed.

Lemma exponent_num_chars s : exponent_end s = true -> Forall (fun c => is_num_char c = true) s.
Proof.
  destruct s as [|c s]; [constructor|]. simpl.
  destruct ((c =? 101) || (c =? 69)) eqn:E; [|done]. intros H.
  constructor; [unfold is_num_char; apply orb_true_iff in E as [->| ->]; by rewrite ?orb_true_r|].
  assert (forall l, match l with [] => false | _ => forallb is_digit l end = true ->
                    Forall (fun c => is_num_char c = true) l) as Hd.
  { intros l Hl. destruct l; [constructor|]. rewrite forallb_forall in Hl. apply Forall_forall.
    intros x Hx. by apply digit_num_char, Hl, list_elem_of_In. }
  destruct s as [|d s]; [constructor|]. destruct ((d =? 43) || (d =? 45)) eqn:Ed; [|by apply Hd].
  constructor; [|by apply Hd]. unfold is_num_char. apply orb_true_iff in Ed as [->| ->]; by rewrite ?orb_true_r.
Qed.

Lemma numeric_chars s : NUMERIC_LITERAL s = true -> s <> [] /\ Forall (fun c => is_num_char c = true) s.
Proof.
  assert (forall a, Forall (fun c => is_digit c = true) a -> Forall (fun c => is_num_char c = true) a) as Hdig.
  { intros a Ha. eapply Forall_impl; [exact Ha|]. intros; by apply digit_num_char. }
  assert (forall t, match span is_digit t with
            | ([], 46 :: s') => match span is_digit s' with ([], _) => false | (_, r) => exponent_end r end
            | ([], _) => false
            | (_, 46 :: s') => exponent_end (span is_digit s').2
            | (_, r) => exponent_end r
            end = true -> t <> [] /\ Forall (fun c => is_num_char c = true) t) as Ht.
  { intros t. destruct (span is_digit t) as [a b] eqn:E. apply span_spec in E as [-> Ha]. intros H.
    split; [by destruct a, b|]. apply Forall_app. split; [by apply Hdig|].
    assert (forall b', exponent_end (span is_digit b').2 = true -> Forall (fun c => is_num_char c = true) b') as Hfrac.
    { intros b'. destruct (span is_digit b') as [x y] eqn:Exy. apply span_spec in Exy as [-> Hx].
      intros He. apply Forall_app. split; [by apply Hdig|by apply exponent_num_chars]. }
    destruct b as [|c b]; [constructor|].
    destruct (Z.eq_dec c 46) as [->|Hc].
    - constructor; [done|]. apply Hfrac. destruct a; [|done].
      by destruct (span is_digit b) as [[|] ?].
    - apply exponent_num_chars. destruct a.
      + exfalso. destruct c as [|q|q]; try done. repeat (destruct q as [q|q|]; try done).
      + destruct c as [|q|q]; try done. repeat (destruct q as [q|q|]; try done). }
  unfold NUMERIC_LITERAL. destruct s as [|c s]; [done|].
  destruct (Z.eq_dec c 45) as [->|Hc].
  - intros [_ H]%Ht. split; [done|]. by constructor.
  - intros H. apply Ht. destruct c as [|q|q]; try done. repeat (destruct q as [q|q|]; try done).
Qed.

(** ** Trimmed texts *)

(** Neither end is a blank. *)
Definition tight (s : jsstr) : Prop :=
  exists a b m, s = a :: m /\ last s = Some b /\ is_space a = false /\ is_space b = false.

Lemma tight_trim s : tight s -> trim s = s.
Proof.
  intros (a & b & m & -> & Hb & Ha & Hsp). unfold trim. simpl trim_start. rewrite Ha.
  apply last_Some in Hb as [l Hl]. rewrite Hl, reverse_app. simpl. rewrite Hsp.
  by rewrite reverse_cons, reverse_involutive.
Qed.

Lemma tight_app a b : tight a -> tight b -> forall m, tight (a ++ m ++ b).
Proof.
  intros (x & ? & m1 & -> & ? & Hx & ?) (? & y & m2 & Hb & Hl & ? & Hy) m.
  exists x, y, (m1 ++ m ++ b). split_and!; [done| |done|done].
  rewrite app_assoc, last_app, Hl. done.
Qed.

Lemma tight_nospace s : s <> [] -> Forall (fun c => is_space c = false) s -> tight s.
Proof.
  intros Hne Hf. destruct s as [|a m]; [done|].
  destruct (last (a :: m)) as [b|] eqn:E; [|by apply last_None in E].
  exists a, b, m. split_and!; [done|done|by apply Forall_cons in Hf as [? _]|].
  rewrite Forall_forall in Hf. apply Hf. by apply last_Some_elem_of.
Qed.

Lemma num_char_nospace c : is_num_char c = true -> is_space c = false.
Proof.
  unfold is_num_char. rewrite !orb_true_iff. intros H.
  repeat destruct H as [H|H]; [by apply digit_not_space|..]; by apply Z.eqb_eq in H as ->.
Qed.

Lemma numeric_tight s : NUMERIC_LITERAL s = true -> tight s.
Proof.
  intros [Hne Hf]%numeric_chars. apply tight_nospace; [done|].
  eapply Forall_impl; [exact Hf|]. intros; by apply num_char_nospace.
Qed.

Lemma numeric_trim s : NUMERIC_LITERAL s = true -> trim s = s.
Proof. intros. by apply tight_trim, numeric_tight. Qed.

(** ** Balanced texts *)

(** The depth after the text, [None] if it ever falls below zero. *)
Fixpoint close (d : Z) (s : jsstr) : option Z :=
  match s with
  | [] => Some d
  | c :: s' => let d' := paren_depth d c in if d' <? 0 then None else close d' s'
  end.

Definition balanced (s : jsstr) : Prop := close 0 s = Some 0.

Lemma close_app d s t : close d (s ++ t) = close d s ≫= fun d' => close d' t.
Proof.
  revert d. induction s as [|c s IH]; intros d; [done|]. simpl. by destruct (_ <? 0).
Qed.

Lemma paren_depth_shift d k c : paren_depth (d + k) c = paren_depth d c + k.
Proof. unfold paren_depth. destruct (c =? 40), (c =? 41); lia. Qed.

Lemma close_shift d k s d' : 0 <= k -> close d s = Some d' -> close (d + k) s = Some (d' + k).
Proof.
  intros Hk. revert d. induction s as [|c s IH]; intros d; simpl; [by intros [= ->]|].
  destruct (paren_depth d c <? 0) eqn:E; [done|]. apply Z.ltb_ge in E.
  rewrite paren_depth_shift. destruct (_ <? 0) eqn:E2; [apply Z.ltb_lt in E2; lia|]. apply IH.
Qed.

Lemma balanced_close d s : 0 <= d -> balanced s -> close d s = Some d.
Proof. intros Hd H. apply (close_shift _ d) in H; done. Qed.

Lemma balanced_app s t : balanced s -> balanced t -> balanced (s ++ t).
Proof. intros Hs Ht. unfold balanced. rewrite close_app, Hs. done. Qed.

Lemma balanced_paren s : balanced s -> balanced (js "(" ++ s ++ js ")").
Proof.
  intros Hs. unfold balanced. rewrite close_app. change (close 0 (js "(")) with (Some 1).
  cbn [mbind option_bind]. by rewrite close_app, (balanced_close 1 s).
Qed.

Lemma balanced_safe s : Forall (fun c => c <> 40 /\ c <> 41) s -> balanced s.
Proof.
  unfold balanced. induction 1 as [|c s [H1 H2] _ IH]; [done|]. simpl. unfold paren_depth.
  by rewrite (proj2 (Z.eqb_neq c 40)), (proj2 (Z.eqb_neq c 41)) by done.
Qed.

(** ** The splitters undo a join *)

Section Split.
Context (x : Z) (sep' : jsstr).
Local Notation sep := (32 :: x :: sep').

(** No separator starts at the top level of the text read from depth [d], which ends
    at depth zero. *)
Fixpoint quiet (d : Z) (s : jsstr) : bool :=
  match s with
  | [] => d =? 0
  | c :: s' =>
      let d' := paren_depth d c in
      negb ((d' =? 0) && (c =? 32) && match s' with [] => true | c2 :: _ => c2 =? x end)
      && quiet d' s'
  end.

Lemma quiet_flat d s :
  Forall (fun c => c <> x) s -> last s <> Some 32 -> close d s = Some 0 -> quiet d s = true.
Proof.
  intros Hf. revert d. induction Hf as [|c s Hc Hf IH]; intros d Hl; simpl; [intros [= ->]; done|].
  destruct (_ <? 0); [done|]. intros Hcl. rewrite IH; [|by destruct s|done].
  rewrite andb_true_r. apply negb_true_iff. destruct s as [|c2 s'].
  - destruct (Z.eqb_spec c 32) as [->|]; [done|]. by rewrite andb_false_r.
  - apply Forall_cons in Hf as [Hc2 _]. by rewrite (proj2 (Z.eqb_neq c2 x) Hc2), andb_false_r.
Qed.

Lemma quiet_deep s : forall d k t,
  0 < k -> close d s = Some 0 -> quiet k t = true -> (forall c2 t', t = c2 :: t' -> c2 <> x) -> t <> [] ->
  0 <= d -> quiet (d + k) (s ++ t) = true.
Proof.
  induction s as [|c s IH]; intros d k t Hk Hcl Ht Hh Hne Hd; simpl.
  - simpl in Hcl. injection Hcl as ->. done.
  - simpl in Hcl. destruct (_ <? 0) eqn:E; [done|]. apply Z.ltb_ge in E.
    rewrite paren_depth_shift, (IH _ k t) by done.
    by rewrite (proj2 (Z.eqb_neq (paren_depth d c + k) 0)) by lia.
Qed.

Lemma quiet_paren s : x <> 41 -> balanced s -> quiet 0 (js "(" ++ s ++ js ")") = true.
Proof.
  intros Hx41 Hs. simpl. apply (quiet_deep s 0 1 [41]); try done.
  intros c2 t' [= <- _]. done.
Qed.

Lemma split_loop_skip k d cur s rest :
  length s = k -> split_loop sep k d cur (s ++ rest) = split_loop sep 0 d cur rest.
Proof. revert s. induction k as [|k IH]; intros [|c s]; try done. intros [= H]. simpl. by apply IH. Qed.

Lemma starts_with_sep_tail c s rest :
  (c =? 32) && match s with [] => true | c2 :: _ => c2 =? x end = false ->
  starts_with sep (c :: s ++ sep ++ rest) = false /\ starts_with sep (c :: s) = false.
Proof.
  intros H. cbn [starts_with app]. destruct (Z.eqb_spec 32 c) as [<-|]; [|done].
  destruct s as [|c2 s]; cbn [app]; [done|]. simpl in H. rewrite Z.eqb_sym in H. by rewrite H.
Qed.

Lemma split_loop_step d cur c t :
  (paren_depth d c =? 0) && starts_with sep (c :: t) = false ->
  split_loop sep 0 d cur (c :: t) = split_loop sep 0 (paren_depth d c) (c :: cur) t.
Proof. intros H. cbn [split_loop]. by rewrite H. Qed.

Lemma split_loop_quiet s : forall d cur rest,
  quiet d s = true ->
  split_loop sep 0 d cur (s ++ sep ++ rest)
    = trim (reverse cur ++ s) :: split_loop sep 0 0 [] rest
  /\ split_loop sep 0 d cur s = [trim (reverse cur ++ s)].
Proof.
  induction s as [|c s IH]; intros d cur rest Hq.
  - apply Z.eqb_eq in Hq as ->. rewrite !app_nil_r. split; [|done].
    cbn [app split_loop paren_depth Z.eqb]. simpl (paren_depth 0 32).
    rewrite Z.eqb_refl. cbn [starts_with]. rewrite !Z.eqb_refl.
    assert (starts_with sep' (sep' ++ rest) = true) as -> by (by apply starts_with_true; eexists).
    simpl andb. cbn iota. f_equal.
    change (x :: sep' ++ rest) with ((x :: sep') ++ rest).
    apply (split_loop_skip _ 0 [] (x :: sep') rest). done.
  - cbn [quiet] in Hq. apply andb_true_iff in Hq as [Hh Hq]. apply negb_true_iff in Hh.
    rewrite <- andb_assoc in Hh. rewrite <- app_comm_cons, !split_loop_step.
    2, 3: apply andb_false_iff in Hh as [->|Hh]; [done|];
      destruct (starts_with_sep_tail c s rest Hh) as [E1 E2]; by rewrite ?E1, ?E2, andb_false_r.
    destruct (IH (paren_depth d c) (c :: cur) rest Hq) as [-> ->].
    change (c :: cur) with ([c] ++ cur). rewrite reverse_app, <- app_assoc. done.
Qed.

(** Tight quiet parts come back from their join. *)
Lemma split_join parts :
  Forall (fun s => quiet 0 s = true /\ trim s = s) parts -> parts <> [] ->
  split_loop sep 0 0 [] (join sep parts) = parts.
Proof.
  induction 1 as [|s parts [Hq Ht] Hf IH]; [done|]. intros _.
  destruct parts as [|s2 parts].
  - cbn [join]. destruct (split_loop_quiet s 0 [] [] Hq) as [_ ->]. simpl. by rewrite Ht.
  - change (join sep (s :: s2 :: parts)) with (s ++ sep ++ join sep (s2 :: parts)).
    destruct (split_loop_quiet s 0 [] (join sep (s2 :: parts)) Hq) as [-> _]. simpl reverse.
    rewrite IH by done. simpl. by rewrite Ht.
Qed.

End Split.

(** ** The text of a condition *)

(** [("name")] *)
Definition arg (p : jsstr) : jsstr := [40; 34] ++ p ++ [34; 41].

Definition source_name (src : Source) : jsstr :=
  match src with src_param => js "param" | src_header => js "header" end.

Definition time_op (m : jsstr) : jsstr :=
  if streq m MATCH_EQ then js "== " else if streq m MATCH_GTE then js ">= " else js "< ".

Definition cond_text (c : RequestCondition) : jsstr :=
  match c with
  | TimeCondition f tz m v s e =>
      if streq m MATCH_RANGE
      then f ++ arg tz ++ js " >= " ++ s ++ js " || " ++ f ++ arg tz ++ js " < " ++ e
      else f ++ arg tz ++ js " " ++ time_op m ++ v
  | ParamHeaderCondition src p m v =>
      if streq m MATCH_EXISTS
      then source_name src ++ arg p ++ match src with src_header => js " != " ++ [34; 34] | _ => js " != nil" end
      else if streq m MATCH_CONTAINS then js "has(header" ++ arg p ++ js ", " ++ json_quote v ++ js ")"
      else source_name src ++ arg p ++ js " == " ++ buildExprLiteral m v
  end.

Lemma ok_name_chars p :
  ok_name p = true -> p <> [] /\ Forall (fun c => is_plain c = true) p /\ Forall (fun c => is_safe c = true) p.
Proof.
  unfold ok_name. intros [Hne Hf]%andb_true_iff. split; [by destruct p|].
  rewrite forallb_forall in Hf. split; apply Forall_forall; intros c Hc%list_elem_of_In;
    by apply Hf, andb_true_iff in Hc as [? ?].
Qed.

Lemma quote_arg p s : ok_name p = true -> js "(" ++ json_quote p ++ js ")" ++ s = arg p ++ s.
Proof.
  intros (_ & Hp & _)%ok_name_chars. rewrite json_quote_plain by done. unfold arg. simpl.
  by rewrite <- !app_assoc.
Qed.

(** What an accepted condition says, field by field. *)
Inductive ok_shape : RequestCondition -> Prop :=
  | ok_range f tz s e :
      f ∈ TIME_FUNCS -> ok_name tz = true -> NUMERIC_LITERAL s = true -> NUMERIC_LITERAL e = true ->
      ok_shape (TimeCondition f tz MATCH_RANGE [] s e)
  | ok_time f tz m v :
      f ∈ TIME_FUNCS -> ok_name tz = true -> m ∈ [MATCH_EQ; MATCH_GTE; MATCH_LT] ->
      NUMERIC_LITERAL v = true -> ok_shape (TimeCondition f tz m v [] [])
  | ok_exists src p : ok_name p = true -> trim p = p ->
      ok_shape (ParamHeaderCondition src p MATCH_EXISTS [])
  | ok_contains p v : ok_name p = true -> trim p = p -> ok_value v = true ->
      ok_shape (ParamHeaderCondition src_header p MATCH_CONTAINS v)
  | ok_eq src p v : ok_name p = true -> trim p = p -> ok_value v = true ->
      ok_shape (ParamHeaderCondition src p MATCH_EQ v).

Lemma existsb_streq x l : existsb (streq x) l = true <-> x ∈ l.
Proof.
  rewrite existsb_exists. setoid_rewrite <- list_elem_of_In. split.
  - by intros (y & Hy & ->%streq_true).
  - intros H. exists x. by rewrite streq_refl.
Qed.

Lemma ok_condition_shape c : ok_condition c = true -> ok_shape c.
Proof.
  destruct c as [f tz m v s e|src p m v]; cbn [ok_condition]; rewrite !andb_true_iff.
  - intros [[Hf Hz] H]. apply existsb_streq in Hf. destruct (streq m MATCH_RANGE) eqn:Em.
    + apply streq_true in Em as ->. rewrite !andb_true_iff in H. destruct H as [[->%streq_true ?] ?].
      by constructor.
    + rewrite !andb_true_iff in H. destruct H as [[[Hm%existsb_streq ?] ->%streq_true] ->%streq_true].
      by constructor.
  - intros [[Hp Ht%streq_true] H]. destruct (streq m MATCH_EXISTS) eqn:E1.
    + apply streq_true in E1 as ->. apply streq_true in H as ->. by constructor.
    + destruct (streq m MATCH_CONTAINS) eqn:E2.
      * apply streq_true in E2 as ->. apply andb_true_iff in H as [->%bool_decide_eq_true H]. by constructor.
      * apply andb_true_iff in H as [->%streq_true H]. by constructor.
Qed.

Lemma ok_value_trim v : ok_value v = true -> trim v = v.
Proof. unfold ok_value. by intros [?%streq_true _]%andb_true_iff. Qed.

Lemma allowed_mode_in source m fallback :
  m ∈ map fst (getRequestRuleMatchOptions source) -> allowed_mode source (Some m) fallback = m.
Proof.
  intros (o & -> & Ho)%list_elem_of_fmap. unfold allowed_mode.
  replace (existsb _ _) with true; [done|]. symmetry. apply existsb_exists.
  exists o. rewrite streq_refl. split; [by apply list_elem_of_In|done].
Qed.

Lemma normalize_time f tz m v s e :
  f ∈ TIME_FUNCS -> tz <> [] -> m ∈ map fst (getRequestRuleMatchOptions SOURCE_TIME) ->
  normalizeCondition (Some (partial_of (TimeCondition f tz m v s e))) = TimeCondition f tz m v s e.
Proof.
  intros Hf Hz Hm. unfold normalizeCondition. cbn [partial_of mbind option_bind p_source].
  rewrite bool_decide_true by done.
  cbn [p_timeFunc p_timezone p_mode p_value p_rangeStart p_rangeEnd default].
  unfold isTimeFunc. rewrite (proj2 (existsb_streq f _) Hf), allowed_mode_in by done.
  by destruct tz.
Qed.

Lemma normalize_param_header src p m v :
  m ∈ map fst (getRequestRuleMatchOptions (source_name src)) ->
  normalizeCondition (Some (partial_of (ParamHeaderCondition src p m v))) = ParamHeaderCondition src p m v.
Proof.
  intros Hm. unfold normalizeCondition. cbn [partial_of mbind option_bind p_source p_path p_mode p_value].
  destruct src; rewrite bool_decide_false by done; cbv zeta.
  - rewrite bool_decide_false by done. by rewrite allowed_mode_in.
  - rewrite bool_decide_true by done. by rewrite allowed_mode_in.
Qed.

Lemma time_text f tz m v s e :
  ok_name tz = true ->
  buildTimeConditionExpr f tz m v s e =
  if streq m MATCH_RANGE then
    if negb (NUMERIC_LITERAL (trim s)) || negb (NUMERIC_LITERAL (trim e)) then []
    else f ++ arg tz ++ js " >= " ++ trim s ++ js " || " ++ f ++ arg tz ++ js " < " ++ trim e
  else if negb (NUMERIC_LITERAL (trim v)) then []
  else f ++ arg tz ++ js " " ++
    (if streq m MATCH_EQ then js "==" else if streq m MATCH_GTE then js ">="
     else if streq m MATCH_LT then js "<" else js "==") ++ js " " ++ trim v.
Proof.
  intros Hz. unfold buildTimeConditionExpr. cbv zeta. by rewrite <- !app_assoc, !quote_arg.
Qed.

Lemma source_expr name p :
  ok_name p = true -> name ++ js "(" ++ json_quote p ++ js ")" = name ++ arg p.
Proof. intros Hp. by rewrite <- (app_nil_r (js ")")), quote_arg, app_nil_r. Qed.

Lemma param_header_text src p m v :
  ok_name p = true -> trim p = p ->
  buildParamHeaderExpr src p m v =
  let sourceExpr := source_name src ++ arg p in
  if streq m MATCH_EXISTS then
    sourceExpr ++ match src with src_header => js " != " ++ [34; 34] | src_param => js " != nil" end
  else if streq m MATCH_CONTAINS then
    match src with src_header => [] | src_param => sourceExpr ++ js " != nil && " end
    ++ js "has(" ++ sourceExpr ++ js ", " ++ buildExprLiteral m v ++ js ")"
  else match compare_op m with
       | Some op => if negb (NUMERIC_LITERAL (trim v)) then []
                    else sourceExpr ++ js " != nil && " ++ sourceExpr ++ js " " ++ op ++ js " " ++ trim v
       | None => sourceExpr ++ js " == " ++ buildExprLiteral m v
       end.
Proof.
  intros Hp Ht. unfold buildParamHeaderExpr. cbv zeta. rewrite Ht.
  replace (negb (truthy_str p)) with false by (apply ok_name_chars in Hp as [? _]; by destruct p).
  pose proof (source_expr (source_name src) p Hp) as E. destruct src; simpl source_name in *.
  - change (js "param(" ++ json_quote p ++ js ")") with (js "param" ++ js "(" ++ json_quote p ++ js ")").
    rewrite E. repeat case_match; by rewrite <- ?app_assoc.
  - change (js "header(" ++ json_quote p ++ js ")") with (js "header" ++ js "(" ++ json_quote p ++ js ")").
    rewrite E. repeat case_match; by rewrite <- ?app_assoc.
Qed.

Lemma build_text c : ok_shape c -> buildRequestConditionExpr c = cond_text c.
Proof.
  intros H. unfold buildRequestConditionExpr.
  assert (normalizeCondition (Some (partial_of c)) = c) as ->.
  { destruct H as [f tz s e Hf Hz Hs He|f tz m v Hf Hz Hm Hv|src p Hp Ht|p v Hp Ht Hv|src p v Hp Ht Hv].
    - apply normalize_time; [done|by apply ok_name_chars|set_solver].
    - apply normalize_time; [done|by apply ok_name_chars|set_solver].
    - apply normalize_param_header. destruct src; set_solver.
    - apply normalize_param_header. set_solver.
    - apply normalize_param_header. destruct src; set_solver. }
  destruct H as [f tz s e Hf Hz Hs He|f tz m v Hf Hz Hm Hv|src p Hp Ht|p v Hp Ht Hv|src p v Hp Ht Hv].
  - rewrite time_text by done. unfold cond_text. simpl (streq _ _). cbn iota.
    rewrite !numeric_trim by done. by rewrite Hs, He.
  - rewrite time_text, (numeric_trim v), Hv by done. rewrite !elem_of_cons, elem_of_nil in Hm.
    by destruct Hm as [->|[->|[->|[]]]].
  - rewrite param_header_text by done. by destruct src.
  - rewrite param_header_text by done. unfold cond_text.
    change (buildExprLiteral MATCH_CONTAINS v) with (json_quote (trim v)). by rewrite ok_value_trim.
  - rewrite param_header_text by done. unfold cond_text. by destruct src.
Qed.

(** ** Parsing the text back *)

Lemma plain_not_quote c : is_plain c = true -> not_quote c = true.
Proof. unfold is_plain, not_quote. rewrite !andb_true_iff. naive_solver. Qed.

Lemma eat_arg_ok p s : ok_name p = true -> eat_arg (arg p ++ s) = Some (p, s).
Proof.
  intros (Hne & Hp & _)%ok_name_chars. unfold eat_arg, arg. rewrite <- !app_assoc.
  change (40 :: [34]) with [40; 34]. rewrite eat_app. cbn [mbind option_bind].
  rewrite span1_app; [|done| |done].
  - cbn [mbind option_bind]. rewrite eat_app. done.
  - eapply Forall_impl; [exact Hp|]. intros; by apply plain_not_quote.
Qed.

Lemma eat_func f s : f ∈ TIME_FUNCS -> eat_one TIME_FUNCS (f ++ s) = Some (f, s).
Proof.
  unfold TIME_FUNCS. rewrite !elem_of_cons, elem_of_nil.
  intros [->|[->|[->|[->|[->|[]]]]]]; reflexivity.
Qed.

Lemma span_numeric v s :
  NUMERIC_LITERAL v = true -> match s with [] => True | c :: _ => is_num_char c = false end ->
  span1 is_num_char (v ++ s) = Some (v, s).
Proof. intros [Hne Hf]%numeric_chars Hs. by apply span1_app. Qed.

(** One step of a scan over a text made of literals, names and numbers. *)
Ltac scan1 :=
  first [ rewrite eat_app
        | rewrite eat_arg_ok by done
        | rewrite eat_func by done
        | rewrite span_numeric by done
        | rewrite eat_clash by reflexivity
        | rewrite eat_one_clash by (repeat constructor)
        | erewrite eat_within by reflexivity ];
  cbn [mbind option_bind fmap option_fmap option_map].

Ltac scan := repeat scan1.

Lemma match_range_ok f tz s e rest :
  f ∈ TIME_FUNCS -> ok_name tz = true -> NUMERIC_LITERAL s = true -> NUMERIC_LITERAL e = true ->
  match rest with [] => True | c :: _ => is_num_char c = false end ->
  match_range (cond_text (TimeCondition f tz MATCH_RANGE [] s e) ++ rest)
    = Some (TimeCondition f tz MATCH_RANGE [] s e, rest).
Proof.
  intros Hf Hz Hs He Hr. unfold match_range, cond_text.
  change (streq MATCH_RANGE MATCH_RANGE) with true. cbn iota. rewrite <- !app_assoc.
  change ([40; 34] ++ tz ++ [34; 41]) with (arg tz). by scan.
Qed.

Lemma parse_range f tz s e :
  f ∈ TIME_FUNCS -> ok_name tz = true -> NUMERIC_LITERAL s = true -> NUMERIC_LITERAL e = true ->
  let c := TimeCondition f tz MATCH_RANGE [] s e in
  tryParseTimeCondition (cond_text c) = Some c
  /\ tryParseTimeCondition (js "(" ++ cond_text c ++ js ")") = Some c.
Proof.
  intros Hf Hz Hs He c. subst c. unfold tryParseTimeCondition. split.
  - rewrite <- (app_nil_r (cond_text _)) at 1. by rewrite match_range_ok.
  - unfold match_range at 1. scan. cbn [orelse]. rewrite match_range_ok by done. cbn [mbind option_bind].
    by rewrite <- (app_nil_r (js ")")), eat_app.
Qed.

Lemma numeric_all v : NUMERIC_LITERAL v = true -> span1 is_num_char v = Some (v, []).
Proof. intros [? ?]%numeric_chars. by apply span1_all. Qed.

Lemma match_range_simple f tz m v :
  f ∈ TIME_FUNCS -> ok_name tz = true -> m ∈ [MATCH_EQ; MATCH_GTE; MATCH_LT] -> NUMERIC_LITERAL v = true ->
  match_range (f ++ arg tz ++ js " " ++ time_op m ++ v) = None.
Proof.
  intros Hf Hz Hm Hv. unfold match_range. scan. rewrite (app_assoc (js " ")).
  cbv beta.
  rewrite !elem_of_cons, elem_of_nil in Hm. destruct Hm as [->|[->|[->|[]]]].
  - by rewrite eat_clash.
  - erewrite eat_within by reflexivity. cbn [mbind option_bind app]. by rewrite numeric_all.
  - by rewrite eat_clash.
Qed.

Lemma match_simple_ok f tz m v :
  f ∈ TIME_FUNCS -> ok_name tz = true -> m ∈ [MATCH_EQ; MATCH_GTE; MATCH_LT] -> NUMERIC_LITERAL v = true ->
  match_time_simple (f ++ arg tz ++ js " " ++ time_op m ++ v) = Some (TimeCondition f tz m v [] []).
Proof.
  intros Hf Hz Hm Hv. unfold match_time_simple. scan. unfold match_time_op.
  rewrite !elem_of_cons, elem_of_nil in Hm.
  assert (eat_one [js "== "; js ">= "; js "< "] (time_op m ++ v) = Some (time_op m, v)) as ->
    by (destruct Hm as [->|[->|[->|[]]]]; reflexivity).
  cbn [mbind option_bind]. rewrite numeric_all by done. by destruct Hm as [->|[->|[->|[]]]].
Qed.

Lemma parse_time_simple f tz m v :
  f ∈ TIME_FUNCS -> ok_name tz = true -> m ∈ [MATCH_EQ; MATCH_GTE; MATCH_LT] -> NUMERIC_LITERAL v = true ->
  let c := TimeCondition f tz m v [] [] in tryParseTimeCondition (cond_text c) = Some c.
Proof.
  intros Hf Hz Hm Hv c. subst c. unfold tryParseTimeCondition, cond_text.
  replace (streq m MATCH_RANGE) with false
    by (rewrite !elem_of_cons, elem_of_nil in Hm; by destruct Hm as [->|[->|[->|[]]]]).
  rewrite match_range_simple, match_simple_ok by done. cbn [mbind option_bind orelse].
  assert (forall t, eat (js "(") (f ++ t) = None) as ->; [|done].
  intros t. unfold TIME_FUNCS in Hf. rewrite !elem_of_cons, elem_of_nil in Hf.
  by destruct Hf as [->|[->|[->|[->|[->|[]]]]]].
Qed.

(** No time condition starts with these. *)
Lemma time_none q s :
  Forall (fun p => clash p q = true) (js "(" :: TIME_FUNCS) -> tryParseTimeCondition (q ++ s) = None.
Proof.
  intros [Hp Hf]%Forall_cons. unfold tryParseTimeCondition, match_range, match_time_simple.
  by rewrite eat_clash, !eat_one_clash.
Qed.

Section Literals.
Context (compound : jsstr -> option (exc jsstr)).

Lemma quote_tight v : tight (json_quote v).
Proof.
  exists 34, 34, (escape_body false v ++ [34]). split_and!; [done| |done|done].
  unfold json_quote. by rewrite app_comm_cons, last_snoc.
Qed.

Lemma ok_value_chars v :
  ok_value v = true ->
  Forall (fun c => is_unit c = true) v /\ Forall (fun c => is_safe c = true) v
  /\ Forall (fun c => is_line_end c = false) v.
Proof.
  unfold ok_value. intros [_ Hf]%andb_true_iff. rewrite forallb_forall in Hf.
  split_and!; apply Forall_forall; intros c Hc%list_elem_of_In; specialize (Hf c Hc);
    by rewrite !andb_true_iff, negb_true_iff in Hf; destruct Hf as [[? ?] ?].
Qed.

Lemma literal_roundtrip v :
  ok_value v = true -> parseExprLiteral compound (buildExprLiteral MATCH_EQ v) = Some (Ret v).
Proof.
  intros Hv. unfold buildExprLiteral. rewrite ok_value_trim by done.
  change (streq MATCH_EQ MATCH_CONTAINS) with false. cbn iota.
  destruct (streq v (js "true") || streq v (js "false")) eqn:E1.
  { unfold parseExprLiteral. by rewrite ok_value_trim, E1. }
  destruct (NUMERIC_LITERAL v) eqn:E2.
  { unfold parseExprLiteral. by rewrite ok_value_trim, E1, E2. }
  unfold parseExprLiteral. rewrite tight_trim by apply quote_tight.
  assert (NUMERIC_LITERAL (json_quote v) = false) as -> by reflexivity.
  cbn [streq]. assert (forall w, w = js "true" \/ w = js "false" -> streq (json_quote v) w = false) as Hs
    by (by intros w [->| ->]).
  rewrite !Hs by auto. cbn [orb].
  destruct (ok_value_chars v Hv) as (Hu & _). pose proof (json_roundtrip v Hu) as Hj.
  unfold json_quote at 1. cbn iota. by rewrite Hj.
Qed.

End Literals.

(** The scanner of string literals stops at the end of a quoted string. *)
Definition skips (a : jsstr) : Prop :=
  forall s w r, literal_body s = Some (w, r) -> literal_body (a ++ s) = Some (a ++ w, r).

Lemma skips_app a b : skips a -> skips b -> skips (a ++ b).
Proof. intros Ha Hb s w r H. rewrite <- !app_assoc. by apply Ha, Hb. Qed.

Lemma skips_one c : c <> 34 -> c <> 92 -> skips [c].
Proof.
  intros H1 H2 s w r H. simpl. by rewrite (proj2 (Z.eqb_neq c 34)), (proj2 (Z.eqb_neq c 92)), H.
Qed.

Lemma skips_two c : is_line_end c = false -> skips [92; c].
Proof. intros Hc s w r H. simpl. by rewrite Hc, H. Qed.

Lemma skips_hex d : 0 <= d < 16 -> skips [hex_digit d].
Proof. intros Hd. apply skips_one; unfold hex_digit; destruct (d <? 10) eqn:E; lia. Qed.

Lemma skips_escape_unit c : is_unit c = true -> skips (escape_unit c).
Proof.
  unfold is_unit. intros [H1%Z.leb_le H2%Z.leb_le]%andb_true_iff. unfold escape_unit.
  repeat match goal with
  | |- context [if c =? ?k then [_; _] else _] =>
      destruct (Z.eqb_spec c k) as [->|]; [by apply skips_two|]
  end.
  destruct (_ || is_low c); [|by apply skips_one].
  apply (skips_app [92; 117] [_; _; _; _]); [by apply skips_two|].
  apply (skips_app [_] [_; _; _]); [by apply skips_hex, top_digit|].
  apply (skips_app [_] [_; _]); [apply skips_hex, Z.mod_pos_bound; lia|].
  apply (skips_app [_] [_]); apply skips_hex, Z.mod_pos_bound; lia.
Qed.

Lemma skips_escape v : forall kept,
  Forall (fun c => is_unit c = true) v ->
  (kept = true -> exists c v', v = c :: v' /\ is_low c = true) -> skips (escape_body kept v).
Proof.
  induction v as [|c v IH]; intros kept Hu Hk; [by intros s w r H|].
  apply Forall_cons in Hu as [Hc Hu].
  assert (is_high c = true \/ is_low c = true -> skips [c]) as Hone.
  { unfold is_high, is_low. intros H. apply skips_one; lia. }
  destruct kept; cbn [escape_body].
  - destruct (Hk eq_refl) as (? & ? & [= <- <-] & Hl).
    apply (skips_app [c]); [auto|]. by apply IH.
  - destruct v as [|d v]; [by apply skips_escape_unit|]. destruct (is_high c && is_low d) eqn:E.
    + apply andb_true_iff in E as [E1 E2]. apply (skips_app [c]); [auto|]. apply IH; [done|eauto].
    + apply skips_app; [by apply skips_escape_unit|]. by apply IH.
Qed.

Lemma eat_literal_ok v s :
  Forall (fun c => is_unit c = true) v -> eat_string_literal (json_quote v ++ s) = Some (json_quote v, s).
Proof.
  intros Hu. unfold eat_string_literal, json_quote. rewrite <- app_comm_cons, <- app_assoc.
  change (34 :: escape_body false v ++ [34] ++ s) with ([34] ++ escape_body false v ++ 34 :: s).
  rewrite eat_app. cbn [mbind option_bind].
  by rewrite (skips_escape v false Hu ltac:(done) (34 :: s) [34] s).
Qed.

Section ParseConditions.
Context (compound : jsstr -> option (exc jsstr)).

Lemma parse_exists src p :
  ok_name p = true ->
  let c := ParamHeaderCondition src p MATCH_EXISTS [] in
  tryParseRequestCondition compound (cond_text c) = Ret (Some c).
Proof.
  intros Hp c. subst c. unfold tryParseRequestCondition, cond_text.
  change (streq MATCH_EXISTS MATCH_EXISTS) with true. cbn iota.
  rewrite time_none by (destruct src; repeat constructor). cbn [orelse].
  unfold match_header_exists, match_param_exists.
  destruct src; cbn [source_name]; scan; [|done].
  by rewrite <- (app_nil_r (js " != nil")), eat_app.
Qed.

Lemma parse_contains p v :
  ok_name p = true -> ok_value v = true ->
  let c := ParamHeaderCondition src_header p MATCH_CONTAINS v in
  tryParseRequestCondition compound (cond_text c) = Ret (Some c).
Proof.
  intros Hp (Hu & _)%ok_value_chars c. subst c. unfold tryParseRequestCondition, cond_text.
  change (streq MATCH_CONTAINS MATCH_EXISTS) with false.
  change (streq MATCH_CONTAINS MATCH_CONTAINS) with true. cbn iota.
  rewrite time_none by (repeat constructor). cbn [orelse].
  unfold match_header_exists, match_param_exists, match_header_contains. scan. cbn [orelse].
  rewrite eat_literal_ok by done. cbn [mbind option_bind].
  rewrite <- (app_nil_r (js ")")), eat_app. cbn [mbind option_bind at_end].
  unfold contains_condition. cbn [fst snd]. by rewrite json_roundtrip.
Qed.

Lemma literal_one_line v :
  ok_value v = true -> truthy_str (buildExprLiteral MATCH_EQ v) && negb (existsb is_line_end (buildExprLiteral MATCH_EQ v)) = true.
Proof.
  intros Hv. destruct (ok_value_chars v Hv) as (Hu & _ & Hl). unfold buildExprLiteral.
  rewrite ok_value_trim by done. change (streq MATCH_EQ MATCH_CONTAINS) with false. cbn iota.
  assert (forall l, Forall (fun c => is_line_end c = false) l -> negb (existsb is_line_end l) = true) as Hn.
  { intros l Hf. apply negb_true_iff. apply not_true_iff_false.
    intros (c & Hc%list_elem_of_In & Hce)%existsb_exists. rewrite Forall_forall in Hf.
    by rewrite (Hf c Hc) in Hce. }
  destruct (streq v (js "true") || streq v (js "false")) eqn:E1.
  { rewrite (Hn v Hl), andb_true_r. apply orb_true_iff in E1 as [->%streq_true| ->%streq_true]; done. }
  destruct (NUMERIC_LITERAL v) eqn:E2.
  { rewrite (Hn v Hl), andb_true_r. apply numeric_chars in E2 as [? _]. by destruct v. }
  apply Hn. apply Forall_forall. intros c Hc. destruct (json_quote_elem v c Hu Hc) as [Hin|He].
  - rewrite Forall_forall in Hl. by apply Hl.
  - unfold is_escape_char in He. unfold is_line_end. lia.
Qed.

Lemma parse_eq src p v :
  ok_name p = true -> ok_value v = true ->
  let c := ParamHeaderCondition src p MATCH_EQ v in
  tryParseRequestCondition compound (cond_text c) = Ret (Some c).
Proof.
  intros Hp Hv c. subst c. unfold tryParseRequestCondition, cond_text.
  change (streq MATCH_EQ MATCH_EXISTS) with false.
  change (streq MATCH_EQ MATCH_CONTAINS) with false. cbn iota.
  rewrite time_none by (destruct src; repeat constructor). cbn [orelse].
  unfold match_header_exists, match_param_exists, match_header_contains, match_param_contains,
    match_param_compare, match_eq.
  destruct src; cbn [source_name]; scan; cbn [orelse]; scan;
    rewrite literal_one_line, literal_roundtrip by done; done.
Qed.

End ParseConditions.

(** ** What the text of a condition is made of *)

Definition free (k : Z) (s : jsstr) : Prop := Forall (fun c => c <> k) s.

Lemma free_app k s t : free k s -> free k t -> free k (s ++ t).
Proof. intros. by apply Forall_app. Qed.

Lemma free_balanced s : free 40 s -> free 41 s -> balanced s.
Proof. intros H1 H2. apply balanced_safe. apply Forall_and. by split. Qed.

(** The units the splitters and the builder look at. *)
Definition special (k : Z) : Prop := k = 40 \/ k = 41 \/ k = 38 \/ k = 124.

Lemma free_safe k s : special k -> Forall (fun c => is_safe c = true) s -> free k s.
Proof.
  intros Hk Hs. eapply Forall_impl; [exact Hs|]. intros c. unfold is_safe, special in *. simpl. lia.
Qed.

Lemma free_name k p : special k -> ok_name p = true -> free k p.
Proof. intros Hk (_ & _ & Hs)%ok_name_chars. by apply free_safe. Qed.

Lemma free_num k v : special k -> NUMERIC_LITERAL v = true -> free k v.
Proof.
  intros Hk [_ Hf]%numeric_chars. eapply Forall_impl; [exact Hf|]. intros c.
  unfold is_num_char, is_digit, special in *. simpl. lia.
Qed.

Lemma free_quote k v : special k -> ok_value v = true -> free k (json_quote v).
Proof.
  intros Hk Hv. destruct (ok_value_chars v Hv) as (Hu & Hs & _). apply Forall_forall. intros c Hc.
  destruct (json_quote_elem v c Hu Hc) as [Hin|He].
  - pose proof (free_safe k v Hk Hs) as Hf. unfold free in Hf. rewrite Forall_forall in Hf. by apply Hf.
  - unfold is_escape_char, special in *. lia.
Qed.

Lemma free_literal k v : special k -> ok_value v = true -> free k (buildExprLiteral MATCH_EQ v).
Proof.
  intros Hk Hv. unfold buildExprLiteral. rewrite ok_value_trim by done.
  change (streq MATCH_EQ MATCH_CONTAINS) with false. cbn iota.
  destruct (_ || _); [by apply free_safe; [|apply ok_value_chars]|].
  destruct (NUMERIC_LITERAL v); [by apply free_safe; [|apply ok_value_chars]|by apply free_quote].
Qed.

Lemma free_func k f : special k -> f ∈ TIME_FUNCS -> free k f.
Proof.
  intros Hk. unfold TIME_FUNCS. rewrite !elem_of_cons, elem_of_nil. unfold special in Hk.
  intros [->|[->|[->|[->|[->|[]]]]]]; repeat (constructor; [simpl; lia|]); constructor.
Qed.

Lemma free_arg k p : k = 38 \/ k = 124 -> ok_name p = true -> free k (arg p).
Proof.
  intros Hk Hp. unfold arg. repeat apply free_app; [|apply free_name; [unfold special; lia|done]|];
    repeat (constructor; [lia|]); constructor.
Qed.

Lemma balanced_arg p : ok_name p = true -> balanced (arg p).
Proof.
  intros Hp. change (arg p) with (js "(" ++ (34 :: p ++ [34; 41])).
  replace (34 :: p ++ [34; 41]) with ((34 :: p ++ [34]) ++ js ")") by (simpl; by rewrite <- app_assoc).
  apply balanced_paren. change (34 :: p ++ [34]) with ([34] ++ p ++ [34]).
  repeat apply balanced_app; try reflexivity. apply free_balanced; apply free_name; unfold special; auto.
Qed.

(** Texts made of the pieces above. *)
Ltac piece :=
  first [ by apply free_arg; [lia|]
        | by apply free_name; [unfold special; lia|]
        | by apply free_num; [unfold special; lia|]
        | by apply free_func; [unfold special; lia|]
        | by apply free_quote; [unfold special; lia|]
        | by apply free_literal; [unfold special; lia|]
        | by apply balanced_arg
        | by repeat (constructor; [simpl; lia|]); constructor
        | reflexivity
        | assumption ].

Ltac pieces :=
  match goal with
  | |- free _ (_ ++ _) => apply free_app; [piece|pieces]
  | |- balanced (_ ++ _) => apply balanced_app; [first [piece|apply free_balanced; piece]|pieces]
  | _ => first [piece|apply free_balanced; piece]
  end.

Lemma free_time_op k m : special k -> free k (time_op m).
Proof. intros Hk. unfold time_op, special in *. repeat case_match; piece. Qed.

Lemma cond_text_free c :
  ok_shape c ->
  free 38 (cond_text c) /\ balanced (cond_text c)
  /\ (free 124 (cond_text c) \/ exists f tz s e, c = TimeCondition f tz MATCH_RANGE [] s e).
Proof.
  destruct 1 as [f tz s e Hf Hz Hs He|f tz m v Hf Hz Hm Hv|src p Hp Ht|p v Hp Ht Hv|src p v Hp Ht Hv].
  - change (cond_text (TimeCondition f tz MATCH_RANGE [] s e)) with
      (f ++ arg tz ++ js " >= " ++ s ++ js " || " ++ f ++ arg tz ++ js " < " ++ e).
    split_and!; [pieces|pieces|right; eauto 10].
  - replace (cond_text (TimeCondition f tz m v [] [])) with (f ++ arg tz ++ js " " ++ time_op m ++ v)
      by (rewrite !elem_of_cons, elem_of_nil in Hm; by destruct Hm as [->|[->|[->|[]]]]).
    assert (forall k, special k -> free k (time_op m)) as Ho by (intros; by apply free_time_op).
    assert (free 40 (time_op m) /\ free 41 (time_op m) /\ free 38 (time_op m) /\ free 124 (time_op m))
      as (? & ? & ? & ?) by (split_and!; apply Ho; unfold special; lia).
    split_and!; [pieces|pieces|left; pieces].
  - destruct src.
    + change (cond_text _) with (js "param" ++ arg p ++ js " != nil").
      split_and!; [pieces|pieces|left; pieces].
    + change (cond_text _) with (js "header" ++ arg p ++ js " != " ++ [34; 34]).
      split_and!; [pieces|pieces|left; pieces].
  - change (cond_text (ParamHeaderCondition src_header p MATCH_CONTAINS v)) with
      (js "has(header" ++ arg p ++ js ", " ++ json_quote v ++ js ")").
    split_and!; [pieces| |left; pieces].
    replace (js "has(header" ++ arg p ++ js ", " ++ json_quote v ++ js ")")
      with (js "has" ++ js "(" ++ (js "header" ++ arg p ++ js ", " ++ json_quote v) ++ js ")")
      by (by rewrite <- !app_assoc).
    apply balanced_app; [reflexivity|]. apply balanced_paren. pieces.
  - change (cond_text (ParamHeaderCondition src p MATCH_EQ v)) with
      (source_name src ++ arg p ++ js " == " ++ buildExprLiteral MATCH_EQ v).
    split_and!; [| |left]; destruct src; unfold source_name; pieces.
Qed.

Lemma literal_tight v : ok_value v = true -> tight (buildExprLiteral MATCH_EQ v).
Proof.
  intros Hv. unfold buildExprLiteral. rewrite ok_value_trim by done.
  change (streq MATCH_EQ MATCH_CONTAINS) with false. cbn iota.
  destruct (streq v (js "true") || streq v (js "false")) eqn:E.
  { apply orb_true_iff in E as [->%streq_true| ->%streq_true];
      (apply tight_nospace; [done|by repeat constructor]). }
  destruct (NUMERIC_LITERAL v) eqn:En; [by apply numeric_tight|apply quote_tight].
Qed.

Lemma func_tight f : f ∈ TIME_FUNCS -> tight f.
Proof.
  unfold TIME_FUNCS. rewrite !elem_of_cons, elem_of_nil.
  intros [->|[->|[->|[->|[->|[]]]]]]; (apply tight_nospace; [done|by repeat constructor]).
Qed.

(** A text that starts with one tight piece and ends with another. *)
Lemma tight_ends s a m b : s = a ++ m ++ b -> tight a -> tight b -> tight s.
Proof. intros -> Ha Hb. by apply tight_app. Qed.

Lemma cond_text_tight c : ok_shape c -> tight (cond_text c).
Proof.
  assert (forall s, match s with [] => False | _ => Forall (fun c => is_space c = false) s end -> tight s) as Hlit.
  { intros s Hs. apply tight_nospace; [by destruct s|by destruct s]. }
  destruct 1 as [f tz s e Hf Hz Hs He|f tz m v Hf Hz Hm Hv|src p Hp Ht|p v Hp Ht Hv|src p v Hp Ht Hv].
  - apply (tight_ends _ f (arg tz ++ js " >= " ++ s ++ js " || " ++ f ++ arg tz ++ js " < ") e);
      [by rewrite <- !app_assoc|by apply func_tight|by apply numeric_tight].
  - apply (tight_ends _ f (arg tz ++ js " " ++ time_op m) v);
      [|by apply func_tight|by apply numeric_tight]. rewrite <- !app_assoc.
    rewrite !elem_of_cons, elem_of_nil in Hm. by destruct Hm as [->|[->|[->|[]]]].
  - destruct src.
    + apply (tight_ends _ (js "param") (arg p ++ js " != ") (js "nil"));
        [by rewrite <- !app_assoc|apply Hlit; by repeat constructor..].
    + apply (tight_ends _ (js "header") (arg p ++ js " != ") [34; 34]);
        [by rewrite <- !app_assoc|apply Hlit; by repeat constructor..].
  - apply (tight_ends _ (js "has(header") (arg p ++ js ", " ++ json_quote v) (js ")"));
      [by rewrite <- !app_assoc|apply Hlit; by repeat constructor..].
  - apply (tight_ends _ (source_name src) (arg p ++ js " == ") (buildExprLiteral MATCH_EQ v));
      [by rewrite <- !app_assoc|destruct src; apply Hlit; by repeat constructor|by apply literal_tight].
Qed.

(** ** Groups and whole rule texts *)

Lemma tight_nonempty s : tight s -> s <> [].
Proof. by intros (a & ? & m & -> & _). Qed.

Lemma tight_last s : tight s -> last s <> Some 32.
Proof. intros (a & b & m & -> & -> & _ & Hb) [= ->]. done. Qed.

Lemma tight_wrap s : tight (js "(" ++ s ++ js ")").
Proof. apply tight_app; apply tight_nospace; try done; by repeat constructor. Qed.

Lemma includes_free p s k : k ∈ p -> free k s -> includes p s = false.
Proof.
  intros Hk Hf. apply not_true_iff_false. intros (a & b & ->)%includes_true.
  unfold free in Hf. rewrite Forall_forall in Hf. apply (Hf k); [|done].
  rewrite !elem_of_app. auto.
Qed.

Section Groups.
Context (compound : jsstr -> option (exc jsstr)).

(** What the group parser needs of the text of one condition. *)
Record part_of (part : jsstr) (c : RequestCondition) : Prop := {
  part_tight : tight part;
  part_quiet : quiet 38 0 part = true;
  part_balanced : balanced part;
  part_parses : tryParseRequestCondition compound part = Ret (Some c)
}.

Lemma parse_cond_text c : ok_shape c -> tryParseRequestCondition compound (cond_text c) = Ret (Some c).
Proof.
  destruct 1 as [f tz s e Hf Hz Hs He|f tz m v Hf Hz Hm Hv|src p Hp Ht|p v Hp Ht Hv|src p v Hp Ht Hv].
  - unfold tryParseRequestCondition. destruct (parse_range f tz s e) as [-> _]; done.
  - unfold tryParseRequestCondition. rewrite parse_time_simple by done. done.
  - by apply parse_exists.
  - by apply parse_contains.
  - by apply parse_eq.
Qed.

Lemma cond_part c : ok_shape c -> part_of (cond_text c) c.
Proof.
  intros Hc. destruct (cond_text_free c Hc) as (Hf & Hb & _). pose proof (cond_text_tight c Hc) as Ht.
  split; [done| |done|by apply parse_cond_text].
  apply quiet_flat; [done|by apply tight_last|done].
Qed.

Lemma wrapped_part c :
  ok_shape c ->
  part_of (if includes (js " || ") (cond_text c) then js "(" ++ cond_text c ++ js ")" else cond_text c) c.
Proof.
  intros Hc. destruct (cond_text_free c Hc) as (Hf & Hb & [Hn|(f & tz & s & e & ->)]).
  - rewrite (includes_free _ _ 124) by (done || (right; left)). by apply cond_part.
  - destruct (includes _ _); [|by apply cond_part]. split.
    + apply tight_wrap.
    + by apply quiet_paren.
    + by apply balanced_paren.
    + inversion Hc; subst;
        [|by match goal with H : MATCH_RANGE ∈ _ |- _ => apply existsb_streq in H end].
      unfold tryParseRequestCondition.
      destruct (parse_range f tz s e) as [_ ->]; done.
Qed.

Lemma all_some_Forall2 {A B} (f : A -> exc (option B)) l bs :
  Forall2 (fun a b => f a = Ret (Some b)) l bs -> all_some f l = Ret (Some bs).
Proof. induction 1 as [|a b l bs Hab _ IH]; [done|]. simpl. by rewrite Hab, IH. Qed.

Lemma filter_truthy l : Forall (fun s : jsstr => s <> []) l -> List.filter truthy_str l = l.
Proof. induction 1 as [|s l Hs _ IH]; [done|]. simpl. destruct s; [done|]. simpl. by rewrite IH. Qed.

Lemma balanced_join sep parts :
  balanced sep -> Forall balanced parts -> balanced (join sep parts).
Proof.
  intros Hs. induction 1 as [|p ps Hp Hps IH]; [done|].
  destruct ps; [done|]. apply balanced_app; [done|]. by apply balanced_app.
Qed.

Definition wrap (e : jsstr) : jsstr := if includes (js " || ") e then js "(" ++ e ++ js ")" else e.

(** The joined text of a group's conditions. *)
Definition combined_text (conds : list RequestCondition) : jsstr :=
  match map cond_text conds with
  | [e] => e
  | es => join (js " && ") (map wrap es)
  end.

Lemma combined_parts conds :
  Forall ok_shape conds -> exists parts, combined_text conds = join (js " && ") parts /\ Forall2 part_of parts conds.
Proof.
  intros Hf. destruct conds as [|c [|c2 conds]].
  - exists []. by split.
  - exists [cond_text c]. split; [done|]. apply Forall_cons in Hf as [Hc _].
    constructor; [by apply cond_part|constructor].
  - exists (map wrap (map cond_text (c :: c2 :: conds))). split; [reflexivity|]. rewrite map_map. induction Hf as [|x l Hx _ IH]; [constructor|].
    constructor; [by apply wrapped_part|done].
Qed.

Lemma split_and parts conds :
  parts <> [] -> Forall2 part_of parts conds ->
  splitTopLevelAnd (join (js " && ") parts) = parts
  /\ all_some (fun ap => tryParseRequestCondition compound (trim ap)) parts = Ret (Some conds)
  /\ balanced (join (js " && ") parts).
Proof.
  intros Hne Hf.
  assert (Forall (fun s => tight s /\ quiet 38 0 s = true /\ balanced s) parts) as Hp.
  { clear Hne. induction Hf as [|s c ps cs [] _ IH]; constructor; auto. }
  split_and!.
  - unfold splitTopLevelAnd. rewrite (split_join 38 [38; 32]); [| |done].
    + apply filter_truthy. eapply Forall_impl; [exact Hp|]. intros s (? & _). by apply tight_nonempty.
    + eapply Forall_impl; [exact Hp|]. intros s (? & ? & _). split; [done|by apply tight_trim].
  - apply all_some_Forall2. eapply Forall2_impl; [exact Hf|]. intros s c [].
    by rewrite tight_trim.
  - apply balanced_join; [reflexivity|]. eapply Forall_impl; [exact Hp|]. by intros s (_ & _ & ?).
Qed.

Definition factor_text (g : RequestRuleGroup) : jsstr :=
  js "(" ++ (combined_text g.(conditions) ++ js " ? " ++ g.(multiplier) ++ js " : 1") ++ js ")".

Lemma match_factor_ok cond m :
  cond <> [] -> NUMERIC_LITERAL m = true ->
  match_factor (js "(" ++ (cond ++ js " ? " ++ m ++ js " : 1") ++ js ")") = Some (cond, m).
Proof.
  intros Hc Hm. unfold match_factor. rewrite eat_app. cbn [mbind option_bind].
  replace ((cond ++ js " ? " ++ m ++ js " : 1") ++ js ")") with ((cond ++ js " ? " ++ m) ++ js " : 1)")
    by (by rewrite <- !app_assoc).
  rewrite eat_end_app. cbn [mbind option_bind]. apply numeric_chars in Hm as [Hne Hf].
  rewrite app_assoc, reverse_app, span1_app; [| | |by rewrite reverse_app].
  - cbn [mbind option_bind]. rewrite !reverse_involutive, eat_end_app. cbn [mbind option_bind].
    by destruct cond.
  - intros E. apply Hne. by rewrite <- (reverse_involutive m), E.
  - by apply Forall_reverse.
Qed.

Lemma ok_group_shape g :
  ok_group g = true -> g.(conditions) <> [] /\ Forall ok_shape g.(conditions) /\ NUMERIC_LITERAL g.(multiplier) = true.
Proof.
  unfold ok_group. rewrite !andb_true_iff. intros [[Hne%negb_true_iff%bool_decide_eq_false Hf] Hm].
  split_and!; [done| |done]. rewrite forallb_forall in Hf. apply Forall_forall.
  intros c Hc. by apply ok_condition_shape, Hf, list_elem_of_In.
Qed.

(** A group's text is written and read back. *)
Lemma factor_ok g :
  ok_group g = true ->
  buildRuleGroupFactor g = factor_text g
  /\ tryParseRuleGroupFactor compound (factor_text g) = Ret (Some g)
  /\ trim (factor_text g) = factor_text g /\ quiet 42 0 (factor_text g) = true /\ balanced (factor_text g).
Proof.
  intros (Hne & Hf & Hm)%ok_group_shape. destruct (combined_parts _ Hf) as (parts & Ec & Hp).
  assert (parts <> []) as Hpne by (intros ->; by inversion Hp; subst; destruct g as [[|] ?]).
  destruct (split_and parts _ Hpne Hp) as (Hs & Ha & Hb).
  assert (balanced (combined_text g.(conditions) ++ js " ? " ++ g.(multiplier) ++ js " : 1")) as Hbal.
  { rewrite Ec. apply balanced_app; [done|]. pieces. }
  split_and!.
  - unfold buildRuleGroupFactor. rewrite numeric_trim, Hm by done. cbn [negb].
    rewrite (map_ext_in _ cond_text)
      by (intros c Hc%list_elem_of_In; rewrite Forall_forall in Hf; by apply build_text, Hf).
    rewrite filter_truthy.
    + unfold factor_text, combined_text. destruct g as [[|c [|c2 cs]] m]; [done|..];
        cbn [conditions multiplier map]; by rewrite <- !app_assoc.
    + apply Forall_fmap. eapply Forall_impl; [exact Hf|]. intros c Hc.
      by apply tight_nonempty, cond_text_tight.
  - unfold tryParseRuleGroupFactor, factor_text. rewrite match_factor_ok; [|..|done].
    + rewrite Ec, Hs, Ha. by destruct g as [[|] ?].
    + rewrite Ec. destruct Hp as [|p c ps cs [Ht] Hps]; [done|]. apply tight_nonempty in Ht.
      by destruct p, ps.
  - apply tight_trim, tight_wrap.
  - by apply quiet_paren.
  - by apply balanced_paren.
Qed.

Lemma factor_nonempty g : factor_text g <> [].
Proof. done. Qed.

Lemma rules_text groups :
  forallb ok_group groups = true ->
  buildRequestRuleExpr groups = join (js " * ") (map factor_text groups).
Proof.
  intros Hok. rewrite forallb_forall in Hok. unfold buildRequestRuleExpr.
  rewrite (map_ext_in _ factor_text) by (intros g Hg; by apply factor_ok, Hok).
  rewrite filter_truthy; [done|]. apply Forall_fmap, Forall_forall. intros g _. apply factor_nonempty.
Qed.

Lemma rules_split groups :
  forallb ok_group groups = true -> groups <> [] ->
  split_loop (js " * ") 0 0 [] (join (js " * ") (map factor_text groups)) = map factor_text groups.
Proof.
  intros Hok Hne. rewrite forallb_forall in Hok. apply (split_join 42 [32]); [|by destruct groups].
  apply Forall_fmap, Forall_forall. intros g Hg%list_elem_of_In. by split; apply factor_ok, Hok.
Qed.

Lemma rules_tight groups : groups <> [] -> tight (join (js " * ") (map factor_text groups)).
Proof.
  induction groups as [|g groups IH]; [done|]. intros _. destruct groups as [|g2 groups]; [apply tight_wrap|].
  change (join (js " * ") (map factor_text (g :: g2 :: groups))) with
    (factor_text g ++ js " * " ++ join (js " * ") (map factor_text (g2 :: groups))).
  apply tight_app; [apply tight_wrap|by apply IH].
Qed.

Lemma rules_parse groups :
  forallb ok_group groups = true ->
  tryParseRequestRuleExpr compound (join (js " * ") (map factor_text groups)) = Ret (Some groups).
Proof.
  intros Hok. destruct groups as [|g gs] eqn:Eg; [done|]. rewrite <- Eg in *.
  assert (groups <> []) as Hne by (by subst). pose proof (rules_tight _ Hne) as Ht.
  unfold tryParseRequestRuleExpr. rewrite (tight_trim _ Ht).
  destruct (join _ _) as [|x xs] eqn:Ej; [by apply tight_nonempty in Ht|]. cbn [truthy_str negb].
  rewrite <- Ej. unfold splitTopLevelMultiply. rewrite rules_split, filter_truthy by
    (try done; apply Forall_fmap, Forall_forall; intros; apply factor_nonempty).
  apply all_some_Forall2. apply Forall2_fmap_l. rewrite forallb_forall in Hok.
  apply Forall_Forall2_diag, Forall_forall. intros y Hy%list_elem_of_In. by apply factor_ok, Hok.
Qed.

End Groups.

(** ** Outer parentheses *)

Lemma slice_wrap s : slice_1_m1 (js "(" ++ s ++ js ")") = s.
Proof. unfold slice_1_m1. simpl. apply removelast_last. Qed.

Lemma length_trim s : (length (trim s) <= length s)%nat.
Proof.
  unfold trim. rewrite length_reverse.
  destruct (trim_start_suffix (reverse (trim_start s))) as (p & Hp & _).
  destruct (trim_start_suffix s) as (q & Hq & _).
  apply (f_equal length) in Hp, Hq. rewrite length_app in *. rewrite length_reverse in Hp. lia.
Qed.

Lemma full_outer_shape s : hasFullOuterParens s = true -> exists t, s = js "(" ++ t ++ js ")".
Proof.
  unfold hasFullOuterParens. rewrite !andb_true_iff, !starts_with_true.
  intros [[[t ->] [u Hu]] _]. apply (f_equal reverse) in Hu. rewrite reverse_involutive, reverse_app in Hu.
  change (reverse (js ")")) with (js ")") in Hu.
  destruct (reverse u) as [|x w]; [done|]. exists w. simpl in Hu. by injection Hu as <- ->.
Qed.

Lemma unwrap_enough f : forall s, (length s <= f)%nat -> unwrap_loop f s = unwrap_loop (length s) s.
Proof.
  induction f as [f IH] using lt_wf_ind. intros s Hle.
  destruct f as [|f]; [by destruct s; [|simpl in Hle; lia]|]. destruct s as [|c s]; [done|].
  cbn [length]. cbn [unwrap_loop]. destruct (hasFullOuterParens (c :: s)) eqn:E; [|done].
  destruct (full_outer_shape _ E) as [t Ht]. rewrite Ht, slice_wrap.
  assert (length (trim t) <= length s)%nat as Hl.
  { pose proof (length_trim t). apply (f_equal length) in Ht. simpl in Ht. rewrite length_app in Ht. simpl in Ht. lia. }
  simpl in Hle. rewrite (IH f), (IH (length s)) by lia. done.
Qed.

Lemma unwrap_done f : forall s, (length s <= f)%nat -> hasFullOuterParens (unwrap_loop f s) = false.
Proof.
  induction f as [|f IH]; intros s Hle; [by destruct s; [|simpl in Hle; lia]|]. cbn [unwrap_loop].
  destruct (hasFullOuterParens s) eqn:E; [|done]. apply IH.
  destruct (full_outer_shape _ E) as [t ->]. rewrite slice_wrap. pose proof (length_trim t).
  simpl in Hle. rewrite length_app in Hle. simpl in Hle. lia.
Qed.

Lemma outer_loop_balanced t : forall d, close d t = Some 0 -> 0 <= d -> outer_loop (d + 1) (t ++ js ")") = true.
Proof.
  induction t as [|c t IH]; intros d; simpl.
  - intros [= ->] _. done.
  - destruct (_ <? 0) eqn:E; [done|]. apply Z.ltb_ge in E. intros Hc Hd.
    rewrite paren_depth_shift, (proj2 (Z.eqb_neq (paren_depth d c + 1) 0)) by lia. simpl. by apply IH.
Qed.

Lemma full_outer_wrap s : balanced s -> hasFullOuterParens (js "(" ++ s ++ js ")") = true.
Proof.
  intros Hb. unfold hasFullOuterParens. rewrite (proj2 (starts_with_true (js "(") _)) by (by eexists).
  rewrite !reverse_app, <- app_assoc. rewrite (proj2 (starts_with_true (js ")") _)) by (by eexists).
  cbn [andb]. change (outer_loop 0 (js "(" ++ s ++ js ")")) with
    (if (paren_depth 0 40 =? 0) && truthy_str (s ++ js ")") then false else outer_loop (0 + 1) (s ++ js ")")).
  by apply outer_loop_balanced.
Qed.

Lemma unwrap_wrap s : balanced s -> trim s = s -> unwrapOuterParens (js "(" ++ s ++ js ")") = unwrapOuterParens s.
Proof.
  intros Hb Ht. unfold unwrapOuterParens. rewrite (tight_trim _ (tight_wrap s)), Ht.
  change (length (js "(" ++ s ++ js ")")) with (S (length (s ++ js ")"))).
  cbn [unwrap_loop]. rewrite full_outer_wrap, slice_wrap, Ht by done.
  apply unwrap_enough. rewrite length_app. lia.
Qed.

(** ** Guarded parameter conditions *)

(** The modes whose text repeats the parameter after a [!= nil] guard, with a usable
    operand. *)
Definition guarded (m v : jsstr) : bool :=
  match compare_op m with Some _ => NUMERIC_LITERAL v | None => streq m MATCH_CONTAINS && ok_value v end.

(** The second half on its own is no condition. *)
Definition guard_tail (p m v : jsstr) : jsstr :=
  match compare_op m with
  | Some op => js "param" ++ arg p ++ (js " " ++ op ++ js " ") ++ v
  | None => js "has(param" ++ arg p ++ js ", " ++ json_quote v ++ js ")"
  end.

Lemma compare_op_cases m op : compare_op m = Some op ->
  m = MATCH_GT /\ op = js ">" \/ m = MATCH_GTE /\ op = js ">="
  \/ m = MATCH_LT /\ op = js "<" \/ m = MATCH_LTE /\ op = js "<=".
Proof.
  unfold compare_op.
  destruct (streq m MATCH_GT) eqn:E1; [intros [= <-]; apply streq_true in E1; auto|].
  destruct (streq m MATCH_GTE) eqn:E2; [intros [= <-]; apply streq_true in E2; auto|].
  destruct (streq m MATCH_LT) eqn:E3; [intros [= <-]; apply streq_true in E3; auto|].
  destruct (streq m MATCH_LTE) eqn:E4; [intros [= <-]; apply streq_true in E4; auto 10|done].
Qed.

Lemma guard_tail_none compound p m v :
  ok_name p = true -> guarded m v = true ->
  tryParseRequestCondition compound (guard_tail p m v) = Ret None.
Proof.
  intros Hp Hg. unfold guarded in Hg. unfold tryParseRequestCondition, guard_tail.
  destruct (compare_op m) as [op|] eqn:Eo.
  - apply compare_op_cases in Eo. rewrite time_none by (repeat constructor). cbn [orelse].
    unfold match_header_exists, match_param_exists, match_header_contains, match_param_contains,
      match_param_compare, match_eq.
    destruct Eo as [[-> ->]|[[-> ->]|[[-> ->]|[-> ->]]]]; by scan.
  - rewrite time_none by (repeat constructor). cbn [orelse].
    unfold match_header_exists, match_param_exists, match_header_contains, match_param_contains,
      match_param_compare, match_eq. by scan.
Qed.

Definition guard_head (p : jsstr) : jsstr := cond_text (ParamHeaderCondition src_param p MATCH_EXISTS []).

Lemma guarded_build p m v :
  ok_name p = true -> trim p = p -> guarded m v = true ->
  buildRequestConditionExpr (ParamHeaderCondition src_param p m v)
    = join (js " && ") [guard_head p; guard_tail p m v].
Proof.
  intros Hp Ht Hg. unfold guarded in Hg. unfold buildRequestConditionExpr.
  assert (m = MATCH_CONTAINS /\ compare_op m = None /\ trim v = v
          \/ (exists op, compare_op m = Some op) /\ NUMERIC_LITERAL v = true) as Hm.
  { destruct (compare_op m) eqn:E; [eauto|]. apply andb_true_iff in Hg as [->%streq_true Hv].
    left. split_and!; [done|done|by apply ok_value_trim]. }
  rewrite normalize_param_header.
  - rewrite param_header_text by done. unfold guard_tail. cbv zeta. cbn [join].
    destruct Hm as [(-> & Ho & Hv)|[[op Ho] Hv]].
    + unfold buildExprLiteral. rewrite Hv. change (streq MATCH_CONTAINS MATCH_CONTAINS) with true.
      change (streq MATCH_CONTAINS MATCH_EXISTS) with false. rewrite Ho. unfold guard_head.
      change (cond_text _) with (js "param" ++ arg p ++ js " != nil").
      cbn iota. rewrite <- !app_assoc. reflexivity.
    + rewrite Ho, numeric_trim, Hv by done. unfold guard_head.
      change (cond_text _) with (js "param" ++ arg p ++ js " != nil").
      apply compare_op_cases in Ho.
      destruct Ho as [[-> ->]|[[-> ->]|[[-> ->]|[-> ->]]]]; rewrite <- !app_assoc; reflexivity.
  - destruct Hm as [(-> & _)|[[op Ho] _]]; [apply existsb_streq; reflexivity|].
    apply compare_op_cases in Ho.
    destruct Ho as [[-> _]|[[-> _]|[[-> _]|[-> _]]]]; apply existsb_streq; reflexivity.
Qed.

Lemma guard_tail_part p m v :
  ok_name p = true -> guarded m v = true ->
  tight (guard_tail p m v) /\ quiet 38 0 (guard_tail p m v) = true /\ balanced (guard_tail p m v).
Proof.
  intros Hp Hg. unfold guarded in Hg. unfold guard_tail.
  assert (tight (js "param") /\ tight (js "has(param") /\ tight (js ")")) as (T1 & T2 & T3)
    by (split_and!; (apply tight_nospace; [done|by repeat constructor])).
  destruct (compare_op m) as [op|] eqn:Eo.
  - assert (forall k, special k -> free k (js " " ++ op ++ js " ")) as Hop.
    { intros k Hk. unfold special in Hk. apply compare_op_cases in Eo.
      destruct Eo as [[-> ->]|[[-> ->]|[[-> ->]|[-> ->]]]]; repeat (constructor; [simpl; lia|]); constructor. }
    assert (free 40 (js " " ++ op ++ js " ") /\ free 41 (js " " ++ op ++ js " ") /\ free 38 (js " " ++ op ++ js " "))
      as (? & ? & ?) by (split_and!; apply Hop; unfold special; lia).
    assert (tight (js "param" ++ arg p ++ (js " " ++ op ++ js " ") ++ v)) as Ht
      by (rewrite (app_assoc (arg p)); apply tight_app; [done|by apply numeric_tight]).
    assert (balanced (js "param" ++ arg p ++ (js " " ++ op ++ js " ") ++ v)) as Hb.
    { apply balanced_app; [reflexivity|]. apply balanced_app; [piece|].
      apply balanced_app; [by apply free_balanced|apply free_balanced; piece]. }
    split_and!; [done| |done]. apply quiet_flat; [|by apply tight_last|done].
    apply free_app; [piece|]. apply free_app; [piece|]. apply free_app; [done|piece].
  - apply andb_true_iff in Hg as [_ Hv].
    assert (tight (js "has(param" ++ arg p ++ js ", " ++ json_quote v ++ js ")")) as Ht.
    { apply (tight_ends _ (js "has(param") (arg p ++ js ", " ++ json_quote v) (js ")")); [|done|done].
      by rewrite <- !app_assoc. }
    assert (balanced (js "has(param" ++ arg p ++ js ", " ++ json_quote v ++ js ")")) as Hb.
    { replace (js "has(param" ++ arg p ++ js ", " ++ json_quote v ++ js ")")
        with (js "has" ++ js "(" ++ (js "param" ++ arg p ++ js ", " ++ json_quote v) ++ js ")")
        by (by rewrite <- !app_assoc).
      apply balanced_app; [reflexivity|]. apply balanced_paren. pieces. }
    assert (free 38 (js "has(param" ++ arg p ++ js ", " ++ json_quote v ++ js ")")) as Hf by pieces.
    split_and!; [done| |done]. apply quiet_flat; [done|by apply tight_last|done].
Qed.

(** ** Claims *)

(** C25: What the rule editor writes, the parser reads back, for the conditions that are
    written without a guard: for every list of groups of time conditions, of conditions
    that a header or a parameter exists or equals a value and that a header contains a
    text, with names and values without parentheses, ampersands or bars, the parse of the
    built text is the list itself, and no exception is raised, whatever [JSON.parse]
    makes of compound literals. The comparisons of a parameter with a number and the
    test that a parameter contains a text are excluded by [ok_group]: they are written
    with a guard and a group of them does not parse ([guarded_param_rule_lost]). *)
Theorem request_rules_roundtrip compound groups (Hok : forallb ok_group groups = true) :
  tryParseRequestRuleExpr compound (buildRequestRuleExpr groups) = Ret (Some groups).
Proof. rewrite rules_text by done. by apply rules_parse. Qed.

Lemma request_rules_roundtrip_witness :
  forallb ok_group ex_groups = true
  /\ tryParseRequestRuleExpr no_compound (buildRequestRuleExpr ex_groups) = Ret (Some ex_groups).
Proof. split; [vm_compute; reflexivity|]. apply request_rules_roundtrip. vm_compute. reflexivity. Defined.

Lemma combine_text base groups :
  groups <> [] -> trim base <> [] ->
  combineBillingExpr base (join (js " * ") (map factor_text groups))
    = join (js " * ") ((js "(" ++ trim base ++ js ")") :: map factor_text groups).
Proof.
  intros Hg Hne. unfold combineBillingExpr. rewrite (tight_trim _ (rules_tight _ Hg)).
  destruct (trim base) as [|x xs] eqn:Eb; [done|]. rewrite <- Eb in *.
  replace (negb (truthy_str (trim base))) with false by (by rewrite Eb).
  destruct (join (js " * ") (map factor_text groups)) as [|y ys] eqn:Ej.
  { pose proof (rules_tight _ Hg) as Ht. rewrite Ej in Ht. by apply tight_nonempty in Ht. }
  rewrite <- Ej. replace (negb (truthy_str _)) with false by (by rewrite Ej).
  destruct groups as [|g gs]; [done|].
  change (join (js " * ") ((js "(" ++ trim base ++ js ")") :: map factor_text (g :: gs))) with
    ((js "(" ++ trim base ++ js ")") ++ js " * " ++ join (js " * ") (map factor_text (g :: gs))).
  by rewrite <- !app_assoc.
Qed.

Lemma combined_split compound base groups :
  groups <> [] -> forallb ok_group groups = true -> balanced base ->
  let parts := (js "(" ++ base ++ js ")") :: map factor_text groups in
  tight (join (js " * ") parts) /\ splitTopLevelMultiply (join (js " * ") parts) = parts
  /\ all_some (is_rule_part compound) (map factor_text groups) = Ret (Some (map (fun _ => true) groups)).
Proof.
  intros Hg Hok Hb parts. pose proof Hok as Hall. rewrite forallb_forall in Hok. split_and!.
  - subst parts. destruct groups; [done|]. apply (tight_app _ _ (tight_wrap base) (rules_tight _ Hg)).
  - unfold splitTopLevelMultiply. rewrite (split_join 42 [32]); [| |done].
    + apply filter_truthy. constructor; [done|]. apply Forall_fmap, Forall_forall. intros; apply factor_nonempty.
    + constructor; [split; [by apply quiet_paren|apply tight_trim, tight_wrap]|].
      apply Forall_fmap, Forall_forall. intros g Hin%list_elem_of_In. by split; apply (factor_ok compound), Hok.
  - apply all_some_Forall2. apply Forall2_fmap_l, Forall2_fmap_r, Forall_Forall2_diag, Forall_forall.
    intros g Hin%list_elem_of_In. unfold is_rule_part, compose.
    pose proof (rules_parse compound [g]) as Hp. cbn [forallb map join] in Hp.
    rewrite Hp; [done|]. by rewrite (Hok g Hin).
Qed.

Lemma filter_tagged {A B} (f : A -> B) (l : list A) :
  map fst (List.filter (fun x => x.2) (zip (map f l) (map (fun _ => true) l))) = map f l
  /\ map fst (List.filter (fun x => negb x.2) (zip (map f l) (map (fun _ => true) l))) = [].
Proof. induction l as [|a l [IH1 IH2]]; [done|]. simpl. by rewrite IH1, IH2. Qed.

(** The split of a combined text, for the clients of this file. *)
Lemma combined_text_splits compound base groups
    (Hg : groups <> []) (Hok : forallb ok_group groups = true)
    (Hne : trim base <> []) (Hb : balanced (trim base))
    (Hr : tryParseRequestRuleExpr compound (js "(" ++ trim base ++ js ")") = Ret None) :
  splitBillingExprAndRequestRules compound (combineBillingExpr base (buildRequestRuleExpr groups))
    = Ret (unwrapOuterParens base, buildRequestRuleExpr groups).
Proof.
  rewrite rules_text, combine_text by done.
  destruct (combined_split compound _ groups Hg Hok Hb) as (Ht & Hs & Ha).
  unfold splitBillingExprAndRequestRules. rewrite (tight_trim _ Ht), Hs.
  destruct (join (js " * ") (_ :: _)) as [|x xs] eqn:Ej; [by apply tight_nonempty in Ht|].
  cbn [truthy_str negb]. rewrite bool_decide_false by (destruct groups; [done|simpl; lia]).
  cbn [all_some]. unfold is_rule_part at 1. rewrite Hr, Ha.
  destruct (filter_tagged factor_text groups) as [E1 E2]. cbn [zip zip_with List.filter snd negb map fst].
  rewrite E1, E2. destruct (map factor_text groups) as [|f fs] eqn:Ef; [by destruct groups|].
  rewrite unwrap_wrap by (done || apply trim_idem). unfold unwrapOuterParens. by rewrite trim_idem.
Qed.

(** C36: A base expression combined with request rules splits into the two again: the
    base with its outer parentheses removed and the same rule text. The base must be
    balanced and must not itself read as a rule; the rules must be ones that read back
    ([ok_group], as in [request_rules_roundtrip]): with a comparison of a parameter, or
    a test that it contains a text, the combined expression is not split. *)
Theorem combine_split compound base groups
    (Hg : groups <> []) (Hok : forallb ok_group groups = true)
    (Hne : trim base <> []) (Hb : balanced (trim base))
    (Hr : tryParseRequestRuleExpr compound (js "(" ++ trim base ++ js ")") = Ret None) :
  splitBillingExprAndRequestRules compound (combineBillingExpr base (buildRequestRuleExpr groups))
    = Ret (unwrapOuterParens base, buildRequestRuleExpr groups).
Proof. by apply combined_text_splits. Qed.

Lemma combine_split_witness :
  splitBillingExprAndRequestRules no_compound
    (combineBillingExpr (js "p * 3 + c * 15") (buildRequestRuleExpr ex_groups))
    = Ret (unwrapOuterParens (js "p * 3 + c * 15"), buildRequestRuleExpr ex_groups).
Proof. apply combine_split; [discriminate|vm_compute; reflexivity|vm_compute; discriminate|reflexivity|vm_compute; reflexivity]. Defined.

(** [unwrapOuterParens] ends with a text that has no enclosing pair of parentheses
    left, and unwrapping a wrapped balanced text is unwrapping the text. *)
Theorem unwrap_complete expr :
  hasFullOuterParens (unwrapOuterParens expr) = false
  /\ (balanced (trim expr) ->
      unwrapOuterParens (js "(" ++ trim expr ++ js ")") = unwrapOuterParens expr).
Proof.
  split.
  - unfold unwrapOuterParens. apply unwrap_done. lia.
  - intros Hb. rewrite unwrap_wrap by (done || apply trim_idem). unfold unwrapOuterParens. by rewrite trim_idem.
Qed.

Lemma wrapped_single s :
  balanced s -> splitTopLevelMultiply (js "(" ++ s ++ js ")") = [js "(" ++ s ++ js ")"].
Proof.
  intros Hs. unfold splitTopLevelMultiply.
  change (js "(" ++ s ++ js ")") with (join (js " * ") [js "(" ++ s ++ js ")"]) at 1.
  rewrite (split_join 42 [32]); [done| |done].
  constructor; [split; [by apply quiet_paren|apply tight_trim, tight_wrap]|constructor].
Qed.

(** A group whose only condition compares a request parameter with a number, or
    asks whether it contains a text, is written with a [!= nil] guard that the parser
    splits off: the saved rule does not parse, although every field is valid. *)
Theorem guarded_param_rule_lost compound p m v mult
    (Hp : ok_name p = true) (Ht : trim p = p) (Hg : guarded m v = true)
    (Hm : NUMERIC_LITERAL mult = true) :
  let groups := [mkGroup [ParamHeaderCondition src_param p m v] mult] in
  buildRequestRuleExpr groups <> []
  /\ tryParseRequestRuleExpr compound (buildRequestRuleExpr groups) = Ret None.
Proof.
  intros groups. destruct (guard_tail_part p m v Hp Hg) as (T2 & Q2 & B2).
  destruct (cond_part compound _ (ok_exists src_param p Hp Ht)) as [T1 Q1 B1 P1]. fold (guard_head p) in *.
  set (text := join (js " && ") [guard_head p; guard_tail p m v]).
  assert (text <> []) as Hne by (apply tight_nonempty in T1; unfold text; cbn [join]; by destruct (guard_head p)).
  assert (balanced text) as Bt by (apply balanced_join; [reflexivity|by repeat constructor]).
  set (inner := text ++ js " ? " ++ mult ++ js " : 1").
  assert (buildRequestRuleExpr groups = js "(" ++ inner ++ js ")") as ->.
  { unfold buildRequestRuleExpr, groups, buildRuleGroupFactor. cbn [map multiplier conditions].
    rewrite guarded_build, numeric_trim, Hm by done. fold text. destruct text as [|x xs] eqn:E; [done|].
    cbn [negb List.filter truthy_str join]. unfold inner. rewrite <- !app_assoc. reflexivity. }
  split; [done|]. unfold tryParseRequestRuleExpr. rewrite (tight_trim _ (tight_wrap inner)).
  change (negb (truthy_str (js "(" ++ inner ++ js ")"))) with false. cbn iota.
  rewrite wrapped_single by (apply balanced_app; [done|pieces]). cbn [all_some].
  unfold tryParseRuleGroupFactor, inner. rewrite match_factor_ok by done.
  unfold splitTopLevelAnd, text. rewrite (split_join 38 [38; 32]); [| |done].
  - rewrite filter_truthy by (repeat constructor; by apply tight_nonempty).
    cbn [all_some]. by rewrite (tight_trim _ T1), P1, (tight_trim _ T2), guard_tail_none.
  - repeat constructor; try done; by apply tight_trim.
Qed.

Lemma guarded_param_rule_lost_witness :
  tryParseRequestRuleExpr no_compound
    (buildRequestRuleExpr [mkGroup [ParamHeaderCondition src_param (js "max_tokens") MATCH_GT (js "1000")] (js "2")])
    = Ret None.
Proof. apply guarded_param_rule_lost; vm_compute; reflexivity. Defined.

(** Normalising a condition gives one of the match modes offered for its source,
    a known time function and a time zone, and is the identity on what it returns. *)
Theorem normalize_condition_stable cond :
  let c := normalizeCondition cond in
  normalizeCondition (Some (partial_of c)) = c
  /\ match c with
     | TimeCondition f tz m _ _ _ =>
         f ∈ TIME_FUNCS /\ tz <> [] /\ m ∈ map fst (getRequestRuleMatchOptions SOURCE_TIME)
     | ParamHeaderCondition src _ m _ => m ∈ map fst (getRequestRuleMatchOptions (source_name src))
     end.
Proof.
  assert (forall source m d, d ∈ map fst (getRequestRuleMatchOptions source) ->
            allowed_mode source m d ∈ map fst (getRequestRuleMatchOptions source)) as Hmode.
  { intros source [m|] d Hd; [|done]. unfold allowed_mode. destruct (existsb _ _) eqn:E; [|done].
    apply existsb_exists in E as (o & Ho%list_elem_of_In & <-%streq_true). by apply list_elem_of_fmap_2. }
  cbv zeta. unfold normalizeCondition at 2 3 4. cbv zeta. case_bool_decide as Es.
  - set (f := match cond ≫= p_timeFunc with Some _ => _ | None => _ end).
    assert (f ∈ TIME_FUNCS) as Hf.
    { unfold f. destruct (cond ≫= p_timeFunc) as [x|]; [|left].
      destruct (isTimeFunc x) eqn:E; [by apply existsb_streq in E|left]. }
    assert (or_str (default [] (cond ≫= p_timezone)) (js "Asia/Shanghai") <> []) as Hz
      by (by destruct (default [] (cond ≫= p_timezone))).
    assert (allowed_mode SOURCE_TIME (cond ≫= p_mode) MATCH_GTE
            ∈ map fst (getRequestRuleMatchOptions SOURCE_TIME)) as Hm
      by (apply Hmode, existsb_streq; reflexivity).
    split; [by apply normalize_time|done].
  - assert (forall b : bool, allowed_mode (if b then SOURCE_HEADER else SOURCE_PARAM) (cond ≫= p_mode) MATCH_EQ
            ∈ map fst (getRequestRuleMatchOptions (source_name (if b then src_header else src_param)))) as Hm
      by (intros []; apply Hmode, existsb_streq; reflexivity).
    split; [apply normalize_param_header|]; apply Hm.
Qed.

(** A string literal with an escape [JSON.parse] rejects makes the parser raise. *)
Example contains_throws :
  tryParseRequestRuleExpr no_compound
    (js "(has(header(" ++ [34] ++ js "x" ++ [34] ++ js "), " ++ [34; 92; 113; 34] ++ js ") ? 2 : 1)") = Throw.
Proof. reflexivity. Qed.

End BillingRoundTrip.
