(* ===== verification/TieredEditor.v ===== *)
(** The editor of tiered prices
    (src/web/src/features/system-settings/models/tiered-pricing-editor.tsx): the visual
    editor of tiers and request rules, the expression editor, the presets, and the
    component that keeps them and the surrounding form in step through effects.

    The component is a transition system. [Tab] holds the component's state hooks and
    its ref, the two texts of the surrounding panel, and the dependencies its effects
    were last run with. [commit] runs the effects of one render, each with the values
    of that render, and applies what they set; a handler of the user changes the state
    and commits follow until nothing changes. *)

From S2P Require Import Prelude JsValue NumText Json TierExpr BillingExpr.
Import TierExpr.

Module TieredEditor.

Notation RequestCondition := BillingExpr.RequestCondition.
Notation RequestRuleGroup := BillingExpr.RequestRuleGroup.
Notation exc := BillingExpr.exc.
Notation Ret := BillingExpr.Ret.
Notation Throw := BillingExpr.Throw.

Definition ebind {A B} (m : exc A) (f : A -> exc B) : exc B := match m with Ret a => f a | Throw => Throw end.
Local Notation "'let*' x ':=' m 'in' f" := (ebind m (fun x => f)) (at level 200, x pattern, right associativity).

#[export] Existing Instance BillingExpr.RequestRuleGroup_eq_dec.

(** ** Number fields *)

Definition unitCostToPrice (uc : num) : num := num_or_0 (Some uc).
Definition priceToUnitCost (price : num) : num := num_or_0 (Some price).

(** [number | string] *)
Definition formatNumberDraft (v : TierValue) : jsstr :=
  match v with
  | ValueNum x => if is_finite x then num_text x else js "0"
  | ValueText s => s
  end.

Definition parseNumberDraft (value : jsstr) : num :=
  if truthy_str (trim value) then
    let next := string_to_number value in if is_finite next then next else zero
  else zero.

Definition isZeroDraft (value : jsstr) : bool := truthy_str (trim value) && neq (parseNumberDraft value) zero.

(** [DraftNumberInput]: the text shown and whether the field has the focus. *)
Record Draft := mkDraft { draft : jsstr; focused : bool }.

Definition draft_open (value : TierValue) : Draft := mkDraft (formatNumberDraft value) false.

(** The effect on [focused] and [value]. *)
Definition draft_sync (value : TierValue) (d : Draft) : Draft :=
  if focused d then d else mkDraft (formatNumberDraft value) false.

(** A handler gives the field's next state and, when it reports one, the number for [onValueChange]. *)
Definition draft_change (text : jsstr) (d : Draft) : Draft * option num := (mkDraft text (focused d), Some (parseNumberDraft text)).
Definition draft_focus (d : Draft) : Draft * option num := (mkDraft (draft d) true, None).
Definition draft_blur (d : Draft) : Draft * option num :=
  let normalized := parseNumberDraft (draft d) in (mkDraft (num_text normalized) false, Some normalized).

(** ** A tier *)

(** The handlers of a condition row. *)
Definition set_var (v : TierVar) (c : TierConditionInput) : TierConditionInput := mkCond v (cond_op c) (cond_value c).
Definition set_op (o : TierOp) (c : TierConditionInput) : TierConditionInput := mkCond (cond_var c) o (cond_value c).
Definition set_value (x : num) (c : TierConditionInput) : TierConditionInput := mkCond (cond_var c) (cond_op c) (ValueNum x).

(** [{ ...tier, conditions }], [{ ...tier, label }], [{ ...tier, [field]: value }] *)
Definition with_conditions (cs : list TierConditionInput) (t : VisualTier) : VisualTier :=
  mkTier (label t) cs (input_unit_cost t) (output_unit_cost t) (cache_mode t) (cache_read_unit_cost t) (cache_create_unit_cost t)
    (cache_create_1h_unit_cost t) (image_unit_cost t) (image_output_unit_cost t) (audio_input_unit_cost t) (audio_output_unit_cost t).
Definition with_label (l : jsstr) (t : VisualTier) : VisualTier :=
  mkTier l (conditions t) (input_unit_cost t) (output_unit_cost t) (cache_mode t) (cache_read_unit_cost t) (cache_create_unit_cost t)
    (cache_create_1h_unit_cost t) (image_unit_cost t) (image_output_unit_cost t) (audio_input_unit_cost t) (audio_output_unit_cost t).
Definition with_cost (f : CostField) (x : num) (t : VisualTier) : VisualTier :=
  let upd g old := if bool_decide (f = g) then Some x else old in
  mkTier (label t) (conditions t)
    (if bool_decide (f = input_unit) then x else input_unit_cost t) (if bool_decide (f = output_unit) then x else output_unit_cost t)
    (cache_mode t)
    (upd cache_read_unit (cache_read_unit_cost t)) (upd cache_create_unit (cache_create_unit_cost t))
    (upd cache_create_1h_unit (cache_create_1h_unit_cost t)) (upd image_unit (image_unit_cost t))
    (upd image_output_unit (image_output_unit_cost t)) (upd audio_input_unit (audio_input_unit_cost t))
    (upd audio_output_unit (audio_output_unit_cost t)).
Definition with_mode (m : CacheMode) (t : VisualTier) : VisualTier :=
  mkTier (label t) (conditions t) (input_unit_cost t) (output_unit_cost t) m (cache_read_unit_cost t) (cache_create_unit_cost t)
    (cache_create_1h_unit_cost t) (image_unit_cost t) (image_output_unit_cost t) (audio_input_unit_cost t) (audio_output_unit_cost t).

(** Without the element at [i]. *)
Definition without {A} (i : nat) (l : list A) : list A := take i l ++ drop (S i) l.

(** The handlers of [VisualTierCard]; the rows they act on are there, so an assignment
    to an index replaces an element. *)
Definition handleConditionChange (i : nat) (next : TierConditionInput) (t : VisualTier) : VisualTier :=
  with_conditions (<[i := next]> (conditions t)) t.
Definition handleConditionRemove (i : nat) (t : VisualTier) : VisualTier := with_conditions (without i (conditions t)) t.
Definition handlePriceChange (f : CostField) (value : num) (t : VisualTier) : VisualTier := with_cost f value t.
(** A price field hands the typed price over as a unit cost. *)
Definition price_field_change (f : CostField) (next : num) (t : VisualTier) : VisualTier := handlePriceChange f (priceToUnitCost next) t.
Definition handleCacheModeChange (m : CacheMode) (t : VisualTier) : VisualTier :=
  with_cost cache_create_1h_unit
    (match m with CACHE_MODE_TIMED => default zero (cache_create_1h_unit_cost t) | CACHE_MODE_GENERIC => zero end) (with_mode m t).

Definition CACHE_PRICE_VARS : list BillingVar := List.filter (fun v => bool_decide (group v = Some cache_group)) BILLING_EXTRA_VARS.
Definition MEDIA_PRICE_VARS : list BillingVar := List.filter (fun v => bool_decide (group v = Some media_group)) BILLING_EXTRA_VARS.

Definition hasMediaPricing (t : VisualTier) : bool :=
  existsb (fun v => match tierField v with
                    | Some f => ngt (unitCostToPrice (default zero (tier_cost t f))) zero
                    | None => false
                    end) MEDIA_PRICE_VARS.

(** The price fields a card shows for the cache. *)
Definition shown_cache_vars (t : VisualTier) : list jsstr :=
  map key (List.filter (fun v => negb (streq (key v) (js "cc1h")) || bool_decide (getTierCacheMode (as_partial t) = CACHE_MODE_TIMED)) CACHE_PRICE_VARS).

(** ** The list of tiers *)

Section Tiers.
Context (visualConfig : option VisualConfig).

Definition config : VisualConfig := normalizeVisualConfig visualConfig.

Definition handleTierChange (i : nat) (next : VisualTier) : VisualConfig := <[i := normalizeVisualTier (as_partial next)]> config.

Definition default_bound (v : TierVar) : TierConditionInput := mkCond v op_lt (ValueNum (num_of_Z 200000)).

Definition handleAddTier : VisualConfig :=
  let tiers := match last config with
               | Some t =>
                   match conditions t with
                   | [] => <[(length config - 1)%nat := normalizeVisualTier (as_partial (with_conditions [default_bound var_len] t))]> config
                   | _ => config
                   end
               | None => config
               end in
  tiers ++ [normalizeVisualTier (mkPartial (Some (js "tier_" ++ dec (Z.of_nat (length tiers) + 1))) (Some []) None
                                   (costs_of [(input_unit, zero); (output_unit, zero)]))].

Definition handleRemoveTier (i : nat) : VisualConfig :=
  let tiers := without i config in match tiers with [] => config | _ => tiers end.

Definition handleAddCondition (i : nat) : option VisualConfig :=
  match config !! i with
  | Some t =>
      if (2 <=? length (conditions t))%nat then None
      else
        let nextVar := if bool_decide (var_len ∈ map cond_var (conditions t)) then var_c else var_len in
        Some (<[i := with_conditions (conditions t ++ [default_bound nextVar]) t]> config)
  | None => None
  end.

End Tiers.

(** ** Request rules *)

(** The handlers of a rule's condition row. *)
Definition handleSourceChange (source : jsstr) (c : RequestCondition) : RequestCondition :=
  if streq source BillingExpr.SOURCE_TIME then BillingExpr.createEmptyTimeCondition
  else if streq source BillingExpr.SOURCE_HEADER then BillingExpr.ParamHeaderCondition BillingExpr.src_header [] BillingExpr.MATCH_EQ []
  else if streq source BillingExpr.SOURCE_PARAM then BillingExpr.ParamHeaderCondition BillingExpr.src_param [] BillingExpr.MATCH_EQ []
  else c.

Definition handleMatchChange (m : jsstr) (c : RequestCondition) : RequestCondition :=
  match c with
  | BillingExpr.TimeCondition f tz _ v s e => BillingExpr.TimeCondition f tz m v s e
  | BillingExpr.ParamHeaderCondition src p _ v => BillingExpr.ParamHeaderCondition src p m v
  end.

(** The fields of a time row, whose numbers are stored as texts, and of a parameter row. *)
Inductive RowEdit :=
| SetTimeFunc (f : jsstr) | SetTimezone (tz : jsstr) | SetRangeStart (x : num) | SetRangeEnd (x : num) | SetTimeValue (x : num)
| SetPath (p : jsstr) | SetText (v : jsstr).

Definition edit_row (e : RowEdit) (c : RequestCondition) : RequestCondition :=
  match c, e with
  | BillingExpr.TimeCondition _ tz m v s n, SetTimeFunc f => BillingExpr.TimeCondition f tz m v s n
  | BillingExpr.TimeCondition f _ m v s n, SetTimezone tz => BillingExpr.TimeCondition f tz m v s n
  | BillingExpr.TimeCondition f tz m v _ n, SetRangeStart x => BillingExpr.TimeCondition f tz m v (num_text x) n
  | BillingExpr.TimeCondition f tz m v s _, SetRangeEnd x => BillingExpr.TimeCondition f tz m v s (num_text x)
  | BillingExpr.TimeCondition f tz m _ s n, SetTimeValue x => BillingExpr.TimeCondition f tz m (num_text x) s n
  | BillingExpr.ParamHeaderCondition src _ m v, SetPath p => BillingExpr.ParamHeaderCondition src p m v
  | BillingExpr.ParamHeaderCondition src p m _, SetText v => BillingExpr.ParamHeaderCondition src p m v
  | _, _ => c
  end.

(** The handlers of [RuleGroupCard]. *)
Definition handleRuleConditionChange (i : nat) (next : RequestCondition) (g : RequestRuleGroup) : RequestRuleGroup :=
  BillingExpr.mkGroup (<[i := next]> (BillingExpr.conditions g)) (BillingExpr.multiplier g).
Definition handleAddRuleCondition (timeMode : bool) (g : RequestRuleGroup) : RequestRuleGroup :=
  BillingExpr.mkGroup (BillingExpr.conditions g ++ [if timeMode then BillingExpr.createEmptyTimeCondition else BillingExpr.createEmptyCondition])
    (BillingExpr.multiplier g).
Definition handleRuleConditionRemove (i : nat) (g : RequestRuleGroup) : RequestRuleGroup :=
  BillingExpr.mkGroup (without i (BillingExpr.conditions g)) (BillingExpr.multiplier g).
Definition handleMultiplierChange (x : num) (g : RequestRuleGroup) : RequestRuleGroup :=
  BillingExpr.mkGroup (BillingExpr.conditions g) (num_text x).

(** ** Presets *)

Record Preset := mkPreset { preset_key : jsstr; preset_label : jsstr; preset_expr : jsstr; requestRules : list RequestRuleGroup }.

Definition plain (k l : string) (e : string) : Preset := mkPreset (js k) (js l) (jq e) [].
Definition rule (c : RequestCondition) (m : string) : RequestRuleGroup := BillingExpr.mkGroup [c] (js m).
Definition service_tier (v : string) : RequestCondition :=
  BillingExpr.ParamHeaderCondition BillingExpr.src_param (js "service_tier") BillingExpr.MATCH_EQ (js v).
Definition weekday (v : string) : RequestCondition :=
  BillingExpr.TimeCondition (js "weekday") (js "Asia/Shanghai") BillingExpr.MATCH_EQ (js v) [] [].

Definition PRESET_GROUPS : list (jsstr * list Preset) :=
  [(js "Fixed price",
    [plain "flat" "Flat" "tier('base', p * 2 + c * 4)";
     plain "claude-opus" "Claude Opus 4.6" "tier('base', p * 5 + c * 25 + cr * 0.5 + cc * 6.25 + cc1h * 10)";
     plain "gpt-5.4" "GPT-5.4" "len <= 272000 ? tier('standard', p * 2.5 + c * 15 + cr * 0.25) : tier('long_context', p * 5 + c * 22.5 + cr * 0.5)"]);
   (js "Tiered",
    [plain "claude-sonnet" "Claude Sonnet 4.5" "len <= 200000 ? tier('standard', p * 3 + c * 15 + cr * 0.3 + cc * 3.75 + cc1h * 6) : tier('long_context', p * 6 + c * 22.5 + cr * 0.6 + cc * 7.5 + cc1h * 12)";
     plain "qwen3-max" "Qwen3 Max" "len <= 32000 ? tier('short', p * 1.2 + c * 6 + cr * 0.24 + cc * 1.5) : len <= 128000 ? tier('mid', p * 2.4 + c * 12 + cr * 0.48 + cc * 3) : tier('long', p * 3 + c * 15 + cr * 0.6 + cc * 3.75)";
     plain "glm-4.5-air" "GLM-4.5 Air" "len < 32000 && c < 200 ? tier('short_output', p * 0.8 + c * 2 + cr * 0.16) : len < 32000 && c >= 200 ? tier('long_output', p * 0.8 + c * 6 + cr * 0.16) : tier('mid_context', p * 1.2 + c * 8 + cr * 0.24)";
     plain "doubao-seed-1.8" "Doubao Seed 1.8" "len <= 32000 && c <= 200 ? tier('discount', p * 0.8 + c * 2 + cr * 0.16 + cc * 0.17) : len <= 32000 ? tier('short', p * 0.8 + c * 8 + cr * 0.16 + cc * 0.17) : len <= 128000 ? tier('mid', p * 1.2 + c * 16 + cr * 0.16 + cc * 0.17) : tier('long', p * 2.4 + c * 24 + cr * 0.16 + cc * 0.17)"]);
   (js "Multimodal",
    [plain "gpt-image-1-mini" "GPT Image 1 Mini" "tier('base', p * 2 + c * 8 + img * 2.5)";
     plain "gemini-2.5-flash" "Gemini 2.5 Flash" "tier('base', p * 0.3 + c * 2.5 + cr * 0.03 + ai * 1.0)";
     plain "gemini-3-pro-image" "Gemini 3 Pro Image" "tier('base', p * 2 + c * 12 + img_o * 120)";
     plain "qwen3-omni-flash" "Qwen3 Omni Flash" "tier('base', p * 0.43 + c * 3.06 + img * 0.78 + ai * 3.81 + ao * 15.11)"]);
   (js "Request rule",
    [mkPreset (js "claude-opus-fast") (js "Claude Opus 4.6 Fast") (jq "tier('base', p * 5 + c * 25 + cr * 0.5 + cc * 6.25 + cc1h * 10)")
       [rule (BillingExpr.ParamHeaderCondition BillingExpr.src_header (js "anthropic-beta") BillingExpr.MATCH_CONTAINS (js "fast-mode-2026-02-01")) "6"];
     mkPreset (js "gpt-5.4-tiers") (js "GPT-5.4 Priority/Flex")
       (jq "len <= 272000 ? tier('standard', p * 2.5 + c * 15 + cr * 0.25) : tier('long_context', p * 5 + c * 22.5 + cr * 0.5)")
       [rule (service_tier "priority") "2"; rule (service_tier "flex") "0.5"]]);
   (js "Time-based",
    [mkPreset (js "night-discount") (js "Night discount (50%)") (jq "tier('base', p * 3 + c * 15)")
       [rule (BillingExpr.TimeCondition (js "hour") (js "Asia/Shanghai") BillingExpr.MATCH_RANGE [] (js "21") (js "6")) "0.5"];
     mkPreset (js "weekend-discount") (js "Weekend discount (80%)") (jq "tier('base', p * 3 + c * 15)")
       [rule (weekday "0") "0.8"; rule (weekday "6") "0.8"]])].

(** ** The component *)

Inductive EditorMode := visual | raw.
#[export] Instance EditorMode_eq_dec : EqDecision EditorMode.
Proof. solve_decision. Defined.

Record Editor := mkEditor {
  editorMode : EditorMode;
  visualConfig : option VisualConfig;
  rawExpr : jsstr;
  requestRuleGroups : list RequestRuleGroup;
  initRef : bool
}.

(** What the surrounding panel keeps and passes down. *)
Record Panel := mkPanel { billingExpr : jsstr; requestRuleExpr : jsstr; modelName : jsstr }.

(** The dependencies of the four effects; [requestRuleGroups] by its value. *)
Record Deps := mkDeps {
  dep_init : jsstr * jsstr;
  dep_name : jsstr;
  dep_expr : jsstr * jsstr;
  dep_rules : EditorMode * list RequestRuleGroup * jsstr
}.

Record Tab := mkTab { editor : Editor; panel : Panel; seen : option Deps }.

Section Component.
Context (compound : jsstr -> option (exc jsstr)).

Notation parseRules := (BillingExpr.tryParseRequestRuleExpr compound).
Notation split := (BillingExpr.splitBillingExprAndRequestRules compound).

(** [tryParseRequestRuleExpr(text) || []] *)
Definition rule_groups (text : jsstr) : exc (list RequestRuleGroup) :=
  let* gs := parseRules text in Ret (default [] gs).

(** The initial values of the state hooks. *)
Definition mount (p : Panel) : exc Tab :=
  let* gs := rule_groups (requestRuleExpr p) in
  Ret (mkTab (mkEditor visual (tryParseVisualConfig (billingExpr p)) (BillingExpr.combineBillingExpr (billingExpr p) (requestRuleExpr p)) gs false) p None).

Definition canUseVisualRules (p : Panel) : exc bool :=
  if truthy_str (requestRuleExpr p) then let* gs := parseRules (requestRuleExpr p) in Ret (bool_decide (is_Some gs)) else Ret true.

Definition effectiveExpr (e : Editor) : exc jsstr :=
  match editorMode e with
  | visual => Ret (generateExprFromVisualConfig (visualConfig e))
  | raw => let* r := split (rawExpr e) in Ret r.1
  end.

(** The effect that reads the panel's texts into the state, once per [initRef]. *)
Definition init_effect (p : Panel) (e : Editor) : exc Editor :=
  if initRef e then Ret e
  else
    let '(m, c) := match tryParseVisualConfig (billingExpr p) with
                   | Some c => (visual, Some c)
                   | None => if truthy_str (billingExpr p) then (raw, None) else (editorMode e, Some createDefaultVisualConfig)
                   end in
    let* gs := rule_groups (requestRuleExpr p) in
    Ret (mkEditor m c (BillingExpr.combineBillingExpr (billingExpr p) (requestRuleExpr p)) gs true).

(** The effect on the name: the next change of the texts is read again. *)
Definition name_effect (e : Editor) : Editor := mkEditor (editorMode e) (visualConfig e) (rawExpr e) (requestRuleGroups e) false.

Definition deps_of (eff : jsstr) (e : Editor) (p : Panel) : Deps :=
  mkDeps (billingExpr p, requestRuleExpr p) (modelName p) (eff, billingExpr p) (editorMode e, requestRuleGroups e, requestRuleExpr p).

(** An effect runs after the first render and when its dependencies have changed. *)
Definition changed {A} `{EqDecision A} (old : option A) (new : A) : bool := negb (bool_decide (old = Some new)).

(** The effects of one render, in order; all of them see the values of that render. *)
Definition commit (t : Tab) : exc Tab :=
  let e := editor t in
  let p := panel t in
  let* eff := effectiveExpr e in
  let d := deps_of eff e p in
  let* e1 := if changed (dep_init <$> seen t) (dep_init d) then init_effect p e else Ret e in
  let e2 := if changed (dep_name <$> seen t) (dep_name d) then name_effect e1 else e1 in
  let b := if changed (dep_expr <$> seen t) (dep_expr d) then eff else billingExpr p in
  let r := match editorMode e with
           | visual => if changed (dep_rules <$> seen t) (dep_rules d) then BillingExpr.buildRequestRuleExpr (requestRuleGroups e) else requestRuleExpr p
           | raw => requestRuleExpr p
           end in
  Ret (mkTab e2 (mkPanel b r (modelName p)) (Some d)).

Fixpoint commits (n : nat) (t : Tab) : exc Tab :=
  match n with O => Ret t | S n => let* t := commit t in commits n t end.

(** ** The user *)

Definition set_editor (f : Editor -> Editor) (t : Tab) : Tab := mkTab (f (editor t)) (panel t) (seen t).
Definition set_rules (r : jsstr) (p : Panel) : Panel := mkPanel (billingExpr p) r (modelName p).

Definition handleVisualChange (next : VisualConfig) (t : Tab) : Tab :=
  set_editor (fun e => mkEditor (editorMode e) (Some next) (rawExpr e) (requestRuleGroups e) (initRef e)) t.

Definition handleRuleGroupsChange (next : list RequestRuleGroup) (t : Tab) : Tab :=
  set_editor (fun e => mkEditor (editorMode e) (visualConfig e) (rawExpr e) next (initRef e)) t.

(** [split] of the new text may raise; the render that follows then raises as well. *)
Definition handleRawChange (value : jsstr) (t : Tab) : exc Tab :=
  let e := editor t in
  let* r := split value in
  Ret (mkTab (mkEditor (editorMode e) (visualConfig e) value (requestRuleGroups e) (initRef e)) (set_rules r.2 (panel t)) (seen t)).

Definition handleModeChange (next : EditorMode) (t : Tab) : exc Tab :=
  let e := editor t in
  match next with
  | visual =>
      let* r := split (rawExpr e) in
      let cfg := match tryParseVisualConfig r.1 with Some c => c | None => createDefaultVisualConfig end in
      let* gs := rule_groups r.2 in
      Ret (mkTab (mkEditor visual (Some cfg) (rawExpr e) gs (initRef e)) (set_rules r.2 (panel t)) (seen t))
  | raw =>
      let expr := generateExprFromVisualConfig (visualConfig e) in
      let ruleExpr := BillingExpr.buildRequestRuleExpr (requestRuleGroups e) in
      Ret (mkTab (mkEditor raw (visualConfig e) (or_str (BillingExpr.combineBillingExpr expr ruleExpr) expr) (requestRuleGroups e) (initRef e))
             (panel t) (seen t))
  end.

Definition applyPreset (p : Preset) (t : Tab) : Tab :=
  let e := editor t in
  let ruleExpr := BillingExpr.buildRequestRuleExpr (requestRules p) in
  let combined := or_str (BillingExpr.combineBillingExpr (preset_expr p) ruleExpr) (preset_expr p) in
  let '(m, c) := match tryParseVisualConfig (preset_expr p) with Some c => (visual, Some c) | None => (raw, None) end in
  mkTab (mkEditor m c combined (requestRules p) (initRef e)) (set_rules ruleExpr (panel t)) (seen t).

(** The name of the model is typed in the panel. *)
Definition rename (n : jsstr) (t : Tab) : Tab :=
  mkTab (editor t) (mkPanel (billingExpr (panel t)) (requestRuleExpr (panel t)) n) (seen t).

End Component.

End TieredEditor.
