(* ===== verification/TieredEditorLaws.v ===== *)
(** The editor of tiered prices: its effects always come to rest, opening a price the
    visual editor can read keeps it, and opening one it cannot read replaces it. *)

From S2P Require Import Prelude JsValue NumText Json TierExpr TierRoundTrip BillingExpr BillingRoundTrip TieredEditor.
Import TierExpr TierRoundTrip TieredEditor.

Module TieredEditorLaws.

Section Laws.
Context (compound : jsstr -> option (exc jsstr)).
Notation commit := (commit compound).
Notation commits := (commits compound).
Notation mount := (mount compound).

(** ** The effects come to rest *)

Lemma changed_same {A} `{EqDecision A} (x : A) : changed (Some x) x = false.
Proof. unfold changed. by rewrite bool_decide_eq_true_2. Qed.

(** A render whose dependencies all are the last ones runs no effect. *)
Definition up_to_date (t : Tab) : Prop :=
  exists eff, effectiveExpr compound (editor t) = Ret eff /\ seen t = Some (deps_of eff (editor t) (panel t)).

Lemma up_to_date_rest t : up_to_date t -> commit t = Ret t.
Proof.
  destruct t as [e p s]. intros (eff & He & Hs). cbn [editor panel seen] in *. subst s.
  unfold TieredEditor.commit. cbn [editor panel seen]. rewrite He. cbn [ebind]. cbn [fmap option_fmap option_map]. rewrite !changed_same.
  cbn [ebind]. destruct p as [b r n]. by destruct (editorMode e).
Qed.

(** The panel after the effects of [t] have run. *)
Definition next_panel (eff : jsstr) (t : Tab) : Panel :=
  let e := editor t in
  let p := panel t in
  mkPanel (if changed (dep_expr <$> seen t) (eff, billingExpr p) then eff else billingExpr p)
    (match editorMode e with
     | visual => if changed (dep_rules <$> seen t) (editorMode e, requestRuleGroups e, requestRuleExpr p)
                 then BillingExpr.buildRequestRuleExpr (requestRuleGroups e) else requestRuleExpr p
     | raw => requestRuleExpr p
     end) (modelName p).

Definition reads (t : Tab) : bool := changed (dep_init <$> seen t) (billingExpr (panel t), requestRuleExpr (panel t)).
Definition renamed (t : Tab) : bool := changed (dep_name <$> seen t) (modelName (panel t)).

Lemma commit_spec t t' :
  commit t = Ret t' ->
  exists eff e1, effectiveExpr compound (editor t) = Ret eff
    /\ (if reads t then init_effect compound (panel t) (editor t) else Ret (editor t)) = Ret e1
    /\ t' = mkTab (if renamed t then name_effect e1 else e1) (next_panel eff t) (Some (deps_of eff (editor t) (panel t))).
Proof.
  unfold TieredEditor.commit. destruct (effectiveExpr _ _) as [|eff]; [done|]. cbn [ebind].
  change (changed _ (dep_init _)) with (reads t). destruct (if reads t then _ else _) as [|e1] eqn:E; [done|]. cbn [ebind].
  intros [= <-]. exists eff, e1. by split_and!.
Qed.

Lemma next_panel_again eff t s :
  s = Some (deps_of eff (editor t) (panel t)) -> next_panel eff (mkTab (editor t) (next_panel eff t) s) = next_panel eff t.
Proof.
  intros ->. unfold next_panel at 1 3. cbn [editor panel seen]. destruct (panel t) as [b r n] eqn:Ep. unfold next_panel. rewrite Ep.
  cbn [billingExpr requestRuleExpr modelName deps_of dep_expr dep_rules fmap option_fmap option_map]. f_equal.
  - destruct (changed (dep_expr <$> seen t) _); [by destruct (changed _ _)|by rewrite changed_same].
  - destruct (editorMode (editor t)); [|done].
    destruct (changed (dep_rules <$> seen t) _); [by destruct (changed _ _)|by rewrite changed_same].
Qed.

Lemma rest_stays t n : commit t = Ret t -> commits n t = Ret t.
Proof. intros H. induction n as [|n IH]; [done|]. cbn [TieredEditor.commits]. by rewrite H. Qed.

Lemma renamed_after t t' : commit t = Ret t' -> renamed t' = false.
Proof. intros (eff & e1 & _ & _ & ->)%commit_spec. unfold renamed. cbn. apply changed_same. Qed.

Lemma commits_S n t t' : commits (S n) t = Ret t' -> exists t1, commit t = Ret t1 /\ commits n t1 = Ret t'.
Proof. cbn [TieredEditor.commits]. destruct (commit t) as [|t1] eqn:E; [done|]. by exists t1. Qed.

(** A commit that leaves the state alone. *)
Lemma commit_calm t t' :
  renamed t = false -> initRef (editor t) = true \/ reads t = false -> commit t = Ret t' ->
  exists eff, effectiveExpr compound (editor t) = Ret eff
    /\ t' = mkTab (editor t) (next_panel eff t) (Some (deps_of eff (editor t) (panel t))).
Proof.
  intros Hr Hi (eff & e1 & He & H1 & ->)%commit_spec. exists eff. split; [done|]. rewrite Hr. f_equal.
  destruct Hi as [Hi|Hi]; [|rewrite Hi in H1; by injection H1 as <-].
  unfold init_effect in H1. rewrite Hi in H1. destruct (reads t); by injection H1 as <-.
Qed.

Lemma init_settles n t t' :
  renamed t = false -> initRef (editor t) = true -> commits (S (S n)) t = Ret t' -> commit t' = Ret t'.
Proof.
  intros Hr Hi (t1 & H1 & (t2 & H2 & Hn)%commits_S)%commits_S.
  assert (commit t2 = Ret t2) as Hrest; [|rewrite (rest_stays t2 n Hrest) in Hn; by injection Hn as <-].
  pose proof (renamed_after _ _ H1) as Hr1.
  destruct (commit_calm t t1 Hr (or_introl Hi) H1) as (eff & He & ->).
  destruct (commit_calm _ t2 Hr1 (or_introl Hi) H2) as (eff' & He' & ->). cbn [editor] in He'. rewrite He in He'. injection He' as <-.
  apply up_to_date_rest. exists eff. cbn [editor panel seen]. split; [done|]. by rewrite next_panel_again.
Qed.

(** Reading the panel sets [initRef]. *)
Lemma commit_reads t t' :
  renamed t = false -> reads t = true -> commit t = Ret t' -> initRef (editor t') = true.
Proof.
  intros Hr Hd (eff & e1 & _ & H1 & ->)%commit_spec. rewrite Hr, Hd in *. cbn [editor]. unfold init_effect in H1.
  destruct (initRef (editor t)) eqn:Ei; [by injection H1 as <-|]. destruct (rule_groups _ _) as [|gs].
  { by destruct (tryParseVisualConfig _); [|destruct (truthy_str _)]. } destruct (tryParseVisualConfig _); [|destruct (truthy_str _)]; cbn [ebind] in H1; by injection H1 as <-.
Qed.

(** Five commits reach a state at rest. *)
Lemma commits_settle (t : Tab) :
  match commits 5 t with Ret t' => commit t' = Ret t' | Throw => True end.
Proof.
  destruct (commits 5 t) as [|t'] eqn:H; [done|]. apply commits_S in H as (t1 & H1 & H). pose proof (renamed_after _ _ H1) as Hr1.
  destruct (initRef (editor t1)) eqn:Hi1; [by apply (init_settles 2 t1)|].
  apply commits_S in H as (t2 & H2 & H). pose proof (renamed_after _ _ H2) as Hr2.
  destruct (reads t1) eqn:Hd1; [apply (init_settles 1 t2); [done|exact (commit_reads t1 t2 Hr1 Hd1 H2)|done]|].
  destruct (commit_calm t1 t2 Hr1 (or_intror Hd1) H2) as (eff & He & Ht2).
  apply commits_S in H as (t3 & H3 & H). pose proof (renamed_after _ _ H3) as Hr3.
  destruct (reads t2) eqn:Hd2; [apply (init_settles 0 t3); [done|exact (commit_reads t2 t3 Hr2 Hd2 H3)|done]|].
  assert (commit t2 = Ret t2) as Hrest; [|rewrite Hrest in H3; injection H3 as <-; rewrite (rest_stays t2 2 Hrest) in H; by injection H as <-].
  apply up_to_date_rest. exists eff. rewrite Ht2 in Hd2 |- *. cbn [editor panel seen]. split; [done|]. f_equal. unfold reads in Hd2.
  cbn [seen panel fmap option_fmap option_map deps_of dep_init] in Hd2. unfold changed in Hd2.
  apply negb_false_iff, bool_decide_eq_true in Hd2.
  assert (billingExpr (next_panel eff t1) = billingExpr (panel t1)) as Eb by congruence.
  assert (requestRuleExpr (next_panel eff t1) = requestRuleExpr (panel t1)) as Er by congruence.
  unfold deps_of. by rewrite Eb, Er.
Qed.

(** C30: the effects of the price editor always come to rest: from any state of the
    editor and the panel around it, whatever texts they hold, five renders later
    either a parser has raised or no effect changes anything any more. *)
Theorem effects_settle (t : Tab) :
  match commits 5 t with Ret t' => commit t' = Ret t' | Throw => True end.
Proof. apply commits_settle. Qed.

(** ** Opening a price *)

Lemma commit_run t eff e1 :
  effectiveExpr compound (editor t) = Ret eff ->
  (if reads t then init_effect compound (panel t) (editor t) else Ret (editor t)) = Ret e1 ->
  commit t = Ret (mkTab (if renamed t then name_effect e1 else e1) (next_panel eff t) (Some (deps_of eff (editor t) (panel t)))).
Proof.
  intros He H1. unfold TieredEditor.commit. rewrite He. cbn [ebind]. change (changed _ (dep_init _)) with (reads t). by rewrite H1.
Qed.

Lemma rule_groups_built gs :
  forallb BillingRoundTrip.ok_group gs = true -> rule_groups compound (BillingExpr.buildRequestRuleExpr gs) = Ret gs.
Proof.
  intros Hok. unfold rule_groups. rewrite BillingRoundTrip.rules_text by done. by rewrite BillingRoundTrip.rules_parse.
Qed.

(** A state that shows the configuration [c] and the rules [gs], with the panel in step. *)
Definition shows_price (c : VisualConfig) (gs : list RequestRuleGroup) (name : jsstr) (t : Tab) : Prop :=
  editorMode (editor t) = visual /\ visualConfig (editor t) = Some c /\ requestRuleGroups (editor t) = gs
  /\ panel t = mkPanel (generateExprFromVisualConfig (Some c)) (BillingExpr.buildRequestRuleExpr gs) name.

Section Price.
Context (c : VisualConfig) (gs : list RequestRuleGroup) (name : jsstr).
Hypothesis c_parses : tryParseVisualConfig (generateExprFromVisualConfig (Some c)) = Some c.
Hypothesis gs_ok : forallb BillingRoundTrip.ok_group gs = true.

Lemma commit_shows t : shows_price c gs name t -> exists t', commit t = Ret t' /\ shows_price c gs name t'.
Proof.
  destruct t as [[m v r g i] p s]. intros (Hm & Hv & Hg & Hp). cbn in Hm, Hv, Hg, Hp. subst m v g p.
  assert (forall b, exists e1, (if b : bool then init_effect compound (mkPanel (generateExprFromVisualConfig (Some c)) (BillingExpr.buildRequestRuleExpr gs) name)
              (mkEditor visual (Some c) r gs i) else Ret (mkEditor visual (Some c) r gs i)) = Ret e1
            /\ editorMode e1 = visual /\ visualConfig e1 = Some c /\ requestRuleGroups e1 = gs) as Hinit.
  { intros [|]; [|by eexists]. unfold init_effect. cbn [initRef billingExpr requestRuleExpr]. destruct i; [by eexists|].
    rewrite c_parses, rule_groups_built by done. by eexists. }
  destruct (Hinit (reads (mkTab (mkEditor visual (Some c) r gs i) (mkPanel (generateExprFromVisualConfig (Some c)) (BillingExpr.buildRequestRuleExpr gs) name) s)))
    as (e1 & H1 & Hm & Hv & Hg).
  eexists. split; [by apply commit_run|]. unfold shows_price. cbn [editor panel].
  split; [by destruct (renamed _)|]. split; [by destruct (renamed _)|]. split; [by destruct (renamed _)|].
  unfold next_panel. cbn [editor panel seen billingExpr requestRuleExpr modelName editorMode requestRuleGroups].
  f_equal; by destruct (changed _ _).
Qed.

Lemma commits_show n : forall t, shows_price c gs name t -> exists t', commits n t = Ret t' /\ shows_price c gs name t'.
Proof.
  induction n as [|n IH]; intros t Ht; [by exists t|]. destruct (commit_shows t Ht) as (t1 & H1 & Ht1).
  destruct (IH t1 Ht1) as (t' & Hn & Ht'). exists t'. cbn [TieredEditor.commits]. by rewrite H1.
Qed.

(** A state with the configuration and the rules whose panel still holds other texts. *)
Lemma commit_updates e p s :
  editorMode e = visual -> visualConfig e = Some c -> requestRuleGroups e = gs -> modelName p = name ->
  tryParseVisualConfig (billingExpr p) = Some c -> rule_groups compound (requestRuleExpr p) = Ret gs -> s = None ->
  exists t', commit (mkTab e p s) = Ret t' /\ shows_price c gs name t'.
Proof.
  intros Hm Hv Hg Hn Hb Hr ->. destruct e as [m v r g i], p as [b rr n]. cbn in Hm, Hv, Hg, Hn, Hb, Hr. subst m v g n.
  assert (exists e1, init_effect compound (mkPanel b rr name) (mkEditor visual (Some c) r gs i) = Ret e1
            /\ editorMode e1 = visual /\ visualConfig e1 = Some c /\ requestRuleGroups e1 = gs) as (e1 & H1 & Hm & Hv & Hg).
  { unfold init_effect. cbn [initRef billingExpr requestRuleExpr]. destruct i; [by eexists|]. rewrite Hb, Hr. by eexists. }
  eexists. split; [by apply commit_run|]. unfold shows_price. cbn [editor panel].
  by split; [destruct (renamed _)|split; [destruct (renamed _)|split; [destruct (renamed _)|]]].
Qed.

End Price.

(** opening the editor on a price it can read keeps the price. If the stored text
    parses as a configuration [c] in canonical form, with admissible labels and numbers,
    and the stored rules are those of admissible groups, the editor comes to rest in
    visual mode showing [c] and the groups, and the panel holds the text generated from
    [c], which parses as [c] again, and the same rules. *)
Theorem opening_keeps_price (E name : jsstr) (c : VisualConfig) (gs : list RequestRuleGroup) :
  tryParseVisualConfig E = Some c -> c <> [] -> forallb tier_ok c = true -> canonical c = c ->
  forallb BillingRoundTrip.ok_group gs = true ->
  exists t, ebind (mount (mkPanel E (BillingExpr.buildRequestRuleExpr gs) name)) (commits 6) = Ret t
    /\ commit t = Ret t /\ shows_price c gs name t
    /\ tryParseVisualConfig (billingExpr (panel t)) = Some c.
Proof.
  intros HE Hne Hok Hcan Hgs. destruct (generated_text_parses c Hne Hok) as [Hp _]. rewrite Hcan in Hp.
  pose proof (rule_groups_built gs Hgs) as Hr. unfold TieredEditor.mount. cbn [requestRuleExpr billingExpr]. rewrite Hr. cbn [ebind].
  set (t0 := mkTab _ _ None).
  destruct (commit_updates c gs name (editor t0) (panel t0) None) as (t1 & H1 & Hs1); try done.
  destruct (commits_show c gs name Hp Hgs 5 t1 Hs1) as (t' & Hn & Hs').
  exists t'. split; [change (ebind (commit t0) (commits 5) = Ret t'); change (mkTab (editor t0) (panel t0) None) with t0 in H1; by rewrite H1|].
  split; [pose proof (commits_settle t1) as Hrest; by rewrite Hn in Hrest|]. split; [done|].
  destruct Hs' as (_ & _ & _ & ->). exact Hp.
Qed.

(** ** Opening a price the visual editor cannot read *)

Definition zero_price : jsstr := js "p * 0 + c * 0".

Lemma zero_price_unreadable : tryParseVisualConfig zero_price = None.
Proof. vm_compute. reflexivity. Qed.

Lemma zero_price_splits gs :
  forallb BillingRoundTrip.ok_group gs = true ->
  exists r, BillingExpr.splitBillingExprAndRequestRules compound
    (BillingExpr.combineBillingExpr zero_price (BillingExpr.buildRequestRuleExpr gs)) = Ret (zero_price, r).
Proof.
  intros Hok. destruct gs as [|g gs]; [by exists []|]. eexists.
  rewrite BillingRoundTrip.combined_text_splits; [reflexivity|done|done|done|done|reflexivity].
Qed.

Lemma changed_ne {A} `{EqDecision A} (x y : A) : x <> y -> changed (Some x) y = true.
Proof. intros H. unfold changed. rewrite bool_decide_eq_false_2; [done|]. congruence. Qed.

Lemma effective_raw text b r :
  BillingExpr.splitBillingExprAndRequestRules compound text = Ret (b, r) ->
  forall e, editorMode e = raw -> rawExpr e = text -> effectiveExpr compound e = Ret b.
Proof. intros H e Hm Ht. unfold effectiveExpr. by rewrite Hm, Ht, H. Qed.

(** In expression mode, showing the replacement, the panel takes the replacement. *)
Lemma commit_zero R gs r :
  BillingExpr.splitBillingExprAndRequestRules compound (BillingExpr.combineBillingExpr zero_price R) = Ret (zero_price, r) ->
  forall b name i x y,
  x <> (zero_price, b) \/ b = zero_price ->
  let e := mkEditor raw None (BillingExpr.combineBillingExpr zero_price R) gs true in
  commit (mkTab e (mkPanel b R name) (Some (mkDeps i name x y)))
  = Ret (mkTab e (mkPanel zero_price R name) (Some (mkDeps (b, R) name (zero_price, b) (raw, gs, R)))).
Proof.
  intros HsZ b name i x y Hd e. rewrite (commit_run _ zero_price e); [|by apply (effective_raw _ _ _ HsZ)|].
  - unfold renamed, next_panel. cbn. rewrite changed_same. do 3 f_equal.
    destruct (decide (x = (zero_price, b))) as [->|Hn]; [rewrite changed_same; by destruct Hd|by rewrite changed_ne].
  - unfold reads. cbn. unfold init_effect. cbn. by destruct (changed _ _).
Qed.

(** opening the editor on a price it cannot read discards the price. For every
    non-empty text the visual parser rejects (other than the replacement itself), with
    admissible rules and as long as splitting the text does not raise, the editor comes
    to rest in expression mode with the text of a price of zero, and the panel, which
    saves what it holds, has that text in place of the stored one. *)
Theorem opening_discards_price (E name : jsstr) (gs : list RequestRuleGroup) (x : jsstr * jsstr) :
  E <> [] -> tryParseVisualConfig E = None -> E <> zero_price -> forallb BillingRoundTrip.ok_group gs = true ->
  BillingExpr.splitBillingExprAndRequestRules compound
    (BillingExpr.combineBillingExpr E (BillingExpr.buildRequestRuleExpr gs)) = Ret x ->
  exists t, ebind (mount (mkPanel E (BillingExpr.buildRequestRuleExpr gs) name)) (commits 4) = Ret t
    /\ commit t = Ret t /\ editorMode (editor t) = raw
    /\ rawExpr (editor t) = BillingExpr.combineBillingExpr zero_price (BillingExpr.buildRequestRuleExpr gs)
    /\ panel t = mkPanel zero_price (BillingExpr.buildRequestRuleExpr gs) name.
Proof.
  intros Hne HE HZ Hgs Hx. apply truthy_str_spec in Hne. pose proof (rule_groups_built gs Hgs) as Hr.
  destruct (zero_price_splits gs Hgs) as [r HsZ]. set (R := BillingExpr.buildRequestRuleExpr gs) in *.
  unfold TieredEditor.mount. cbn [requestRuleExpr billingExpr]. rewrite Hr, HE. cbn [ebind].
  set (e := mkEditor raw None (BillingExpr.combineBillingExpr zero_price R) gs true).
  assert (commit (mkTab (mkEditor visual None (BillingExpr.combineBillingExpr E R) gs false) (mkPanel E R name) None)
    = Ret (mkTab (mkEditor raw None (BillingExpr.combineBillingExpr E R) gs false) (mkPanel zero_price R name)
             (Some (mkDeps (E, R) name (zero_price, E) (visual, gs, R))))) as H1.
  { rewrite (commit_run _ zero_price (mkEditor raw None (BillingExpr.combineBillingExpr E R) gs true)); [reflexivity|reflexivity|].
    cbn [reads panel editor]. unfold reads, init_effect. cbn. by rewrite HE, Hne, Hr. }
  pose proof (commit_zero R gs r HsZ) as Hlast. fold e in Hlast.
  assert (commit (mkTab (mkEditor raw None (BillingExpr.combineBillingExpr E R) gs false) (mkPanel zero_price R name)
      (Some (mkDeps (E, R) name (zero_price, E) (visual, gs, R))))
    = Ret (mkTab e (mkPanel x.1 R name) (Some (mkDeps (zero_price, R) name (x.1, zero_price) (raw, gs, R))))) as H2.
  { rewrite (commit_run _ x.1 e); [|by apply (effective_raw (BillingExpr.combineBillingExpr E R) x.1 x.2); [destruct x| |]|].
    - unfold renamed, next_panel. cbn -[zero_price]. rewrite changed_same, changed_ne by (intros [=]; congruence). reflexivity.
    - unfold reads. cbn -[zero_price]. rewrite changed_ne by (intros [=]; congruence). unfold init_effect. cbn [initRef billingExpr requestRuleExpr].
      rewrite zero_price_unreadable, Hr. reflexivity. }
  eexists. split.
  { cbn [TieredEditor.commits]. rewrite H1. cbn [ebind]. rewrite H2. cbn [ebind]. rewrite Hlast by (by destruct (decide (x.1 = zero_price)); [right|left; intros [=]; congruence]).
    cbn [ebind]. rewrite Hlast by (by right). reflexivity. }
  split; [apply up_to_date_rest; eexists; split; [by apply (effective_raw _ _ _ HsZ)|reflexivity]|done].
Qed.

End Laws.

(** ** Instances *)

(** The panel after the editor was opened on a price and rules. *)
Definition opened (E R : jsstr) : exc Panel :=
  ebind (TieredEditor.mount BillingExpr.no_compound (mkPanel E R (js "m")))
    (fun t => ebind (TieredEditor.commits BillingExpr.no_compound 5 t) (fun t => Ret (panel t))).

(** Rules the editor has no form for are erased by opening it. *)
Example rules_erased :
  opened (jq "tier('base', p * 2 + c * 4)") (jq "(param('x') > 3 || header('y') != '' ? 2 : 1)")
  = Ret (mkPanel (jq "tier('base', p * 2 + c * 4)") [] (js "m")).
Proof. vm_compute. reflexivity. Qed.

(** Every preset is a price the visual editor reads. *)
Example presets_read : forallb (fun p => bool_decide (is_Some (tryParseVisualConfig (preset_expr p)))) (concat (map snd PRESET_GROUPS)) = true.
Proof. vm_compute. reflexivity. Qed.

End TieredEditorLaws.
