(* ===== verification/ModelPricing.v ===== *)
(** The prices of models (src/web/src/features/system-settings/models/): how a price is
    written (pricing-format.ts), the lanes and texts of the price form
    (model-pricing-core.ts), the rows of the price table (model-pricing-snapshots.ts),
    the panel that edits one model (model-pricing-sheet.tsx) and the editor that keeps
    the ten option texts of all models (model-ratio-visual-editor.tsx).

    The option texts are JSON objects keyed by model name. [null] in place of an object
    makes the code raise; other JSON values are no records, and names of properties
    every object inherits are no model names: both are outside the model. Translations
    and [localeCompare] are parameters. *)

From S2P Require Import Prelude JsValue NumText Json Regex BillingExpr TieredEditor.
Import TieredEditor.

Module ModelPricing.

Local Notation "'let*' x ':=' m 'in' f" := (ebind m (fun x => f)) (at level 200, x pattern, right associativity).

(** ** Numbers *)

Definition DISPLAY_DECIMALS : Z := 12.
Definition SNAP_DECIMALS : nat := 8.
Definition SNAP_EPSILON : num := num_of_decimal 1 12.
Definition EPSILON : num := ndiv (num_of_Z 1) (num_of_Z (2 ^ 52)).

Definition roundToDecimals (value : num) (decimals : Z) : num :=
  let factor := num_of_Z (10 ^ decimals) in ndiv (math_round (nmul value factor)) factor.

Definition tolerance (value : num) : num := nmax SNAP_EPSILON (nmul (nmul (nabs value) EPSILON) (num_of_Z 8)).

(** The loop over the decimals, with [n] of them left. *)
Fixpoint snap_loop (n : nat) (decimals : Z) (value : num) : num :=
  match n with
  | O => value
  | S n =>
      let rounded := roundToDecimals value decimals in
      if nle (nabs (nsub value rounded)) (tolerance value) then rounded else snap_loop n (decimals + 1) value
  end.

Definition snapFloatDrift (value : num) : num := snap_loop (S SNAP_DECIMALS) 0 value.

(** Called with numbers only. *)
Definition formatPricingNumber (value : num) : jsstr :=
  if is_finite value then num_text (parseFloat (toFixed DISPLAY_DECIMALS (snapFloatDrift value))) else [].

(** [string | undefined] *)
Definition hasValue (value : option jsstr) : bool := truthy_str (default [] value).

Definition toNumberOrNull (value : option jsstr) : option num :=
  match value with
  | Some s => if hasValue value then let x := string_to_number s in if is_finite x then Some x else None else None
  | None => None
  end.

(** ** Lanes *)

Inductive LaneKey := completion | cache | createCache | image | audioInput | audioOutput.
#[export] Instance LaneKey_eq_dec : EqDecision LaneKey.
Proof. solve_decision. Defined.

(** [Record<LaneKey, A>] *)
Record Lanes (A : Type) := mkLanes {
  l_completion : A; l_cache : A; l_createCache : A; l_image : A; l_audioInput : A; l_audioOutput : A
}.
Arguments mkLanes {A}.
Arguments l_completion {A}.
Arguments l_cache {A}.
Arguments l_createCache {A}.
Arguments l_image {A}.
Arguments l_audioInput {A}.
Arguments l_audioOutput {A}.

Definition lane {A} (l : Lanes A) (k : LaneKey) : A :=
  match k with
  | completion => l_completion l | cache => l_cache l | createCache => l_createCache l
  | image => l_image l | audioInput => l_audioInput l | audioOutput => l_audioOutput l
  end.
Definition lanes_of {A} (f : LaneKey -> A) : Lanes A :=
  mkLanes (f completion) (f cache) (f createCache) (f image) (f audioInput) (f audioOutput).

(** [{ ...l, [k]: a }] *)
Definition set_lane {A} (k : LaneKey) (a : A) (l : Lanes A) : Lanes A := lanes_of (fun k' => if bool_decide (k' = k) then a else lane l k').

Definition EMPTY_LANE_PRICES : Lanes jsstr := lanes_of (fun _ => []).
Definition EMPTY_LANE_ENABLED : Lanes bool := lanes_of (fun _ => false).

(** The keys of [laneConfigs]. *)
Definition lane_keys : list LaneKey := [completion; cache; createCache; image; audioInput; audioOutput].

Inductive PricingMode := per_token | per_request | tiered_expr.
#[export] Instance PricingMode_eq_dec : EqDecision PricingMode.
Proof. solve_decision. Defined.

(** [ModelRatioData]; the ratio of a lane is under the name [ratioFieldByLane] gives. *)
Record ModelRatioData := mkData {
  d_name : jsstr;
  d_price : option jsstr;
  d_ratio : option jsstr;
  d_lanes : Lanes (option jsstr);
  d_billingMode : option PricingMode;
  d_billingExpr : option jsstr;
  d_requestRuleExpr : option jsstr
}.

(** [ModelPricingFormValues] *)
Record FormValues := mkForm { f_name : jsstr; f_price : jsstr; f_ratio : jsstr; f_lanes : Lanes jsstr }.

Definition numericDraftRegex : re :=
  (Bol ⋅ Opt (Grp 1 ((Plus digit ⋅ Opt (Grp 2 (lit "." ⋅ Star digit))) ∥ (lit "." ⋅ Star digit))) ⋅ Eol)%re.

Definition ratioToBasePrice (ratio : option jsstr) : jsstr :=
  match toNumberOrNull ratio with Some x => formatPricingNumber (nmul x (num_of_Z 2)) | None => [] end.

Definition deriveLanePrice (ratio : option jsstr) (denominator : jsstr) : jsstr :=
  match toNumberOrNull ratio, toNumberOrNull (Some denominator) with
  | Some r, Some d => formatPricingNumber (nmul r d)
  | _, _ => []
  end.

Record LaneState := mkLaneState { promptPrice0 : jsstr; prices : Lanes jsstr; enabled : Lanes bool }.

Definition createInitialLaneState (data : option ModelRatioData) : LaneState :=
  match data with
  | None => mkLaneState [] EMPTY_LANE_PRICES EMPTY_LANE_ENABLED
  | Some d =>
      let promptPrice := ratioToBasePrice (d_ratio d) in
      let audioInputPrice := deriveLanePrice (lane (d_lanes d) audioInput) promptPrice in
      mkLaneState promptPrice
        (lanes_of (fun k => match k with
                            | audioInput => audioInputPrice
                            | audioOutput => deriveLanePrice (lane (d_lanes d) audioOutput) audioInputPrice
                            | _ => deriveLanePrice (lane (d_lanes d) k) promptPrice
                            end))
        (lanes_of (fun k => hasValue (lane (d_lanes d) k)))
  end.

(** [PreviewRow]: key, label, value, multiline. *)
Record PreviewRow := mkRow { row_key : jsstr; row_label : jsstr; row_value : jsstr; multiline : bool }.

Definition buildPreviewRows (t : jsstr -> jsstr) (values : FormValues) (mode : PricingMode) (billingExpr requestRuleExpr promptPrice : jsstr)
    (lanePrices : Lanes jsstr) (laneEnabled : Lanes bool) : list PreviewRow :=
  let empty := t (js "Empty") in
  let price s := if truthy_str s then js "$" ++ s else empty in
  let row key label k := mkRow key (t label) (if lane laneEnabled k then price (lane lanePrices k) else empty) false in
  match mode with
  | tiered_expr =>
      [mkRow (js "mode") (js "BillingMode") (js "tiered_expr") false;
       mkRow (js "expr") (t (js "Expression")) (or_str (BillingExpr.combineBillingExpr billingExpr requestRuleExpr) empty) true]
  | per_request => [mkRow (js "price") (js "ModelPrice") (or_str (f_price values) empty) false]
  | per_token =>
      [mkRow (js "inputPrice") (t (js "Input price")) (price promptPrice) false;
       row (js "completion") (js "Completion price") completion;
       row (js "cache") (js "Cache read price") cache;
       row (js "createCache") (js "Cache write price") createCache;
       row (js "image") (js "Image input price") image;
       row (js "audio") (js "Audio input price") audioInput;
       row (js "audioCompletion") (js "Audio output price") audioOutput]
  end.

(** ** The rows of the table *)

(** [ModelPricingSnapshotInput] with the texts of the options, and the same with the maps read from them. *)
Record Options (A : Type) := mkOptions { o_price : A; o_ratio : A; o_lanes : Lanes A; o_mode : A; o_expr : A }.
Arguments mkOptions {A}.
Arguments o_price {A}.
Arguments o_ratio {A}.
Arguments o_lanes {A}.
Arguments o_mode {A}.
Arguments o_expr {A}.

Definition fields : Type := list (jsstr * val).

Definition options_map {A B} (f : A -> B) (o : Options A) : Options B :=
  mkOptions (f (o_price o)) (f (o_ratio o)) (lanes_of (fun k => f (lane (o_lanes o) k))) (f (o_mode o)) (f (o_expr o)).

(** The members in the order of [buildModelSnapshots]. *)
Definition options_list {A} (o : Options A) : list A :=
  [o_price o; o_ratio o; lane (o_lanes o) cache; lane (o_lanes o) createCache; lane (o_lanes o) completion; lane (o_lanes o) image;
   lane (o_lanes o) audioInput; lane (o_lanes o) audioOutput; o_mode o; o_expr o].

(** [safeJsonParse(value, { fallback: {} })] *)
Definition safeJsonParse (value : jsstr) : val :=
  if truthy_str (trim value) then default (VObj []) (json_parse (trim value)) else VObj [].

Definition read_map (value : jsstr) : exc fields :=
  match safeJsonParse value with VObj fs => Ret fs | _ => Throw end.

Definition read_options (o : Options jsstr) : exc (Options fields) :=
  let* p := read_map (o_price o) in
  let* r := read_map (o_ratio o) in
  let* ca := read_map (lane (o_lanes o) cache) in
  let* cc := read_map (lane (o_lanes o) createCache) in
  let* co := read_map (lane (o_lanes o) completion) in
  let* im := read_map (lane (o_lanes o) image) in
  let* ai := read_map (lane (o_lanes o) audioInput) in
  let* ao := read_map (lane (o_lanes o) audioOutput) in
  let* m := read_map (o_mode o) in
  let* e := read_map (o_expr o) in
  Ret (mkOptions p r (mkLanes co ca cc im ai ao) m e).

Definition model_names (m : Options fields) : list jsstr := dedup (concat (map (map fst) (options_list m))).

(** [ModelPricingSnapshot] *)
Record Snapshot := mkSnapshot {
  s_name : jsstr;
  s_price : option jsstr;
  s_ratio : option jsstr;
  s_lanes : Lanes (option jsstr);
  s_billingMode : PricingMode;
  s_billingExpr : option jsstr;
  s_requestRuleExpr : option jsstr;
  hasConflict : bool
}.

Definition hasPricingValue (value : option jsstr) : bool := truthy_str (default [] value).

Definition isBasePricingUnset (s : option Snapshot) : bool :=
  match s with
  | None => true
  | Some s => bool_decide (s_billingMode s <> tiered_expr) && negb (hasPricingValue (s_price s)) && negb (hasPricingValue (s_ratio s))
  end.

(** [v?.toString() || ''] *)
Definition value_text (v : val) : exc jsstr :=
  match v with
  | VUndef | VNull => Ret []
  | v => match to_string v with Some s => Ret s | None => Throw end
  end.
Definition entry_text (m : fields) (name : jsstr) : exc jsstr := value_text (lookup_field name m).

(** [billingExprMap[name] || ''], on which [trim] is called. *)
Definition expr_value (v : val) : exc jsstr :=
  match v with
  | VStr s => Ret s
  | v => if truthy v then Throw else Ret []
  end.
Definition full_expr (m : fields) (name : jsstr) : exc jsstr := expr_value (lookup_field name m).

(** [billingModeMap[name] === 'tiered_expr'] *)
Definition is_tiered (m : fields) (name : jsstr) : bool :=
  match lookup_field name m with VStr s => streq s (js "tiered_expr") | _ => false end.

Section Split.
Context (compound : jsstr -> option (exc jsstr)).

Definition snapshot_of (m : Options fields) (name : jsstr) : exc Snapshot :=
  let* price := entry_text (o_price m) name in
  let* ratio := entry_text (o_ratio m) name in
  let* ca := entry_text (lane (o_lanes m) cache) name in
  let* cc := entry_text (lane (o_lanes m) createCache) name in
  let* co := entry_text (lane (o_lanes m) completion) name in
  let* im := entry_text (lane (o_lanes m) image) name in
  let* ai := entry_text (lane (o_lanes m) audioInput) name in
  let* ao := entry_text (lane (o_lanes m) audioOutput) name in
  let lanes := mkLanes (Some co) (Some ca) (Some cc) (Some im) (Some ai) (Some ao) in
  if is_tiered (o_mode m) name then
    let* fullExpr := full_expr (o_expr m) name in
    let* x := BillingExpr.splitBillingExprAndRequestRules compound fullExpr in
    Ret (mkSnapshot name (Some price) (Some ratio) lanes tiered_expr (Some x.1) (Some x.2) false)
  else
    Ret (mkSnapshot name (Some price) (Some ratio) lanes (if truthy_str price then per_request else per_token) None None
           (truthy_str price && existsb truthy_str [ratio; co; ca; cc; im; ai; ao])).

Fixpoint emap {A B} (f : A -> exc B) (l : list A) : exc (list B) :=
  match l with
  | [] => Ret []
  | a :: l => let* b := f a in let* bs := emap f l in Ret (b :: bs)
  end.

Definition buildModelSnapshots (o : Options jsstr) : exc (list Snapshot) :=
  let* m := read_options o in emap (snapshot_of m) (model_names m).

Definition mode_text (m : PricingMode) : jsstr :=
  match m with per_token => js "per-token" | per_request => js "per-request" | tiered_expr => js "tiered_expr" end.

Definition text_or_empty (s : option jsstr) : jsstr := default [] s.

Definition getSnapshotSignature (s : option Snapshot) : jsstr :=
  match s with
  | None => []
  | Some s =>
      stringify (VObj [
        (js "price", VStr (text_or_empty (s_price s)));
        (js "ratio", VStr (text_or_empty (s_ratio s)));
        (js "cacheRatio", VStr (text_or_empty (lane (s_lanes s) cache)));
        (js "createCacheRatio", VStr (text_or_empty (lane (s_lanes s) createCache)));
        (js "completionRatio", VStr (text_or_empty (lane (s_lanes s) completion)));
        (js "imageRatio", VStr (text_or_empty (lane (s_lanes s) image)));
        (js "audioRatio", VStr (text_or_empty (lane (s_lanes s) audioInput)));
        (js "audioCompletionRatio", VStr (text_or_empty (lane (s_lanes s) audioOutput)));
        (js "billingMode", VStr (mode_text (s_billingMode s)));
        (js "billingExpr", VStr (text_or_empty (s_billingExpr s)));
        (js "requestRuleExpr", VStr (text_or_empty (s_requestRuleExpr s)))])
  end.

(** ** What the table shows of a price *)

(** [denominator ? toNumberOrNull(denominator) : 2] *)
Definition ratioToPrice (ratio : option jsstr) (denominator : jsstr) : jsstr :=
  match toNumberOrNull ratio, (if truthy_str denominator then toNumberOrNull (Some denominator) else Some (num_of_Z 2)) with
  | Some r, Some d => formatPricingNumber (nmul r d)
  | _, _ => []
  end.

Definition getModeLabel (m : PricingMode) : jsstr :=
  match m with per_request => js "Per-request" | tiered_expr => js "Expression" | per_token => js "Per-token" end.

Section Labels.
Context (t : jsstr -> jsstr).

Definition getExpressionSummary (row : Snapshot) : jsstr :=
  let tierCount := length (re_exec_all (lit "tier(") (text_or_empty (s_billingExpr row))) in
  if (0 <? tierCount)%nat then t (js "Tiered pricing") ++ [32; 183; 32] ++ dec (Z.of_nat tierCount) ++ js " " ++ t (js "tiers")
  else t (js "Expression pricing").

Definition extras (row : Snapshot) : list (option jsstr) :=
  map (lane (s_lanes row)) [completion; cache; createCache; image; audioInput; audioOutput].

Definition getPriceSummary (row : Snapshot) : jsstr :=
  match s_billingMode row with
  | tiered_expr => getExpressionSummary row
  | per_request =>
      if hasPricingValue (s_price row) then js "$" ++ text_or_empty (s_price row) ++ js " / " ++ t (js "request") else t (js "Unset price")
  | per_token =>
      let inputPrice := ratioToPrice (s_ratio row) [] in
      if truthy_str inputPrice then
        let extraCount := length (List.filter hasPricingValue (extras row)) in
        t (js "Input") ++ js " $" ++ inputPrice
        ++ (if (0 <? extraCount)%nat then [32; 183; 32] ++ dec (Z.of_nat extraCount) ++ js " " ++ t (js "extras") else [])
      else t (js "Unset price")
  end.

Definition getPriceDetail (row : Snapshot) : jsstr :=
  match s_billingMode row with
  | tiered_expr => if hasPricingValue (s_requestRuleExpr row) then t (js "Includes request rules") else t (js "Expression based")
  | per_request => t (js "Fixed request price")
  | per_token =>
      let inputPrice := ratioToPrice (s_ratio row) [] in
      if truthy_str inputPrice then
        let detail label k :=
          if hasPricingValue (lane (s_lanes row) k) then [t label ++ js " $" ++ ratioToPrice (lane (s_lanes row) k) inputPrice] else [] in
        let details := take 2 (detail (js "Output") completion ++ detail (js "Cache") cache ++ detail (js "Cache write") createCache) in
        match details with [] => t (js "Base input price only") | _ => join [32; 183; 32] details end
      else t (js "No base input price")
  end.

End Labels.

(** ** The table *)

Inductive FilterMode := all_models | unset_models.

Record ModelRow := mkModelRow {
  displayed : Snapshot;
  saved : option Snapshot;
  draft : option Snapshot;
  isDraftChanged : bool;
  isDraftDeleted : bool;
  isDraftNew : bool
}.

Definition find_row (name : jsstr) (rows : list Snapshot) : option Snapshot := List.find (fun r => streq (s_name r) name) rows.

Definition is_some {A} (o : option A) : bool := match o with Some _ => true | None => false end.

Definition model_row (savedRows draftRows : list Snapshot) (name : jsstr) : ModelRow :=
  let saved := find_row name savedRows in
  let draft := find_row name draftRows in
  let displayed :=
    match saved, draft with
    | Some s, _ => s
    | None, Some d => d
    | None, None => mkSnapshot name None None (lanes_of (fun _ => None)) per_token None None false
    end in
  mkModelRow displayed saved draft (negb (streq (getSnapshotSignature saved) (getSnapshotSignature draft)))
    (is_some saved && negb (is_some draft)) (negb (is_some saved) && is_some draft).

(** [le a b] stands for [a.localeCompare(b) <= 0]. *)
Definition models (le : jsstr -> jsstr -> bool) (filterMode : FilterMode) (candidateModelNames : list jsstr)
    (savedOptions draftOptions : Options jsstr) : exc (list ModelRow) :=
  let* savedRows := buildModelSnapshots savedOptions in
  let* draftRows := buildModelSnapshots draftOptions in
  let modelNames := match filterMode with
                    | unset_models => dedup candidateModelNames
                    | all_models => dedup (map s_name savedRows ++ map s_name draftRows)
                    end in
  let rows := map (model_row savedRows draftRows) modelNames in
  let rows := List.filter (fun r => negb (isDraftDeleted r)) rows in
  let rows := List.filter (fun r => match filterMode with unset_models => isBasePricingUnset (saved r) | all_models => true end) rows in
  Ret (isort (fun a b => le (s_name (displayed a)) (s_name (displayed b))) rows).

Definition modeCounts (rows : list ModelRow) (m : PricingMode) : nat :=
  length (List.filter (fun r => bool_decide (s_billingMode (displayed r) = m)) rows).

End Split.

(** ** The panel of one model *)

(** The state hooks of [ModelPricingEditorPanel] and its form. *)
Record Sheet := mkSheet {
  pricingMode : PricingMode;
  promptPrice : jsstr;
  lanePrices : Lanes jsstr;
  laneEnabled : Lanes bool;
  sh_billingExpr : jsstr;
  sh_requestRuleExpr : jsstr;
  editorReloadToken : Z;
  form : FormValues
}.

Definition empty_form : FormValues := mkForm [] [] [] (lanes_of (fun _ => [])).
Definition sheet_init : Sheet := mkSheet per_token [] EMPTY_LANE_PRICES EMPTY_LANE_ENABLED [] [] 0 empty_form.

(** The effect on [editData]. *)
Definition load_effect (editData : option ModelRatioData) (sh : Sheet) : Sheet :=
  let next := createInitialLaneState editData in
  let token := editorReloadToken sh + 1 in
  match editData with
  | Some d =>
      mkSheet
        (match d_billingMode d with
         | Some tiered_expr => tiered_expr
         | _ => if hasValue (d_price d) then per_request else per_token
         end)
        (promptPrice0 next) (prices next) (enabled next) (text_or_empty (d_billingExpr d)) (text_or_empty (d_requestRuleExpr d)) token
        (mkForm (d_name d) (text_or_empty (d_price d)) (text_or_empty (d_ratio d)) (lanes_of (fun k => text_or_empty (lane (d_lanes d) k))))
  | None => mkSheet per_token (promptPrice0 next) (prices next) (enabled next) [] [] token empty_form
  end.

(** [setFormValue] on the fields it is used for. *)
Definition set_ratio (value : jsstr) (f : FormValues) : FormValues := mkForm (f_name f) (f_price f) value (f_lanes f).
Definition set_lane_ratio (k : LaneKey) (value : jsstr) (f : FormValues) : FormValues :=
  mkForm (f_name f) (f_price f) (f_ratio f) (set_lane k value (f_lanes f)).

Definition deriveLaneRatio (k : LaneKey) (price nextPromptPrice : jsstr) (nextLanePrices : Lanes jsstr) : jsstr :=
  match toNumberOrNull (Some price) with
  | None => []
  | Some priceNumber =>
      match toNumberOrNull (Some (match k with audioOutput => lane nextLanePrices audioInput | _ => nextPromptPrice end)) with
      | None => []
      | Some base => if neq base (num_of_Z 0) then [] else formatPricingNumber (ndiv priceNumber base)
      end
  end.

Definition sync_lane (prompt : jsstr) (ps : Lanes jsstr) (en : Lanes bool) (f : FormValues) (k : LaneKey) : FormValues :=
  set_lane_ratio k (if lane en k then deriveLaneRatio k (lane ps k) prompt ps else []) f.

Definition syncLaneRatios (prompt : jsstr) (ps : Lanes jsstr) (en : Lanes bool) (f : FormValues) : FormValues :=
  let f := set_ratio (match toNumberOrNull (Some prompt) with Some x => formatPricingNumber (ndiv x (num_of_Z 2)) | None => [] end) f in
  fold_left (sync_lane prompt ps en) lane_keys f.

Definition with_form (f : FormValues) (sh : Sheet) : Sheet :=
  mkSheet (pricingMode sh) (promptPrice sh) (lanePrices sh) (laneEnabled sh) (sh_billingExpr sh) (sh_requestRuleExpr sh) (editorReloadToken sh) f.

Definition handlePromptPriceChange (value : jsstr) (sh : Sheet) : Sheet :=
  if re_test numericDraftRegex value then
    mkSheet (pricingMode sh) value (lanePrices sh) (laneEnabled sh) (sh_billingExpr sh) (sh_requestRuleExpr sh) (editorReloadToken sh)
      (syncLaneRatios value (lanePrices sh) (laneEnabled sh) (form sh))
  else sh.

Definition handleLanePriceChange (k : LaneKey) (value : jsstr) (sh : Sheet) : Sheet :=
  if re_test numericDraftRegex value then
    let next := set_lane k value (lanePrices sh) in
    let f := if lane (laneEnabled sh) k then set_lane_ratio k (deriveLaneRatio k value (promptPrice sh) next) (form sh) else form sh in
    let f := if bool_decide (k = audioInput) && lane (laneEnabled sh) audioOutput
             then set_lane_ratio audioOutput (deriveLaneRatio audioOutput (lane next audioOutput) (promptPrice sh) next) f else f in
    mkSheet (pricingMode sh) (promptPrice sh) next (laneEnabled sh) (sh_billingExpr sh) (sh_requestRuleExpr sh) (editorReloadToken sh) f
  else sh.

Definition handleLaneToggle (k : LaneKey) (checked : bool) (sh : Sheet) : Sheet :=
  let nextEnabled := set_lane k checked (laneEnabled sh) in
  let '(nextEnabled, nextPrices, f) :=
    if checked then (nextEnabled, lanePrices sh, form sh)
    else
      let nextPrices := set_lane k [] (lanePrices sh) in
      let f := set_lane_ratio k [] (form sh) in
      match k with
      | audioInput => (set_lane audioOutput false nextEnabled, set_lane audioOutput [] nextPrices, set_lane_ratio audioOutput [] f)
      | _ => (nextEnabled, nextPrices, f)
      end in
  let f := if checked then set_lane_ratio k (deriveLaneRatio k (lane nextPrices k) (promptPrice sh) nextPrices) f else f in
  mkSheet (pricingMode sh) (promptPrice sh) nextPrices nextEnabled (sh_billingExpr sh) (sh_requestRuleExpr sh) (editorReloadToken sh) f.

Definition handleModeChange (nextMode : PricingMode) (sh : Sheet) : Sheet :=
  mkSheet nextMode (promptPrice sh) (lanePrices sh) (laneEnabled sh)
    (if bool_decide (nextMode = tiered_expr) && negb (truthy_str (sh_billingExpr sh)) then jq "tier('base', p * 0 + c * 0)" else sh_billingExpr sh)
    (sh_requestRuleExpr sh) (editorReloadToken sh) (form sh).

(** The two fields bound to the form: the fixed price and, for a new model, the name. *)
Definition handleFixedPriceChange (value : jsstr) (sh : Sheet) : Sheet :=
  if re_test numericDraftRegex value then with_form (mkForm (f_name (form sh)) value (f_ratio (form sh)) (f_lanes (form sh))) sh else sh.
Definition handleNameChange (value : jsstr) (sh : Sheet) : Sheet :=
  with_form (mkForm value (f_price (form sh)) (f_ratio (form sh)) (f_lanes (form sh))) sh.

(** The props of the tiered editor, and the texts it reports. *)
Definition tiered_props (sh : Sheet) : Panel := mkPanel (sh_billingExpr sh) (sh_requestRuleExpr sh) (f_name (form sh)).
Definition tiered_report (p : Panel) (sh : Sheet) : Sheet :=
  mkSheet (pricingMode sh) (promptPrice sh) (lanePrices sh) (laneEnabled sh) (billingExpr p) (requestRuleExpr p) (editorReloadToken sh) (form sh).

Definition missing_input (sh : Sheet) : bool :=
  bool_decide (pricingMode sh = per_token) && negb (is_some (toNumberOrNull (Some (promptPrice sh))))
  && existsb (fun k => lane (laneEnabled sh) k && hasValue (Some (lane (lanePrices sh) k))) lane_keys.

Definition missing_audio (sh : Sheet) : bool :=
  bool_decide (pricingMode sh = per_token) && lane (laneEnabled sh) audioOutput && negb (hasValue (Some (lane (lanePrices sh) audioInput))).

Definition warnings (t : jsstr -> jsstr) (editData : option ModelRatioData) (sh : Sheet) : list jsstr :=
  let conflict := match editData with
                  | Some d => hasValue (d_price d) && (hasValue (d_ratio d) || existsb (fun k => hasValue (lane (d_lanes d) k)) lane_keys)
                  | None => false
                  end in
  (if conflict then [t (js "This model has both fixed-price and token-price settings. Saving the current mode will rewrite the conflicting fields.")] else [])
  ++ (if missing_input sh then [t (js "Input price is required before saving dependent prices.")] else [])
  ++ (if missing_audio sh then [t (js "Audio output price requires an audio input price.")] else []).

Definition validatePricingValues (sh : Sheet) : bool := negb (missing_input sh) && negb (missing_audio sh).

Definition buildSubmitData (sh : Sheet) : ModelRatioData :=
  let v := form sh in
  let tiered x := if bool_decide (pricingMode sh = tiered_expr) then Some x else None in
  mkData (trim (f_name v)) (Some (f_price v)) (Some (f_ratio v)) (lanes_of (fun k => Some (lane (f_lanes v) k))) (Some (pricingMode sh))
    (tiered (sh_billingExpr sh)) (tiered (sh_requestRuleExpr sh)).

(** The schema of the form asks for a name only. *)
Definition commitDraft (sh : Sheet) : option ModelRatioData :=
  if truthy_str (f_name (form sh)) && validatePricingValues sh then Some (buildSubmitData sh) else None.

(** ** Saving *)

Definition delete_field (k : jsstr) (fs : fields) : fields := List.filter (fun f => negb (streq f.1 k)) fs.

Definition setIfPresent (target : fields) (name : jsstr) (value : option jsstr) : fields :=
  if hasValue value then
    let parsed := parseFloat (text_or_empty value) in if is_finite parsed then set_field name (VNum parsed) target else target
  else target.

Definition set_lanes (data : ModelRatioData) (name : jsstr) (m : Lanes fields) : Lanes fields :=
  lanes_of (fun k => setIfPresent (lane m k) name (lane (d_lanes data) k)).

(** The body of the loop over the target names. *)
Definition persist_one (data : ModelRatioData) (m : Options fields) (name : jsstr) : Options fields :=
  let m := options_map (delete_field name) m in
  match d_billingMode data with
  | Some tiered_expr =>
      let combined := BillingExpr.combineBillingExpr (text_or_empty (d_billingExpr data)) (text_or_empty (d_requestRuleExpr data)) in
      let '(mode, expr) := if truthy_str combined
                           then (set_field name (VStr (js "tiered_expr")) (o_mode m), set_field name (VStr combined) (o_expr m))
                           else (o_mode m, o_expr m) in
      mkOptions (setIfPresent (o_price m) name (d_price data)) (setIfPresent (o_ratio m) name (d_ratio data))
        (set_lanes data name (o_lanes m)) mode expr
  | _ =>
      if hasValue (d_price data) then
        mkOptions (setIfPresent (o_price m) name (d_price data)) (o_ratio m) (o_lanes m) (o_mode m) (o_expr m)
      else
        mkOptions (o_price m) (setIfPresent (o_ratio m) name (d_ratio data)) (set_lanes data name (o_lanes m)) (o_mode m) (o_expr m)
  end.

Definition write_options (m : Options fields) : Options jsstr := options_map (fun fs => stringify2 (VObj fs)) m.

(** The option texts after the calls of [onChange]. *)
Definition persistPricingData (data : ModelRatioData) (targetNames : list jsstr) (o : Options jsstr) : exc (Options jsstr) :=
  let* m := read_options o in
  Ret (write_options (fold_left (persist_one data) targetNames m)).

(** ** The editor of all models *)

(** The draft texts, the model that is open and its panel; on a wide screen. *)
Record Pricing := mkPricing { options : Options jsstr; editData : option ModelRatioData; editorOpen : bool; sheet : Sheet }.

(** [model.draft ?? model.saved ?? model] *)
Definition editable (row : ModelRow) : Snapshot :=
  match draft row, saved row with Some d, _ => d | None, Some s => s | None, None => displayed row end.

Definition edit_data (row : ModelRow) : ModelRatioData :=
  let e := editable row in
  let mode := match s_billingMode e with
              | tiered_expr => tiered_expr
              | _ => if hasPricingValue (s_price e) then per_request else per_token
              end in
  mkData (s_name e) (s_price e) (s_ratio e) (s_lanes e) (Some mode) (s_billingExpr e) (s_requestRuleExpr e).

(** [setEditData] with a new object: the panel loads it. *)
Definition set_edit_data (d : option ModelRatioData) (open : bool) (p : Pricing) : Pricing :=
  mkPricing (options p) d open (if open then load_effect d (sheet p) else sheet_init).

Definition handleEdit (row : ModelRow) (p : Pricing) : Pricing := set_edit_data (Some (edit_data row)) true p.

(** With no model open already, nothing changes. *)
Definition handleAdd (p : Pricing) : Pricing :=
  match editData p with
  | None => if editorOpen p then p else set_edit_data None true p
  | Some _ => set_edit_data None true p
  end.

(** A change of the search text closes the panel. *)
Definition handleGlobalFilterChange (previous next : jsstr) (p : Pricing) : Pricing :=
  if streq next previous then p else set_edit_data None false p.

Definition handleDelete (name : jsstr) (p : Pricing) : exc Pricing :=
  let* m := read_options (options p) in
  let p := mkPricing (write_options (options_map (delete_field name) m)) (editData p) (editorOpen p) (sheet p) in
  Ret (match editData p with
       | Some d => if streq (d_name d) name then set_edit_data None false p else p
       | None => p
       end).

(** [false] when the open panel is not valid. *)
Definition commitOpenEditor (p : Pricing) : exc (bool * Pricing) :=
  if editorOpen p then
    match commitDraft (sheet p) with
    | None => Ret (false, p)
    | Some data =>
        let* o := persistPricingData data [d_name data] (options p) in
        Ret (true, set_edit_data (Some data) true (mkPricing o (editData p) true (sheet p)))
    end
  else Ret (true, p).

(** The tiered editor of the open panel, mounted and left to run its effects for [n] renders. *)
Definition run_tiered_editor (compound : jsstr -> option (exc jsstr)) (n : nat) (p : Pricing) : exc Pricing :=
  let* t := mount compound (tiered_props (sheet p)) in
  let* t := commits compound n t in
  Ret (mkPricing (options p) (editData p) (editorOpen p) (tiered_report (panel t) (sheet p))).

(** The names of the selected rows are an argument. *)
Definition handleBatchCopy (targetNames : list jsstr) (p : Pricing) : exc Pricing :=
  match editData p with
  | None => Ret p
  | Some source =>
      let committed := if editorOpen p then commitDraft (sheet p) else Some source in
      match committed with
      | None => Ret p
      | Some sourceData =>
          let p := if editorOpen p then set_edit_data (Some sourceData) true p else p in
          match targetNames with
          | [] => Ret p
          | _ =>
              let* o := persistPricingData sourceData (dedup (d_name sourceData :: targetNames)) (options p) in
              Ret (mkPricing o (editData p) (editorOpen p) (sheet p))
          end
      end
  end.

Example format_ex1 : map formatPricingNumber
    [nadd (num_of_decimal 1 1) (num_of_decimal 2 1); num_of_decimal 15 1; nmul (num_of_decimal 375 3) (num_of_Z 2); S754_nan; num_of_decimal 123456789 9;
     nmul (num_of_decimal 7 1) (num_of_Z 3); num_of_dec false 3 (-13)]
  = [js "0.3"; js "1.5"; js "0.75"; []; js "0.123456789"; js "2.1"; js "0"].
Proof. vm_compute. reflexivity. Qed.

End ModelPricing.
