(* ===== verification/ModelPricingLaws.v ===== *)
(** The price editor of models: what saving does to the option texts, what the table
    shows of a draft, and how the lanes of the panel follow its prices. *)

From S2P Require Import Prelude JsValue NumText JsonString Json Regex TierExpr TierRoundTrip BillingExpr BillingRoundTrip TieredEditor TieredEditorLaws ModelPricing.
Import TieredEditor ModelPricing.

Module ModelPricingLaws.

(** ** Maps and their texts *)

Definition all_options {A} (P : A -> Prop) (o : Options A) : Prop := Forall P (options_list o).

Lemma all_options_forall {A} (P : A -> Prop) (o : Options A) :
  all_options P o <-> P (o_price o) /\ P (o_ratio o) /\ (forall k, P (lane (o_lanes o) k)) /\ P (o_mode o) /\ P (o_expr o).
Proof.
  unfold all_options, options_list. rewrite !Forall_cons. split.
  - intros (? & ? & ? & ? & ? & ? & ? & ? & ? & ? & _). split_and!; try done. by intros [].
  - intros (? & ? & Hl & ? & ?). split_and!; try done; apply Hl.
Qed.

Lemma lane_lanes_of {A} (f : LaneKey -> A) k : lane (lanes_of f) k = f k.
Proof. by destruct k. Qed.

Lemma lanes_of_lane {A} (l : Lanes A) : lanes_of (lane l) = l.
Proof. by destruct l. Qed.

Lemma lanes_of_ext {A} (f g : LaneKey -> A) : (forall k, f k = g k) -> lanes_of f = lanes_of g.
Proof. intros H. unfold lanes_of. by rewrite !H. Qed.

Lemma all_options_map {A B} (f : A -> B) (P : A -> Prop) (Q : B -> Prop) o :
  (forall x, P x -> Q (f x)) -> all_options P o -> all_options Q (options_map f o).
Proof.
  intros Hf. rewrite !all_options_forall. intros (? & ? & ? & ? & ?). cbn [options_map o_price o_ratio o_lanes o_mode o_expr].
  split_and!; auto. intros k. rewrite lane_lanes_of. auto.
Qed.

Lemma object_text_solid gap fs : trim (json_text gap [] (VObj fs)) = json_text gap [] (VObj fs) /\ truthy_str (json_text gap [] (VObj fs)) = true.
Proof.
  cbn [json_text]. destruct (flat_map _ fs) as [|x l]; [done|]. split; [|done]. change (js "{") with [123]. change (js "}") with [125].
  cbn [app]. rewrite !app_assoc. by apply trim_solid.
Qed.

Lemma read_written fs : plain_obj fs -> read_map (stringify2 (VObj fs)) = Ret fs.
Proof.
  intros Hp. unfold read_map, safeJsonParse, stringify2. destruct (object_text_solid [32; 32] fs) as [-> ->].
  rewrite parse_stringify; [done|by repeat constructor|by apply plain_obj_wf].
Qed.

Lemma read_write_options m : all_options plain_obj m -> read_options (write_options m) = Ret m.
Proof.
  rewrite all_options_forall. intros (Hp & Hr & Hl & Hm & He). unfold read_options, write_options, options_map.
  cbn [o_price o_ratio o_lanes o_mode o_expr]. rewrite !lane_lanes_of, !read_written by auto. cbn [ebind].
  destruct m as [p r l mo e]. by destruct l.
Qed.

(** ** One entry of the maps *)

Lemma lookup_delete k k' fs : lookup_field k (delete_field k' fs) = if streq k k' then VUndef else lookup_field k fs.
Proof.
  induction fs as [|[k1 v1] fs IH]; [by destruct (streq k k')|]. unfold delete_field in *. cbn [List.filter fst lookup_field].
  destruct (streq k1 k') eqn:E1; cbn [negb].
  - rewrite IH. destruct (streq k k') eqn:E2; [done|]. apply streq_true in E1 as ->. by rewrite E2.
  - cbn [lookup_field]. rewrite IH. destruct (streq k k1) eqn:E2; [|done]. apply streq_true in E2 as ->. by rewrite E1.
Qed.

Lemma delete_elem f k fs : f ∈ delete_field k fs <-> f ∈ fs /\ f.1 <> k.
Proof.
  unfold delete_field. rewrite !list_elem_of_In, filter_In, negb_true_iff, streq_false. done.
Qed.

Lemma plain_obj_delete k fs : plain_obj fs -> plain_obj (delete_field k fs).
Proof.
  intros [Hd Hf]. split.
  - clear Hf. induction fs as [|[k1 v1] fs IH]; [done|]. cbn [map fst] in Hd. apply NoDup_cons in Hd as [Hn Hd].
    unfold delete_field in *. cbn [List.filter fst]. destruct (negb (streq k1 k)); [|by apply IH]. cbn [map fst]. apply NoDup_cons.
    split; [|by apply IH]. intros Hin. apply Hn. apply list_elem_of_fmap in Hin as (g & -> & Hg). apply list_elem_of_fmap.
    exists g. split; [done|]. by apply (delete_elem g k fs) in Hg as [? _].
  - rewrite Forall_forall in *. intros f Hin%delete_elem. apply Hf. tauto.
Qed.

(** The number a text is saved as. *)
Definition saved_num (value : option jsstr) : option num :=
  if hasValue value then let x := parseFloat (text_or_empty value) in if is_finite x then Some x else None else None.
Definition saved_val (value : option jsstr) : val := match saved_num value with Some x => VNum x | None => VUndef end.
Definition saved_text (value : option jsstr) : jsstr := match saved_num value with Some x => num_text x | None => [] end.
Definition num_text_ok (value : option jsstr) : bool := match saved_num value with Some x => num_ok x | None => true end.

Lemma setIfPresent_spec target name value :
  setIfPresent target name value = match saved_num value with Some x => set_field name (VNum x) target | None => target end.
Proof. unfold setIfPresent, saved_num. destruct (hasValue value); [|done]. by destruct (is_finite _). Qed.

Definition name_plain (name : jsstr) : Prop := is_index name = false /\ units name.

Lemma lookup_setIfPresent target name value k :
  is_index name = false -> lookup_field name target = VUndef ->
  lookup_field k (setIfPresent target name value) = if streq k name then saved_val value else lookup_field k target.
Proof.
  intros Hi Hu. rewrite setIfPresent_spec. unfold saved_val. destruct (saved_num value) as [x|]; [by apply lookup_set_field|].
  destruct (streq k name) eqn:E; [|done]. by apply streq_true in E as ->.
Qed.

Lemma plain_setIfPresent target name value :
  name_plain name -> num_text_ok value = true -> plain_obj target -> plain_obj (setIfPresent target name value).
Proof.
  intros [Hi Hu] Hok Hp. rewrite setIfPresent_spec. unfold num_text_ok in Hok. destruct (saved_num value) as [x|]; [|done].
  apply plain_obj_set; [done|done|by constructor|done].
Qed.

(** ** Saving one model *)

Definition lookups (n : jsstr) (m : Options fields) : Options val := options_map (lookup_field n) m.

Section Saving.
Context (data : ModelRatioData).

Definition combined_text : jsstr :=
  BillingExpr.combineBillingExpr (text_or_empty (d_billingExpr data)) (text_or_empty (d_requestRuleExpr data)).

Definition no_values : Lanes val := lanes_of (fun _ => VUndef).
Definition saved_lanes : Lanes val := lanes_of (fun k => saved_val (lane (d_lanes data) k)).

(** What is stored for a model saved with [data]. *)
Definition stored : Options val :=
  match d_billingMode data with
  | Some tiered_expr =>
      mkOptions (saved_val (d_price data)) (saved_val (d_ratio data)) saved_lanes
        (if truthy_str combined_text then VStr (js "tiered_expr") else VUndef) (if truthy_str combined_text then VStr combined_text else VUndef)
  | _ =>
      if hasValue (d_price data) then mkOptions (saved_val (d_price data)) VUndef no_values VUndef VUndef
      else mkOptions VUndef (saved_val (d_ratio data)) saved_lanes VUndef VUndef
  end.

(** The texts of [data] are texts of the form's units, its numbers print as they read. *)
Definition data_ok : Prop :=
  num_text_ok (d_price data) = true /\ num_text_ok (d_ratio data) = true
  /\ (forall k, num_text_ok (lane (d_lanes data) k) = true) /\ units combined_text.

Lemma lookups_persist_one m name k :
  is_index name = false -> lookups k (persist_one data m name) = if streq k name then stored else lookups k m.
Proof.
  intros Hi. unfold persist_one.
  assert (forall fs v, lookup_field k (setIfPresent (delete_field name fs) name v) = if streq k name then saved_val v else lookup_field k fs) as Hset.
  { intros fs v. rewrite lookup_setIfPresent; [|done|by rewrite lookup_delete, streq_refl]. rewrite lookup_delete. by destruct (streq k name). }
  assert (forall fs, lookup_field k (delete_field name fs) = if streq k name then VUndef else lookup_field k fs) as Hdel by (intros; apply lookup_delete).
  assert (forall fs v, lookup_field k (set_field name v (delete_field name fs)) = if streq k name then v else lookup_field k fs) as Hput.
  { intros fs v. rewrite lookup_set_field by done. rewrite lookup_delete. by destruct (streq k name). }
  unfold lookups, stored, saved_lanes, no_values, set_lanes, options_map. cbn [o_price o_ratio o_lanes o_mode o_expr].
  fold combined_text.
  destruct (d_billingMode data) as [[]|]; [..|]; try destruct (hasValue (d_price data)); try destruct (truthy_str combined_text);
    cbn [o_price o_ratio o_lanes o_mode o_expr]; destruct (streq k name); f_equal;
    first [apply Hset|apply Hdel|apply Hput|apply lanes_of_ext; intros j; rewrite ?lane_lanes_of; first [apply Hset|apply Hdel]].
Qed.

Lemma plain_persist_one m name :
  name_plain name -> data_ok -> all_options plain_obj m -> all_options plain_obj (persist_one data m name).
Proof.
  intros Hn (Hp & Hr & Hl & Hu) Hm. pose proof (all_options_map (delete_field name) plain_obj plain_obj m (plain_obj_delete name) Hm) as Hd.
  apply all_options_forall in Hd as (Dp & Dr & Dl & Dm & De). unfold persist_one. fold combined_text.
  assert (forall v fs, units v -> plain_obj fs -> plain_obj (set_field name (VStr v) fs)) as Hput.
  { intros v fs Hv Hfs. destruct Hn. apply plain_obj_set; [done|done|by constructor|done]. }
  apply all_options_forall. cbn [o_price o_ratio o_lanes o_mode o_expr] in *.
  destruct (d_billingMode data) as [[]|]; [..|]; try destruct (hasValue (d_price data)); try destruct (truthy_str combined_text);
    cbn [o_price o_ratio o_lanes o_mode o_expr]; unfold set_lanes;
    (split_and!; [..|intros k; rewrite ?lane_lanes_of in *| |]); auto using plain_setIfPresent.
  all: apply Hput; [|done]; vm_compute; repeat constructor.
Qed.

Lemma lookups_persist names : forall m k,
  Forall (fun n => is_index n = false) names ->
  lookups k (fold_left (persist_one data) names m) = if bool_decide (k ∈ names) then stored else lookups k m.
Proof.
  induction names as [|n names IH]; intros m k Hn; [done|]. apply Forall_cons in Hn as [Hi Hn]. cbn [fold_left].
  rewrite IH, lookups_persist_one by done. destruct (streq k n) eqn:E.
  - apply streq_true in E as ->. rewrite (bool_decide_eq_true_2 (n ∈ n :: names)) by left. by destruct (bool_decide _).
  - apply streq_false in E. rewrite (bool_decide_ext (k ∈ n :: names) (k ∈ names)); [done|]. rewrite elem_of_cons. naive_solver.
Qed.

Lemma plain_persist names : forall m,
  Forall name_plain names -> data_ok -> all_options plain_obj m -> all_options plain_obj (fold_left (persist_one data) names m).
Proof.
  induction names as [|n names IH]; intros m Hn Hd Hm; [done|]. apply Forall_cons in Hn as [Hi Hn].
  apply IH; [done|done|]. by apply plain_persist_one.
Qed.

End Saving.

(** ** The rows after saving *)

Lemma lookups_fields n m m' :
  lookups n m = lookups n m' ->
  lookup_field n (o_price m) = lookup_field n (o_price m') /\ lookup_field n (o_ratio m) = lookup_field n (o_ratio m')
  /\ (forall k, lookup_field n (lane (o_lanes m) k) = lookup_field n (lane (o_lanes m') k))
  /\ lookup_field n (o_mode m) = lookup_field n (o_mode m') /\ lookup_field n (o_expr m) = lookup_field n (o_expr m').
Proof. unfold lookups, options_map, lanes_of. intros [=]. split_and!; [done|done|by intros []|done|done]. Qed.

Section Rows.
Context (compound : jsstr -> option (exc jsstr)).
Notation snapshot_of := (snapshot_of compound).
Notation split := (BillingExpr.splitBillingExprAndRequestRules compound).

Lemma snapshot_same n m m' : lookups n m = lookups n m' -> snapshot_of m n = snapshot_of m' n.
Proof.
  intros (Hp & Hr & Hl & Hm & He)%lookups_fields. unfold ModelPricing.snapshot_of, entry_text, full_expr, is_tiered.
  by rewrite Hp, Hr, Hm, He, !Hl.
Qed.

(** A model is listed when one of the maps has an entry for it. *)
Lemma in_fields n fs : plain_obj fs -> n ∈ map fst fs <-> lookup_field n fs <> VUndef.
Proof.
  intros [_ Hf]. split.
  - intros Hin. induction fs as [|[k v] fs IH]; [by apply elem_of_nil in Hin|]. cbn [map fst lookup_field] in *.
    apply Forall_cons in Hf as [(_ & _ & Hv) Hf]. destruct (streq n k) eqn:E; [by apply wf_defined|].
    apply streq_false in E. apply elem_of_cons in Hin as [->|Hin]; [done|by apply IH].
  - intros Hl. destruct (decide (n ∈ map fst fs)); [done|]. by rewrite lookup_field_None in Hl.
Qed.

Lemma elem_model_names n m : n ∈ model_names m <-> Exists (fun fs => n ∈ map fst fs) (options_list m).
Proof.
  unfold model_names. rewrite elem_of_dedup, list_elem_of_In, in_concat, Exists_exists. split.
  - intros (l & (fs & <- & Hfs)%in_map_iff & Hn). exists fs. by rewrite !list_elem_of_In.
  - intros (fs & Hfs & Hn). exists (map fst fs). rewrite !list_elem_of_In in *. split; [by apply in_map|done].
Qed.

Definition listed (v : Options val) : Prop := Exists (fun x => x <> VUndef) (options_list v).

Lemma options_list_map {A B} (f : A -> B) o : options_list (options_map f o) = map f (options_list o).
Proof. unfold options_list, options_map. cbn [o_price o_ratio o_lanes o_mode o_expr map]. by rewrite !lane_lanes_of. Qed.

Lemma listed_names n m : all_options plain_obj m -> n ∈ model_names m <-> listed (lookups n m).
Proof.
  intros Hm. rewrite elem_model_names. unfold listed, lookups. rewrite options_list_map, !Exists_exists.
  unfold all_options in Hm. rewrite Forall_forall in Hm. split.
  - intros (fs & Hin & Hn). exists (lookup_field n fs). split; [by apply list_elem_of_fmap_2|]. by apply in_fields; [apply Hm|].
  - intros (v & (fs & -> & Hin)%list_elem_of_fmap & Hn). exists fs. split; [done|]. by apply in_fields; [apply Hm|].
Qed.

(** The row of a model saved with [data]. *)
Definition saved_row (data : ModelRatioData) (name : jsstr) : exc Snapshot :=
  let lanes f := lanes_of (fun k => Some (f k : jsstr)) in
  let token := lanes (fun k => saved_text (lane (d_lanes data) k)) in
  let price := saved_text (d_price data) in
  let fixed p r := mkSnapshot name (Some p) (Some r) in
  match d_billingMode data with
  | Some tiered_expr =>
      if truthy_str (combined_text data) then
        ebind (split (combined_text data)) (fun x => Ret (fixed price (saved_text (d_ratio data)) token tiered_expr (Some x.1) (Some x.2) false))
      else
        Ret (fixed price (saved_text (d_ratio data)) token (if truthy_str price then per_request else per_token) None None
               (truthy_str price && (truthy_str (saved_text (d_ratio data)) || existsb (fun k => truthy_str (saved_text (lane (d_lanes data) k))) lane_keys)))
  | _ =>
      if hasValue (d_price data) then Ret (fixed price [] (lanes (fun _ => [])) (if truthy_str price then per_request else per_token) None None false)
      else Ret (fixed [] (saved_text (d_ratio data)) token per_token None None false)
  end.

Lemma saved_val_text value : value_text (saved_val value) = Ret (saved_text value).
Proof. unfold saved_val, saved_text. by destruct (saved_num value). Qed.

Lemma snapshot_stored data m n : lookups n m = stored data -> snapshot_of m n = saved_row data n.
Proof.
  intros H.
  assert (forall k, lookup_field n (lane (o_lanes m) k) = lane (o_lanes (stored data)) k) as Hl by (intros k; rewrite <- H; cbn; by destruct k).
  assert (lookup_field n (o_price m) = o_price (stored data)) as Hp by (by rewrite <- H).
  assert (lookup_field n (o_ratio m) = o_ratio (stored data)) as Hr by (by rewrite <- H).
  assert (lookup_field n (o_mode m) = o_mode (stored data)) as Hm by (by rewrite <- H).
  assert (lookup_field n (o_expr m) = o_expr (stored data)) as He by (by rewrite <- H).
  unfold ModelPricing.snapshot_of, entry_text, full_expr, is_tiered. rewrite Hp, Hr, Hm, He, !Hl. clear. unfold stored, saved_row, saved_lanes, no_values.
  destruct (d_billingMode data) as [[]|]; try destruct (hasValue (d_price data)); try destruct (truthy_str (combined_text data));
    cbn [o_price o_ratio o_lanes o_mode o_expr]; rewrite ?lane_lanes_of, ?saved_val_text; cbn [value_text ebind]; rewrite ?saved_val_text; cbn [ebind]; try done.
  all: try (change (existsb truthy_str [[]; []; []; []; []; []; []]) with false; by rewrite andb_false_r).
Qed.

Lemma persist_result data names o m :
  read_options o = Ret m -> all_options plain_obj m -> Forall name_plain names -> data_ok data ->
  exists o', persistPricingData data names o = Ret o' /\ read_options o' = Ret (fold_left (persist_one data) names m).
Proof.
  intros Hr Hm Hn Hd. unfold persistPricingData. rewrite Hr. cbn [ebind]. eexists. split; [done|].
  apply read_write_options. by apply plain_persist.
Qed.

Lemma names_not_index names : Forall name_plain names -> Forall (fun n => is_index n = false) names.
Proof. intros H. eapply Forall_impl; [exact H|]. by intros n []. Qed.

(** C6: saving a price changes the rows of its targets and no other. For option texts
    that read as maps [m], the texts after saving [data] for [names] read again as maps
    [m']; the row of every target is the one [data] stands for, with the numbers as
    they print, whatever was stored before; every other model is listed as before and
    its row is the same. *)
Theorem saving_updates_targets (data : ModelRatioData) (names : list jsstr) (o : Options jsstr) (m : Options fields) :
  read_options o = Ret m -> all_options plain_obj m -> Forall name_plain names -> data_ok data ->
  exists o' m', persistPricingData data names o = Ret o' /\ read_options o' = Ret m'
    /\ (forall n, n ∈ names -> snapshot_of m' n = saved_row data n)
    /\ (forall n, n ∉ names -> snapshot_of m' n = snapshot_of m n /\ (n ∈ model_names m' <-> n ∈ model_names m)).
Proof.
  intros Hr Hm Hn Hd. destruct (persist_result data names o m Hr Hm Hn Hd) as (o' & Ho & Hm').
  exists o', (fold_left (persist_one data) names m). split; [done|]. split; [done|]. split; intros n Hin.
  - apply snapshot_stored. rewrite lookups_persist by (by apply names_not_index). by rewrite bool_decide_eq_true_2.
  - assert (lookups n (fold_left (persist_one data) names m) = lookups n m) as E.
    { rewrite lookups_persist by (by apply names_not_index). by rewrite bool_decide_eq_false_2. }
    split; [by apply snapshot_same|]. rewrite !listed_names, E by (done || by apply plain_persist). done.
Qed.

Lemma lookups_delete name m k :
  lookups k (options_map (delete_field name) m) = if streq k name then mkOptions VUndef VUndef no_values VUndef VUndef else lookups k m.
Proof.
  unfold lookups, options_map. cbn [o_price o_ratio o_lanes o_mode o_expr]. destruct (streq k name) eqn:E.
  all: rewrite !lookup_delete, E; f_equal; apply lanes_of_ext; intros j; by rewrite lane_lanes_of, lookup_delete, E.
Qed.

(** deleting a model removes it from every option text and leaves the rows of the
    other models alone. *)
Theorem deleting_removes_model (name : jsstr) (p : Pricing) (m : Options fields) :
  read_options (options p) = Ret m -> all_options plain_obj m ->
  exists p' m', handleDelete name p = Ret p' /\ read_options (options p') = Ret m'
    /\ name ∉ model_names m'
    /\ (forall n, n <> name -> snapshot_of m' n = snapshot_of m n /\ (n ∈ model_names m' <-> n ∈ model_names m))
    /\ (forall d, editData p' = Some d -> d_name d <> name).
Proof.
  intros Hr Hm. unfold handleDelete. rewrite Hr. cbn [ebind options editData].
  set (m' := options_map (delete_field name) m).
  assert (all_options plain_obj m') as Hm' by (by eapply all_options_map; [intros fs; apply plain_obj_delete|]).
  eexists _, m'. split; [done|].
  assert (forall q, q = write_options m' -> read_options q = Ret m') as Hread by (intros q ->; by apply read_write_options).
  split; [apply Hread; destruct (editData p) as [d|]; [by destruct (streq _ _)|done]|].
  split_and!.
  - rewrite listed_names by done. unfold m'. rewrite lookups_delete, streq_refl. unfold listed. rewrite Exists_exists. intros (v & Hv & Hne).
    apply Hne. cbn in Hv. repeat (apply elem_of_cons in Hv as [->|Hv]; [done|]). by apply elem_of_nil in Hv.
  - intros n Hne. assert (lookups n m' = lookups n m) as E by (unfold m'; by rewrite lookups_delete, (proj2 (streq_false n name))).
    split; [by apply snapshot_same|]. by rewrite !listed_names, E.
  - intros d. destruct (editData p) as [d0|] eqn:E0; [|done]. destruct (streq (d_name d0) name) eqn:E; [done|].
    intros [= <-]. by apply streq_false.
Qed.

End Rows.

(** ** The lanes of the panel *)

(** What can happen to the panel of a model. *)
Inductive PanelEdit :=
| PromptPrice (value : jsstr)
| LanePrice (k : LaneKey) (value : jsstr)
| LaneToggle (k : LaneKey) (checked : bool)
| Mode (m : PricingMode)
| FixedPrice (value : jsstr)
| Name (value : jsstr)
| Tiered (p : Panel).
Inductive PanelEvent := Load (d : option ModelRatioData) | Edit (e : PanelEdit).

Definition panel_edit (sh : Sheet) (e : PanelEdit) : Sheet :=
  match e with
  | PromptPrice v => handlePromptPriceChange v sh
  | LanePrice k v => handleLanePriceChange k v sh
  | LaneToggle k b => handleLaneToggle k b sh
  | Mode m => ModelPricing.handleModeChange m sh
  | FixedPrice v => handleFixedPriceChange v sh
  | Name v => handleNameChange v sh
  | Tiered p => tiered_report p sh
  end.
Definition panel_event (sh : Sheet) (e : PanelEvent) : Sheet :=
  match e with Load d => load_effect d sh | Edit e => panel_edit sh e end.

Lemma lane_set_lane {A} k (a : A) l k' : lane (set_lane k a l) k' = if bool_decide (k' = k) then a else lane l k'.
Proof. unfold set_lane. by rewrite lane_lanes_of. Qed.

Lemma sync_lanes p ps en f k :
  lane (f_lanes (syncLaneRatios p ps en f)) k = if lane en k then deriveLaneRatio k (lane ps k) p ps else [].
Proof. unfold syncLaneRatios, lane_keys, sync_lane, set_lane_ratio. cbn [fold_left f_lanes]. rewrite !lane_set_lane. by destruct k. Qed.

Lemma sync_ratio p ps en f :
  f_ratio (syncLaneRatios p ps en f) = match toNumberOrNull (Some p) with Some x => formatPricingNumber (ndiv x (num_of_Z 2)) | None => [] end.
Proof. done. Qed.

(** A disabled lane has no ratio in the form. *)
Definition omitted (sh : Sheet) : Prop := forall k, lane (laneEnabled sh) k = false -> lane (f_lanes (form sh)) k = [].

Ltac lanes_solve :=
  repeat match goal with
  | H : context [lane (set_lane _ _ _) _] |- _ => rewrite lane_set_lane in H
  | |- context [lane (set_lane _ _ _) _] => rewrite lane_set_lane
  | |- context [bool_decide ?P] => case_bool_decide
  | H : context [bool_decide ?P] |- _ => case_bool_decide
  end; simplify_eq; auto.

Lemma omitted_edit sh e : omitted sh -> omitted (panel_edit sh e).
Proof.
  intros H. destruct e as [v|k v|k b|m|v|v|p]; cbn [panel_edit]; try done.
  - unfold handlePromptPriceChange. destruct (re_test _ _); [|done]. intros j Hj. cbn [form laneEnabled] in *. by rewrite sync_lanes, Hj.
  - unfold handleLanePriceChange. destruct (re_test _ _); [|done]. intros j Hj. cbn [form laneEnabled] in *.
    destruct (bool_decide (k = audioInput) && lane (laneEnabled sh) audioOutput) eqn:Ea; destruct (lane (laneEnabled sh) k) eqn:Ek;
      cbn [set_lane_ratio f_lanes]; lanes_solve; congruence || (apply andb_true_iff in Ea as [_ Ea]; congruence).
  - unfold handleLaneToggle. destruct b.
    + intros j Hj. cbn [form laneEnabled set_lane_ratio f_lanes] in *. lanes_solve.
    + destruct k; intros j Hj; cbn [form laneEnabled set_lane_ratio f_lanes] in *; lanes_solve.
  - unfold handleFixedPriceChange. by destruct (re_test _ _).
Qed.

Lemma omitted_load d sh : omitted (load_effect d sh).
Proof.
  intros k. destruct d as [d|]; [|by destruct k].
  cbn [load_effect form laneEnabled f_lanes createInitialLaneState enabled]. rewrite !lane_lanes_of.
  unfold hasValue, text_or_empty. by destruct (default [] (lane (d_lanes d) k)).
Qed.

Lemma omitted_run es : omitted (fold_left panel_event es sheet_init).
Proof.
  assert (forall sh, omitted sh -> omitted (fold_left panel_event es sh)) as H; [|apply H; by intros []].
  induction es as [|e es IH]; intros sh Hsh; [done|]. apply IH. destruct e as [d|e]; [apply omitted_load|by apply omitted_edit].
Qed.

(** The row that saving [data] stands for shows a lane that is empty in [data] empty. *)
Lemma saved_row_lane compound data n row k :
  lane (d_lanes data) k = Some [] -> saved_row compound data n = Ret row -> lane (s_lanes row) k = Some [].
Proof.
  intros Hk. assert (saved_text (lane (d_lanes data) k) = []) as E by (by rewrite Hk).
  unfold saved_row. set (token := lanes_of (fun k => Some (saved_text (lane (d_lanes data) k)))).
  assert (lane token k = Some []) as Ht by (unfold token; by rewrite lane_lanes_of, E).
  destruct (d_billingMode data) as [[]|]; try destruct (hasValue _); try destruct (truthy_str (combined_text data));
    try destruct (BillingExpr.splitBillingExprAndRequestRules _ _); cbn [ebind]; intros [= <-]; cbn [s_lanes]; try done.
  all: by rewrite lane_lanes_of.
Qed.

(** a disabled lane is omitted on save: after any sequence of loads and edits of the
    panel, whatever the lane held before, a lane that is switched off has an empty ratio
    in what the panel submits and in the row of every model it is saved for. *)
Theorem disabled_lanes_omitted (compound : jsstr -> option (exc jsstr)) (es : list PanelEvent) (k : LaneKey)
    (data : ModelRatioData) (n : jsstr) (row : Snapshot) :
  let sh := fold_left panel_event es sheet_init in
  lane (laneEnabled sh) k = false -> commitDraft sh = Some data -> saved_row compound data n = Ret row ->
  lane (d_lanes data) k = Some [] /\ lane (s_lanes row) k = Some [].
Proof.
  intros sh Hk Hc Hrow. assert (lane (d_lanes data) k = Some []) as E.
  { unfold commitDraft in Hc. destruct (_ && _); [|done]. injection Hc as <-. cbn [buildSubmitData d_lanes].
    rewrite lane_lanes_of. f_equal. by apply omitted_run. }
  split; [done|]. by apply (saved_row_lane compound data n row k).
Qed.

(** The ratios of the form are those of the prices shown. *)
Definition in_step (sh : Sheet) : Prop :=
  f_ratio (form sh) = (match toNumberOrNull (Some (promptPrice sh)) with Some x => formatPricingNumber (ndiv x (num_of_Z 2)) | None => [] end)
  /\ forall k, lane (laneEnabled sh) k = true ->
       lane (f_lanes (form sh)) k = deriveLaneRatio k (lane (lanePrices sh) k) (promptPrice sh) (lanePrices sh).

(** A ratio depends on the price of its lane and, for the audio output, of the audio input. *)
Lemma derive_ext k v p ps ps' : (k = audioOutput -> lane ps audioInput = lane ps' audioInput) -> deriveLaneRatio k v p ps = deriveLaneRatio k v p ps'.
Proof. intros H. unfold deriveLaneRatio. destruct k; try done. by rewrite H. Qed.

Lemma in_step_edit sh e : in_step sh -> in_step (panel_edit sh e).
Proof.
  intros [Hr Hl]. destruct e as [v|k v|k b|m|v|v|p]; cbn [panel_edit]; try done.
  - unfold handlePromptPriceChange. destruct (re_test _ _); [|done]. split; [done|]. intros j Hj. cbn [form laneEnabled lanePrices promptPrice] in *.
    by rewrite sync_lanes, Hj.
  - unfold handleLanePriceChange. destruct (re_test _ _); [|done]. split; cbn [form laneEnabled lanePrices promptPrice] in *.
    { by destruct (bool_decide _ && _), (lane (laneEnabled sh) k). }
    intros j Hj. destruct (bool_decide (k = audioInput) && lane (laneEnabled sh) audioOutput) eqn:Ea; destruct (lane (laneEnabled sh) k) eqn:Ek;
      cbn [set_lane_ratio f_lanes]; lanes_solve; try congruence; rewrite ?Hl by done; try (apply derive_ext; intros ->; lanes_solve).
    all: cbn [andb] in Ea; congruence.
  - unfold handleLaneToggle. destruct b.
    + split; cbn [form laneEnabled lanePrices promptPrice set_lane_ratio f_lanes f_ratio] in *; [done|]. intros j Hj. lanes_solve.
    + split; [by destruct k|]. destruct k; intros j Hj; cbn [form laneEnabled lanePrices promptPrice set_lane_ratio f_lanes] in *; lanes_solve;
        rewrite Hl by done; apply derive_ext; intros ->; lanes_solve.
  - unfold handleFixedPriceChange. by destruct (re_test _ _).
Qed.

Lemma in_step_edits es : forall sh, in_step sh -> in_step (fold_left panel_edit es sh).
Proof. induction es as [|e es IH]; intros sh Hsh; [done|]. apply IH. by apply in_step_edit. Qed.

(** the ratios that will be saved follow the prices that are shown. For a new model,
    and for any model once an input price was typed, after every further sequence of
    edits the base ratio is half the input price and the ratio of every enabled lane is
    its price over the input price (for the audio output: over the audio input price),
    empty where one of them is no number or the divisor is zero. *)
Theorem ratios_follow_prices (es : list PanelEdit) (sh0 sh : Sheet) :
  sh0 = load_effect None sh \/ (exists value, re_test numericDraftRegex value = true /\ sh0 = handlePromptPriceChange value sh) ->
  in_step (fold_left panel_edit es sh0).
Proof.
  intros Hsh. apply in_step_edits. destruct Hsh as [->|(value & Hv & ->)].
  - split; [done|]. by intros [].
  - unfold handlePromptPriceChange. rewrite Hv. split; [done|]. intros k Hk. cbn [form laneEnabled lanePrices promptPrice] in *. by rewrite sync_lanes, Hk.
Qed.

Lemma num_text_nonempty x : num_text x <> [].
Proof.
  assert (forall s k n, layout s k n <> []) as Hl.
  { intros s k n. unfold layout. pose proof (dec_nonempty s) as Hd. destruct (_ && _); [by destruct (dec s)|]. destruct (_ && _); [by destruct (take _ _)|].
    destruct (_ && _); [done|]. destruct (dec s) as [|c ds]; [done|]. by destruct (k =? 1). }
  destruct x as [s|s| |s m e]; cbn [num_text]; [done|by destruct s|done|]. destruct s; [done|]. cbn [app]. unfold positive_text.
  destruct (fraction m e), (shortest _ _ _ _ _ _). by destruct (_ =? _).
Qed.

(** a fixed price that is left in the form wins over the mode that is chosen. Whenever
    the panel is saved in per-token mode while the form still holds a fixed price, the
    model is stored with that fixed price only: its row is a per-request row without
    any token price, and the prices typed in per-token mode are lost. *)
Theorem fixed_price_wins (compound : jsstr -> option (exc jsstr)) (sh : Sheet) (data : ModelRatioData) (n : jsstr) (x : num) :
  pricingMode sh = per_token -> saved_num (Some (f_price (form sh))) = Some x -> commitDraft sh = Some data ->
  saved_row compound data n
  = Ret (mkSnapshot n (Some (num_text x)) (Some []) (lanes_of (fun _ => Some [])) per_request None None false).
Proof.
  intros Hm Hx Hc. unfold commitDraft in Hc. destruct (_ && _); [|done]. injection Hc as <-. unfold saved_row. cbn [buildSubmitData d_billingMode d_price d_lanes d_ratio].
  rewrite Hm. unfold saved_text at 1 2. rewrite Hx. pose proof Hx as Hv. unfold saved_num in Hv. destruct (hasValue _); [|done].
  by rewrite (proj2 (truthy_str_spec _) (num_text_nonempty x)).
Qed.

(** ** Drafts *)

(** The texts two rows are compared by. *)
Definition same_price (a b : Snapshot) : Prop :=
  text_or_empty (s_price a) = text_or_empty (s_price b) /\ text_or_empty (s_ratio a) = text_or_empty (s_ratio b)
  /\ (forall k, text_or_empty (lane (s_lanes a) k) = text_or_empty (lane (s_lanes b) k))
  /\ s_billingMode a = s_billingMode b /\ text_or_empty (s_billingExpr a) = text_or_empty (s_billingExpr b)
  /\ text_or_empty (s_requestRuleExpr a) = text_or_empty (s_requestRuleExpr b).

(** The texts of a row are texts of UTF-16 units. *)
Definition row_units (a : Snapshot) : Prop :=
  units (text_or_empty (s_price a)) /\ units (text_or_empty (s_ratio a)) /\ (forall k, units (text_or_empty (lane (s_lanes a) k)))
  /\ units (text_or_empty (s_billingExpr a)) /\ units (text_or_empty (s_requestRuleExpr a)).

Lemma stringify_inj v w : wf_val v -> wf_val w -> stringify v = stringify w -> v = w.
Proof.
  intros Hv Hw E. pose proof (parse_stringify [] v (Forall_nil_2 _) Hv) as P. pose proof (parse_stringify [] w (Forall_nil_2 _) Hw) as Q.
  unfold stringify in E. rewrite E in P. congruence.
Qed.

Lemma mode_text_units m : units (mode_text m).
Proof. destruct m; repeat constructor. Qed.

Lemma mode_text_inj m m' : mode_text m = mode_text m' -> m = m'.
Proof. by destruct m, m'. Qed.

(** An object of texts under plain keys. *)
Lemma texts_wf (fs : list (jsstr * jsstr)) :
  bool_decide (NoDup (map fst fs)) = true -> forallb (fun f => negb (is_index f.1) && forallb is_unit f.1) fs = true -> Forall (fun f => units f.2) fs ->
  wf_val (VObj (map (fun f => (f.1, VStr f.2)) fs)).
Proof.
  intros Hd%bool_decide_eq_true Hk Hu. apply plain_obj_wf. split; [by rewrite map_map|]. apply Forall_map. rewrite Forall_forall in *. intros f Hin. cbn [fst snd].
  rewrite forallb_forall in Hk. apply list_elem_of_In in Hin as Hin'. apply Hk, andb_true_iff in Hin' as [Hi Hf].
  split_and!; [by apply negb_true_iff|by apply TierRoundTrip.forallb_Forall|constructor; by apply Hu].
Qed.

Lemma signature_wf a : row_units a ->
  wf_val (VObj [
        (js "price", VStr (text_or_empty (s_price a)));
        (js "ratio", VStr (text_or_empty (s_ratio a)));
        (js "cacheRatio", VStr (text_or_empty (lane (s_lanes a) cache)));
        (js "createCacheRatio", VStr (text_or_empty (lane (s_lanes a) createCache)));
        (js "completionRatio", VStr (text_or_empty (lane (s_lanes a) completion)));
        (js "imageRatio", VStr (text_or_empty (lane (s_lanes a) image)));
        (js "audioRatio", VStr (text_or_empty (lane (s_lanes a) audioInput)));
        (js "audioCompletionRatio", VStr (text_or_empty (lane (s_lanes a) audioOutput)));
        (js "billingMode", VStr (mode_text (s_billingMode a)));
        (js "billingExpr", VStr (text_or_empty (s_billingExpr a)));
        (js "requestRuleExpr", VStr (text_or_empty (s_requestRuleExpr a)))]).
Proof.
  intros (Ua & Ua1 & Ua2 & Ua3 & Ua4).
  eapply (texts_wf [(_, _); (_, _); (_, _); (_, _); (_, _); (_, _); (_, _); (_, _); (_, _); (_, _); (_, _)]); [vm_compute; reflexivity|vm_compute; reflexivity|].
  repeat (apply Forall_cons; split); cbn [snd]; first [done|exact (mode_text_units (s_billingMode a))|exact (Ua2 cache)|exact (Ua2 createCache)|exact (Ua2 completion)|exact (Ua2 image)|exact (Ua2 audioInput)|exact (Ua2 audioOutput)|apply Forall_nil_2].
Qed.

Lemma signature_same a b : row_units a -> row_units b -> getSnapshotSignature (Some a) = getSnapshotSignature (Some b) <-> same_price a b.
Proof.
  intros (Ua & Ua1 & Ua2 & Ua3 & Ua4) (Ub & Ub1 & Ub2 & Ub3 & Ub4). split.
  - cbn [getSnapshotSignature]. intros E. apply stringify_inj in E.
    + injection E as E1 E2 E3 E4 E5 E6 E7 E8 E9 E10 E11. split_and!; try done; [by intros []|by apply mode_text_inj].
    + by apply signature_wf.
    + by apply signature_wf.
  - intros (E1 & E2 & Hl & E3 & E4 & E5). cbn [getSnapshotSignature]. by rewrite E1, E2, E3, E4, E5, !Hl.
Qed.

Section Table.
Context (compound : jsstr -> option (exc jsstr)).

Lemma snapshot_name m n row : snapshot_of compound m n = Ret row -> s_name row = n.
Proof.
  unfold snapshot_of. repeat (match goal with |- ebind ?x _ = _ -> _ => destruct x; [done|]; cbn [ebind] end).
  destruct (is_tiered _ _); [|by intros [= <-]].
  repeat (match goal with |- ebind ?x _ = _ -> _ => destruct x; [done|]; cbn [ebind] end). by intros [= <-].
Qed.

Lemma emap_names m names : forall rows, emap (snapshot_of compound m) names = Ret rows -> map s_name rows = names.
Proof.
  induction names as [|n names IH]; intros rows; cbn [emap]; [by intros [= <-]|].
  destruct (snapshot_of compound m n) as [|row] eqn:E; [done|]. cbn [ebind]. destruct (emap _ names) as [|rs]; [done|].
  cbn [ebind]. intros [= <-]. cbn [map]. by rewrite (snapshot_name m n row E), (IH rs eq_refl).
Qed.

Lemma rows_distinct o rows : buildModelSnapshots compound o = Ret rows -> NoDup (map s_name rows).
Proof.
  unfold buildModelSnapshots. destruct (read_options o) as [|m]; [done|]. cbn [ebind]. intros ->%emap_names. apply NoDup_dedup.
Qed.

Lemma find_row_Some n rows row : find_row n rows = Some row -> s_name row = n /\ row ∈ rows.
Proof. intros [Hin Hn]%find_some. apply list_elem_of_In in Hin. by apply streq_true in Hn. Qed.

Lemma find_row_in n rows : n ∈ map s_name rows -> exists row, find_row n rows = Some row.
Proof.
  intros (row & -> & Hin)%list_elem_of_fmap. destruct (find_row (s_name row) rows) as [r|] eqn:E; [by exists r|].
  apply list_elem_of_In in Hin. pose proof (find_none _ _ E row Hin) as H. cbn in H. by rewrite streq_refl in H.
Qed.

Lemma find_row_None n rows : find_row n rows = None -> n ∉ map s_name rows.
Proof. intros E (row & Hr)%find_row_in. congruence. Qed.

Lemma row_name sv dr n : s_name (displayed (model_row sv dr n)) = n.
Proof.
  unfold model_row. cbn [displayed]. destruct (find_row n sv) as [s|] eqn:E; [by apply find_row_Some in E as [? _]|].
  destruct (find_row n dr) as [d|] eqn:E'; [by apply find_row_Some in E' as [? _]|done].
Qed.

Lemma find_row_is_some n rows : is_some (find_row n rows) = bool_decide (n ∈ map s_name rows).
Proof.
  destruct (find_row n rows) as [r|] eqn:E; cbn [is_some].
  - rewrite bool_decide_eq_true_2; [done|]. apply find_row_Some in E as [<- Hin]. by apply list_elem_of_fmap_2.
  - rewrite bool_decide_eq_false_2; [done|]. by apply find_row_None.
Qed.

Lemma filter_map {A B} (P : B -> bool) (f : A -> B) l : List.filter P (map f l) = map f (List.filter (fun a => P (f a)) l).
Proof. induction l as [|a l IH]; [done|]. cbn [map List.filter]. rewrite IH. by destruct (P (f a)). Qed.

Lemma filter_all {A} (l : list A) : List.filter (fun _ => true) l = l.
Proof. induction l as [|a l IH]; [done|]. cbn [List.filter]. by rewrite IH. Qed.

(** The names whose rows are kept are those of the draft. *)
Lemma kept_names sv dr :
  NoDup (map s_name dr) ->
  List.filter (fun n => negb (isDraftDeleted (model_row sv dr n))) (dedup (map s_name sv ++ map s_name dr)) ≡ₚ map s_name dr.
Proof.
  intros Hd. apply NoDup_Permutation; [apply NoDup_ListNoDup, List.NoDup_filter, NoDup_ListNoDup, NoDup_dedup|done|]. intros n.
  rewrite list_elem_of_In, filter_In, <- list_elem_of_In, elem_of_dedup, elem_of_app. unfold model_row. cbn [isDraftDeleted].
  rewrite !find_row_is_some. do 2 case_bool_decide; naive_solver.
Qed.

(** The marks of a row of the draft. *)
Lemma row_marks sv dr n :
  Forall row_units sv -> Forall row_units dr -> n ∈ map s_name dr ->
  exists d, draft (model_row sv dr n) = Some d /\ d ∈ dr
    /\ (isDraftChanged (model_row sv dr n) = false
         <-> exists s, saved (model_row sv dr n) = Some s /\ s ∈ sv /\ s_name s = s_name d /\ same_price s d)
    /\ (isDraftNew (model_row sv dr n) = true <-> s_name d ∉ map s_name sv).
Proof.
  intros Us Ud (d & Ed)%find_row_in. destruct (find_row_Some _ _ _ Ed) as [Hn Hd]. exists d. rewrite Forall_forall in Us, Ud.
  unfold model_row. cbn [draft saved isDraftChanged isDraftNew]. rewrite find_row_is_some, Ed. cbn [is_some]. rewrite andb_true_r.
  split_and!; [done|done| |rewrite Hn; case_bool_decide; naive_solver]. rewrite negb_false_iff, streq_true.
  destruct (find_row n sv) as [s|] eqn:Es.
  - destruct (find_row_Some _ _ _ Es) as [Hn' Hs]. rewrite signature_same by auto. split; [intros H; exists s; by rewrite Hn', Hn|].
    by intros (s' & [= <-] & _ & _ & H).
  - split; [|by intros (s & [=] & _)]. cbn [getSnapshotSignature]. intros E.
    destruct (object_text_solid [] [(js "price", VStr (text_or_empty (s_price d)))]) as [_ H]. by unfold stringify in E.
Qed.

(** the table of models shows the draft. Every model the draft texts list has exactly
    one row, in the order of the names; a row carries the saved and the draft price of
    its model, is not marked as changed exactly when both are there and have the same
    texts, and is marked as new exactly when the saved texts do not list the model. *)
Theorem table_shows_draft (le : jsstr -> jsstr -> bool) (cands : list jsstr) (so dro : Options jsstr) (savedRows draftRows : list Snapshot) (rows : list ModelRow) :
  (forall a b, le a b = false -> le b a = true) -> (forall a b c, le a b = true -> le b c = true -> le a c = true) ->
  buildModelSnapshots compound so = Ret savedRows -> buildModelSnapshots compound dro = Ret draftRows ->
  Forall row_units savedRows -> Forall row_units draftRows ->
  models compound le all_models cands so dro = Ret rows ->
  map (fun r => s_name (displayed r)) rows ≡ₚ map s_name draftRows
  /\ NoDup (map s_name draftRows)
  /\ StronglySorted (fun a b : ModelRow => le (s_name (displayed a)) (s_name (displayed b))) rows
  /\ Forall (fun r => exists d, draft r = Some d /\ d ∈ draftRows
       /\ (isDraftChanged r = false <-> exists s, saved r = Some s /\ s ∈ savedRows /\ s_name s = s_name d /\ same_price s d)
       /\ (isDraftNew r = true <-> s_name d ∉ map s_name savedRows)) rows.
Proof.
  intros Htot Htr Hs Hd Us Ud. unfold models. rewrite Hs, Hd. cbn [ebind]. intros [= <-].
  pose proof (rows_distinct _ _ Hd) as Hnd. rewrite filter_all, filter_map.
  set (names := List.filter _ _). pose proof (kept_names savedRows draftRows Hnd) as Hk. fold names in Hk.
  set (rows := isort _ _).
  assert (rows ≡ₚ map (model_row savedRows draftRows) names) as Hp by apply isort_perm.
  split_and!; [| |apply (isort_sorted (fun a b => le (s_name (displayed a)) (s_name (displayed b))))|].
  - etransitivity; [apply Permutation_map, Hp|]. rewrite map_map. etransitivity; [|apply Hk].
    rewrite (map_ext _ id); [by rewrite map_id|]. intros n. apply row_name.
  - done.
  - intros a b. destruct (le (s_name (displayed a)) _) eqn:E; [by left|right]. by apply Htot.
  - intros a b c. apply Htr.
  - rewrite Hp. apply Forall_map, Forall_forall. intros n Hn. apply row_marks; [done|done|]. by rewrite <- Hk.
Qed.
End Table.

(** ** Types of the options *)

Definition number_map (fs : fields) : Prop := Forall (fun f => exists x, f.2 = VNum x) fs.
Definition text_map (fs : fields) : Prop := Forall (fun f => exists t, f.2 = VStr t) fs.

(** [Record<string, number>] for prices and ratios, [Record<string, string>] for modes and expressions. *)
Definition well_typed (m : Options fields) : Prop :=
  number_map (o_price m) /\ number_map (o_ratio m) /\ (forall k, number_map (lane (o_lanes m) k)) /\ text_map (o_mode m) /\ text_map (o_expr m).

Lemma insert_field_elem k v fs f : f ∈ insert_field k v fs -> f ∈ fs \/ f = (k, v).
Proof.
  induction fs as [|[k' v'] fs IH]; cbn [insert_field]; [intros ->%list_elem_of_singleton; by right|].
  destruct (_ && _); [intros [->|H]%elem_of_cons; [by right|by left]|]. intros [->|H]%elem_of_cons; [left; left|].
  destruct (IH H) as [?| ->]; [left; by right|by right].
Qed.

Lemma Forall_set_field (P : jsstr * val -> Prop) k v fs : P (k, v) -> Forall P fs -> Forall P (set_field k v fs).
Proof.
  intros Hv Hf. rewrite Forall_forall in *. intros f Hin. unfold set_field in Hin.
  destruct (replace_field k v fs) as [fs'|] eqn:E.
  - destruct (replace_field_elem _ _ _ _ _ E Hin) as [?| ->]; [by apply Hf|done].
  - destruct (insert_field_elem _ _ _ _ Hin) as [?| ->]; [by apply Hf|done].
Qed.

Lemma Forall_delete_field (P : jsstr * val -> Prop) k fs : Forall P fs -> Forall P (delete_field k fs).
Proof. rewrite !Forall_forall. intros H f Hin%delete_elem. apply H. tauto. Qed.

Lemma number_delete fs name : number_map fs -> number_map (delete_field name fs).
Proof. apply (Forall_delete_field (fun f => exists x, f.2 = VNum x)). Qed.

Lemma text_delete fs name : text_map fs -> text_map (delete_field name fs).
Proof. apply (Forall_delete_field (fun f => exists t, f.2 = VStr t)). Qed.

Lemma number_set fs name value : number_map fs -> number_map (setIfPresent (delete_field name fs) name value).
Proof.
  intros H. rewrite setIfPresent_spec. pose proof (Forall_delete_field _ name fs H). destruct (saved_num value) as [x|]; [|done].
  apply Forall_set_field; [by exists x|done].
Qed.

Lemma typed_persist_one data m name : well_typed m -> well_typed (persist_one data m name).
Proof.
  intros (Hp & Hr & Hl & Hm & He). unfold persist_one, well_typed, options_map, set_lanes.
  assert (forall fs t, text_map fs -> text_map (set_field name (VStr t) (delete_field name fs))) as Hset.
  { intros fs t H. apply Forall_set_field; [by exists t|by apply text_delete]. }
  assert (forall k, number_map (delete_field name (lane (o_lanes m) k))) as Hdl by (intros k; by apply number_delete).
  destruct (d_billingMode data) as [[]|]; try destruct (hasValue (d_price data)); try destruct (truthy_str _);
    cbn [o_price o_ratio o_lanes o_mode o_expr]; (split_and!; [| |intros k; rewrite ?lane_lanes_of| |]);
    first [by apply number_set|by apply Hset|by apply number_delete|by apply text_delete|done].
Qed.

Lemma typed_persist data names : forall m, well_typed m -> well_typed (fold_left (persist_one data) names m).
Proof. induction names as [|n names IH]; intros m Hm; [done|]. apply IH. by apply typed_persist_one. Qed.

Lemma lookup_Forall (P : val -> Prop) n fs : P VUndef -> Forall (fun f => P f.2) fs -> P (lookup_field n fs).
Proof.
  intros Hu. induction 1 as [|[k v] fs Hv _ IH]; [done|]. cbn [lookup_field]. by destruct (streq n k).
Qed.

Lemma number_entry fs n : number_map fs -> exists s, entry_text fs n = Ret s.
Proof.
  intros H. unfold entry_text. apply (lookup_Forall (fun v => exists s, value_text v = Ret s)); [by eexists|].
  eapply Forall_impl; [exact H|]. intros f [x ->]. by eexists.
Qed.

Section Typed.
Context (compound : jsstr -> option (exc jsstr)).
Notation split := (BillingExpr.splitBillingExprAndRequestRules compound).

(** No stored expression makes the splitter raise. *)
Definition splits (m : Options fields) : Prop := Forall (fun f => match f.2 with VStr s => exists x, split s = Ret x | _ => True end) (o_expr m).

Lemma splits_sound m :
  forallb (fun f => match f.2 with VStr s => match split s with Ret _ => true | _ => false end | _ => true end) (o_expr m) = true -> splits m.
Proof.
  rewrite forallb_forall. intros H. apply List.Forall_forall. intros f Hf. specialize (H f Hf). destruct f.2 as [| | | |s| |]; try done.
  destruct (split s) as [|x]; [done|by exists x].
Qed.

Lemma typed_row m n : well_typed m -> splits m -> exists row, snapshot_of compound m n = Ret row.
Proof.
  intros (Hp & Hr & Hl & Hm & He) Hs. unfold snapshot_of.
  destruct (number_entry _ n Hp) as [p ->], (number_entry _ n Hr) as [r ->], (number_entry _ n (Hl cache)) as [ca ->],
    (number_entry _ n (Hl createCache)) as [cc ->], (number_entry _ n (Hl completion)) as [co ->], (number_entry _ n (Hl image)) as [im ->],
    (number_entry _ n (Hl audioInput)) as [ai ->], (number_entry _ n (Hl audioOutput)) as [ao ->]. cbn [ebind].
  destruct (is_tiered _ _); [|by eexists].
  assert (exists s x, full_expr (o_expr m) n = Ret s /\ split s = Ret x) as (s & x & -> & Hx).
  { unfold full_expr. apply (lookup_Forall (fun v => exists s x, expr_value v = Ret s /\ split s = Ret x)).
    - exists [], ([], []). by split.
    - unfold splits in Hs. unfold text_map in He. rewrite Forall_forall in *. intros f Hin. destruct (He f Hin) as [t Et]. specialize (Hs f Hin).
      rewrite Et in Hs |- *. destruct Hs as [x Hx]. by exists t, x. }
  cbn [ebind]. rewrite Hx. by eexists.
Qed.

Lemma typed_rows m names : well_typed m -> splits m -> exists rows, emap (snapshot_of compound m) names = Ret rows.
Proof.
  intros Hm Hs. induction names as [|n names [rows IH]]; [by eexists|]. destruct (typed_row m n Hm Hs) as [row Hr].
  exists (row :: rows). cbn [emap]. by rewrite Hr, IH.
Qed.

(** The expression that a save stores. *)
Definition entered_expr (data : ModelRatioData) : jsstr :=
  BillingExpr.combineBillingExpr (text_or_empty (d_billingExpr data)) (text_or_empty (d_requestRuleExpr data)).

Lemma splits_persist data names : (exists x, split (entered_expr data) = Ret x) ->
  forall m, splits m -> splits (fold_left (persist_one data) names m).
Proof.
  intros Hd. induction names as [|n names IH]; intros m Hm; [done|]. apply IH.
  pose proof (Forall_delete_field _ n _ Hm) as Hdel. unfold splits, persist_one, options_map.
  destruct (d_billingMode data) as [[]|]; try destruct (hasValue (d_price data)); try destruct (truthy_str _); cbn [o_expr]; try done.
  all: first [exact Hdel|apply Forall_set_field; [exact Hd|exact Hdel]].
Qed.

(** C31: the options keep their types. Options that read as numbers per model for prices
    and ratios and as texts for modes and expressions still do after any save. When
    moreover the splitter raises on no stored expression and not on the one that is saved
    (it does on a rule with a malformed string literal), it raises on none afterwards,
    and the table of the saved options is built without raising. *)
Theorem options_stay_typed (data : ModelRatioData) (names : list jsstr) (o : Options jsstr) (m : Options fields) :
  read_options o = Ret m -> all_options plain_obj m -> Forall name_plain names -> data_ok data -> well_typed m ->
  exists o' m', persistPricingData data names o = Ret o' /\ read_options o' = Ret m' /\ well_typed m'
    /\ (splits m -> (exists x, split (entered_expr data) = Ret x) ->
        splits m' /\ exists rows, buildModelSnapshots compound o' = Ret rows).
Proof.
  intros Hr Hm Hn Hd Ht. destruct (persist_result data names o m Hr Hm Hn Hd) as (o' & Ho & Hm').
  eexists o', _. split; [done|]. split; [exact Hm'|]. pose proof (typed_persist data names m Ht) as Ht'. split; [done|].
  intros Hs He. pose proof (splits_persist data names He m Hs) as Hs'. split; [done|]. unfold buildModelSnapshots. rewrite Hm'. cbn [ebind]. by apply typed_rows.
Qed.

End Typed.

(** ** Opening and saving an expression *)

Lemma trim_nonempty d s : is_space d = false -> trim (d :: s) <> [].
Proof.
  intros Hd E. unfold trim in E. cbn [trim_start] in E. rewrite Hd in E. apply (f_equal reverse) in E. rewrite reverse_involutive in E. cbn [reverse] in E.
  destruct (trim_start_suffix (reverse (d :: s))) as (q & Eq & Hq). rewrite E, app_nil_r in Eq. rewrite <- Eq, Forall_reverse in Hq.
  apply Forall_cons in Hq as [Hs _]. congruence.
Qed.

Lemma combine_generated (c : TierExpr.VisualConfig) R :
  c <> [] -> forallb TierRoundTrip.tier_ok c = true -> BillingExpr.combineBillingExpr (TierExpr.generateExprFromVisualConfig (Some c)) R <> [].
Proof.
  intros Hne Hok%TierRoundTrip.forallb_Forall. destruct (TierRoundTrip.config_parts c Hne Hok) as (q & ps & tail & _ & _ & -> & _).
  destruct (TierRoundTrip.part_first q (TierRoundTrip.parts_text ps ++ tail)) as (d & s & -> & Hd).
  assert (trim (d :: s) <> []) as Ht.
  { apply trim_nonempty. unfold in_text in Hd. apply bool_decide_eq_true in Hd.
    repeat (apply elem_of_cons in Hd as [->|Hd]; [done|]). by apply elem_of_nil in Hd. }
  unfold BillingExpr.combineBillingExpr. rewrite (proj2 (truthy_str_spec _) Ht). cbn [negb]. by destruct (truthy_str (trim R)).
Qed.

Section OpenSave.
Context (compound : jsstr -> option (exc jsstr)) (p : Pricing) (row : ModelRow) (m : Options fields).
Notation e := (editable row).
Context (reads_m : read_options (options p) = Ret m) (m_plain : all_options plain_obj m).
Context (name_ok : name_plain (s_name e)) (name_trimmed : trim (s_name e) = s_name e) (name_given : s_name e <> []).
Context (is_expr : s_billingMode e = tiered_expr).

(** The numbers next to the expression print as they read. *)
Definition numbers_ok : Prop :=
  num_text_ok (Some (text_or_empty (s_price e))) = true /\ num_text_ok (Some (text_or_empty (s_ratio e))) = true
  /\ forall k, num_text_ok (Some (text_or_empty (lane (s_lanes e) k))) = true.
Context (numbers : numbers_ok).

(** Opening the model, letting the editor of its expression come to rest, saving. *)
Definition open_and_save (n : nat) : exc (bool * Pricing) :=
  ebind (run_tiered_editor compound n (handleEdit row p)) commitOpenEditor.

Definition stored_expr (q : Pricing) (text : jsstr) : Prop :=
  exists m', read_options (options q) = Ret m' /\ is_tiered (o_mode m') (s_name e) = true /\ full_expr (o_expr m') (s_name e) = Ret text
    /\ forall n, n <> s_name e -> snapshot_of compound m' n = snapshot_of compound m n.

Lemma open_save_stores n t E R :
  ebind (mount compound (mkPanel (text_or_empty (s_billingExpr e)) (text_or_empty (s_requestRuleExpr e)) (s_name e))) (commits compound n) = Ret t ->
  panel t = mkPanel E R (s_name e) -> BillingExpr.combineBillingExpr E R <> [] -> units (BillingExpr.combineBillingExpr E R) ->
  exists q, open_and_save n = Ret (true, q) /\ stored_expr q (BillingExpr.combineBillingExpr E R).
Proof.
  intros Hrun Hpan Hne Hu. unfold open_and_save, run_tiered_editor, handleEdit, set_edit_data. cbn [sheet options editData editorOpen].
  change (tiered_props (load_effect (Some (edit_data row)) (sheet p)))
    with (mkPanel (text_or_empty (s_billingExpr e)) (text_or_empty (s_requestRuleExpr e)) (s_name e)).
  destruct (mount compound _) as [|t0]; [done|]. cbn [ebind] in *. rewrite Hrun. cbn [ebind]. unfold commitOpenEditor. cbn [editorOpen sheet options editData].
  set (sh := tiered_report (panel t) _). assert (pricingMode sh = tiered_expr) as Hmode by (unfold sh; cbn; by rewrite is_expr).
  assert (commitDraft sh = Some (buildSubmitData sh)) as ->.
  { unfold commitDraft, validatePricingValues, missing_input, missing_audio. rewrite Hmode. cbn. by destruct (s_name e). }
  set (data := buildSubmitData sh).
  assert (d_name data = s_name e) as Hname by (unfold data; cbn; done).
  assert (combined_text data = BillingExpr.combineBillingExpr E R) as Hcomb by (unfold data, combined_text, buildSubmitData; rewrite Hmode; cbn; by rewrite Hpan).
  assert (data_ok data) as Hok.
  { destruct numbers as (Np & Nr & Nl). split_and!; [done|done| |by rewrite Hcomb]. intros k. specialize (Nl k). unfold data. cbn. by destruct k. }
  destruct (persist_result data [s_name e] (options p) m reads_m m_plain ltac:(by apply Forall_singleton) Hok) as (o' & Ho & Hm').
  rewrite Hname, Ho. cbn [ebind]. eexists. split; [done|]. eexists. split; [exact Hm'|].
  assert (forall k, lookups k (fold_left (persist_one data) [s_name e] m) = if streq k (s_name e) then stored data else lookups k m) as Hlook.
  { intros k. cbn [fold_left]. apply lookups_persist_one. by destruct name_ok. }
  assert (stored data = mkOptions (saved_val (d_price data)) (saved_val (d_ratio data)) (saved_lanes data) (VStr (js "tiered_expr")) (VStr (combined_text data))) as Hst.
  { unfold stored. unfold data at 1. cbn [buildSubmitData d_billingMode]. rewrite Hmode.
    rewrite <- Hcomb in Hne. by rewrite (proj2 (truthy_str_spec _) Hne). }
  specialize (Hlook (s_name e)) as Hself. rewrite streq_refl, Hst in Hself. split_and!.
  - unfold is_tiered. change (lookup_field (s_name e) (o_mode ?q)) with (o_mode (lookups (s_name e) q)). by rewrite Hself.
  - unfold full_expr. change (lookup_field (s_name e) (o_expr ?q)) with (o_expr (lookups (s_name e) q)). rewrite Hself. cbn. by rewrite Hcomb.
  - intros k Hk. apply snapshot_same. by rewrite Hlook, (proj2 (streq_false _ _) Hk).
Qed.

(** C5: opening a model whose expression the visual editor can read and saving it keeps
    the price. Whatever else the option texts hold, if the expression parses as an
    admissible configuration [c] and the rules are those of admissible groups, then after
    opening the model, the effects of the editor and saving, the stored expression is
    the text of [c] combined with the same rules, which reads as [c] again, and no other
    model has changed. *)
Theorem open_save_keeps_price (c : TierExpr.VisualConfig) (gs : list RequestRuleGroup) :
  TierExpr.tryParseVisualConfig (text_or_empty (s_billingExpr e)) = Some c -> c <> [] -> forallb TierRoundTrip.tier_ok c = true ->
  TierRoundTrip.canonical c = c ->
  text_or_empty (s_requestRuleExpr e) = BillingExpr.buildRequestRuleExpr gs -> forallb BillingRoundTrip.ok_group gs = true ->
  let text := TierExpr.generateExprFromVisualConfig (Some c) in
  units (BillingExpr.combineBillingExpr text (BillingExpr.buildRequestRuleExpr gs)) ->
  exists q, open_and_save 6 = Ret (true, q) /\ stored_expr q (BillingExpr.combineBillingExpr text (BillingExpr.buildRequestRuleExpr gs))
    /\ TierExpr.tryParseVisualConfig text = Some c.
Proof.
  intros Hp Hne Hok Hcan Hr Hgs text Hu.
  destruct (TieredEditorLaws.opening_keeps_price compound _ (s_name e) c gs Hp Hne Hok Hcan Hgs) as (t & Ht & _ & (_ & _ & _ & Hpan) & Hpar).
  rewrite Hpan in Hpar. rewrite <- Hr in Ht at 1.
  destruct (open_save_stores 6 t text (BillingExpr.buildRequestRuleExpr gs) Ht Hpan (combine_generated c _ Hne Hok) Hu) as (q & Hq & Hs).
  exists q. split; [done|]. by split.
Qed.

(** opening a model whose expression the visual editor cannot read and saving it
    destroys the price: for every non-empty expression the visual parser rejects, other
    than the replacement itself, the stored expression becomes that of a price of zero,
    without any edit. *)
Theorem open_save_loses_price (gs : list RequestRuleGroup) (x : jsstr * jsstr) :
  let E := text_or_empty (s_billingExpr e) in
  let R := BillingExpr.buildRequestRuleExpr gs in
  E <> [] -> TierExpr.tryParseVisualConfig E = None -> E <> TieredEditorLaws.zero_price ->
  text_or_empty (s_requestRuleExpr e) = R -> forallb BillingRoundTrip.ok_group gs = true ->
  BillingExpr.splitBillingExprAndRequestRules compound (BillingExpr.combineBillingExpr E R) = Ret x ->
  units (BillingExpr.combineBillingExpr TieredEditorLaws.zero_price R) ->
  exists q, open_and_save 4 = Ret (true, q) /\ stored_expr q (BillingExpr.combineBillingExpr TieredEditorLaws.zero_price R).
Proof.
  intros E R Hne Hp Hz Hr Hgs Hx Hu.
  destruct (TieredEditorLaws.opening_discards_price compound E (s_name e) gs x Hne Hp Hz Hgs Hx) as (t & Ht & _ & _ & _ & Hpan).
  apply (open_save_stores 4 t); [by rewrite Hr|done| |done]. unfold BillingExpr.combineBillingExpr. by destruct (truthy_str (trim R)).
Qed.

End OpenSave.

(** ** Instances *)

(** A check of maps of numbers and texts. *)
Definition plain_fields (fs : fields) : bool :=
  bool_decide (NoDup (map fst fs))
  && forallb (fun f => negb (is_index f.1) && forallb is_unit f.1
                       && match f.2 with VNum x => num_ok x | VStr s => forallb is_unit s | _ => false end) fs.

Lemma plain_fields_sound fs : plain_fields fs = true -> plain_obj fs.
Proof.
  unfold plain_fields. intros [Hd%bool_decide_eq_true Hf%TierRoundTrip.forallb_Forall]%andb_true_iff. split; [done|].
  eapply Forall_impl; [exact Hf|]. intros f [[Hi%negb_true_iff Hk%TierRoundTrip.forallb_Forall]%andb_true_iff Hv]%andb_true_iff. split_and!; [done|done|].
  destruct f.2; try done; constructor; [done|by apply TierRoundTrip.forallb_Forall].
Qed.

Lemma plain_options_sound m : forallb plain_fields (options_list m) = true -> all_options plain_obj m.
Proof. intros H%TierRoundTrip.forallb_Forall. eapply Forall_impl; [exact H|]. apply plain_fields_sound. Qed.

Definition name_plainb (n : jsstr) : bool := negb (is_index n) && forallb is_unit n.
Lemma name_plain_sound n : name_plainb n = true -> name_plain n.
Proof. unfold name_plainb. intros [H%negb_true_iff H'%TierRoundTrip.forallb_Forall]%andb_true_iff. by split. Qed.

Definition data_okb (data : ModelRatioData) : bool :=
  num_text_ok (d_price data) && num_text_ok (d_ratio data) && forallb (fun k => num_text_ok (lane (d_lanes data) k)) lane_keys
  && forallb is_unit (combined_text data).
Lemma data_ok_sound data : data_okb data = true -> data_ok data.
Proof.
  unfold data_okb. intros [[[Hp Hr]%andb_true_iff Hl%TierRoundTrip.forallb_Forall]%andb_true_iff Hu%TierRoundTrip.forallb_Forall]%andb_true_iff.
  split_and!; [done|done| |done]. intros k. rewrite Forall_forall in Hl. apply Hl. by destruct k; apply (bool_decide_unpack _).
Qed.

Definition sample_options : Options jsstr :=
  mkOptions (jq "{'dall-e-3': 0.04, 'old': 1}") (jq "{'gpt-4o': 1.25}") (mkLanes (jq "{'gpt-4o': 4}") (jq "{'gpt-4o': 0.5}") [] (js " ") [] (js "broken"))
    (jq "{'flat': 'tiered_expr', 'max': 'tiered_expr'}") (jq "{'flat': 'tier(\'base\',p*2+c*4)', 'max': 'max(p, c) * 3'}").
Definition sample_maps : Options fields := match read_options sample_options with Ret m => m | Throw => mkOptions [] [] (lanes_of (fun _ => [])) [] [] end.

Lemma sample_read : read_options sample_options = Ret sample_maps.
Proof. vm_compute. reflexivity. Qed.
Lemma sample_plain : all_options plain_obj sample_maps.
Proof. apply plain_options_sound. vm_compute. reflexivity. Qed.

Definition sample_data : ModelRatioData :=
  mkData (js "gpt-4o") (Some []) (Some (js "2.5")) (mkLanes (Some (js "8")) (Some []) (Some []) (Some []) (Some (js "7.50")) (Some [])) (Some per_token) None None.

Lemma saving_updates_targets_witness :
  exists o' m', persistPricingData sample_data [js "gpt-4o"; js "new"] sample_options = Ret o' /\ read_options o' = Ret m'
    /\ (exists r, snapshot_of BillingExpr.no_compound m' (js "new") = Ret r /\ lane (s_lanes r) audioInput = Some (js "7.5"))
    /\ snapshot_of BillingExpr.no_compound m' (js "flat") = snapshot_of BillingExpr.no_compound sample_maps (js "flat").
Proof.
  destruct (saving_updates_targets BillingExpr.no_compound sample_data [js "gpt-4o"; js "new"] sample_options sample_maps) as (o' & m' & Ho & Hm & Ht & Hf).
  - exact sample_read.
  - exact sample_plain.
  - repeat (apply Forall_cons; split); [by apply name_plain_sound|by apply name_plain_sound|apply Forall_nil_2].
  - apply data_ok_sound. vm_compute. reflexivity.
  - exists o', m'. split; [exact Ho|]. split; [exact Hm|]. split.
    + eexists. split; [rewrite Ht; [reflexivity|by apply (bool_decide_unpack _)]|vm_compute; reflexivity].
    + apply Hf. by apply (bool_decide_unpack _).
Defined.

Definition sample_pricing : Pricing := mkPricing sample_options None false sheet_init.

Lemma deleting_removes_model_witness :
  exists p' m', handleDelete (js "old") sample_pricing = Ret p' /\ read_options (options p') = Ret m' /\ js "old" ∉ model_names m'.
Proof.
  destruct (deleting_removes_model BillingExpr.no_compound (js "old") sample_pricing sample_maps sample_read sample_plain) as (p' & m' & H1 & H2 & H3 & _).
  by exists p', m'.
Defined.

Definition sample_events : list PanelEvent :=
  [Load (Some sample_data); Edit (PromptPrice (js "4")); Edit (LaneToggle cache true); Edit (LanePrice cache (js "1")); Edit (LaneToggle completion false)].

Definition sample_commit : ModelRatioData := default sample_data (commitDraft (fold_left panel_event sample_events sheet_init)).

Lemma disabled_lanes_omitted_witness :
  exists row, saved_row BillingExpr.no_compound sample_commit (js "x") = Ret row
    /\ lane (s_lanes row) completion = Some [] /\ lane (s_lanes row) cache = Some (js "0.25").
Proof.
  destruct (saved_row BillingExpr.no_compound sample_commit (js "x")) as [|row] eqn:E; [vm_compute in E; discriminate|].
  exists row. split; [reflexivity|].
  destruct (disabled_lanes_omitted BillingExpr.no_compound sample_events completion sample_commit (js "x") row) as [_ H];
    [vm_compute; reflexivity|vm_compute; reflexivity|exact E|].
  split; [exact H|]. vm_compute in E. injection E as <-. reflexivity.
Defined.

Lemma ratios_follow_prices_witness :
  in_step (fold_left panel_edit [LaneToggle completion true; LanePrice completion (js "15")] (handlePromptPriceChange (js "2.5") sheet_init)).
Proof. apply (ratios_follow_prices _ _ sheet_init). right. exists (js "2.5"). split; [vm_compute; reflexivity|reflexivity]. Defined.

(** A model with a fixed price, switched to per-token and given an input price. *)
Definition switched : Sheet :=
  panel_edit (panel_edit (load_effect (Some (mkData (js "dall-e-3") (Some (js "0.04")) (Some []) (lanes_of (fun _ => Some [])) (Some per_request) None None)) sheet_init)
                (Mode per_token)) (PromptPrice (js "5")).

Lemma fixed_price_wins_witness :
  exists data, commitDraft switched = Some data /\ d_billingMode data = Some per_token /\ d_ratio data = Some (js "2.5")
    /\ exists row, saved_row BillingExpr.no_compound data (js "dall-e-3") = Ret row /\ s_billingMode row = per_request /\ s_ratio row = Some [].
Proof.
  eexists. split; [vm_compute; reflexivity|]. split; [reflexivity|]. split; [reflexivity|].
  eexists. split; [apply (fixed_price_wins BillingExpr.no_compound switched _ (js "dall-e-3") (num_of_decimal 4 2)); vm_compute; reflexivity|done].
Defined.

(** A name of spaces passes the schema and is saved under the empty name. *)
Example blank_name_saved : d_name <$> commitDraft (panel_edit sheet_init (Name (js "  "))) = Some [].
Proof. vm_compute. reflexivity. Qed.

Lemma options_stay_typed_witness :
  exists o' m', persistPricingData sample_data [js "gpt-4o"] sample_options = Ret o' /\ read_options o' = Ret m' /\ well_typed m'
    /\ exists rows, buildModelSnapshots BillingExpr.no_compound o' = Ret rows.
Proof.
  destruct (options_stay_typed BillingExpr.no_compound sample_data [js "gpt-4o"] sample_options sample_maps) as (o' & m' & Ho & Hm & Ht & Hs).
  - exact sample_read.
  - exact sample_plain.
  - apply Forall_singleton. by apply name_plain_sound.
  - apply data_ok_sound. vm_compute. reflexivity.
  - vm_compute. split_and!; [..|intros []| |]; repeat (apply Forall_cons; split); try apply Forall_nil_2; by eexists.
  - exists o', m'. split; [exact Ho|]. split; [exact Hm|]. split; [exact Ht|]. apply Hs.
    + apply splits_sound. vm_compute. reflexivity.
    + eexists. vm_compute. reflexivity.
Defined.

(** The lexicographic order of the code units, one that [localeCompare] may be. *)
Fixpoint unit_le (a b : jsstr) : bool :=
  match a, b with
  | [], _ => true
  | _, [] => false
  | x :: a, y :: b => (x <? y) || ((x =? y) && unit_le a b)
  end.
Lemma unit_le_total a : forall b, unit_le a b = false -> unit_le b a = true.
Proof.
  induction a as [|x a IH]; intros [|y b]; cbn [unit_le]; try done. intros [H1 H2]%orb_false_iff.
  apply Z.ltb_ge in H1. destruct (Z.eqb_spec x y) as [->|Hne]; [|apply orb_true_iff; left; apply Z.ltb_lt; lia].
  rewrite Z.eqb_refl. cbn [andb] in *. rewrite (IH b H2). apply orb_true_r.
Qed.
Lemma unit_le_trans a : forall b c, unit_le a b = true -> unit_le b c = true -> unit_le a c = true.
Proof.
  induction a as [|x a IH]; intros [|y b] [|z c]; cbn [unit_le]; try done. rewrite !orb_true_iff, !andb_true_iff, !Z.ltb_lt, !Z.eqb_eq.
  intros [H|[-> H]] [H'|[-> H']]; [left; lia|by left|by left|right]. split; [done|]. by apply (IH b).
Qed.

(** The drafts after the price of one model was changed and another one added. *)
Definition sample_draft : Options jsstr := match persistPricingData sample_data [js "gpt-4o"; js "new"] sample_options with Ret o => o | Throw => sample_options end.
Definition sample_rows (o : Options jsstr) : list Snapshot := match buildModelSnapshots BillingExpr.no_compound o with Ret r => r | Throw => [] end.
Definition sample_table : list ModelRow :=
  match models BillingExpr.no_compound unit_le all_models [] sample_options sample_draft with Ret r => r | Throw => [] end.

Definition row_unitsb (a : Snapshot) : bool :=
  forallb (forallb is_unit) ([text_or_empty (s_price a); text_or_empty (s_ratio a); text_or_empty (s_billingExpr a); text_or_empty (s_requestRuleExpr a)]
                             ++ map (fun k => text_or_empty (lane (s_lanes a) k)) lane_keys).
Lemma row_units_sound rows : forallb row_unitsb rows = true -> Forall row_units rows.
Proof.
  intros H%TierRoundTrip.forallb_Forall. eapply Forall_impl; [exact H|]. intros a Ha%TierRoundTrip.forallb_Forall. rewrite Forall_forall in Ha.
  split_and!; [| |intros k| |]; apply TierRoundTrip.forallb_Forall, Ha; try destruct k; cbn; repeat (first [left|right]).
Qed.

Lemma table_shows_draft_witness :
  map (fun r => s_name (displayed r)) sample_table ≡ₚ map s_name (sample_rows sample_draft)
  /\ map isDraftChanged sample_table = [false; false; true; false; true; false].
Proof.
  split; [|vm_compute; reflexivity].
  apply (table_shows_draft BillingExpr.no_compound unit_le [] sample_options sample_draft (sample_rows sample_options) (sample_rows sample_draft) sample_table).
  - exact (fun a b => unit_le_total a b).
  - exact (fun a b c => unit_le_trans a b c).
  - vm_compute. reflexivity.
  - vm_compute. reflexivity.
  - apply row_units_sound. vm_compute. reflexivity.
  - apply row_units_sound. vm_compute. reflexivity.
  - vm_compute. reflexivity.
Defined.

(** The row of a model of the sample. *)
Definition sample_row (name : jsstr) : ModelRow := model_row (sample_rows sample_options) (sample_rows sample_options) name.

Lemma sample_numbers name : In name [js "flat"; js "max"] -> numbers_ok (sample_row name).
Proof. intros [<-|[<-|[]]]; split_and!; try (intros []); vm_compute; reflexivity. Qed.

Lemma open_save_keeps_price_witness :
  exists q, open_and_save BillingExpr.no_compound sample_pricing (sample_row (js "flat")) 6 = Ret (true, q)
    /\ stored_expr BillingExpr.no_compound (sample_row (js "flat")) sample_maps q (jq "tier('base', p * 2 + c * 4)").
Proof.
  destruct (open_save_keeps_price BillingExpr.no_compound sample_pricing (sample_row (js "flat")) sample_maps sample_read sample_plain)
    with (c := default [] (TierExpr.tryParseVisualConfig (jq "tier('base',p*2+c*4)"))) (gs := [] : list RequestRuleGroup) as (q & Hq & Hs & _).
  - apply name_plain_sound. vm_compute. reflexivity.
  - vm_compute. reflexivity.
  - vm_compute. discriminate.
  - vm_compute. reflexivity.
  - apply sample_numbers. by left.
  - vm_compute. reflexivity.
  - vm_compute. discriminate.
  - vm_compute. reflexivity.
  - vm_compute. reflexivity.
  - vm_compute. reflexivity.
  - reflexivity.
  - apply TierRoundTrip.forallb_Forall. vm_compute. reflexivity.
  - exists q. split; [exact Hq|].
    assert (BillingExpr.combineBillingExpr (TierExpr.generateExprFromVisualConfig (Some (default [] (TierExpr.tryParseVisualConfig (jq "tier('base',p*2+c*4)")))))
              (BillingExpr.buildRequestRuleExpr []) = jq "tier('base', p * 2 + c * 4)") as E by (vm_compute; reflexivity).
    exact (eq_ind _ (stored_expr BillingExpr.no_compound (sample_row (js "flat")) sample_maps q) Hs _ E).
Defined.

Lemma open_save_loses_price_witness :
  exists q, open_and_save BillingExpr.no_compound sample_pricing (sample_row (js "max")) 4 = Ret (true, q)
    /\ stored_expr BillingExpr.no_compound (sample_row (js "max")) sample_maps q (js "p * 0 + c * 0").
Proof.
  destruct (open_save_loses_price BillingExpr.no_compound sample_pricing (sample_row (js "max")) sample_maps sample_read sample_plain)
    with (gs := [] : list RequestRuleGroup) (x := (js "max(p, c) * 3", [] : jsstr)) as (q & Hq & Hs).
  - apply name_plain_sound. vm_compute. reflexivity.
  - vm_compute. reflexivity.
  - vm_compute. discriminate.
  - vm_compute. reflexivity.
  - apply sample_numbers. right. by left.
  - vm_compute. discriminate.
  - vm_compute. reflexivity.
  - vm_compute. discriminate.
  - vm_compute. reflexivity.
  - reflexivity.
  - vm_compute. reflexivity.
  - apply TierRoundTrip.forallb_Forall. vm_compute. reflexivity.
  - exists q. split; [exact Hq|exact Hs].
Defined.

End ModelPricingLaws.
