(* ===== verification/PriceTables.v ===== *)
(** The price tables of the fork (src/web/src/features/system-settings/models/): what a
    channel costs (channel-cost-logic.ts), discounts on the official price
    (baseline-pricing-logic.ts), prices of customer groups (group-model-pricing-logic.ts
    and its editor), and models that are not in the catalog (extra-models-logic.ts and its
    tab), next to the checks of the server (setting/ratio_setting/) they are saved
    through, and the ratios a request is billed at (relay/helper/price.go).

    A JavaScript record sent to the server is a finite map; where the order of its
    entries shows, it is the list of its entries. [localeCompare] and [toLowerCase] are
    parameters. *)

From stdpp Require Import gmap.
From S2P Require Import Prelude JsValue NumText.

Module PriceTables.

Definition zero : num := num_of_Z 0.
Definition one : num := num_of_Z 1.

(** ** What a channel costs *)

Definition MAX_CHANNEL_COST_RATIO : num := num_of_Z 5.

(** [None] is [null], NaN an unusable text. *)
Definition parseCostRatio (raw : jsstr) : option num :=
  let trimmed := trim raw in
  if truthy_str trimmed then
    let value := string_to_number trimmed in
    Some (if negb (is_finite value) || nle value zero then S754_nan
          else if ngt value MAX_CHANNEL_COST_RATIO then S754_nan else value)
  else None.

Inductive CostLabel := at_list | cheaper (percent : num) | above_list (percent : num).

Definition costLabel (ratio : num) : CostLabel :=
  if neq ratio one then at_list
  else if ngt ratio one then above_list (nmul (nsub ratio one) (num_of_Z 100))
  else cheaper (nmul (nsub one ratio) (num_of_Z 100)).

Definition maxSafeDiscount (costRatio : num) : num := costRatio.

Definition unusable (v : option num) : bool := match v with Some x => is_nan x | None => false end.

(** A value that is stored: neither empty, unusable nor the default of 1. *)
Definition deviation (v : option num) : option num :=
  match v with Some x => if is_nan x || neq x one then None else Some x | None => None end.

Definition put_deviation (parse : jsstr -> option num) (payload : gmap jsstr num) (entry : jsstr * jsstr) : gmap jsstr num :=
  match deviation (parse entry.2) with Some x => <[entry.1 := x]> payload | None => payload end.

Definition invalidCostChannels (drafts : list (jsstr * jsstr)) : list jsstr :=
  map fst (List.filter (fun e => unusable (parseCostRatio e.2)) drafts).

Definition costPayload (drafts : list (jsstr * jsstr)) : gmap jsstr num := fold_left (put_deviation parseCostRatio) drafts ∅.

(** *** The server *)

(** [strconv.Atoi] accepts the text as a 64 bit integer. *)
Definition atoi_ok (s : jsstr) : bool :=
  let '(neg, ds) := match s with 43 :: t => (false, t) | 45 :: t => (true, t) | _ => (false, s) end in
  truthy_str ds && forallb is_digit ds && (digits_value ds <=? (if neg : bool then 2 ^ 63 else 2 ^ 63 - 1)).

Inductive Problem := not_numeric | not_positive | beyond_bound | not_catalogued | empty_name | spaced_name | catalogued
  | input_not_positive | output_not_positive | negative_cache | cache_above_input.

Definition cost_problem (key : jsstr) (ratio : num) : option Problem :=
  if negb (atoi_ok key) then Some not_numeric
  else if nle ratio zero then Some not_positive
  else if ngt ratio (num_of_Z 5) then Some beyond_bound
  else None.

(** The server reports in the order of the keys; which problems there are does not depend on it. *)
Definition ValidateChannelCostRatios (ratios : gmap jsstr num) : list Problem :=
  omap (fun e => cost_problem e.1 e.2) (map_to_list ratios).

Definition itoa (id : Z) : jsstr := if id <? 0 then js "-" ++ dec (- id) else dec id.

Definition GetChannelCostRatio (ratios : gmap jsstr num) (channelID : Z) : num :=
  match ratios !! itoa channelID with Some r => if ngt r zero then r else one | None => one end.

(** ** Discounts on the official price *)

Definition parseDiscount (raw : jsstr) : option num :=
  let trimmed := trim raw in
  if truthy_str trimmed then
    let value := string_to_number trimmed in
    Some (if negb (is_finite value) || nle value zero then S754_nan else value)
  else None.

Definition formatUSD (value : num) : jsstr :=
  if neq value zero then [8212]
  else js "$" ++ toFixed (if nlt value (num_of_decimal 1 1) then 4 else if nlt value one then 3 else 2) value.

Inductive DiscountLabel := official | discounted (percent : num) | markup (percent : num).

Definition discountLabel (discount : num) : DiscountLabel :=
  if neq discount one then official
  else if ngt discount one then markup (nmul (nsub discount one) (num_of_Z 100))
  else discounted (nmul (nsub one discount) (num_of_Z 100)).

Definition invalidDiscountModels (drafts : list (jsstr * jsstr)) : list jsstr :=
  map fst (List.filter (fun e => unusable (parseDiscount e.2)) drafts).

Definition discountPayload (drafts : list (jsstr * jsstr)) : gmap jsstr num := fold_left (put_deviation parseDiscount) drafts ∅.

(** [handleSave] of the tab: the table sent, unless a row is unusable. *)
Definition handleSave (invalid : list jsstr) (payload : gmap jsstr num) : option (gmap jsstr num) :=
  match invalid with [] => Some payload | _ => None end.

Definition maxModelDiscount : num := num_of_Z 10.

Definition discount_problem (inCatalog : jsstr -> bool) (model : jsstr) (discount : num) : option Problem :=
  if negb (inCatalog model) then Some not_catalogued
  else if nle discount zero then Some not_positive
  else if ngt discount maxModelDiscount then Some beyond_bound
  else None.

(** A discount in range that raises the price. *)
Definition is_markup (inCatalog : jsstr -> bool) (model : jsstr) (discount : num) : bool :=
  match discount_problem inCatalog model discount with Some _ => false | None => ngt discount one end.

(** The problems, and the models that are sold above the official price. *)
Definition ValidateModelDiscounts (inCatalog : jsstr -> bool) (discounts : gmap jsstr num) : list Problem * list jsstr :=
  (omap (fun e => discount_problem inCatalog e.1 e.2) (map_to_list discounts),
   map fst (List.filter (fun e => is_markup inCatalog e.1 e.2) (map_to_list discounts))).

(** The names the server looks prices up by. *)
Definition handleThinkingBudgetModel (name prefix wildcard : jsstr) : jsstr :=
  if starts_with prefix name && includes (js "-thinking-") name then wildcard else name.

Definition FormatMatchingModelName (name : jsstr) : jsstr :=
  let name :=
    if starts_with (js "gemini-2.5-flash-lite") name
    then handleThinkingBudgetModel name (js "gemini-2.5-flash-lite") (js "gemini-2.5-flash-lite-thinking-*")
    else if starts_with (js "gemini-2.5-flash") name
    then handleThinkingBudgetModel name (js "gemini-2.5-flash") (js "gemini-2.5-flash-thinking-*")
    else if starts_with (js "gemini-2.5-pro") name
    then handleThinkingBudgetModel name (js "gemini-2.5-pro") (js "gemini-2.5-pro-thinking-*")
    else name in
  let name := if starts_with (js "gpt-4-gizmo") name then js "gpt-4-gizmo-*" else name in
  if starts_with (js "gpt-4o-gizmo") name then js "gpt-4o-gizmo-*" else name.

Definition GetModelDiscount (discounts : gmap jsstr num) (model : jsstr) : num :=
  match discounts !! FormatMatchingModelName model with Some d => if ngt d zero then d else one | None => one end.

(** ** Prices of customer groups *)

Definition parseCustomerMultiplier (value : jsstr) : option num :=
  if truthy_str (trim value) then
    let parsed := string_to_number value in
    Some (if is_finite parsed && ngt parsed zero && nle parsed (num_of_Z 10) then parsed else S754_nan)
  else None.

Definition fallbackCustomerMultiplier (model group : jsstr) (modelDiscounts groupRatios : gmap jsstr num) : num :=
  nmul (default one (modelDiscounts !! model)) (default one (groupRatios !! group)).

Definition effectiveCustomerMultiplier (model group : jsstr) (overrides : gmap jsstr jsstr) (modelDiscounts groupRatios : gmap jsstr num) : option num :=
  match overrides !! model with
  | Some text => parseCustomerMultiplier text
  | None => Some (fallbackCustomerMultiplier model group modelDiscounts groupRatios)
  end.

(** On the entries of the record, of which the later ones win. *)
Definition normalizeCustomerPricingGroupRatios (groupRatios : list (jsstr * num)) : gmap jsstr num :=
  fold_left (fun normalized e =>
    let group := trim e.1 in
    if negb (truthy_str group) || negb (is_finite e.2) then normalized else <[group := e.2]> normalized) groupRatios ∅.

Definition visibleCustomerPricingGroups (le : jsstr -> jsstr -> bool) (savedGroups : list jsstr) (draftGroupRatios : option (list (jsstr * num))) : list jsstr :=
  let source := match draftGroupRatios with
                | Some r => map fst (map_to_list (normalizeCustomerPricingGroupRatios r))
                | None => savedGroups
                end in
  isort le (dedup (List.filter truthy_str (map trim source))).

Definition visibleCustomerModelNames (le : jsstr -> jsstr -> bool) (lower : jsstr -> jsstr) (models : list jsstr) (filter : jsstr) : list jsstr :=
  List.filter (fun model => includes (lower (trim filter)) (lower model)) (isort le models).

(** The multiplier a row of the table is priced at, and whether its input is marked:
    [effectiveForPrice !== effective]. *)
Definition effectiveForPrice (effective : option num) : num :=
  match effective with Some x => if is_nan x then one else x | None => one end.

Definition marked_invalid (effective : option num) : bool :=
  match effective with Some x => negb (neq (effectiveForPrice effective) x) | None => true end.

Definition priceAtMultiplier (officialInput officialOutput multiplier : num) : num * num :=
  (nmul officialInput multiplier, nmul officialOutput multiplier).

(** The order of [sort()]: code unit by code unit. *)
Fixpoint unit_le (a b : jsstr) : bool :=
  match a, b with
  | [], _ => true
  | _ :: _, [] => false
  | x :: a', y :: b' => if x <? y then true else if y <? x then false else unit_le a' b'
  end.

(** The models a group cannot be saved with. *)
Definition invalidCustomerModelPrices (drafts : gmap jsstr jsstr) : list jsstr :=
  isort unit_le (map fst (List.filter (fun e => unusable (parseCustomerMultiplier e.2)) (map_to_list drafts))).

Definition customer_ratio (text : jsstr) : option num :=
  match parseCustomerMultiplier text with Some x => if is_nan x then None else Some x | None => None end.

Definition customerModelPricePayload (drafts : gmap jsstr jsstr) : gmap jsstr num := omap customer_ratio drafts.

Definition texts (values : gmap jsstr num) : gmap jsstr jsstr := num_text <$> values.

(** A group is in the result when the server or the drafts have it. *)
Definition mergeCustomerModelDrafts (server : gmap jsstr (gmap jsstr num)) (current : gmap jsstr (gmap jsstr jsstr)) (dirtyGroups : gset jsstr)
    : gmap jsstr (gmap jsstr jsstr) :=
  set_to_map (fun group => (group, if bool_decide (group ∈ dirtyGroups) then default ∅ (current !! group) else texts (default ∅ (server !! group))))
    (dom server ∪ dom current : gset jsstr).

(** *** The server *)

(** [unicode.IsSpace] *)
Definition go_space (c : Z) : bool := (is_space c && negb (c =? 65279)) || (c =? 133).
Fixpoint drop_spaces (s : jsstr) : jsstr := match s with c :: s' => if go_space c then drop_spaces s' else s | [] => [] end.
Definition TrimSpace (s : jsstr) : jsstr := reverse (drop_spaces (reverse (drop_spaces s))).

Definition group_problem (inCatalog : jsstr -> bool) (model : jsstr) (ratio : num) : option Problem :=
  if negb (inCatalog model) then Some not_catalogued
  else if nle ratio zero then Some not_positive
  else if ngt ratio (num_of_Z 10) then Some beyond_bound
  else None.

Definition group_problems (inCatalog : jsstr -> bool) (group : jsstr) (models : gmap jsstr num) : list Problem :=
  if negb (truthy_str (TrimSpace group)) then [empty_name]
  else omap (fun e => group_problem inCatalog e.1 e.2) (map_to_list models).

Definition ValidateGroupModelDiscounts (inCatalog : jsstr -> bool) (discounts : gmap jsstr (gmap jsstr num)) : list Problem :=
  concat (map (fun e => group_problems inCatalog e.1 e.2) (map_to_list discounts)).

(** The table once the values of a group were sent: [None] when the server refuses them.
    Storing the option checks the whole table once more. *)
Definition UpdateGroupModelPricing (inCatalog : jsstr -> bool) (groupRatios : gmap jsstr num) (table : gmap jsstr (gmap jsstr num))
    (group : jsstr) (values : gmap jsstr num) : option (gmap jsstr (gmap jsstr num)) :=
  if negb (bool_decide (is_Some (groupRatios !! group))) then None
  else match ValidateGroupModelDiscounts inCatalog {[group := values]} with
       | [] =>
         let all := if bool_decide (values = ∅) then delete group table else <[group := values]> table in
         match ValidateGroupModelDiscounts inCatalog all with [] => Some all | _ => None end
       | _ => None
       end.

Definition GetGroupModelDiscount (table : gmap jsstr (gmap jsstr num)) (userGroup model : jsstr) : option num :=
  match table !! userGroup with
  | Some models => match models !! FormatMatchingModelName model with Some r => if ngt r zero then Some r else None | None => None end
  | None => None
  end.

(** *** The editor *)

Record GroupEditor := mkGroupEditor { drafts : gmap jsstr (gmap jsstr jsstr); dirtyGroups : gset jsstr }.

Definition group_drafts (g : jsstr) (s : GroupEditor) : gmap jsstr jsstr := default ∅ (drafts s !! g).

(** The effect on the data of the server. *)
Definition on_server_data (discounts : gmap jsstr (gmap jsstr num)) (s : GroupEditor) : GroupEditor :=
  mkGroupEditor (mergeCustomerModelDrafts discounts (drafts s) (dirtyGroups s)) (dirtyGroups s).

Definition onChange (g model value : jsstr) (s : GroupEditor) : GroupEditor :=
  mkGroupEditor (<[g := <[model := value]> (group_drafts g s)]> (drafts s)) ({[g]} ∪ dirtyGroups s).

Definition onReset (g model : jsstr) (s : GroupEditor) : GroupEditor :=
  mkGroupEditor (<[g := delete model (group_drafts g s)]> (drafts s)) ({[g]} ∪ dirtyGroups s).

(** The values of a save; the button is off while a draft is unusable. *)
Definition save_values (g : jsstr) (s : GroupEditor) : option (gmap jsstr num) :=
  match invalidCustomerModelPrices (group_drafts g s) with [] => Some (customerModelPricePayload (group_drafts g s)) | _ => None end.

(** The answer to the save of [values] for [g]. *)
Definition on_saved (g : jsstr) (values : gmap jsstr num) (success : bool) (s : GroupEditor) : GroupEditor :=
  if success then mkGroupEditor (<[g := texts values]> (drafts s)) (dirtyGroups s ∖ {[g]}) else s.

(** ** Models outside the catalog *)

Definition MAX_PRICE_USD : num := num_of_Z 1000.

Record ExtraModelDraft := mkExtraDraft {
  model : jsstr; input_usd : jsstr; output_usd : jsstr; cache_read_usd : jsstr; cache_write_usd : jsstr; vendor : jsstr; note : jsstr
}.

Inductive DraftField := field_model | field_input | field_output | field_cache_read.
Definition FieldError : Type := DraftField * jsstr.

Definition name_errors (name : jsstr) (cataloguedModels existingModels : list jsstr) : list FieldError :=
  if negb (truthy_str (trim name)) then [(field_model, js "Model name is required")]
  else if negb (streq name (trim name)) then [(field_model, js "Model name has leading or trailing spaces, so API calls will not match it")]
  else if bool_decide (name ∈ cataloguedModels) then
    [(field_model, js "This model already has an official price in the catalog. Change what customers pay for it under "
                   ++ [23448; 26041; 25253; 20215; 19982; 25240; 25187] ++ js " instead.")]
  else if bool_decide (name ∈ existingModels) then [(field_model, js "Already in this table")]
  else [].

Definition price_errors (field : DraftField) (value : num) (message : jsstr) : list FieldError :=
  if negb (is_finite value) || nle value zero then [(field, message)]
  else if ngt value MAX_PRICE_USD then [(field, js "Price looks like a misplaced decimal")]
  else [].

Definition cache_errors (text : jsstr) (input : num) : list FieldError :=
  if truthy_str (trim text) then
    let cacheRead := parseFloat text in
    if negb (is_finite cacheRead) || nlt cacheRead zero then [(field_cache_read, js "Cache read price cannot be negative")]
    else if is_finite input && ngt cacheRead input
    then [(field_cache_read, js "Cache read costs more than fresh input " ++ [8212] ++ js " the two are the wrong way round")]
    else []
  else [].

Definition validateDraft (draft : ExtraModelDraft) (cataloguedModels existingModels : list jsstr) : list FieldError :=
  let input := parseFloat (input_usd draft) in
  let output := parseFloat (output_usd draft) in
  name_errors (model draft) cataloguedModels existingModels
  ++ price_errors field_input input (js "Input price must be greater than 0")
  ++ price_errors field_output output (js "Output price must be greater than 0")
  ++ cache_errors (cache_read_usd draft) input.

Definition emptyDraft : ExtraModelDraft := mkExtraDraft [] [] [] [] [] [] [].

Record Payload := mkPayload {
  p_input_usd : num; p_output_usd : num; p_cache_read_usd : option num; p_cache_write_usd : option num; p_vendor : option jsstr; p_note : option jsstr
}.

Definition optional_price (text : jsstr) : option num :=
  let value := parseFloat text in if truthy_str (trim text) && is_finite value then Some value else None.
Definition optional_text (text : jsstr) : option jsstr := if truthy_str (trim text) then Some (trim text) else None.

Definition draftToPayload (draft : ExtraModelDraft) : Payload :=
  mkPayload (parseFloat (input_usd draft)) (parseFloat (output_usd draft)) (optional_price (cache_read_usd draft))
    (optional_price (cache_write_usd draft)) (optional_text (vendor draft)) (optional_text (note draft)).

Definition ratioFromUSD (inputUSD : num) : num := ndiv inputUSD (num_of_Z 2).
Definition completionRatioFromUSD (inputUSD outputUSD : num) : num := if truthy_num inputUSD then ndiv outputUSD inputUSD else one.

Definition formatUSDPrice (value : num) : jsstr :=
  if neq value zero then js "$0"
  else js "$" ++ toFixed (if nlt value (num_of_decimal 1 2) then 4 else if nlt value one then 3 else 2) value.

(** *** The server *)

(** [ExtraModel] as decoded: a missing number, and one JSON writes as [null], is 0. *)
Record ExtraModel := mkExtra { InputUSD : num; OutputUSD : num; CacheReadUSD : num; CacheWriteUSD : num }.
Definition decoded (x : option num) : num := match x with Some x => if is_finite x then x else zero | None => zero end.
Definition decode (p : Payload) : ExtraModel :=
  mkExtra (decoded (Some (p_input_usd p))) (decoded (Some (p_output_usd p))) (decoded (p_cache_read_usd p)) (decoded (p_cache_write_usd p)).

Definition maxExtraPriceUSD : num := num_of_Z 1000.

(** The problems of one entry of [ValidateExtraModels]. *)
Definition extra_problems (inCatalog : jsstr -> bool) (name : jsstr) (extra : ExtraModel) : list Problem :=
  if negb (truthy_str (TrimSpace name)) then [empty_name]
  else if negb (streq name (TrimSpace name)) then [spaced_name]
  else if inCatalog name then [catalogued]
  else
    (if nle (InputUSD extra) zero then [input_not_positive]
     else if nle (OutputUSD extra) zero then [output_not_positive]
     else if ngt (InputUSD extra) maxExtraPriceUSD || ngt (OutputUSD extra) maxExtraPriceUSD then [beyond_bound] else [])
    ++ (if nlt (CacheReadUSD extra) zero || nlt (CacheWriteUSD extra) zero then [negative_cache]
        else if ngt (CacheReadUSD extra) (InputUSD extra) then [cache_above_input] else []).

Definition ValidateExtraModels (inCatalog : jsstr -> bool) (extras : gmap jsstr Payload) : list Problem :=
  concat (map (fun e => extra_problems inCatalog e.1 (decode e.2)) (map_to_list extras)).

(** *** The tab *)

Record ExtraModelRow := mkExtraRow {
  r_model : jsstr; r_vendor : option jsstr; r_note : option jsstr; r_input_usd : num; r_output_usd : num;
  r_cache_read_usd : option num; r_cache_write_usd : option num; r_discount : num; r_model_ratio : num; r_completion_ratio : num
}.

Record ExtraTab := mkExtraTab { rows : list ExtraModelRow; draft : ExtraModelDraft }.

(** [x ? String(x) : ''] *)
Definition price_text (x : option num) : jsstr := match x with Some x => if truthy_num x then num_text x else [] | None => [] end.

Definition row_draft (row : ExtraModelRow) : ExtraModelDraft :=
  mkExtraDraft (r_model row) (num_text (r_input_usd row)) (num_text (r_output_usd row)) (price_text (r_cache_read_usd row))
    (price_text (r_cache_write_usd row)) (default [] (r_vendor row)) (default [] (r_note row)).

(** The table a save sends. *)
Definition save (next : list ExtraModelRow) : gmap jsstr Payload :=
  fold_left (fun table row => <[r_model row := draftToPayload (row_draft row)]> table) next ∅.

Definition on_server_rows (serverRows : list ExtraModelRow) (t : ExtraTab) : ExtraTab := mkExtraTab serverRows (draft t).

Definition added_row (d : ExtraModelDraft) : ExtraModelRow :=
  let input := parseFloat (input_usd d) in
  let output := parseFloat (output_usd d) in
  let text s := if truthy_str s then Some s else None in
  let price s := if truthy_str s then Some (parseFloat s) else None in
  mkExtraRow (model d) (text (vendor d)) (text (note d)) input output (price (cache_read_usd d)) (price (cache_write_usd d)) one
    (ratioFromUSD input) (completionRatioFromUSD input output).

(** A handler gives the tab and, when it saves, the table sent. *)
Definition addDraft (catalogued : list jsstr) (t : ExtraTab) : ExtraTab * option (gmap jsstr Payload) :=
  match validateDraft (draft t) catalogued (map r_model (rows t)) with
  | [] => let next := rows t ++ [added_row (draft t)] in (mkExtraTab next emptyDraft, Some (save next))
  | _ => (t, None)
  end.

Definition edit (row : ExtraModelRow) (t : ExtraTab) : ExtraTab :=
  mkExtraTab (List.filter (fun r => negb (streq (r_model r) (r_model row))) (rows t)) (row_draft row).

Definition remove (name : jsstr) (t : ExtraTab) : ExtraTab * option (gmap jsstr Payload) :=
  let next := List.filter (fun r => negb (streq (r_model r) name)) (rows t) in (mkExtraTab next (draft t), Some (save next)).

Record ModelPriceCandidate := mkCandidate {
  c_provider : jsstr; c_input_usd : num; c_output_usd : num; c_cache_read_usd : option num; c_cache_write_usd : option num
}.

Definition applyCandidate (c : ModelPriceCandidate) (t : ExtraTab) : ExtraTab :=
  let d := draft t in
  mkExtraTab (rows t)
    (mkExtraDraft (model d) (num_text (c_input_usd c)) (num_text (c_output_usd c)) (price_text (c_cache_read_usd c)) (price_text (c_cache_write_usd c))
       (c_provider c) (or_str (note d) (js "models.dev " ++ [183] ++ js " " ++ c_provider c))).

(** ** What a request is billed at: [relay/helper/price.go] with the maps of [setting/ratio_setting/] it
    reads. The catalog compiled into the server and the settings are the fields of
    [Billing]. *)

(** Of an entry, the fields the price of a token or a request depends on. *)
Record CatalogEntry := mkEntry { Model : jsstr; EntryInputUSD : num; EntryOutputUSD : num; PerCallUSD : num }.

Definition usdPerMillionPerRatioUnit : num := num_of_Z 2.
Definition ModelRatio (e : CatalogEntry) : num := ndiv (EntryInputUSD e) usdPerMillionPerRatioUnit.

Definition toCatalogEntry (name : jsstr) (e : ExtraModel) : CatalogEntry := mkEntry name (InputUSD e) (OutputUSD e) zero.

(** [GroupGroupRatio] is by the user's group, then the group a request is priced in. *)
Record Billing := mkBilling {
  unifyapiCatalog : list CatalogEntry; extraModelMap : gmap jsstr ExtraModel;
  modelRatioMap : gmap jsstr num; modelPriceMap : gmap jsstr num; modelDiscountMap : gmap jsstr num;
  groupRatioMap : gmap jsstr num; groupGroupRatioMap : gmap jsstr (gmap jsstr num); groupModelDiscountMap : gmap jsstr (gmap jsstr num);
  billingMode : gmap jsstr jsstr; SelfUseModeEnabled : bool
}.

Definition set_groupModelDiscountMap (table : gmap jsstr (gmap jsstr num)) (b : Billing) : Billing :=
  mkBilling (unifyapiCatalog b) (extraModelMap b) (modelRatioMap b) (modelPriceMap b) (modelDiscountMap b) (groupRatioMap b)
    (groupGroupRatioMap b) table (billingMode b) (SelfUseModeEnabled b).

(** The extras are appended in the order of their names, which shows nowhere below. *)
Definition Catalog (b : Billing) : list CatalogEntry :=
  unifyapiCatalog b ++ map (fun e => toCatalogEntry e.1 e.2) (map_to_list (extraModelMap b)).

Definition catalogIndex (b : Billing) : gmap jsstr CatalogEntry :=
  fold_left (fun index e => <[Model e := e]> index) (unifyapiCatalog b) ∅.

Definition CatalogEntryFor (b : Billing) (name : jsstr) : option CatalogEntry :=
  match catalogIndex b !! name with Some e => Some e | None => toCatalogEntry name <$> extraModelMap b !! name end.

(** The map of ratios as it is rebuilt from the catalog. *)
Definition applyModelDiscounts (b : Billing) : gmap jsstr num :=
  fold_left (fun effective e => <[Model e := nmul (ModelRatio e) (GetModelDiscount (modelDiscountMap b) (Model e))]> effective) (Catalog b) ∅.

Definition CompactModelSuffix : jsstr := js "-openai-compact".
Definition CompactWildcardModelKey : jsstr := js "*" ++ CompactModelSuffix.
Definition HasSuffix (s suffix : jsstr) : bool := starts_with (reverse suffix) (reverse s).

Definition GetModelRatio (b : Billing) (name : jsstr) : num * bool :=
  let name := FormatMatchingModelName name in
  match modelRatioMap b !! name with
  | Some ratio => (ratio, true)
  | None =>
    match (if HasSuffix name CompactModelSuffix then modelRatioMap b !! CompactWildcardModelKey else None) with
    | Some ratio => (ratio, true)
    | None => (num_of_decimal 375 1, SelfUseModeEnabled b)
    end
  end.

Definition GetModelPrice (b : Billing) (name : jsstr) : option num :=
  let name := FormatMatchingModelName name in
  match modelPriceMap b !! name with
  | Some price => Some price
  | None => if HasSuffix name CompactModelSuffix then modelPriceMap b !! CompactWildcardModelKey else None
  end.

Definition GetGroupRatio (b : Billing) (name : jsstr) : num := default one (groupRatioMap b !! name).

Definition GetGroupGroupRatio (b : Billing) (userGroup usingGroup : jsstr) : option num :=
  gp ← groupGroupRatioMap b !! userGroup; gp !! usingGroup.

(** The fields of a request its price depends on; [CreditPricingGroup] is empty without one. *)
Record RelayInfo := mkRelayInfo {
  UserGroup : jsstr; UsingGroup : jsstr; CreditPoolId : Z; CreditPricingGroup : jsstr; OriginModelName : jsstr; AcceptUnsetRatioModel : bool
}.

Definition set_UsingGroup (autoGroup : option jsstr) (info : RelayInfo) : RelayInfo :=
  mkRelayInfo (UserGroup info) (default (UsingGroup info) autoGroup) (CreditPoolId info) (CreditPricingGroup info) (OriginModelName info)
    (AcceptUnsetRatioModel info).

Definition PricingGroup (info : RelayInfo) : jsstr :=
  if (0 <? CreditPoolId info) && truthy_str (CreditPricingGroup info) then CreditPricingGroup info else UsingGroup info.

Record GroupRatioInfo := mkGroupRatioInfo { GroupRatio : num; GroupSpecialRatio : num; HasSpecialRatio : bool }.

(** [autoGroup] is the group chosen for a token of the group auto. *)
Definition HandleGroupRatio (b : Billing) (autoGroup : option jsstr) (info : RelayInfo) : GroupRatioInfo :=
  let info := set_UsingGroup autoGroup info in
  let pricingGroup := PricingGroup info in
  match GetGroupModelDiscount (groupModelDiscountMap b) (UserGroup info) (OriginModelName info) with
  | Some ratio => mkGroupRatioInfo ratio ratio true
  | None =>
    match GetGroupGroupRatio b (UserGroup info) pricingGroup with
    | Some userGroupRatio => mkGroupRatioInfo userGroupRatio userGroupRatio true
    | None => mkGroupRatioInfo (GetGroupRatio b pricingGroup) (num_of_Z (-1)) false
    end
  end.

(** What a request is billed by, next to the ratio of its group: the expression of the
    model, a price per request, a ratio per token, or the refusal of a model without a
    price. *)
Inductive Basis := by_expression | by_price (modelPrice : num) | by_ratio (modelRatio : num) | not_configured.

Definition ModelPriceHelper (b : Billing) (autoGroup : option jsstr) (info : RelayInfo) : Basis * GroupRatioInfo :=
  let name := OriginModelName info in
  let entry := match GetGroupModelDiscount (groupModelDiscountMap b) (UserGroup info) name with Some _ => CatalogEntryFor b name | None => None end in
  let price := match entry with
               | Some e => if ngt (PerCallUSD e) zero then Some (PerCallUSD e) else GetModelPrice b name
               | None => GetModelPrice b name
               end in
  let groupRatioInfo := HandleGroupRatio b autoGroup info in
  if bool_decide (billingMode b !! name = Some (js "tiered_expr")) then (by_expression, groupRatioInfo)
  else
    match price with
    | Some modelPrice => (by_price modelPrice, groupRatioInfo)
    | None =>
      let '(modelRatio, success) := match entry with Some e => (ModelRatio e, true) | None => GetModelRatio b name end in
      (if success || AcceptUnsetRatioModel info then by_ratio modelRatio else not_configured, groupRatioInfo)
    end.

End PriceTables.
