(* ===== verification/PriceTablesLaws.v ===== *)
(** The price tables against the server: what is saved is accepted and used as shown,
    unsaved edits survive new data, and where the form of extra models and the server
    differ. *)

From stdpp Require Import gmap.
From S2P Require Import Prelude JsValue NumText PriceTables.
Import PriceTables.

Module PriceTablesLaws.

(** ** Numbers *)

Lemma neq_one x : neq x one = true -> x = one.
Proof. apply neq_finite. Qed.

Lemma positive_gt x : is_finite x = true -> nle x zero = false -> ngt x zero = true.
Proof. intros Hf Hn. apply nle_total; [by destruct x|done|done]. Qed.

(** ** Tables of deviations *)

Lemma omap_none {A B} (f : A -> option B) l : (forall x, x ∈ l -> f x = None) -> omap f l = [].
Proof. induction l as [|x l IH]; intros H; [done|]. cbn. rewrite H by left. apply IH. intros y Hy. apply H. by right. Qed.

Section Deviations.
Context (parse : jsstr -> option num).
Notation payload drafts := (fold_left (put_deviation parse) drafts ∅).

Lemma payload_snoc drafts e : payload (drafts ++ [e]) = put_deviation parse (payload drafts) e.
Proof. by rewrite fold_left_app. Qed.

Lemma payload_in drafts k x : payload drafts !! k = Some x -> exists raw, (k, raw) ∈ drafts /\ deviation (parse raw) = Some x.
Proof.
  induction drafts as [|[k' raw'] drafts IH] using rev_ind; [done|]. rewrite payload_snoc. unfold put_deviation. cbn [fst snd].
  destruct (deviation (parse raw')) as [y|] eqn:E.
  - destruct (decide (k = k')) as [->|Hne].
    + rewrite lookup_insert_eq. intros [= <-]. exists raw'. rewrite elem_of_app, list_elem_of_singleton. auto.
    + rewrite lookup_insert_ne by done. intros (raw & Hin & Hd)%IH. exists raw. rewrite elem_of_app. auto.
  - intros (raw & Hin & Hd)%IH. exists raw. rewrite elem_of_app. auto.
Qed.

Lemma payload_of drafts k raw : NoDup (map fst drafts) -> (k, raw) ∈ drafts -> payload drafts !! k = deviation (parse raw).
Proof.
  induction drafts as [|[k' raw'] drafts IH] using rev_ind; [by intros _ ?%elem_of_nil|]. rewrite map_app, NoDup_app, payload_snoc.
  intros (Hd & Hk & _). unfold put_deviation. cbn [fst snd map] in *. rewrite elem_of_app, list_elem_of_singleton.
  assert (forall raw0, (k', raw0) ∈ drafts -> False) as Hno.
  { intros raw0 H. apply (Hk k'); [by apply (list_elem_of_fmap_2 fst drafts (k', raw0))|by left]. }
  intros [Hin|[= -> ->]].
  - assert (k <> k') as Hne by (intros ->; by eapply Hno). rewrite <- IH by done. destruct (deviation (parse raw')); [by rewrite lookup_insert_ne|done].
  - destruct (deviation (parse raw')) as [y|]; [by rewrite lookup_insert_eq|].
    destruct (payload drafts !! k') as [x|] eqn:E; [|done]. apply payload_in in E as (raw & Hin & _). by destruct (Hno raw).
Qed.

End Deviations.

(** No invalid rows: every text is usable. *)
Lemma none_unusable (parse : jsstr -> option num) (drafts : list (jsstr * jsstr)) :
  map fst (List.filter (fun e => unusable (parse e.2)) drafts) = [] -> forall k raw, (k, raw) ∈ drafts -> unusable (parse raw) = false.
Proof.
  intros H%map_eq_nil k raw Hin. destruct (unusable (parse raw)) eqn:E; [|done].
  assert (In (k, raw) (List.filter (fun e => unusable (parse e.2)) drafts)) as Hf by (apply filter_In; by rewrite <- list_elem_of_In).
  by rewrite H in Hf.
Qed.

Lemma cost_range raw x : parseCostRatio raw = Some x -> is_nan x = false -> is_finite x = true /\ nle x zero = false /\ ngt x (num_of_Z 5) = false.
Proof.
  unfold parseCostRatio. destruct (truthy_str _); [|done]. intros [= <-].
  destruct (is_finite (string_to_number _)) eqn:E1, (nle (string_to_number _) zero) eqn:E2; cbn [negb orb]; try done.
  change MAX_CHANNEL_COST_RATIO with (num_of_Z 5). by destruct (ngt (string_to_number _) _) eqn:E3.
Qed.

Lemma deviation_Some v x : deviation v = Some x -> v = Some x /\ is_nan x = false.
Proof. destruct v as [y|]; [|done]. cbn [deviation]. destruct (is_nan y) eqn:E; cbn [orb]; [done|]. destruct (neq y one); [done|]. by intros [= <-]. Qed.

(** A value the server looks up in the table of deviations: the default of 1 or the number itself. *)
Lemma deviation_used v :
  unusable v = false -> (forall x, v = Some x -> ngt x zero = true) ->
  match deviation v with Some r => if ngt r zero then r else one | None => one end = default one v.
Proof.
  intros Hu Hp. destruct v as [x|]; [|done]. cbn [unusable deviation] in *. rewrite Hu. cbn [orb]. destruct (neq x one) eqn:E; [symmetry; by apply neq_one|].
  by rewrite (Hp x eq_refl).
Qed.

(** what the cost tab saves is accepted and used as shown. When no row is marked as
    invalid, the server finds nothing wrong with the table that is sent, and the cost
    ratio it then uses for a channel is the number in its row, or 1 where the row is
    empty. *)
Theorem channel_costs_saved (drafts : list (jsstr * jsstr)) :
  NoDup (map fst drafts) -> Forall (fun k => atoi_ok k = true) (map fst drafts) -> invalidCostChannels drafts = [] ->
  ValidateChannelCostRatios (costPayload drafts) = []
  /\ forall id raw, (itoa id, raw) ∈ drafts -> GetChannelCostRatio (costPayload drafts) id = default one (parseCostRatio raw).
Proof.
  intros Hd Hk Hi. pose proof (none_unusable _ _ Hi) as Hu. rewrite Forall_forall in Hk. split.
  - apply omap_none. intros [k x] Hin%elem_of_map_to_list. apply payload_in in Hin as (raw & Hin & [Hp Hn]%deviation_Some).
    destruct (cost_range raw x Hp Hn) as (_ & H1 & H2). unfold cost_problem. cbn [fst snd].
    rewrite (Hk k) by (by apply (list_elem_of_fmap_2 fst drafts (k, raw))). cbn [negb]. by rewrite H1, H2.
  - intros id raw Hin. unfold GetChannelCostRatio, costPayload. rewrite (payload_of parseCostRatio drafts _ raw Hd Hin).
    specialize (Hu _ _ Hin). apply deviation_used; [done|]. intros x Hx. rewrite Hx in Hu. cbn [unusable] in Hu.
    destruct (cost_range raw x Hx Hu) as (? & ? & _). by apply positive_gt.
Qed.

Lemma channel_costs_saved_witness :
  ValidateChannelCostRatios (costPayload [(js "7", js " 0.7 "); (js "12", []); (js "3", js "1.0")]) = []
  /\ map (GetChannelCostRatio (costPayload [(js "7", js " 0.7 "); (js "12", []); (js "3", js "1.0")])) [7; 12; 3; 4] = [num_of_decimal 7 1; one; one; one].
Proof.
  split; [|vm_compute; reflexivity]. apply (channel_costs_saved [(js "7", js " 0.7 "); (js "12", []); (js "3", js "1.0")]);
    [apply (bool_decide_unpack _); vm_compute; reflexivity|repeat constructor|vm_compute; reflexivity].
Defined.

(** The bound of the server is not one of the form. *)
Example discount_bound_unchecked :
  invalidDiscountModels [(js "m", js "20")] = [] /\ ValidateModelDiscounts (fun _ => true) (discountPayload [(js "m", js "20")]) = ([beyond_bound], []).
Proof. split; vm_compute; reflexivity. Qed.

(** ** Prices of customer groups *)








(** A map built by inserting the entries of a list. *)
Section Inserted.
Context {A V} (key : A -> jsstr) (value : A -> V).
Notation inserted l m := (fold_left (fun (m : gmap jsstr V) x => <[key x := value x]> m) l m).




End Inserted.












Section Saved.
Context (b : Billing) (g : jsstr).







End Saved.




(** *** Unsaved edits *)

Inductive GroupEvent :=
| Data (discounts : gmap jsstr (gmap jsstr num))
| Change (g model value : jsstr)
| Reset (g model : jsstr)
| Saved (g : jsstr) (values : gmap jsstr num) (success : bool).

Definition group_event (s : GroupEditor) (e : GroupEvent) : GroupEditor :=
  match e with
  | Data d => on_server_data d s
  | Change g m v => onChange g m v s
  | Reset g m => onReset g m s
  | Saved g v ok => on_saved g v ok s
  end.

(** The events that are about the group. *)
Definition about (g : jsstr) (e : GroupEvent) : Prop :=
  match e with Data _ => False | Change g' _ _ | Reset g' _ | Saved g' _ _ => g' = g end.

Lemma merged_drafts server current dirty g :
  default ∅ (mergeCustomerModelDrafts server current dirty !! g)
  = if bool_decide (g ∈ dirty) then default ∅ (current !! g) else texts (default ∅ (server !! g)).
Proof.
  unfold mergeCustomerModelDrafts. destruct (decide (g ∈ dom server ∪ dom current)) as [Hin|Hout].
  - set (f := fun group => _). assert (set_to_map f (dom server ∪ dom current : gset jsstr) !! g = Some ((f g).2)) as ->; [|done].
    apply lookup_set_to_map; [by intros x y|]. exists g. by split.
  - destruct (set_to_map _ _ !! g) as [x|] eqn:E.
    { apply lookup_set_to_map in E as (y & Hy & [= -> _]); [done|by intros ? ?]. }
    apply not_elem_of_union in Hout as [H1%not_elem_of_dom H2%not_elem_of_dom]. rewrite H1, H2. cbn. unfold texts. rewrite fmap_empty.
    by destruct (bool_decide _).
Qed.

Lemma unsaved_step g e s :
  g ∈ dirtyGroups s -> ~ about g e -> group_drafts g (group_event s e) = group_drafts g s /\ g ∈ dirtyGroups (group_event s e).
Proof.
  intros Hg Hn. destruct e as [d|g' m v|g' m|g' v ok]; cbn [group_event about] in *.
  - unfold on_server_data, group_drafts. cbn [drafts dirtyGroups]. rewrite merged_drafts. by rewrite bool_decide_eq_true_2.
  - unfold onChange, group_drafts. cbn [drafts dirtyGroups]. rewrite lookup_insert_ne by done. split; [done|set_solver].
  - unfold onReset, group_drafts. cbn [drafts dirtyGroups]. rewrite lookup_insert_ne by done. split; [done|set_solver].
  - unfold on_saved, group_drafts. destruct ok; [|done]. cbn [drafts dirtyGroups]. rewrite lookup_insert_ne by done. split; [done|set_solver].
Qed.

(** C19: unsaved prices of a customer group survive whatever happens elsewhere: once a group
    was edited, no number of refreshes from the server, edits of other groups and
    answers to saves of other groups changes its drafts, while a refresh shows the
    server's numbers for every group without unsaved edits. *)
Theorem unsaved_edits_survive (es : list GroupEvent) (s : GroupEditor) (g : jsstr) :
  (g ∈ dirtyGroups s -> Forall (fun e => ~ about g e) es ->
     group_drafts g (fold_left group_event es s) = group_drafts g s /\ g ∈ dirtyGroups (fold_left group_event es s))
  /\ (g ∉ dirtyGroups s -> forall d, group_drafts g (on_server_data d s) = texts (default ∅ (d !! g))).
Proof.
  split.
  - revert s. induction es as [|e es IH]; intros s Hg Hn; [done|]. apply Forall_cons in Hn as [He Hn].
    destruct (unsaved_step g e s Hg He) as [E Hg']. cbn [fold_left]. rewrite <- E. by apply IH.
  - intros Hg d. unfold on_server_data, group_drafts. cbn [drafts]. rewrite merged_drafts. by rewrite bool_decide_eq_false_2.
Qed.

Lemma unsaved_edits_survive_witness :
  group_drafts (js "vip") (fold_left group_event [Data {[js "vip" := {[js "opus" := one]}]}; Reset (js "svip") (js "opus")]
    (onChange (js "vip") (js "opus") (js "0.8") (mkGroupEditor ∅ ∅))) = {[js "opus" := js "0.8"]}.
Proof.
  refine (eq_trans (proj1 (proj1 (unsaved_edits_survive _ _ (js "vip")) _ _)) _).
  - apply (bool_decide_unpack _). vm_compute. reflexivity.
  - repeat constructor; cbn [about]; [tauto|discriminate].
  - vm_compute. reflexivity.
Defined.

(** An edit made while the save of its group is under way is lost. *)
Example edit_during_save_lost :
  let s := onChange (js "vip") (js "opus") (js "0.8") (mkGroupEditor ∅ ∅) in
  let sent := default ∅ (save_values (js "vip") s) in
  let s := on_saved (js "vip") sent true (onChange (js "vip") (js "haiku") (js "0.5") s) in
  group_drafts (js "vip") s !! js "haiku" = None /\ dirtyGroups s = ∅.
Proof. split; vm_compute; reflexivity. Qed.

(** ** Models outside the catalog *)

Lemma trim_start_len s : (length (trim_start s) <= length s)%nat.
Proof. induction s as [|c s IH]; cbn; [lia|]. destruct (is_space c); cbn; lia. Qed.

Lemma trim_start_full s : length (trim_start s) = length s -> trim_start s = s.
Proof. destruct s as [|c s]; [done|]. cbn. destruct (is_space c); [|done]. pose proof (trim_start_len s). lia. Qed.

Lemma trim_start_drop s : trim_start s = s -> 133 ∉ s -> drop_spaces s = s.
Proof.
  destruct s as [|c s]; [done|]. cbn [trim_start drop_spaces]. intros H Hn. apply not_elem_of_cons in Hn as [Hn _]. unfold go_space.
  destruct (is_space c); [pose proof (trim_start_len s) as Hl; rewrite H in Hl; cbn in Hl; lia|].
  destruct (Z.eqb_spec c 133); [congruence|done].
Qed.

(** A text the browser does not trim is not trimmed by the server, unless it has a next-line
    character, which only the server takes for white space. *)
Lemma trim_both s : trim s = s -> 133 ∉ s -> TrimSpace s = s.
Proof.
  intros H Hn. unfold trim in H. pose proof (f_equal length H) as Hl. rewrite length_reverse in Hl.
  pose proof (trim_start_len (reverse (trim_start s))) as H1. rewrite length_reverse in H1. pose proof (trim_start_len s) as H2.
  assert (trim_start s = s) as E by (apply trim_start_full; lia). rewrite E in Hl.
  assert (trim_start (reverse s) = reverse s) as E' by (apply trim_start_full; rewrite length_reverse; lia).
  unfold TrimSpace. rewrite (trim_start_drop s E Hn), trim_start_drop; [by rewrite reverse_involutive|done|by rewrite elem_of_reverse].
Qed.

Lemma name_errors_none name cat existing :
  name_errors name cat existing = [] -> truthy_str name = true /\ trim name = name /\ name ∉ cat /\ name ∉ existing.
Proof.
  unfold name_errors. destruct (truthy_str (trim name)) eqn:E; [|done]. cbn [negb]. destruct (streq name (trim name)) eqn:E2; [|done]. cbn [negb].
  apply streq_true in E2. rewrite <- E2 in E. case_bool_decide; [done|]. case_bool_decide; [done|]. by rewrite E.
Qed.

Lemma price_errors_none field value message :
  price_errors field value message = [] -> is_finite value = true /\ nle value zero = false /\ ngt value (num_of_Z 1000) = false.
Proof.
  unfold price_errors. destruct (is_finite value); [|done]. destruct (nle value zero); [done|]. cbn [negb orb].
  change MAX_PRICE_USD with (num_of_Z 1000). by destruct (ngt value _).
Qed.

Lemma cache_errors_none text input :
  is_finite input = true -> nle input zero = false -> cache_errors text input = [] ->
  nlt (decoded (optional_price text)) zero = false /\ ngt (decoded (optional_price text)) input = false.
Proof.
  unfold cache_errors, optional_price. intros Hf Hi. destruct (truthy_str (trim text)); cbn [andb decoded].
  - destruct (is_finite (parseFloat text)) eqn:E; [|done]. cbn [negb orb decoded]. rewrite E, Hf. cbn [andb].
    destruct (nlt _ zero) eqn:E1; [done|]. by destruct (ngt _ input).
  - intros _. split; [done|]. destruct (ngt zero input) eqn:E; [|done]. exfalso. unfold ngt in E. fold (nlt input zero) in E.
    unfold nlt, nle, SFltb, SFleb in *. by destruct (SFcompare input zero) as [[]|].
Qed.

Lemma decoded_finite x : is_finite x = true -> decoded (Some x) = x.
Proof. intros H. cbn [decoded]. by rewrite H. Qed.

(** the form for a model outside the catalog and the server agree on everything but the
    price of cache writes: a draft the form accepts, whose name has no next-line
    character, is accepted by the server unless its cache write price is negative, and
    then that is the one problem the server reports. *)
Theorem extra_form_vs_server (d : ExtraModelDraft) (catalog existing : list jsstr) :
  validateDraft d catalog existing = [] -> 133 ∉ model d ->
  extra_problems (fun n => bool_decide (n ∈ catalog)) (model d) (decode (draftToPayload d))
  = if nlt (decoded (optional_price (cache_write_usd d))) zero then [negative_cache] else [].
Proof.
  intros Hv Hn. unfold validateDraft in Hv.
  apply app_eq_nil in Hv as [H1 [H2 [H3 H4]%app_eq_nil]%app_eq_nil].
  apply name_errors_none in H1 as (Ht & Hs & Hc & _). apply price_errors_none in H2 as (F1 & L1 & B1). apply price_errors_none in H3 as (F2 & L2 & B2).
  apply (cache_errors_none _ _ F1 L1) in H4 as [C1 C2]. unfold extra_problems. rewrite (trim_both _ Hs Hn), Ht, streq_refl. cbn [negb].
  rewrite bool_decide_eq_false_2 by done. unfold decode, draftToPayload.
  cbn [InputUSD OutputUSD CacheReadUSD CacheWriteUSD p_input_usd p_output_usd p_cache_read_usd p_cache_write_usd].
  rewrite (decoded_finite _ F1), (decoded_finite _ F2), L1, L2, C1, C2. change maxExtraPriceUSD with (num_of_Z 1000). rewrite B1, B2. cbn [orb app].
  done.
Qed.

Lemma extra_form_vs_server_witness :
  extra_problems (fun n => bool_decide (n ∈ [js "opus"])) (js "acme-1") (decode (draftToPayload (mkExtraDraft (js "acme-1") (js "3") (js "15") (js "0.3") (js "-1") [] [])))
  = [negative_cache].
Proof.
  refine (eq_trans (extra_form_vs_server (mkExtraDraft (js "acme-1") (js "3") (js "15") (js "0.3") (js "-1") [] []) [js "opus"] [] _ _) _).
  - vm_compute. reflexivity.
  - apply (bool_decide_unpack _). vm_compute. reflexivity.
  - vm_compute. reflexivity.
Defined.

(** The next-line character: a name the form takes and the server trims. *)
Example next_line_name :
  name_errors ([133] ++ js "acme") [] [] = [] /\ extra_problems (fun _ => false) ([133] ++ js "acme") (mkExtra one one zero zero) = [spaced_name].
Proof. split; vm_compute; reflexivity. Qed.

Lemma saved_names next name : is_Some (save next !! name) -> name ∈ map r_model next.
Proof.
  unfold save. induction next as [|row next IH] using rev_ind; [intros [x Hx]; done|]. rewrite fold_left_app, map_app, elem_of_app. cbn [fold_left map].
  destruct (decide (name = r_model row)) as [->|Hne]; [intros _; right; by left|]. rewrite lookup_insert_ne by done. auto.
Qed.

Lemma saved_all next name : name ∈ map r_model next -> is_Some (save next !! name).
Proof.
  unfold save. induction next as [|row next IH] using rev_ind; [by intros ?%elem_of_nil|]. rewrite fold_left_app, map_app, elem_of_app. cbn [fold_left map].
  intros [H|H%list_elem_of_singleton]; [|rewrite H, lookup_insert_eq; done].
  destruct (decide (name = r_model row)) as [->|Hne]; [by rewrite lookup_insert_eq|]. rewrite lookup_insert_ne by done. auto.
Qed.

Lemma filtered_names (p : ExtraModelRow -> bool) rs name : name ∈ map r_model (List.filter p rs) <-> exists r, r ∈ rs /\ p r = true /\ r_model r = name.
Proof.
  rewrite list_elem_of_fmap. split; intros (r & H1 & H2).
  - apply list_elem_of_In, filter_In in H2 as [H2 H3]. exists r. by rewrite list_elem_of_In.
  - destruct H2 as [H2 H3]. exists r. split; [done|]. apply list_elem_of_In, filter_In. by rewrite <- list_elem_of_In.
Qed.

(** pressing Edit on a model outside the catalog takes its row out of the table, and
    any save before the form is submitted again deletes the model on the server: the
    table that removing another row sends has every other model but not the one that is
    being edited. *)
Theorem edited_row_lost (row : ExtraModelRow) (other : jsstr) (t : ExtraTab) (sent : gmap jsstr Payload) :
  (remove other (edit row t)).2 = Some sent ->
  sent !! r_model row = None
  /\ forall name, is_Some (sent !! name) <-> name ∈ map r_model (rows t) /\ name <> r_model row /\ name <> other.
Proof.
  cbn [remove snd]. intros [= <-]. set (next := List.filter _ _).
  assert (forall name, name ∈ map r_model next <-> name ∈ map r_model (rows t) /\ name <> r_model row /\ name <> other) as Hn.
  { intros name. unfold next, edit. cbn [rows]. rewrite filtered_names, list_elem_of_fmap. split.
    - intros (r & Hr & Ho & <-). apply list_elem_of_In, filter_In in Hr as [Hr He]. rewrite <- list_elem_of_In in Hr.
      apply negb_true_iff, streq_false in Ho. apply negb_true_iff, streq_false in He. split_and!; [by exists r|done|done].
    - intros ((r & -> & Hr) & He & Ho). exists r. split_and!; [|by apply negb_true_iff, streq_false|done].
      apply list_elem_of_In, filter_In. split; [by apply list_elem_of_In|by apply negb_true_iff, streq_false]. }
  split; [|intros name; rewrite <- Hn; split; [apply saved_names|apply saved_all]].
  apply eq_None_not_Some. intros H%saved_names%Hn. by destruct H as (_ & H & _).
Qed.

Definition sample_row (name : jsstr) : ExtraModelRow := mkExtraRow name None None (num_of_Z 3) (num_of_Z 15) None None one one one.

Lemma edited_row_lost_witness :
  dom (default ∅ (remove (js "beta") (edit (sample_row (js "acme")) (mkExtraTab (map sample_row [js "acme"; js "beta"; js "gamma"]) emptyDraft))).2) = ({[js "gamma"]} : gset jsstr).
Proof.
  refine (let H := edited_row_lost (sample_row (js "acme")) (js "beta") (mkExtraTab (map sample_row [js "acme"; js "beta"; js "gamma"]) emptyDraft) _ eq_refl in _).
  clearbody H. apply set_eq. intros name. rewrite elem_of_dom, elem_of_singleton. refine (iff_trans (proj2 H name) _).
  cbn [map rows sample_row r_model]. rewrite !elem_of_cons, elem_of_nil. split; [naive_solver|intros ->; split_and!; [tauto|discriminate|discriminate]].
Defined.

End PriceTablesLaws.
