(* ===== verification/PlaygroundMessages.v ===== *)
(** Playground messages: reasoning tags, streaming, completion, editing and the
    request payload (src/web/src/features/playground/lib/message/ and
    lib/streaming/). Identifiers that the code draws from [nanoid] and readings of
    the clock are arguments. *)

From S2P Require Import Prelude JsValue.

Module PlaygroundMessages.

(** ** Data *)

Inductive MessageRole := USER | ASSISTANT | SYSTEM.
Inductive MessageStatus := LOADING | STREAMING | COMPLETE | ERROR.

#[export] Instance MessageRole_eq_dec : EqDecision MessageRole.
Proof. solve_decision. Defined.
#[export] Instance MessageStatus_eq_dec : EqDecision MessageStatus.
Proof. solve_decision. Defined.

Record MessageVersion := mkVersion { id : jsstr; content : jsstr }.

(** Times are milliseconds, durations milliseconds or (for [duration]) seconds. *)
Record Reasoning := mkReasoning {
  r_content : jsstr;
  r_duration : Z;
  r_startedAt : option Z;
  r_completedAt : option Z;
  r_durationMs : option Z
}.

Record Message := mkMessage {
  key : jsstr;
  from : MessageRole;
  versions : list MessageVersion;
  createdAt : option Z;
  startedAt : option Z;
  completedAt : option Z;
  durationMs : option Z;
  sources : option (list (jsstr * jsstr));
  reasoning : option Reasoning;
  isReasoningStreaming : option bool;
  isReasoningComplete : option bool;
  isContentComplete : option bool;
  status : option MessageStatus;
  errorCode : option (option jsstr)
}.

(** [{...m, versions}] and the like. *)
Definition with_versions (vs : list MessageVersion) (m : Message) : Message :=
  mkMessage m.(key) m.(from) vs m.(createdAt) m.(startedAt) m.(completedAt) m.(durationMs) m.(sources)
    m.(reasoning) m.(isReasoningStreaming) m.(isReasoningComplete) m.(isContentComplete) m.(status) m.(errorCode).
Definition with_reasoning (r : option Reasoning) (m : Message) : Message :=
  mkMessage m.(key) m.(from) m.(versions) m.(createdAt) m.(startedAt) m.(completedAt) m.(durationMs) m.(sources)
    r m.(isReasoningStreaming) m.(isReasoningComplete) m.(isContentComplete) m.(status) m.(errorCode).
Definition with_reasoning_streaming (b : bool) (m : Message) : Message :=
  mkMessage m.(key) m.(from) m.(versions) m.(createdAt) m.(startedAt) m.(completedAt) m.(durationMs) m.(sources)
    m.(reasoning) (Some b) m.(isReasoningComplete) m.(isContentComplete) m.(status) m.(errorCode).
Definition with_status (s : MessageStatus) (m : Message) : Message :=
  mkMessage m.(key) m.(from) m.(versions) m.(createdAt) m.(startedAt) m.(completedAt) m.(durationMs) m.(sources)
    m.(reasoning) m.(isReasoningStreaming) m.(isReasoningComplete) m.(isContentComplete) (Some s) m.(errorCode).
Definition with_error_code (e : option jsstr) (m : Message) : Message :=
  mkMessage m.(key) m.(from) m.(versions) m.(createdAt) m.(startedAt) m.(completedAt) m.(durationMs) m.(sources)
    m.(reasoning) m.(isReasoningStreaming) m.(isReasoningComplete) m.(isContentComplete) m.(status) (Some e).
Definition with_created (t : option Z) (m : Message) : Message :=
  mkMessage m.(key) m.(from) m.(versions) t m.(startedAt) m.(completedAt) m.(durationMs) m.(sources)
    m.(reasoning) m.(isReasoningStreaming) m.(isReasoningComplete) m.(isContentComplete) m.(status) m.(errorCode).
Definition with_timing (s c d : Z) (m : Message) : Message :=
  mkMessage m.(key) m.(from) m.(versions) m.(createdAt) (Some s) (Some c) (Some d) m.(sources)
    m.(reasoning) m.(isReasoningStreaming) m.(isReasoningComplete) m.(isContentComplete) m.(status) m.(errorCode).

(** ** Versions *)

Definition getCurrentVersion (m : Message) : MessageVersion :=
  match m.(versions) with v :: _ => v | [] => mkVersion (js "default") [] end.

Definition getMessageContent (m : Message) : jsstr := (getCurrentVersion m).(content).

Definition hasMessageContent (m : Message) : bool := negb (streq (trim (getMessageContent m)) []).

Definition updateCurrentVersionContent (m : Message) (c : jsstr) : Message :=
  with_versions [mkVersion (getCurrentVersion m).(id) c] m.

Definition createUserMessage (k vid c : jsstr) (createdAt : Z) : Message :=
  mkMessage k USER [mkVersion vid c] (Some createdAt) None None None None None None None None None None.

Definition createLoadingAssistantMessage (k vid : jsstr) (startedAt : Z) : Message :=
  mkMessage k ASSISTANT [mkVersion vid []] (Some startedAt) (Some startedAt) None None None None
    (Some false) (Some false) (Some false) (Some LOADING) None.

(** ** Content of a request *)

Inductive ContentPart := TextPart (text : jsstr) | ImagePart (url : jsstr).
Inductive MessageBody := Plain (text : jsstr) | Parts (parts : list ContentPart).

Definition buildMessageContent (text : jsstr) (imageUrls : list jsstr) : MessageBody :=
  match List.filter (fun u => negb (streq (trim u) [])) imageUrls with
  | [] => Plain text
  | validImages => Parts (TextPart text :: map (fun u => ImagePart (trim u)) validImages)
  end.

Definition getTextContent (b : MessageBody) : jsstr :=
  match b with
  | Plain s => s
  | Parts ps =>
      match List.find (fun p => match p with TextPart _ => true | _ => false end) ps with
      | Some (TextPart s) => s
      | _ => []
      end
  end.

Definition formatMessageForAPI (m : Message) : MessageRole * MessageBody :=
  (m.(from), Plain (getCurrentVersion m).(content)).

Definition isValidMessage (m : Message) : bool :=
  match m.(versions) with
  | [] => false
  | _ => negb (bool_decide (m.(from) = ASSISTANT) && negb (hasMessageContent m))
  end.

Record PlaygroundConfig := mkConfig {
  model : jsstr; group : jsstr; temperature : num; top_p : num; max_tokens : num;
  frequency_penalty : num; presence_penalty : num; seed : option num; stream : bool
}.

Record ParameterEnabled := mkEnabled {
  e_temperature : bool; e_top_p : bool; e_max_tokens : bool;
  e_frequency_penalty : bool; e_presence_penalty : bool; e_seed : bool
}.

Record ChatCompletionRequest := mkRequest {
  q_model : jsstr; q_group : jsstr; q_messages : list (MessageRole * MessageBody); q_stream : bool;
  q_temperature : option num; q_top_p : option num; q_max_tokens : option num;
  q_frequency_penalty : option num; q_presence_penalty : option num; q_seed : option num
}.

Definition buildChatCompletionPayload (messages : list Message) (config : PlaygroundConfig)
    (enabled : ParameterEnabled) : ChatCompletionRequest :=
  let given (b : bool) (x : num) := if b then Some x else None in
  mkRequest config.(model) config.(group)
    (map formatMessageForAPI (List.filter isValidMessage messages)) config.(stream)
    (given enabled.(e_temperature) config.(temperature))
    (given enabled.(e_top_p) config.(top_p))
    (given enabled.(e_max_tokens) config.(max_tokens))
    (given enabled.(e_frequency_penalty) config.(frequency_penalty))
    (given enabled.(e_presence_penalty) config.(presence_penalty))
    (if enabled.(e_seed) then config.(seed) else None).

(** ** Reasoning tags *)

Definition OPEN_TAG : jsstr := js "<think>".
Definition CLOSE_TAG : jsstr := js "</think>".

(** The text before and after the first occurrence of [p] ([indexOf] and the slices
    around it). *)
Fixpoint find_sub (p s : jsstr) : option (jsstr * jsstr) :=
  if starts_with p s then Some ([], drop (length p) s)
  else match s with
       | [] => None
       | c :: s' => match find_sub p s' with Some (a, b) => Some (c :: a, b) | None => None end
       end.

Record ParsedThinkTags := mkParsed { visibleContent : jsstr; parsed_reasoning : jsstr; hasUnclosedTag : bool }.

(** The loop; [rest] is the content from [currentPos]. Each round passes an opening
    tag, so the length of the content is enough fuel. The parts are returned in
    order: visible parts, reasoning parts, [hasUnclosedTag]. *)
Fixpoint think_loop (fuel : nat) (rest : jsstr) : list jsstr * list jsstr * bool :=
  match fuel with
  | O => ([], [], false)
  | S f =>
      match find_sub OPEN_TAG rest with
      | None => (match rest with [] => [] | _ => [rest] end, [], false)
      | Some (before, after) =>
          let visible := match before with [] => [] | _ => [before] end in
          match find_sub CLOSE_TAG after with
          | None => (visible, [after], true)
          | Some (r, rest') =>
              let '(vs, rs, unclosed) := think_loop f rest' in
              (visible ++ vs, r :: rs, unclosed)
          end
      end
  end.

Definition parseThinkTags (content : jsstr) : ParsedThinkTags :=
  if negb (includes OPEN_TAG content) then mkParsed content [] false
  else
    let '(vs, rs, unclosed) := think_loop (S (length content)) content in
    mkParsed (trim (join [] vs)) (trim (join [10; 10] rs)) unclosed.

(** ** Timing *)

(** The readings of [Date.now()] an update may take: when reasoning starts, when it
    completes, when the message completes. *)
Record Clock := mkClock { c_reasoning_start : Z; c_reasoning_end : Z; c_end : Z }.

Definition or_else {A} (a : option A) (b : A) : A := default b a.
Definition first_some {A} (a b : option A) : option A := match a with Some _ => a | None => b end.

Definition completeAssistantTiming (m : Message) (completedAt : Z) : Message :=
  if negb (bool_decide (m.(from) = ASSISTANT)) then m
  else
    let s := or_else (first_some m.(startedAt) m.(createdAt)) completedAt in
    with_timing s completedAt (Z.max 0 (completedAt - s)) m.

Definition startReasoningTiming (m : Message) (startedAt : Z) : Reasoning :=
  mkReasoning (or_else (r_content <$> m.(reasoning)) [])
    (or_else (r_duration <$> m.(reasoning)) 0)
    (Some (or_else (m.(reasoning) ≫= r_startedAt) startedAt))
    (m.(reasoning) ≫= r_completedAt)
    (m.(reasoning) ≫= r_durationMs).

(** [Math.ceil(ms / 1000)] *)
Definition ceil_seconds (ms : Z) : Z := - ((- ms) / 1000).

Definition completeReasoningTiming (m : Message) (completedAt : Z) : Message :=
  match m.(reasoning) with
  | None => m
  | Some r =>
      match r.(r_durationMs) with
      | Some _ => m
      | None =>
          let s := or_else (first_some r.(r_startedAt) m.(startedAt)) completedAt in
          let d := Z.max 0 (completedAt - s) in
          with_reasoning (Some (mkReasoning r.(r_content) (ceil_seconds d) (Some s) (Some completedAt) (Some d))) m
      end
  end.

(** [{...r, content}] *)
Definition reasoning_content (r : Reasoning) (c : jsstr) : Reasoning :=
  mkReasoning c r.(r_duration) r.(r_startedAt) r.(r_completedAt) r.(r_durationMs).

(** ** Streaming *)

Definition processStreamingContent (ck : Clock) (m : Message) (chunk : jsstr) : Message :=
  let fullContent := (getCurrentVersion m).(content) ++ chunk in
  let updated := updateCurrentVersionContent m fullContent in
  if negb (bool_decide (is_Some m.(reasoning))) && negb (includes OPEN_TAG fullContent) then
    with_reasoning_streaming false updated
  else
    let p := parseThinkTags fullContent in
    let finalReasoning :=
      if truthy_str p.(parsed_reasoning)
      then Some (reasoning_content (startReasoningTiming m ck.(c_reasoning_start)) p.(parsed_reasoning))
      else m.(reasoning) in
    with_reasoning_streaming p.(hasUnclosedTag) (with_reasoning finalReasoning updated).

Inductive StreamChunkType := chunk_reasoning | chunk_content.

Definition getAppendableChunk (currentContent chunk : jsstr) : jsstr :=
  if negb (truthy_str currentContent) || negb (starts_with currentContent chunk) then chunk
  else drop (length currentContent) chunk.

Definition applyStreamingChunk (ck : Clock) (m : Message) (type : StreamChunkType) (chunk : jsstr) : Message :=
  if bool_decide (m.(status) = Some ERROR) then m
  else
    match type with
    | chunk_reasoning =>
        let r := startReasoningTiming m ck.(c_reasoning_start) in
        let appendable := getAppendableChunk r.(r_content) chunk in
        with_status STREAMING
          (with_reasoning_streaming true
             (with_reasoning (Some (reasoning_content r (r.(r_content) ++ appendable))) m))
    | chunk_content =>
        let appendable := getAppendableChunk (getCurrentVersion m).(content) chunk in
        let contentMessage := processStreamingContent ck m appendable in
        with_status STREAMING
          (if default false contentMessage.(isReasoningStreaming) then contentMessage
           else completeReasoningTiming contentMessage ck.(c_reasoning_end))
    end.

Definition finalizeMessage (ck : Clock) (m : Message) (apiReasoningContent : jsstr) : Message :=
  let c := (getCurrentVersion m).(content) in
  let parsed := if includes OPEN_TAG c then Some (parseThinkTags c) else None in
  let visible := match parsed with Some p => p.(visibleContent) | None => c end in
  let finalReasoning :=
    or_str apiReasoningContent
      (or_str (default [] (r_content <$> m.(reasoning)))
         (match parsed with Some p => p.(parsed_reasoning) | None => [] end)) in
  let finalized :=
    with_reasoning_streaming false
      (with_reasoning
         (if truthy_str finalReasoning
          then Some (reasoning_content (startReasoningTiming m ck.(c_reasoning_start)) finalReasoning)
          else None)
         (updateCurrentVersionContent m visible)) in
  completeReasoningTiming finalized ck.(c_reasoning_end).

Definition completeAssistantMessage (ck : Clock) (m : Message) : Message :=
  completeAssistantTiming (with_status COMPLETE (finalizeMessage ck m [])) ck.(c_end).

Definition isAssistantMessageFinal (m : Message) : bool :=
  bool_decide (m.(status) = Some COMPLETE) || bool_decide (m.(status) = Some ERROR).

Definition isAssistantMessagePending (m : Message) : bool :=
  bool_decide (m.(status) = Some LOADING) || bool_decide (m.(status) = Some STREAMING).

Definition isPendingAssistantMessage (m : Message) : bool :=
  bool_decide (m.(from) = ASSISTANT) && isAssistantMessagePending m.

(** A choice of a response: [message.content] and [message.reasoning_content]. *)
Record Choice := mkChoice { choice_content : option jsstr; choice_reasoning : option jsstr }.

Definition applyChatCompletionChoice (ck : Clock) (m : Message) (c : Choice) : Message :=
  completeAssistantTiming
    (with_status COMPLETE
       (finalizeMessage ck (updateCurrentVersionContent m (default [] c.(choice_content)))
          (default [] c.(choice_reasoning))))
    ck.(c_end).

Definition applyChatCompletionResponse (ck : Clock) (m : Message) (choices : list Choice) : option Message :=
  match choices with c :: _ => Some (applyChatCompletionChoice ck m c) | [] => None end.

Section Load.
(** The translation function of i18next. *)
Context (t : jsstr -> jsstr).

Definition interrupted_text : jsstr :=
  t (js "Request error occurred") ++ js ": " ++ t (js "Generation was interrupted").

(** The stable form of a pending message. *)
Definition sanitize_one (ck : Clock) (m : Message) : Message :=
  let finalized := finalizeMessage ck m [] in
  let hasReasoning := truthy_str (trim (default [] (r_content <$> finalized.(reasoning)))) in
  if hasMessageContent finalized || hasReasoning
  then completeAssistantTiming (with_reasoning_streaming false (with_status COMPLETE finalized)) ck.(c_end)
  else completeAssistantTiming
         (with_reasoning_streaming false
            (with_status ERROR (updateCurrentVersionContent finalized interrupted_text)))
         ck.(c_end).

(** The backward search for the last pending assistant message. *)
Fixpoint last_pending (l : list Message) (index : nat) : option nat :=
  match l with
  | [] => None
  | m :: l' => first_some (last_pending l' (S index)) (if isPendingAssistantMessage m then Some index else None)
  end.

Definition sanitizeMessagesOnLoad (ck : Clock) (messages : list Message) : list Message :=
  match last_pending messages 0 with
  | None => messages
  | Some i => match messages !! i with
              | Some m => <[i := sanitize_one ck m]> messages
              | None => messages
              end
  end.

End Load.

(** ** Updating the last message *)

Definition updateLastAssistantMessage (messages : list Message) (updater : Message -> Message) : list Message :=
  match last messages with
  | Some m => if bool_decide (m.(from) = ASSISTANT)
              then <[(length messages - 1)%nat := updater m]> messages else messages
  | None => messages
  end.

Definition updateAssistantMessageWithError (ck : Clock) (messages : list Message)
    (errorMessage : jsstr) (code : option jsstr) (title : jsstr) : list Message :=
  updateLastAssistantMessage messages (fun m =>
    completeAssistantTiming
      (with_error_code (code ≫= fun c => if truthy_str c then Some c else None)
         (with_reasoning_streaming false
            (with_status ERROR (updateCurrentVersionContent m (title ++ js ": " ++ errorMessage)))))
      ck.(c_end)).

(** ** The conversation *)

(** Identifiers for the messages created: key and version of each. *)
Record Ids := mkIds { user_key : jsstr; user_version : jsstr; asst_key : jsstr; asst_version : jsstr }.

Definition appendUserMessagePair (ids : Ids) (now : Z) (messages : list Message) (c : jsstr) : list Message :=
  messages ++ [createUserMessage ids.(user_key) ids.(user_version) c now;
               createLoadingAssistantMessage ids.(asst_key) ids.(asst_version) now].

(** [messages.findIndex((message) => message.key === k)] and the message. *)
Fixpoint find_key (k : jsstr) (messages : list Message) (index : nat) : option (nat * Message) :=
  match messages with
  | [] => None
  | m :: l => if streq m.(key) k then Some (index, m) else find_key k l (S index)
  end.

Definition createRegeneratedMessages (ids : Ids) (now : Z) (messages : list Message) (messageKey : jsstr)
    : option (list Message) :=
  match find_key messageKey messages 0 with
  | None => None
  | Some (i, m) =>
      let fresh := createLoadingAssistantMessage ids.(asst_key) ids.(asst_version) now in
      Some (take (if bool_decide (m.(from) = USER) then S i else i) messages ++ [fresh])
  end.

Definition removeMessageByKey (messages : list Message) (messageKey : jsstr) : list Message :=
  List.filter (fun m => negb (streq m.(key) messageKey)) messages.

(** The loop of [getPreviousUserMessage], over the messages before the index, last
    first. *)
Definition getPreviousUserMessage (messages : list Message) (beforeIndex : nat) : option Message :=
  List.find (fun m => bool_decide (m.(from) = USER)) (reverse (take beforeIndex messages)).

(** [messages], [shouldSend] *)
Definition applyMessageEdit (ids : Ids) (now : Z) (messages : list Message) (messageKey c : jsstr)
    (shouldSubmit : bool) : option (list Message * bool) :=
  match find_key messageKey messages 0 with
  | None => None
  | Some (i, _) =>
      let updated := map (fun m =>
        if streq m.(key) messageKey
        then with_created (if shouldSubmit then Some now else m.(createdAt)) (updateCurrentVersionContent m c)
        else m) messages in
      let isUser := match updated !! i with Some m => bool_decide (m.(from) = USER) | None => false end in
      if negb shouldSubmit || negb isUser then Some (updated, false)
      else Some (take (S i) updated ++ [createLoadingAssistantMessage ids.(asst_key) ids.(asst_version) now], true)
  end.

Definition getEditingMessageContent (messages : list Message) (editingKey : option jsstr) : jsstr :=
  match editingKey with
  | None | Some [] => []
  | Some k => match List.find (fun m => streq m.(key) k) messages with
              | Some m => getMessageContent m
              | None => []
              end
  end.

(** [alwaysShowActions], [content], [isEditing] *)
Definition getChatMessageRenderState (messages : list Message) (m : Message) (messageIndex : Z)
    (editingKey : option jsstr) : bool * jsstr * bool :=
  ((messageIndex =? Z.of_nat (length messages) - 1) && bool_decide (m.(from) = ASSISTANT),
   getMessageContent m, bool_decide (editingKey = Some m.(key))).

(** ** What is displayed *)

Definition shouldShowMessageLoader (m : Message) (isAssistant : bool) (versionContent : jsstr) : bool :=
  isAssistant && negb (default false m.(isReasoningStreaming))
  && (bool_decide (m.(status) = Some LOADING)
      || (bool_decide (m.(status) = Some STREAMING) && negb (truthy_str versionContent))).

Definition shouldShowMessageContent (m : Message) (versionContent : jsstr) : bool :=
  (bool_decide (m.(from) = USER) || negb (default false m.(isReasoningStreaming)))
  && truthy_str versionContent.

Definition getDisplayContent (m : Message) (versionContent : jsstr) : jsstr :=
  if negb (bool_decide (m.(from) = ASSISTANT)) then versionContent
  else if negb (includes OPEN_TAG versionContent) then versionContent
  else (parseThinkTags versionContent).(visibleContent).

Record MessageContentState := mkContentState {
  displayContent : jsstr; hasSources : bool; isAssistant : bool; showLoader : bool;
  showMessageContent : bool; s_sources : list (jsstr * jsstr); reasoningContent : option jsstr
}.

(** [hasReasoning] is whether [reasoningContent] is given. *)
Definition getMessageContentState (m : Message) (versionContent : jsstr) : MessageContentState :=
  let isAssistant := bool_decide (m.(from) = ASSISTANT) in
  let srcs := default [] m.(sources) in
  let rc := if isAssistant then r_content <$> m.(reasoning) else None in
  mkContentState (getDisplayContent m versionContent)
    (match srcs with [] => false | _ => true end) isAssistant
    (shouldShowMessageLoader m isAssistant versionContent)
    (shouldShowMessageContent m versionContent) srcs
    (match rc with Some (_ :: _ as s) => Some s | _ => None end).

(** [content], [kind === 'model-price'], [showSettingsLink] *)
Definition getMessageErrorState (m : Message) (isAdmin : bool) : option (jsstr * bool * bool) :=
  if negb (bool_decide (m.(status) = Some ERROR)) then None
  else
    let isModelPriceError := bool_decide (m.(errorCode) = Some (Some (js "model_price_error"))) in
    Some (or_str (getMessageContent m) (js "An unknown error occurred"), isModelPriceError,
          isModelPriceError && isAdmin).

(** ** Examples *)

Definition ck0 : Clock := mkClock 10 20 30.
Definition blank : Message := createLoadingAssistantMessage (js "k") (js "v") 0.

Example parse_ex :
  parseThinkTags (js "a<think>b</think> c <think>d") = mkParsed (js "a c") (js "b" ++ [10; 10] ++ js "d") true.
Proof. reflexivity. Qed.

(** ** Reasoning tags: specification *)

(** A content taken apart: closed blocks (visible text before, reasoning inside), the
    text after the last of them, and the reasoning of an unclosed block. *)
Record Doc := mkDoc { blocks : list (jsstr * jsstr); doc_tail : jsstr; unclosed : option jsstr }.

Definition render_block (b : jsstr * jsstr) : jsstr := b.1 ++ OPEN_TAG ++ b.2 ++ CLOSE_TAG.

Definition render (d : Doc) : jsstr :=
  concat (map render_block d.(blocks)) ++ d.(doc_tail)
  ++ match d.(unclosed) with Some r => OPEN_TAG ++ r | None => [] end.

Record doc_ok (d : Doc) : Prop := {
  ok_blocks : Forall (fun b => includes OPEN_TAG b.1 = false /\ includes CLOSE_TAG b.2 = false) d.(blocks);
  ok_tail : includes OPEN_TAG d.(doc_tail) = false;
  ok_unclosed : forall r, d.(unclosed) = Some r -> includes CLOSE_TAG r = false
}.

(** Visible text and reasoning of a document. *)
Definition doc_visible (d : Doc) : jsstr := concat (map fst d.(blocks)) ++ d.(doc_tail).
Definition doc_reasoning (d : Doc) : list jsstr :=
  map snd d.(blocks) ++ match d.(unclosed) with Some r => [r] | None => [] end.

(** A tag: its first unit occurs nowhere else in it. *)
Definition tag_like (p : jsstr) : Prop := exists c p', p = c :: p' /\ c ∉ p'.

Lemma open_tag_like : tag_like OPEN_TAG.
Proof. eexists _, _. split; [reflexivity|]. by apply (bool_decide_unpack _). Qed.

Lemma close_tag_like : tag_like CLOSE_TAG.
Proof. eexists _, _. split; [reflexivity|]. by apply (bool_decide_unpack _). Qed.

Lemma starts_with_extend p a b : starts_with p a = true -> starts_with p (a ++ b) = true.
Proof. rewrite !starts_with_true. intros [t ->]. exists (t ++ b). by rewrite app_assoc. Qed.

Lemma includes_nil_r p : p <> [] -> includes p [] = false.
Proof. by destruct p. Qed.

Lemma includes_cons p c s : includes p (c :: s) = starts_with p (c :: s) || includes p s.
Proof. done. Qed.

(** A tag never starts inside a text without it and ends in the tag that follows. *)
Lemma no_straddle p a b :
  tag_like p -> a <> [] -> includes p a = false -> starts_with p (a ++ p ++ b) = false.
Proof.
  intros (c & p' & Hp & Hc) Ha Hi. apply not_true_iff_false. intros [t Ht]%starts_with_true.
  destruct (decide (length p <= length a)%nat) as [Hl|Hl].
  - apply (f_equal (take (length p))) in Ht.
    rewrite take_app_le, take_app_length in Ht by done.
    assert (includes p a = true); [|congruence]. apply includes_true. exists [], (drop (length p) a).
    simpl. rewrite <- (take_drop (length p) a) at 1. by rewrite Ht.
  - destruct a as [|x a]; [done|]. apply (f_equal (drop (length (x :: a)))) in Ht.
    rewrite drop_app_length, drop_app_le in Ht by lia. subst p. simpl in Hl, Ht.
    assert (c ∈ drop (length a) p') as Hin;
      [|apply Hc; rewrite <- (take_drop (length a) p'), elem_of_app; by right].
    destruct (drop (length a) p') as [|y q] eqn:E.
    + apply (f_equal length) in E. rewrite length_drop in E. simpl in E. lia.
    + injection Ht as -> _. left.
Qed.

Lemma find_first p a b : tag_like p -> includes p a = false -> find_sub p (a ++ p ++ b) = Some (a, b).
Proof.
  intros Hp. assert (forall s, starts_with p (p ++ s) = true) as Hs by (intros; apply starts_with_true; eauto).
  induction a as [|c a IH]; intros Hi.
  - simpl. destruct (p ++ b) as [|x s] eqn:E; simpl; rewrite <- E, Hs, drop_app_length; done.
  - cbn [app find_sub]. rewrite (no_straddle p (c :: a) b Hp ltac:(done) Hi : starts_with p (c :: a ++ p ++ b) = false).
    rewrite includes_cons in Hi. apply orb_false_iff in Hi as [_ Hi]. by rewrite IH.
Qed.

Lemma find_none p s : find_sub p s = None <-> includes p s = false.
Proof.
  induction s as [|c s IH]; simpl.
  - destruct (starts_with p []); done.
  - destruct (starts_with p (c :: s)) eqn:E; [done|]. simpl. rewrite <- IH.
    destruct (find_sub p s) as [[? ?]|]; done.
Qed.

Lemma find_some p s a b : find_sub p s = Some (a, b) -> s = a ++ p ++ b /\ (p <> [] -> includes p a = false).
Proof.
  revert a b. induction s as [|c s IH]; intros a b; simpl.
  - destruct (starts_with p []) eqn:E; [|done]. intros [= <- <-]. destruct p; [|done]. done.
  - destruct (starts_with p (c :: s)) eqn:E.
    + intros [= <- <-]. apply starts_with_true in E as [t ->]. rewrite drop_app_length.
      split; [done|]. intros. by apply includes_nil_r.
    + destruct (find_sub p s) as [[a' b']|]; [|done]. intros [= <- <-].
      destruct (IH a' b' eq_refl) as [-> Hi]. split; [done|]. intros Hp.
      rewrite includes_cons, Hi by done. apply orb_false_iff. split; [|done].
      apply not_true_iff_false. intros Hs%(starts_with_extend _ _ (p ++ b')). rewrite <- app_comm_cons in Hs. congruence.
Qed.

(** The parts the loop collects from a document. *)
Definition nonempty (l : list jsstr) : list jsstr := List.filter truthy_str l.

Lemma nonempty_cons v l : nonempty (v :: l) = match v with [] => [] | _ => [v] end ++ nonempty l.
Proof. by destruct v. Qed.

Lemma think_loop_render bs : forall fuel tl op,
  doc_ok (mkDoc bs tl op) -> (length bs < fuel)%nat ->
  think_loop fuel (render (mkDoc bs tl op))
    = (nonempty (map fst bs ++ [tl]), doc_reasoning (mkDoc bs tl op), bool_decide (is_Some op)).
Proof.
  induction bs as [|[v r] bs IH]; intros fuel tl op [Hb Ht Hu] Hf; (destruct fuel as [|fuel]; [simpl in Hf; lia|]);
    cbn [blocks doc_tail unclosed] in *.
  - unfold render, doc_reasoning. cbn [blocks doc_tail unclosed map concat app think_loop].
    destruct op as [r|].
    + rewrite (find_first OPEN_TAG tl r open_tag_like Ht).
      rewrite (proj2 (find_none CLOSE_TAG r) (Hu r eq_refl)).
      rewrite nonempty_cons, app_nil_r. by destruct tl.
    + rewrite app_nil_r, (proj2 (find_none OPEN_TAG tl) Ht), nonempty_cons, app_nil_r. by destruct tl.
  - apply Forall_cons in Hb as [[Hv Hr] Hb]. cbn [fst snd] in Hv, Hr.
    unfold render. cbn [blocks doc_tail unclosed map concat]. rewrite <- app_assoc.
    set (rest := concat (map render_block bs) ++ tl ++ match op with Some r0 => OPEN_TAG ++ r0 | None => [] end).
    unfold render_block. cbn [fst snd]. rewrite <- !app_assoc. cbn [think_loop].
    rewrite (find_first OPEN_TAG v _ open_tag_like Hv), (find_first CLOSE_TAG r rest close_tag_like Hr).
    assert (think_loop fuel rest = (nonempty (map fst bs ++ [tl]), doc_reasoning (mkDoc bs tl op), bool_decide (is_Some op))) as ->
      by (apply (IH fuel tl op); [by split|simpl in Hf; lia]).
    cbn [map fst app]. rewrite nonempty_cons. done.
Qed.

Lemma render_length d : (length d.(blocks) <= length (render d))%nat.
Proof.
  unfold render. rewrite length_app. enough (length d.(blocks) <= length (concat (map render_block d.(blocks))))%nat by lia.
  induction d.(blocks) as [|b bs IH]; simpl; [lia|]. rewrite length_app. unfold render_block at 1.
  rewrite !length_app. change (length OPEN_TAG) with 7%nat. lia.
Qed.

Lemma join_nonempty l : join [] (nonempty l) = concat l.
Proof.
  induction l as [|v l IH]; [done|]. rewrite nonempty_cons. destruct v as [|c v]; [done|].
  cbn [app concat]. rewrite <- IH. destruct (nonempty l); [by rewrite app_nil_r|done].
Qed.

(** A document with a tag parses into its parts; one without is left as it is. *)
Lemma parse_render d :
  doc_ok d ->
  parseThinkTags (render d) =
  match d.(blocks), d.(unclosed) with
  | [], None => mkParsed d.(doc_tail) [] false
  | _, _ => mkParsed (trim (doc_visible d)) (trim (join [10; 10] (doc_reasoning d))) (bool_decide (is_Some d.(unclosed)))
  end.
Proof.
  destruct d as [bs tl op]. intros Hd. unfold parseThinkTags.
  rewrite think_loop_render by (done || (pose proof (render_length (mkDoc bs tl op)); simpl in *; lia)).
  rewrite join_nonempty, concat_app. cbn [concat]. rewrite app_nil_r.
  assert (forall a b, includes OPEN_TAG (a ++ OPEN_TAG ++ b) = true) as Hin
    by (intros; apply includes_true; eauto).
  cbn [blocks unclosed]. destruct bs as [|[v r] bs].
  - unfold render. cbn [blocks doc_tail unclosed map concat app]. destruct op as [r|].
    + by rewrite Hin.
    + rewrite app_nil_r. destruct Hd as [_ Ht _]. cbn [doc_tail] in Ht. by rewrite Ht.
  - assert (includes OPEN_TAG (render (mkDoc ((v, r) :: bs) tl op)) = true) as ->; [|done].
    unfold render. cbn [blocks doc_tail unclosed map concat]. unfold render_block at 1. cbn [fst snd].
    by rewrite <- !app_assoc, Hin.
Qed.

Lemma doc_exists : forall n content, (length content < n)%nat -> exists d, doc_ok d /\ render d = content.
Proof.
  induction n as [|n IH]; intros s Hn; [lia|].
  destruct (find_sub OPEN_TAG s) as [[v rest]|] eqn:E.
  - apply find_some in E as [-> Hv]. specialize (Hv ltac:(done)).
    destruct (find_sub CLOSE_TAG rest) as [[r rest']|] eqn:E2.
    + apply find_some in E2 as [-> Hr]. specialize (Hr ltac:(done)).
      destruct (IH rest') as (d & [H1 H2 H3] & Hd); [rewrite !length_app in Hn; change (length OPEN_TAG) with 7%nat in Hn; lia|].
      exists (mkDoc ((v, r) :: d.(blocks)) d.(doc_tail) d.(unclosed)). split.
      * split; cbn [blocks doc_tail unclosed]; [by constructor|done|done].
      * unfold render in *. cbn [blocks doc_tail unclosed map concat]. unfold render_block at 1. cbn [fst snd].
        rewrite <- !app_assoc. by rewrite Hd.
    + apply find_none in E2. exists (mkDoc [] v (Some rest)). split; [|done].
      split; cbn; [constructor|done|]. by intros ? [= <-].
  - apply find_none in E. exists (mkDoc [] s None). split; [|by unfold render; cbn; rewrite app_nil_r].
    by split; [constructor| |].
Qed.

(** Every content is a sequence of visible texts and reasoning blocks
    with an optional unclosed block at the end, and the parser returns exactly these:
    the visible texts joined, the reasoning texts joined by blank lines, and whether
    the last block is open; a content without an opening tag is returned untouched. *)
Theorem parse_think_tags_spec content :
  exists d, doc_ok d /\ render d = content
  /\ parseThinkTags content =
     match d.(blocks), d.(unclosed) with
     | [], None => mkParsed content [] false
     | _, _ => mkParsed (trim (doc_visible d)) (trim (join [10; 10] (doc_reasoning d)))
                 (bool_decide (is_Some d.(unclosed)))
     end.
Proof.
  destruct (doc_exists (S (length content)) content) as (d & Hd & <-); [lia|].
  exists d. split; [done|]. split; [done|]. rewrite parse_render by done.
  destruct d as [[|b bs] tl [r|]]; try done. unfold render. cbn. by rewrite app_nil_r.
Qed.

(** ** Streaming: specification *)

(** What a chunk does to the text so far: a chunk that begins with the text replaces it
    (a snapshot), any other is appended (a delta). *)
Definition absorb (cur c : jsstr) : jsstr := if starts_with cur c then c else cur ++ c.

Lemma appendable_absorbed cur c : cur ++ getAppendableChunk cur c = absorb cur c.
Proof.
  unfold absorb, getAppendableChunk. destruct (starts_with cur c) eqn:E; [|by rewrite orb_true_r].
  apply starts_with_true in E as [t ->]. destruct cur; [done|]. cbn [truthy_str negb orb]. by rewrite drop_app_length.
Qed.

Lemma absorb_delta cur c : starts_with cur c = false -> absorb cur c = cur ++ c.
Proof. unfold absorb. by intros ->. Qed.

(** The events of a stream, each with the clock readings of its update. *)
Definition StreamEvent : Type := Clock * StreamChunkType * jsstr.

Definition stream_message (m : Message) (es : list StreamEvent) : Message :=
  fold_left (fun m e => applyStreamingChunk e.1.1 m e.1.2 e.2) es m.

Definition content_chunks (es : list StreamEvent) : list jsstr :=
  map snd (List.filter (fun e => match e.1.2 with chunk_content => true | _ => false end) es).
Definition reasoning_chunks (es : list StreamEvent) : list jsstr :=
  map snd (List.filter (fun e => match e.1.2 with chunk_reasoning => true | _ => false end) es).

Lemma process_fields ck m c :
  let m' := processStreamingContent ck m c in
  m'.(versions) = [mkVersion (getCurrentVersion m).(id) (getMessageContent m ++ c)]
  /\ m'.(from) = m.(from) /\ m'.(key) = m.(key) /\ m'.(status) = m.(status) /\ m'.(createdAt) = m.(createdAt).
Proof. unfold processStreamingContent, getMessageContent. by destruct (_ && _). Qed.

Lemma complete_reasoning_fields m t :
  let m' := completeReasoningTiming m t in
  m'.(versions) = m.(versions) /\ m'.(from) = m.(from) /\ m'.(key) = m.(key) /\ m'.(status) = m.(status)
  /\ m'.(createdAt) = m.(createdAt) /\ m'.(isReasoningStreaming) = m.(isReasoningStreaming)
  /\ r_content <$> m'.(reasoning) = r_content <$> m.(reasoning).
Proof.
  cbv zeta. unfold completeReasoningTiming. destruct m.(reasoning) as [r|] eqn:E; [|by rewrite E].
  destruct r.(r_durationMs) eqn:E2; simpl; by rewrite ?E.
Qed.

(** One chunk: an error message ignores it; otherwise the text of its kind absorbs it,
    the message streams, and the identity of the message stays. *)
Lemma apply_chunk_fields ck m ty c :
  m.(status) <> Some ERROR ->
  let m' := applyStreamingChunk ck m ty c in
  getMessageContent m' = match ty with chunk_content => absorb (getMessageContent m) c | _ => getMessageContent m end
  /\ m'.(status) = Some STREAMING /\ m'.(key) = m.(key) /\ m'.(from) = m.(from)
  /\ m'.(createdAt) = m.(createdAt) /\ (getCurrentVersion m').(id) = (getCurrentVersion m).(id).
Proof.
  intros Hs. unfold applyStreamingChunk. rewrite bool_decide_false by done. destruct ty; [done|].
  pose proof (process_fields ck m (getAppendableChunk (getCurrentVersion m).(content) c)) as Hp.
  cbv zeta in *. set (p := processStreamingContent _ _ _) in *.
  destruct Hp as (Hv & Hf & Hk & _ & Hc).
  destruct (complete_reasoning_fields p (c_reasoning_end ck)) as (Hv' & Hf' & Hk' & _ & Hc' & _).
  clearbody p. unfold getMessageContent. rewrite <- appendable_absorbed.
  destruct (default false _); unfold getCurrentVersion at 1 4; simpl; rewrite ?Hv', ?Hf', ?Hk', ?Hc', ?Hv, ?Hf, ?Hk, ?Hc; done.
Qed.



(** The reasoning text takes reasoning chunks in the same way, as long as no content
    chunk comes in between. *)
Lemma stream_reasoning es : forall m,
  m.(status) <> Some ERROR -> content_chunks es = [] ->
  default [] (r_content <$> (stream_message m es).(reasoning))
    = fold_left absorb (reasoning_chunks es) (default [] (r_content <$> m.(reasoning))).
Proof.
  induction es as [|[[ck ty] c] es IH]; intros m Hs Hn; [done|].
  destruct ty; [|done]. unfold stream_message in *. cbn [fold_left fst snd]. rewrite IH.
  - unfold applyStreamingChunk. rewrite bool_decide_false by done. cbn [reasoning_chunks List.filter map fold_left].
    unfold reasoning_chunks. cbn. rewrite appendable_absorbed. by destruct m.(reasoning).
  - destruct (apply_chunk_fields ck m chunk_reasoning c Hs) as (_ & -> & _). done.
  - done.
Qed.

(** ** Completion *)

Lemma finalize_fields ck m api :
  let m' := finalizeMessage ck m api in
  let c := getMessageContent m in
  getMessageContent m' = (if includes OPEN_TAG c then (parseThinkTags c).(visibleContent) else c)
  /\ length m'.(versions) = 1%nat
  /\ m'.(key) = m.(key) /\ m'.(from) = m.(from) /\ m'.(createdAt) = m.(createdAt)
  /\ m'.(isReasoningStreaming) = Some false
  /\ default [] (r_content <$> m'.(reasoning))
     = or_str api (or_str (default [] (r_content <$> m.(reasoning))) (parseThinkTags c).(parsed_reasoning)).
Proof.
  cbv zeta. unfold finalizeMessage. cbv zeta.
  match goal with |- context [completeReasoningTiming ?x ?t] =>
    destruct (complete_reasoning_fields x t) as (Hv & Hf & Hk & _ & Hc & Hr & Hrc) end.
  unfold getMessageContent at 1, getCurrentVersion at 1. rewrite Hv, Hf, Hk, Hc, Hr, Hrc.
  clear. cbn [with_reasoning_streaming with_reasoning updateCurrentVersionContent with_versions versions from key
    createdAt isReasoningStreaming reasoning content id length].
  split_and!; try done.
  - unfold getMessageContent. by destruct (includes OPEN_TAG (getCurrentVersion m).(content)).
  - assert (match (if includes OPEN_TAG (getCurrentVersion m).(content)
                   then Some (parseThinkTags (getCurrentVersion m).(content)) else None)
            with Some p => p.(parsed_reasoning) | None => [] end
            = (parseThinkTags (getMessageContent m)).(parsed_reasoning)) as ->.
    { unfold getMessageContent, parseThinkTags.
      by destruct (includes OPEN_TAG (getCurrentVersion m).(content)). }
    by destruct (or_str _ _).
Qed.

Lemma complete_timing_fields m t :
  let m' := completeAssistantTiming m t in
  m'.(versions) = m.(versions) /\ m'.(from) = m.(from) /\ m'.(key) = m.(key) /\ m'.(status) = m.(status)
  /\ m'.(createdAt) = m.(createdAt) /\ m'.(reasoning) = m.(reasoning)
  /\ m'.(isReasoningStreaming) = m.(isReasoningStreaming).
Proof. unfold completeAssistantTiming. by destruct (negb _). Qed.








(** A second delta that repeats the first is taken for a snapshot and lost. *)
Example repeated_delta_lost :
  getMessageContent (stream_message blank [(ck0, chunk_content, js "1"); (ck0, chunk_content, js "1")]) = js "1".
Proof. reflexivity. Qed.

(** An empty reasoning block whose closing tag arrives in two chunks leaves the first
    half of the tag as the message's reasoning. *)
Example split_close_tag_kept :
  let r := completeAssistantMessage ck0 (stream_message blank
    [(ck0, chunk_content, js "<think></thi"); (ck0, chunk_content, js "nk>Hello")]) in
  getMessageContent r = js "Hello" /\ r_content <$> r.(reasoning) = Some (js "</thi").
Proof. split; reflexivity. Qed.

(** ** Loading *)

Lemma last_pending_spec l : forall k,
  match last_pending l k with
  | None => Forall (fun m => isPendingAssistantMessage m = false) l
  | Some i => exists j m, i = (k + j)%nat /\ l !! j = Some m /\ isPendingAssistantMessage m = true
                /\ forall j' m', (j < j')%nat -> l !! j' = Some m' -> isPendingAssistantMessage m' = false
  end.
Proof.
  induction l as [|m l IH]; intros k; simpl; [constructor|]. specialize (IH (S k)).
  destruct (last_pending l (S k)) as [i|]; simpl.
  - destruct IH as (j & m' & -> & Hl & Hp & Hlast). exists (S j), m'. split_and!; [lia|done|done|].
    intros [|j'] m'' Hj Hm; [lia|]. apply (Hlast j' m''); [lia|done].
  - destruct (isPendingAssistantMessage m) eqn:E; [|by constructor].
    exists 0%nat, m. split_and!; [lia|done|done|]. intros [|j'] m' Hj Hm; [lia|].
    rewrite Forall_lookup in IH. by apply (IH j' m').
Qed.

Lemma sanitize_one_final t ck m :
  let m' := sanitize_one t ck m in
  isAssistantMessageFinal m' = true /\ isPendingAssistantMessage m' = false
  /\ m'.(key) = m.(key) /\ m'.(from) = m.(from).
Proof.
  cbv zeta. destruct (finalize_fields ck m []) as (_ & _ & Hk & Hf & _). cbv zeta in *.
  unfold sanitize_one. cbv zeta. set (fin := finalizeMessage ck m []) in *.
  destruct (hasMessageContent fin || _);
    unfold isPendingAssistantMessage, isAssistantMessageFinal, isAssistantMessagePending; match goal with |- context [completeAssistantTiming ?x ?c] =>
    destruct (complete_timing_fields x c) as (_ & T2 & T3 & T4 & _) end;
    rewrite T2, T3, T4; cbn [with_reasoning_streaming with_status updateCurrentVersionContent with_versions from key status];
    (split_and!; [done|by rewrite andb_false_r|done|done]).
Qed.

(** Loading a conversation turns its last pending assistant message, and nothing
    else, into a final one with the same key: complete if any text or reasoning was
    received, an error otherwise. Without a pending message it is unchanged. *)
Theorem sanitize_spec t ck messages :
  let r := sanitizeMessagesOnLoad t ck messages in
  (Forall (fun m => isPendingAssistantMessage m = false) messages -> r = messages)
  /\ forall i m, messages !! i = Some m -> isPendingAssistantMessage m = true ->
     (forall j m', (i < j)%nat -> messages !! j = Some m' -> isPendingAssistantMessage m' = false) ->
     r = <[i := sanitize_one t ck m]> messages
     /\ isAssistantMessageFinal (sanitize_one t ck m) = true /\ (sanitize_one t ck m).(key) = m.(key).
Proof.
  intros r. unfold r, sanitizeMessagesOnLoad. pose proof (last_pending_spec messages 0) as Hs.
  destruct (last_pending messages 0) as [i|].
  - destruct Hs as (j & m & -> & Hl & Hp & Hlast). cbn [Nat.add]. split.
    + intros Hf. rewrite Forall_lookup in Hf. by rewrite (Hf j m Hl) in Hp.
    + intros i m0 Hi Hp0 Hlast0. rewrite Hl.
      assert (i = j) as ->.
      { destruct (decide (i < j)%nat); [by rewrite (Hlast0 j m) in Hp|].
        destruct (decide (j < i)%nat); [by rewrite (Hlast i m0) in Hp0|lia]. }
      rewrite Hl in Hi. injection Hi as <-. split; [done|].
      by destruct (sanitize_one_final t ck m) as (? & _ & ? & _).
  - split; [done|]. intros i m Hi Hp. rewrite Forall_lookup in Hs. by rewrite (Hs i m Hi) in Hp.
Qed.

(** Of two interrupted messages the earlier one stays pending. *)
Example earlier_pending_kept :
  isPendingAssistantMessage <$> sanitizeMessagesOnLoad (fun s => s) ck0 [blank; blank] = [true; false].
Proof. reflexivity. Qed.

(** ** Editing *)

Lemma find_key_spec k l : forall i,
  match find_key k l i with
  | None => k ∉ map key l
  | Some (j, m) => exists pre post, l = pre ++ m :: post /\ m.(key) = k /\ k ∉ map key pre
                     /\ j = (i + length pre)%nat
  end.
Proof.
  induction l as [|m l IH]; intros i; simpl; [apply not_elem_of_nil|].
  destruct (streq m.(key) k) eqn:E.
  - apply streq_true in E. exists [], l. split_and!; [done|done|apply not_elem_of_nil|simpl; lia].
  - apply streq_false in E. specialize (IH (S i)). destruct (find_key k l (S i)) as [[j m']|].
    + destruct IH as (pre & post & -> & Hk & Hn & ->). exists (m :: pre), post.
      split_and!; [done|done| |simpl; lia]. simpl. rewrite not_elem_of_cons. auto.
    + rewrite not_elem_of_cons. auto.
Qed.

(** Regenerating drops everything after the chosen message, and the message itself
    unless it is the user's, and appends one loading assistant message; it fails
    exactly when no message has the key. *)
Theorem regenerate_spec ids now messages k :
  match createRegeneratedMessages ids now messages k with
  | None => k ∉ map key messages
  | Some r => exists pre m post,
      messages = pre ++ m :: post /\ m.(key) = k /\ k ∉ map key pre
      /\ r = pre ++ (if bool_decide (m.(from) = USER) then [m] else [])
               ++ [createLoadingAssistantMessage ids.(asst_key) ids.(asst_version) now]
  end.
Proof.
  unfold createRegeneratedMessages. pose proof (find_key_spec k messages 0) as Hf.
  destruct (find_key k messages 0) as [[i m]|]; [|done].
  destruct Hf as (pre & post & -> & Hk & Hn & ->). exists pre, m, post. split_and!; [done|done|done|].
  cbn [Nat.add]. case_bool_decide.
  - replace (S (length pre)) with (length (pre ++ [m])) by (rewrite length_app; simpl; lia).
    replace (pre ++ m :: post) with ((pre ++ [m]) ++ post) by (by rewrite <- app_assoc).
    by rewrite take_app_length, <- app_assoc.
  - by rewrite take_app_length.
Qed.

Lemma edit_others (k : jsstr) (f : Message -> Message) l :
  k ∉ map key l -> map (fun m => if streq m.(key) k then f m else m) l = l.
Proof.
  induction l as [|m l IH]; [done|]. simpl. rewrite not_elem_of_cons. intros [Hk Hl].
  rewrite IH by done. assert (streq m.(key) k = false) as -> by (apply streq_false; congruence). done.
Qed.

(** An edit replaces the text of the chosen message and of no other; submitting an
    edited user message also drops what follows it and appends one loading assistant
    message, and only that asks for a request. *)
Theorem edit_spec ids now messages k c shouldSubmit (Hnd : NoDup (map key messages)) :
  match applyMessageEdit ids now messages k c shouldSubmit with
  | None => k ∉ map key messages
  | Some (r, send) => exists pre m m' post,
      messages = pre ++ m :: post /\ m.(key) = k
      /\ m'.(key) = k /\ m'.(from) = m.(from) /\ getMessageContent m' = c /\ m'.(reasoning) = m.(reasoning)
      /\ send = shouldSubmit && bool_decide (m.(from) = USER)
      /\ r = pre ++ m' :: (if send
                           then [createLoadingAssistantMessage ids.(asst_key) ids.(asst_version) now]
                           else post)
  end.
Proof.
  unfold applyMessageEdit. pose proof (find_key_spec k messages 0) as Hf.
  destruct (find_key k messages 0) as [[i m]|]; [|done].
  destruct Hf as (pre & post & -> & Hk & Hn & ->). cbn [Nat.add].
  rewrite map_app in Hnd. cbn [map] in Hnd. apply NoDup_app in Hnd as (_ & _ & Hnd).
  apply NoDup_cons in Hnd as [Hpost _].
  set (f := fun m => with_created (if shouldSubmit then Some now else createdAt m) (updateCurrentVersionContent m c)).
  assert (map (fun m => if streq m.(key) k then f m else m) (pre ++ m :: post) = pre ++ f m :: post) as Hmap.
  { rewrite map_app. cbn [map]. rewrite !edit_others by congruence.
    by rewrite (proj2 (streq_true _ _) Hk). }
  unfold f in Hmap at 1. cbv beta zeta in *. rewrite Hmap.
  rewrite list_lookup_middle by done.
  assert ((f m).(from) = m.(from) /\ (f m).(key) = k /\ getMessageContent (f m) = c /\ (f m).(reasoning) = m.(reasoning))
    as (E1 & E2 & E3 & E4) by done.
  rewrite E1. destruct (negb shouldSubmit || negb (bool_decide (m.(from) = USER))) eqn:E.
  - exists pre, m, (f m), post. split_and!; try done; rewrite <- negb_andb in E;
      apply negb_true_iff in E; by rewrite E.
  - rewrite <- negb_andb in E. apply negb_false_iff in E.
    exists pre, m, (f m), post. split_and!; try done.
    replace (S (length pre)) with (length (pre ++ [f m])) by (rewrite length_app; simpl; lia).
    replace (pre ++ f m :: post) with ((pre ++ [f m]) ++ post) by (by rewrite <- app_assoc).
    by rewrite take_app_length, <- app_assoc.
Qed.

Lemma edit_spec_witness :
  exists pre m' rest,
    applyMessageEdit (mkIds [] [] (js "a2") (js "v2")) 9
      [createUserMessage (js "u1") (js "v1") (js "hi") 1; blank] (js "u1") (js "hello") true
      = Some (pre ++ m' :: rest, true)
    /\ getMessageContent m' = js "hello"
    /\ rest = [createLoadingAssistantMessage (js "a2") (js "v2") 9].
Proof.
  destruct (edit_spec (mkIds [] [] (js "a2") (js "v2")) 9
    [createUserMessage (js "u1") (js "v1") (js "hi") 1; blank] (js "u1") (js "hello") true
    ltac:(by apply (bool_decide_unpack _))) as (pre & m & m' & post & H1 & H2 & H3 & H4 & H5 & H6 & H7 & H8).
  exists pre, m', [createLoadingAssistantMessage (js "a2") (js "v2") 9].
  split; [|split; [exact H5|reflexivity]].
  exact (f_equal (fun r => Some (r, true)) H8).
Defined.

(** ** The request *)

(** A request carries, in order, the current texts of the messages that are not
    blank assistant messages, and a sampling parameter exactly when it is enabled;
    right after a user message is submitted it ends with that message, the
    placeholder of the answer left out. *)
Theorem payload_spec ids now messages c config enabled :
  let q := buildChatCompletionPayload messages config enabled in
  let q' := buildChatCompletionPayload (appendUserMessagePair ids now messages c) config enabled in
  q.(q_messages) = map (fun m => (m.(from), Plain (getMessageContent m)))
      (List.filter (fun m => match m.(versions) with [] => false | _ => true end
                             && (negb (bool_decide (m.(from) = ASSISTANT)) || hasMessageContent m)) messages)
  /\ q'.(q_messages) = q.(q_messages) ++ [(USER, Plain c)]
  /\ (is_Some q.(q_temperature) <-> enabled.(e_temperature) = true)
  /\ (is_Some q.(q_max_tokens) <-> enabled.(e_max_tokens) = true)
  /\ (forall x, q.(q_seed) = Some x <-> enabled.(e_seed) = true /\ config.(seed) = Some x).
Proof.
  intros q q'. split_and!.
  - unfold q. cbn [buildChatCompletionPayload q_messages]. f_equal. apply List.filter_ext. intros m.
    unfold isValidMessage. destruct m.(versions); [done|].
    by destruct (bool_decide _), (hasMessageContent m).
  - unfold q, q', appendUserMessagePair. cbn [buildChatCompletionPayload q_messages].
    rewrite List.filter_app, map_app. reflexivity.
  - unfold q. cbn. destruct enabled.(e_temperature); split; intros H; try done; by destruct H.
  - unfold q. cbn. destruct enabled.(e_max_tokens); split; intros H; try done; by destruct H.
  - intros x. unfold q. cbn. destruct enabled.(e_seed); naive_solver.
Qed.

End PlaygroundMessages.
