(* ===== verification/PlaygroundCodec.v ===== *)
(** The stored values of the playground: the schemas of
    src/web/src/features/playground/lib/storage/storage-schema.ts and the envelope that
    storage.ts wraps them in. A conversation is written as JSON and read back as the
    same messages. *)

From S2P Require Import Prelude JsValue Scan NumText JsonString Json PlaygroundMessages.

Module PlaygroundCodec.
Import PlaygroundMessages.

Definition STORAGE_VERSION : Z := 1.

(** ** Schemas *)

(** A check gives the parsed value, or raises ([None]). *)
Definition z_string (v : val) : option jsstr := match v with VStr s => Some s | _ => None end.
Definition z_boolean (v : val) : option bool := match v with VBool b => Some b | _ => None end.

(** The integer that a double is. *)
Definition Z_of_num (x : num) : option Z :=
  match x with
  | S754_zero _ => Some 0
  | S754_finite s m e =>
      if is_integer x then let n := if 0 <=? e then Zpos m * 2 ^ e else Zpos m / 2 ^ (- e) in Some (if s then - n else n) else None
  | _ => None
  end.

(** Times and durations are integers; a stored number with a fraction, which the program
    never writes, has no value here. *)
Definition z_number (v : val) : option Z := match v with VNum x => Z_of_num x | _ => None end.
Definition z_optional {A} (check : val -> option A) (v : val) : option (option A) :=
  match v with VUndef => Some None | _ => Some <$> check v end.
Definition z_nullable {A} (check : val -> option A) (v : val) : option (option A) :=
  match v with VNull => Some None | _ => Some <$> check v end.
Definition z_array {A} (check : val -> option A) (v : val) : option (list A) := match v with VArr l => mapM check l | _ => None end.
Definition z_min1 {A} (l : list A) : option (list A) := match l with [] => None | _ => Some l end.
Definition z_object {A} (check : val -> option A) (v : val) : option A := match v with VObj _ => check v | _ => None end.

Definition role_text (r : MessageRole) : jsstr := match r with USER => js "user" | ASSISTANT => js "assistant" | SYSTEM => js "system" end.
Definition status_text (s : MessageStatus) : jsstr :=
  match s with LOADING => js "loading" | STREAMING => js "streaming" | COMPLETE => js "complete" | ERROR => js "error" end.

(** [z.enum] *)
Definition z_enum {A} (text : A -> jsstr) (values : list A) (v : val) : option A :=
  match v with VStr s => snd <$> list_find (fun a => text a = s) values | _ => None end.

Definition messageRoleSchema : val -> option MessageRole := z_enum role_text [USER; ASSISTANT; SYSTEM].
Definition messageStatusSchema : val -> option MessageStatus := z_enum status_text [LOADING; STREAMING; COMPLETE; ERROR].

Definition messageVersionSchema : val -> option MessageVersion := z_object (fun v =>
  i ← z_string (get "id" v); c ← z_string (get "content" v); Some (mkVersion i c)).

Definition sourceSchema : val -> option (jsstr * jsstr) := z_object (fun v =>
  h ← z_string (get "href" v); t ← z_string (get "title" v); Some (h, t)).

Definition reasoningSchema : val -> option Reasoning := z_object (fun v =>
  c ← z_string (get "content" v); d ← z_number (get "duration" v);
  s ← z_optional z_number (get "startedAt" v); e ← z_optional z_number (get "completedAt" v); ms ← z_optional z_number (get "durationMs" v);
  Some (mkReasoning c d s e ms)).

Definition messageSchema : val -> option Message := z_object (fun v =>
  k ← z_string (get "key" v);
  f ← messageRoleSchema (get "from" v);
  vs ← (z_array messageVersionSchema (get "versions" v) ≫= z_min1);
  created ← z_optional z_number (get "createdAt" v);
  started ← z_optional z_number (get "startedAt" v);
  completed ← z_optional z_number (get "completedAt" v);
  duration ← z_optional z_number (get "durationMs" v);
  srcs ← z_optional (z_array sourceSchema) (get "sources" v);
  r ← z_optional reasoningSchema (get "reasoning" v);
  rs ← z_optional z_boolean (get "isReasoningStreaming" v);
  rc ← z_optional z_boolean (get "isReasoningComplete" v);
  cc ← z_optional z_boolean (get "isContentComplete" v);
  st ← z_optional messageStatusSchema (get "status" v);
  e ← z_optional (z_nullable z_string) (get "errorCode" v);
  Some (mkMessage k f vs created started completed duration srcs r rs rc cc st e)).

Definition messagesSchema : val -> option (list Message) := z_array messageSchema.

(** ** Messages as values *)

(** An object literal; a property that is [undefined] is the same as none to the schema
    and to [JSON.stringify]. *)
Definition object (fs : list (string * val)) : val := VObj (List.filter (fun f => defined f.2) (map (fun f => (js f.1, f.2)) fs)).
Definition opt_val {A} (f : A -> val) (o : option A) : val := match o with Some a => f a | None => VUndef end.
Definition num_val (z : Z) : val := VNum (num_of_Z z).

Definition version_val (v : MessageVersion) : val := object [("id", VStr v.(id)); ("content", VStr v.(content))]%string.
Definition source_val (s : jsstr * jsstr) : val := object [("href", VStr s.1); ("title", VStr s.2)]%string.
Definition reasoning_val (r : Reasoning) : val :=
  object [("content", VStr r.(r_content)); ("duration", num_val r.(r_duration)); ("startedAt", opt_val num_val r.(r_startedAt));
          ("completedAt", opt_val num_val r.(r_completedAt)); ("durationMs", opt_val num_val r.(r_durationMs))]%string.
Definition message_val (m : Message) : val :=
  object [("key", VStr m.(key)); ("from", VStr (role_text m.(from))); ("versions", VArr (map version_val m.(versions)));
          ("createdAt", opt_val num_val m.(createdAt)); ("startedAt", opt_val num_val m.(startedAt));
          ("completedAt", opt_val num_val m.(completedAt)); ("durationMs", opt_val num_val m.(durationMs));
          ("sources", opt_val (fun l => VArr (map source_val l)) m.(sources)); ("reasoning", opt_val reasoning_val m.(reasoning));
          ("isReasoningStreaming", opt_val VBool m.(isReasoningStreaming)); ("isReasoningComplete", opt_val VBool m.(isReasoningComplete));
          ("isContentComplete", opt_val VBool m.(isContentComplete)); ("status", opt_val (fun s => VStr (status_text s)) m.(status));
          ("errorCode", opt_val (fun e => match e with Some s => VStr s | None => VNull end) m.(errorCode))]%string.

(** ** The envelope *)

Definition unwrapStoredValue (value : val) : val :=
  match value with
  | VObj fs => if bool_decide (js "version" ∈ map fst fs) && bool_decide (js "data" ∈ map fst fs) then lookup_field (js "data") fs else value
  | _ => value
  end.

Definition stored_payload (data : val) : jsstr := stringify (VObj [(js "version", num_val STORAGE_VERSION); (js "data", data)]).

(** The stored text of messages. *)
Definition stored_text (messages : list Message) : jsstr := stored_payload (VArr (map message_val messages)).

(** ** Configuration *)

(** [z.object] of optional fields on a stored object: the known fields, checked. *)
Definition z_partial (fields : list (string * (val -> bool))) (v : val) : option val :=
  match v with
  | VObj _ =>
    if forallb (fun f => let w := get f.1 v in negb (defined w) || f.2 w) fields
    then Some (object (map (fun f => (f.1, get f.1 v)) fields)) else None
  | _ => None
  end.

Definition is_string (v : val) : bool := match v with VStr _ => true | _ => false end.
Definition is_number (v : val) : bool := match v with VNum x => is_finite x | _ => false end.
Definition is_boolean (v : val) : bool := match v with VBool _ => true | _ => false end.
Definition or_null (check : val -> bool) (v : val) : bool := match v with VNull => true | _ => check v end.

Definition playgroundConfigSchema : val -> option val := z_partial
  [("model", is_string); ("group", is_string); ("temperature", is_number); ("top_p", is_number); ("max_tokens", is_number);
   ("frequency_penalty", is_number); ("presence_penalty", is_number); ("seed", or_null is_number); ("stream", is_boolean)]%string.

Definition parameterEnabledSchema : val -> option val := z_partial
  [("temperature", is_boolean); ("top_p", is_boolean); ("max_tokens", is_boolean); ("frequency_penalty", is_boolean);
   ("presence_penalty", is_boolean); ("seed", is_boolean)]%string.

(** ** The schema reads what is written *)

(** A number that is written as a text with its value. *)
Definition time_ok (z : Z) : bool := num_ok (num_of_Z z) && bool_decide (Z_of_num (num_of_Z z) = Some z).
Definition opt_ok {A} (check : A -> bool) (o : option A) : bool := match o with Some a => check a | None => true end.
Definition text_ok (s : jsstr) : bool := forallb is_unit s.

Definition reasoning_ok (r : Reasoning) : bool :=
  text_ok r.(r_content) && time_ok r.(r_duration) && opt_ok time_ok r.(r_startedAt) && opt_ok time_ok r.(r_completedAt) && opt_ok time_ok r.(r_durationMs).

(** A message that can be stored: its texts are strings of code units, its numbers are
    integers that a double is, and it has a version. *)
Definition storable (m : Message) : bool :=
  text_ok m.(key) && bool_decide (m.(versions) <> []) && forallb (fun v => text_ok v.(id) && text_ok v.(content)) m.(versions)
  && opt_ok time_ok m.(createdAt) && opt_ok time_ok m.(startedAt) && opt_ok time_ok m.(completedAt) && opt_ok time_ok m.(durationMs)
  && opt_ok (forallb (fun s => text_ok s.1 && text_ok s.2)) m.(sources) && opt_ok reasoning_ok m.(reasoning) && opt_ok (opt_ok text_ok) m.(errorCode).

(** Objects with distinct plain keys. *)
Definition plain_keys (fs : list (string * val)) : bool :=
  bool_decide (NoDup (map (fun f => js f.1) fs)) && forallb (fun f => negb (is_index (js f.1))) fs.

Lemma lookup_defined k fs : NoDup (map fst fs) -> lookup_field k (List.filter (fun f => defined f.2) fs) = lookup_field k fs.
Proof.
  induction fs as [|[k1 v1] fs IH]; [done|]. cbn [map fst List.filter snd lookup_field]. intros [Hn Hd]%NoDup_cons.
  destruct (defined v1) eqn:Ed; cbn [lookup_field]; [by rewrite IH|]. rewrite IH by done. destruct (streq k k1) eqn:E; [|done].
  apply streq_true in E as ->. rewrite lookup_field_None by done. by destruct v1.
Qed.

Lemma get_object k fs : plain_keys fs = true -> get k (object fs) = lookup_field (js k) (map (fun f => (js f.1, f.2)) fs).
Proof.
  intros [Hd%bool_decide_eq_true _]%andb_true_iff. unfold get, object. apply lookup_defined. by rewrite map_map.
Qed.

Lemma wf_object fs : plain_keys fs = true -> Forall (fun f => defined f.2 = true -> wf_val f.2) fs -> wf_val (object fs).
Proof.
  intros [Hd%bool_decide_eq_true Hi]%andb_true_iff Hf. apply plain_obj_wf. split.
  - assert (map (fun f : string * val => js f.1) fs = map fst (map (fun f => (js f.1, f.2)) fs)) as E by (by rewrite map_map).
    rewrite E in Hd. revert Hd. generalize (map (fun f : string * val => (js f.1, f.2)) fs). clear.
    induction l as [|[k v] l IH]; [done|]. cbn [map fst List.filter snd]. intros [Hn Hd]%NoDup_cons. destruct (defined v); [|by apply IH].
    cbn [map fst]. apply NoDup_cons. split; [|by apply IH]. intros (f & -> & Hf)%list_elem_of_fmap. apply Hn, list_elem_of_fmap_2.
    by apply elem_lfilter in Hf as [Hf _].
  - rewrite forallb_forall in Hi. rewrite Forall_forall in Hf. apply Forall_forall. intros f Hin. apply elem_lfilter in Hin as [(g & -> & Hg)%list_elem_of_fmap Hdef].
    cbn [fst snd] in *. split_and!; [specialize (Hi g (proj1 (list_elem_of_In _ _) Hg)); by destruct (is_index _)|apply units_js|]. by apply Hf.
Qed.

Ltac read_object :=
  rewrite get_object by reflexivity; cbn [map lookup_field fst snd];
  repeat match goal with |- context [streq (js ?a) (js ?b)] => let r := eval vm_compute in (streq (js a) (js b)) in change (streq (js a) (js b)) with r end;
  cbv iota.

(** ** Parts *)

Lemma time_val z : time_ok z = true -> wf_val (num_val z) /\ z_number (num_val z) = Some z.
Proof. intros [H1 H2%bool_decide_eq_true]%andb_true_iff. split; [by constructor|exact H2]. Qed.

Lemma text_val s : text_ok s = true -> wf_val (VStr s).
Proof. intros H. constructor. unfold text_ok in H. rewrite forallb_forall in H. apply List.Forall_forall, H. Qed.

Lemma mapM_map {A} (f : A -> val) (check : val -> option A) l : Forall (fun a => check (f a) = Some a) l -> mapM check (map f l) = Some l.
Proof. intros H. apply mapM_Some. apply Forall2_fmap_l. by apply Forall_Forall2_diag. Qed.

(** A part that is written as a well-formed value and read back. *)
Definition carried {A} (f : A -> val) (check : val -> option A) (a : A) : Prop := f a <> VUndef /\ wf_val (f a) /\ check (f a) = Some a.

Lemma carried_opt {A} (f : A -> val) check (ok : A -> bool) o :
  (forall a, ok a = true -> carried f check a) -> opt_ok ok o = true ->
  (defined (opt_val f o) = true -> wf_val (opt_val f o)) /\ z_optional check (opt_val f o) = Some o.
Proof.
  intros Hc. destruct o as [a|]; [|done]. intros (Hd & Hw & Hr)%Hc. split; [done|]. cbn [opt_val]. unfold z_optional.
  destruct (f a); try done; by rewrite Hr.
Qed.

Lemma carried_list {A} (f : A -> val) check (ok : A -> bool) l :
  (forall a, ok a = true -> carried f check a) -> forallb ok l = true -> wf_val (VArr (map f l)) /\ z_array check (VArr (map f l)) = Some l.
Proof.
  intros Hc Hl. rewrite forallb_forall in Hl. split.
  - constructor. apply List.Forall_forall. intros v (a & <- & Ha)%in_map_iff. by apply Hc, Hl.
  - apply mapM_map. apply List.Forall_forall. intros a Ha. by apply Hc, Hl.
Qed.

Lemma carried_time z : time_ok z = true -> carried num_val z_number z.
Proof. intros [H1 H2]%time_val. by split_and!. Qed.

Lemma carried_bool b : true = true -> carried VBool z_boolean b.
Proof. intros _. split_and!; [done|constructor|done]. Qed.

Lemma carried_status s : true = true -> carried (fun s => VStr (status_text s)) messageStatusSchema s.
Proof. intros _. split_and!; [done|by destruct s; apply text_val|by destruct s]. Qed.

Lemma carried_error e : opt_ok text_ok e = true -> carried (fun e => match e with Some s => VStr s | None => VNull end) (z_nullable z_string) e.
Proof. destruct e as [s|]; intros H; (split_and!; [done| |done]); [by apply text_val|constructor]. Qed.

Ltac each_field := repeat (apply Forall_cons; split; [cbn [snd]|]); try apply Forall_nil_2.

Lemma carried_version v : text_ok v.(id) && text_ok v.(content) = true -> carried version_val messageVersionSchema v.
Proof.
  intros [H1 H2]%andb_true_iff. split_and!; [done| |].
  - apply wf_object; [reflexivity|]. each_field; intros _; by apply text_val.
  - unfold messageVersionSchema, version_val. change (z_object ?f (object ?l)) with (f (object l)). cbv beta. repeat read_object. by destruct v.
Qed.

Lemma carried_source s : text_ok s.1 && text_ok s.2 = true -> carried source_val sourceSchema s.
Proof.
  intros [H1 H2]%andb_true_iff. split_and!; [done| |].
  - apply wf_object; [reflexivity|]. each_field; intros _; by apply text_val.
  - unfold sourceSchema, source_val. change (z_object ?f (object ?l)) with (f (object l)). cbv beta. repeat read_object. by destruct s.
Qed.

Lemma carried_reasoning r : reasoning_ok r = true -> carried reasoning_val reasoningSchema r.
Proof.
  unfold reasoning_ok. rewrite !andb_true_iff. intros [[[[H1 H2] H3] H4] H5].
  destruct (time_val _ H2) as [W2 R2], (carried_opt _ _ _ _ carried_time H3) as [W3 R3], (carried_opt _ _ _ _ carried_time H4) as [W4 R4],
    (carried_opt _ _ _ _ carried_time H5) as [W5 R5]. split_and!; [done| |].
  - apply wf_object; [reflexivity|]. each_field; try done. intros _. by apply text_val.
  - unfold reasoningSchema, reasoning_val. change (z_object ?f (object ?l)) with (f (object l)). cbv beta. repeat read_object.
    rewrite R2, R3, R4, R5. by destruct r.
Qed.

Lemma carried_sources l : forallb (fun s => text_ok s.1 && text_ok s.2) l = true -> carried (fun l => VArr (map source_val l)) (z_array sourceSchema) l.
Proof. intros [Hw Hr]%(carried_list _ _ _ _ carried_source). by split_and!. Qed.

(** A storable message is written as a well-formed value, and the schema reads it. *)
Lemma carried_message m : storable m = true -> carried message_val messageSchema m.
Proof.
  unfold storable. rewrite !andb_true_iff. intros [[[[[[[[[H1 H2%bool_decide_eq_true] H3] H4] H5] H6] H7] H8] H9] H10].
  destruct (carried_list _ _ _ _ carried_version H3) as [W3 R3], (carried_opt _ _ _ _ carried_time H4) as [W4 R4],
    (carried_opt _ _ _ _ carried_time H5) as [W5 R5], (carried_opt _ _ _ _ carried_time H6) as [W6 R6], (carried_opt _ _ _ _ carried_time H7) as [W7 R7],
    (carried_opt _ _ _ _ carried_sources H8) as [W8 R8], (carried_opt _ _ _ _ carried_reasoning H9) as [W9 R9],
    (carried_opt _ _ _ _ carried_error H10) as [W10 R10].
  assert (forall o, opt_ok (fun _ : bool => true) o = true) as Hb by (by intros []).
  destruct (carried_opt _ _ _ _ (fun b => carried_bool b) (Hb m.(isReasoningStreaming))) as [WA RA],
    (carried_opt _ _ _ _ (fun b => carried_bool b) (Hb m.(isReasoningComplete))) as [WB RB],
    (carried_opt _ _ _ _ (fun b => carried_bool b) (Hb m.(isContentComplete))) as [WC RC].
  assert (opt_ok (fun _ : MessageStatus => true) m.(status) = true) as Hst by (by destruct m.(status)).
  destruct (carried_opt _ _ _ _ (fun s => carried_status s) Hst) as [WD RD].
  split_and!; [done| |].
  - apply wf_object; [reflexivity|]. each_field; try done; intros _; [by apply text_val|by destruct m.(from); apply text_val].
  - unfold messageSchema, message_val. change (z_object ?f (object ?l)) with (f (object l)). cbv beta. repeat read_object.
    rewrite R3, R4, R5, R6, R7, R8, R9, R10, RA, RB, RC, RD.
    assert (messageRoleSchema (VStr (role_text m.(from))) = Some m.(from)) as -> by (by destruct m.(from)).
    destruct m as [? ? [|v vs]]; done.
Qed.

(** ** Conversations *)

Lemma messages_carried messages :
  forallb storable messages = true ->
  messagesSchema (VArr (map message_val messages)) = Some messages
  /\ json_parse (stored_text messages) = Some (VObj [(js "version", num_val STORAGE_VERSION); (js "data", VArr (map message_val messages))]).
Proof.
  intros [Hw Hr]%(carried_list _ _ _ _ carried_message). split; [done|]. unfold stored_text, stored_payload, stringify. apply parse_stringify; [constructor|].
  apply plain_obj_wf. split; [apply (bool_decide_unpack _); vm_compute; exact I|].
  repeat (apply Forall_cons; split; [split_and!; [reflexivity|apply units_js|]|]); [by constructor|done|apply Forall_nil_2].
Qed.

End PlaygroundCodec.
