(* ===== verification/PlaygroundStorage.v ===== *)
(** The playground's stored conversation: bounds on what is kept, the collapse of
    repeated sections, and loading and saving
    (src/web/src/features/playground/lib/storage/storage.ts) through the schemas and the
    envelope of [PlaygroundCodec]. *)

From stdpp Require Import gmap.
From S2P Require Import Prelude JsValue Scan NumText JsonString Json PlaygroundMessages PlaygroundCodec.

Module PlaygroundStorage.
Import PlaygroundMessages PlaygroundCodec.

(** ** Limits *)

Definition MAX_STORED_MESSAGES : nat := 100.
Definition MAX_STORED_MESSAGES_BYTES : Z := 1024 * 1024.
Definition MAX_LOADED_MESSAGES_CHARS : Z := 120000.
Definition MAX_LOADED_MESSAGE_CHARS : Z := 40000.

Definition TRUNCATED_CONTENT_SUFFIX : jsstr := [10; 10] ++ js "[...]".
Definition MIN_PREFIX_COLLAPSE_LENGTH : Z := 2000.
Definition MIN_REPEATED_SECTION_COUNT : nat := 3.

(** [s.length] *)
Definition len (s : jsstr) : Z := Z.of_nat (length s).

Definition trimMessages (messages : list Message) : list Message :=
  if bool_decide (length messages <= MAX_STORED_MESSAGES)%nat then messages
  else drop (length messages - MAX_STORED_MESSAGES) messages.

Definition getMessageSize (m : Message) : Z :=
  fold_left (fun total v => total + len v.(content)) m.(versions) 0
  + default 0 ((fun r => len r.(r_content)) <$> m.(reasoning)).

Definition truncateText (text : jsstr) (maxLength : Z) : jsstr :=
  if len text <=? maxLength then text
  else if maxLength <=? len TRUNCATED_CONTENT_SUFFIX then take (Z.to_nat maxLength) text
  else take (Z.to_nat (maxLength - len TRUNCATED_CONTENT_SUFFIX)) text ++ TRUNCATED_CONTENT_SUFFIX.

(** ** Repeated sections *)

Definition is_line_end (c : Z) : bool := (c =? 10) || (c =? 13) || (c =? 8232) || (c =? 8233).

(** The text without the line ends it ends with. *)
Fixpoint drop_line_ends (s : jsstr) : jsstr :=
  match s with
  | [] => []
  | c :: s' => match drop_line_ends s' with
               | [] => if is_line_end c then [] else [c]
               | r => c :: r
               end
  end.

(** [SECTION_HEADING_LINE_PATTERN] at a line start: the heading. Two to six hashes,
    blanks, digits, a dot, blanks, and the rest of the line; when only blanks are left
    the last of them that is no line end is the rest of the line. *)
Definition match_heading (s : jsstr) : option jsstr :=
  let '(h, s) := span (fun c => c =? 35) s in
  if bool_decide (2 <= length h <= 6)%nat then
    '(w1, s) ← span1 is_space s;
    '(d, s) ← span1 is_digit s;
    s ← eat [46] s;
    '(w2, s) ← span1 is_space s;
    match s with
    | [] => let w := drop_line_ends w2 in
            if bool_decide (2 <= length w)%nat then Some (h ++ w1 ++ d ++ [46] ++ w) else None
    | _ => Some (h ++ w1 ++ d ++ [46] ++ w2 ++ (span (fun c => negb (is_line_end c)) s).1)
    end
  else None.

(** The scan of [matchAll]: [skip] units of the last match are still to pass,
    [line_start] says whether a line starts here. *)
Fixpoint section_scan (skip : nat) (line_start : bool) (index : Z) (s : jsstr) : list (jsstr * Z) :=
  match s with
  | [] => []
  | c :: s' =>
      match skip with
      | S k => section_scan k (is_line_end c) (index + 1) s'
      | O =>
          match (if line_start then match_heading s else None) with
          | Some h => (h, index) :: section_scan (length h - 1) (is_line_end c) (index + 1) s'
          | None => section_scan 0 (is_line_end c) (index + 1) s'
          end
      end
  end.

Definition getSectionOccurrences (text : jsstr) : list (jsstr * Z) := section_scan 0 true 0 text.

(** [getHeadingCounts(occurrences).get(heading)] *)
Definition heading_count (occurrences : list (jsstr * Z)) (heading : jsstr) : nat :=
  length (List.filter (fun o => streq o.1 heading) occurrences).

(** The loop from the last occurrence to the first. *)
Fixpoint last_repeated (all rest : list (jsstr * Z)) (seen : list jsstr) : list Z :=
  match rest with
  | [] => []
  | (heading, index) :: rest' =>
      if bool_decide (heading_count all heading < MIN_REPEATED_SECTION_COUNT)%nat || bool_decide (heading ∈ seen)
      then last_repeated all rest' seen
      else index :: last_repeated all rest' (heading :: seen)
  end.

(** [None] for [-1]. *)
Definition findLastRepeatedSectionRunStart (text : jsstr) : option Z :=
  let occurrences := getSectionOccurrences text in
  match last_repeated occurrences (reverse occurrences) [] with
  | [] => None
  | i :: l => Some (fold_left Z.min l i)
  end.

Definition collapseRepeatedSectionSnapshots (text : jsstr) : jsstr :=
  if len text <? MIN_PREFIX_COLLAPSE_LENGTH then text
  else match findLastRepeatedSectionRunStart text with
       | None => text
       | Some i => drop (Z.to_nat i) text
       end.

(** ** Loading *)

Definition load_version (v : MessageVersion) : MessageVersion :=
  mkVersion v.(id) (truncateText (collapseRepeatedSectionSnapshots v.(content)) MAX_LOADED_MESSAGE_CHARS).

Definition load_reasoning (r : Reasoning) : Reasoning :=
  reasoning_content r (truncateText r.(r_content) MAX_LOADED_MESSAGE_CHARS).

(** [changed]: a new object is built only when some text changed; the values are the
    same either way. *)
Definition normalizeStoredMessageForLoad (ck : Clock) (m : Message) : Message :=
  let normalized := with_reasoning (load_reasoning <$> m.(reasoning)) (with_versions (map load_version m.(versions)) m) in
  if negb (isAssistantMessagePending normalized) then normalized
  else
    let hasReasoning := truthy_str (trim (default [] (r_content <$> normalized.(reasoning)))) in
    if negb (hasMessageContent normalized) && negb hasReasoning then normalized
    else
      let completed :=
        or_else (first_some normalized.(completedAt)
          (first_some (normalized.(reasoning) ≫= r_completedAt)
             (first_some normalized.(startedAt) normalized.(createdAt)))) ck.(c_end) in
      completeAssistantTiming
        (with_reasoning_streaming false (with_status COMPLETE (finalizeMessage ck normalized []))) completed.

(** The loop from the last message to the first: [total] so far, [some] kept. *)
Fixpoint take_fitting (total : Z) (some : bool) (rest : list Message) : list Message :=
  match rest with
  | [] => []
  | m :: rest' =>
      let size := getMessageSize m in
      if some && (MAX_LOADED_MESSAGES_CHARS <? total + size) then []
      else m :: take_fitting (total + size) true rest'
  end.

Definition trimMessagesByContentSize (messages : list Message) : list Message :=
  reverse (take_fitting 0 false (reverse messages)).

(** From the parsed list to the list handed out. *)
Definition load_parsed (t : jsstr -> jsstr) (ck : Clock) (parsed : list Message) : list Message :=
  sanitizeMessagesOnLoad t ck
    (trimMessagesByContentSize (trimMessages (map (normalizeStoredMessageForLoad ck) parsed))).

(** ** The store *)

Definition CONFIG_KEY : jsstr := js "playground_config".
Definition MESSAGES_KEY : jsstr := js "playground_messages".
Definition PARAMETER_ENABLED_KEY : jsstr := js "playground_parameter_enabled".

(** [localStorage] *)
Local Notation Store := (gmap jsstr jsstr).

Definition writeStoredValue (k : jsstr) (data : val) (st : Store) : Store := <[k := stored_payload data]> st.

(** [None] for [null]; the inner [None] for the exception of [JSON.parse]. *)
Definition readStoredValue (k : jsstr) (st : Store) : option (option val) :=
  match st !! k with None | Some [] => None | Some saved => Some (json_parse saved) end.

(** A value stored under a key, through its schema; what raises is caught and gives
    [{}]. *)
Definition load_value (schema : val -> option val) (k : jsstr) (st : Store) : val :=
  match readStoredValue k st with
  | Some (Some saved) => if truthy saved then default (VObj []) (schema (unwrapStoredValue saved)) else VObj []
  | _ => VObj []
  end.
Definition save_value (schema : val -> option val) (k : jsstr) (value : val) (st : Store) : Store :=
  match schema value with Some parsed => writeStoredValue k parsed st | None => st end.

Definition loadConfig : Store -> val := load_value playgroundConfigSchema CONFIG_KEY.
Definition saveConfig : val -> Store -> Store := save_value playgroundConfigSchema CONFIG_KEY.
Definition loadParameterEnabled : Store -> val := load_value parameterEnabledSchema PARAMETER_ENABLED_KEY.
Definition saveParameterEnabled : val -> Store -> Store := save_value parameterEnabledSchema PARAMETER_ENABLED_KEY.

Definition clearPlaygroundData (st : Store) : Store := delete MESSAGES_KEY (delete PARAMETER_ENABLED_KEY (delete CONFIG_KEY st)).

Section Store.
(** The translation of the interface. *)
Context (t : jsstr -> jsstr).

(** The schema raises on a message without a version; then nothing is stored. *)
Definition saveMessages (messages : list Message) (st : Store) : Store :=
  match messagesSchema (VArr (map message_val (trimMessages messages))) with
  | Some parsed => writeStoredValue MESSAGES_KEY (VArr (map message_val parsed)) st
  | None => st
  end.

(** [readStoredMessagesValue] and [loadMessages]; the change test always succeeds (the
    trimmed list is a fresh array), so what is handed out is saved again. *)
Definition loadMessages (ck : Clock) (st : Store) : option (list Message) * Store :=
  match st !! MESSAGES_KEY with
  | None | Some [] => (None, st)
  | Some saved =>
      if MAX_STORED_MESSAGES_BYTES <? len saved then (None, delete MESSAGES_KEY st)
      else match json_parse saved with
           | None => (None, st)
           | Some value =>
               if negb (truthy value) then (None, st)
               else match messagesSchema (unwrapStoredValue value) with
                    | None => (None, st)
                    | Some parsed => let r := load_parsed t ck parsed in (Some r, saveMessages r st)
                    end
           end
  end.

End Store.

(** ** Truncation *)

Lemma len_nonneg s : 0 <= len s.
Proof. unfold len. lia. Qed.

Lemma len_app s u : len (s ++ u) = len s + len u.
Proof. unfold len. rewrite length_app. lia. Qed.

Lemma len_take n s : 0 <= n -> len (take (Z.to_nat n) s) = Z.min n (len s).
Proof. intros. unfold len. rewrite length_take. lia. Qed.

(** A truncated text has at most the requested length, is the text itself when it
    fits, otherwise has exactly that length and starts with the text; truncating again
    changes nothing. *)
Theorem truncate_spec text n (Hn : 0 <= n) :
  let r := truncateText text n in
  len r = Z.min n (len text)
  /\ (len text <= n -> r = text)
  /\ take (Z.to_nat (n - len TRUNCATED_CONTENT_SUFFIX)) r
     = take (Z.to_nat (n - len TRUNCATED_CONTENT_SUFFIX)) text
  /\ truncateText r n = r.
Proof.
  assert (len (truncateText text n) = Z.min n (len text)) as Hlen.
  { unfold truncateText. pose proof (len_nonneg text). pose proof (len_nonneg TRUNCATED_CONTENT_SUFFIX).
    destruct (Z.leb_spec (len text) n); [lia|].
    destruct (Z.leb_spec n (len TRUNCATED_CONTENT_SUFFIX)).
    - rewrite len_take by lia. done.
    - rewrite len_app, len_take by lia. lia. }
  cbv zeta. split_and!; [done| | |].
  - intros Hle. unfold truncateText. destruct (Z.leb_spec (len text) n); [done|lia].
  - pose proof (len_nonneg TRUNCATED_CONTENT_SUFFIX). unfold truncateText.
    destruct (Z.leb_spec (len text) n); [done|].
    destruct (Z.leb_spec n (len TRUNCATED_CONTENT_SUFFIX)); [rewrite take_take; f_equal; lia|].
    rewrite take_app_le by (rewrite length_take; unfold len in *; lia). by rewrite take_take, Nat.min_id.
  - unfold truncateText at 1. destruct (Z.leb_spec (len (truncateText text n)) n); [done|lia].
Qed.

Lemma truncate_spec_witness : len (truncateText (js "a long enough text") 10) = 10.
Proof. destruct (truncate_spec (js "a long enough text") 10 ltac:(lia)) as [-> _]. reflexivity. Defined.

Lemma truncate_len text n : 0 <= n -> len (truncateText text n) <= n.
Proof.
  intros Hn. unfold truncateText. pose proof (len_nonneg text). pose proof (len_nonneg TRUNCATED_CONTENT_SUFFIX).
  destruct (Z.leb_spec (len text) n); [lia|].
  destruct (Z.leb_spec n (len TRUNCATED_CONTENT_SUFFIX)); rewrite ?len_app, len_take by lia; lia.
Qed.

Lemma truncate_id text n : len text <= n -> truncateText text n = text.
Proof. intros H. unfold truncateText. destruct (Z.leb_spec (len text) n); [done|lia]. Qed.

(** ** Collapsing *)

Lemma last_repeated_spec all rest : forall seen,
  (forall i, i ∈ last_repeated all rest seen ->
     exists h, (h, i) ∈ rest /\ (MIN_REPEATED_SECTION_COUNT <= heading_count all h)%nat)
  /\ (forall h j, (h, j) ∈ rest -> (MIN_REPEATED_SECTION_COUNT <= heading_count all h)%nat -> h ∉ seen ->
       exists j', (h, j') ∈ rest /\ j' ∈ last_repeated all rest seen).
Proof.
  induction rest as [|[h i] rest IH]; intros seen; simpl; [split; [set_solver|set_solver]|].
  case_bool_decide as Ec; [|case_bool_decide as Es]; simpl.
  - destruct (IH seen) as [IH1 IH2]. split.
    + intros x Hx. destruct (IH1 x Hx) as (h' & ? & ?). exists h'. split; [by right|done].
    + intros h' j [[= -> ->]|Hin]%elem_of_cons Hc Hs; [lia|].
      destruct (IH2 h' j Hin Hc Hs) as (j' & ? & ?). exists j'. split; [by right|done].
  - destruct (IH seen) as [IH1 IH2]. split.
    + intros x Hx. destruct (IH1 x Hx) as (h' & ? & ?). exists h'. split; [by right|done].
    + intros h' j [[= -> ->]|Hin]%elem_of_cons Hc Hs; [done|].
      destruct (IH2 h' j Hin Hc Hs) as (j' & ? & ?). exists j'. split; [by right|done].
  - destruct (IH (h :: seen)) as [IH1 IH2]. split.
    + intros x [->|Hx]%elem_of_cons; [exists h; split; [left|lia]|].
      destruct (IH1 x Hx) as (h' & ? & ?). exists h'. split; [by right|done].
    + intros h' j Hin Hc Hs. destruct (decide (h' = h)) as [->|Hne]; [exists i; split; left|].
      apply elem_of_cons in Hin as [[= -> ->]|Hin]; [done|].
      destruct (IH2 h' j Hin Hc) as (j' & ? & ?); [set_solver|]. exists j'. split; by right.
Qed.

Lemma fold_min_spec l : forall i,
  (fold_left Z.min l i = i \/ fold_left Z.min l i ∈ l)
  /\ fold_left Z.min l i <= i /\ forall j, j ∈ l -> fold_left Z.min l i <= j.
Proof.
  induction l as [|x l IH]; intros i; simpl; [split_and!; [auto|lia|set_solver]|].
  destruct (IH (Z.min i x)) as (H1 & H2 & H3). split_and!.
  - destruct H1 as [->|H1]; [|right; by right].
    destruct (Z.min_spec i x) as [[_ ->]|[_ ->]]; [auto|right; left].
  - lia.
  - intros j [->|Hj]%elem_of_cons; [lia|auto].
Qed.

(** Collapsing keeps the end of a text: it returns the text from the start of a
    heading that occurs at least three times, and every heading that does still occurs
    in what is kept; a text below the length limit, or without such a heading, is
    returned as it is. *)
Theorem collapse_spec text :
  let occurrences := getSectionOccurrences text in
  let repeated h := (MIN_REPEATED_SECTION_COUNT <= heading_count occurrences h)%nat in
  (collapseRepeatedSectionSnapshots text = text
   /\ (len text < MIN_PREFIX_COLLAPSE_LENGTH \/ forall h j, (h, j) ∈ occurrences -> ~ repeated h))
  \/ exists h i, (h, i) ∈ occurrences /\ repeated h
      /\ collapseRepeatedSectionSnapshots text = drop (Z.to_nat i) text
      /\ forall h' j, (h', j) ∈ occurrences -> repeated h' ->
         exists j', (h', j') ∈ occurrences /\ i <= j'.
Proof.
  intros occ repeated. unfold collapseRepeatedSectionSnapshots.
  destruct (Z.ltb_spec (len text) MIN_PREFIX_COLLAPSE_LENGTH); [left; auto|].
  unfold findLastRepeatedSectionRunStart. fold occ. cbv zeta.
  destruct (last_repeated_spec occ (reverse occ) []) as [H1 H2].
  destruct (last_repeated occ (reverse occ) []) as [|i l] eqn:E.
  - left. split; [done|]. right. intros h j Hin Hr.
    destruct (H2 h j) as (? & _ & ?%elem_of_nil); [by rewrite elem_of_reverse|done|set_solver|done].
  - right. destruct (fold_min_spec l i) as (Hm & Hle & Hall). set (k := fold_left Z.min l i) in *.
    assert (k ∈ i :: l) as Hk by (destruct Hm as [->|Hm]; [left|by right]).
    destruct (H1 k Hk) as (h & Hin & Hr). rewrite elem_of_reverse in Hin.
    exists h, k. split_and!; [done|done|done|]. intros h' j Hj Hr'.
    destruct (H2 h' j) as (j' & Hin' & Hj'); [by rewrite elem_of_reverse|done|set_solver|].
    exists j'. rewrite elem_of_reverse in Hin'. split; [done|].
    apply elem_of_cons in Hj' as [->|Hj']; [done|by apply Hall].
Qed.

Lemma collapse_len text : len (collapseRepeatedSectionSnapshots text) <= len text.
Proof.
  unfold collapseRepeatedSectionSnapshots. destruct (_ <? _); [lia|].
  destruct (findLastRepeatedSectionRunStart text); [|lia]. unfold len. rewrite length_drop. lia.
Qed.

Lemma collapse_short text : len text < MIN_PREFIX_COLLAPSE_LENGTH -> collapseRepeatedSectionSnapshots text = text.
Proof. intros H. unfold collapseRepeatedSectionSnapshots. by rewrite (proj2 (Z.ltb_lt _ _) H). Qed.

(** ** Selecting what is kept *)

Definition total_size (l : list Message) : Z := foldr (fun m acc => getMessageSize m + acc) 0 l.

Lemma fold_len_nonneg vs : forall a, 0 <= a -> 0 <= fold_left (fun total v => total + len v.(content)) vs a.
Proof. induction vs as [|v vs IH]; intros a Ha; simpl; [done|]. apply IH. pose proof (len_nonneg v.(content)). lia. Qed.

Lemma size_nonneg m : 0 <= getMessageSize m.
Proof.
  unfold getMessageSize. pose proof (fold_len_nonneg m.(versions) 0 ltac:(lia)).
  destruct m.(reasoning) as [r|]; simpl; [pose proof (len_nonneg r.(r_content))|]; lia.
Qed.

Lemma total_size_app l k : total_size (l ++ k) = total_size l + total_size k.
Proof. induction l as [|m l IH]; simpl; [done|]. unfold total_size in *. simpl. lia. Qed.

Lemma total_size_reverse l : total_size (reverse l) = total_size l.
Proof.
  induction l as [|m l IH]; [done|]. rewrite reverse_cons, total_size_app, IH. unfold total_size. simpl. lia.
Qed.

(** What the loop takes is a prefix of what it sees; once something is kept the total
    stays within the limit; it stops only at a message that does not fit. *)
Lemma take_fitting_spec l : forall total some,
  exists rest, l = take_fitting total some l ++ rest
  /\ (some = true -> take_fitting total some l = [] \/ total + total_size (take_fitting total some l) <= MAX_LOADED_MESSAGES_CHARS)
  /\ match rest with
     | [] => True
     | m :: _ => (some = true \/ take_fitting total some l <> [])
                 /\ MAX_LOADED_MESSAGES_CHARS < total + total_size (take_fitting total some l) + getMessageSize m
     end.
Proof.
  induction l as [|m l IH]; intros total some; simpl; [exists []; split_and!; auto|].
  destruct (some && (MAX_LOADED_MESSAGES_CHARS <? total + getMessageSize m)) eqn:E.
  - apply andb_true_iff in E as [-> E%Z.ltb_lt]. exists (m :: l). split_and!; [done|auto|auto|simpl; lia].
  - destruct (IH (total + getMessageSize m) true) as (rest & Hl & Hb & Hr). exists rest.
    rewrite Hl at 1. split_and!; [done| |].
    + intros ->. right. simpl in E. apply Z.ltb_ge in E. unfold total_size in *. simpl.
      destruct (Hb eq_refl) as [->|Hb']; simpl; lia.
    + destruct rest as [|m' rest]; [done|]. destruct Hr as [_ Hr]. split; [by right|].
      unfold total_size in *. simpl. lia.
Qed.

Lemma trim_messages_suffix l :
  exists pre, l = pre ++ trimMessages l /\ (length (trimMessages l) <= MAX_STORED_MESSAGES)%nat
  /\ (l <> [] -> trimMessages l <> []) /\ ((length l <= MAX_STORED_MESSAGES)%nat -> trimMessages l = l).
Proof.
  unfold trimMessages. case_bool_decide as E; [exists []; split_and!; auto|].
  exists (take (length l - MAX_STORED_MESSAGES) l). split_and!.
  - by rewrite take_drop.
  - rewrite length_drop. lia.
  - intros _ H. apply (f_equal length) in H. rewrite length_drop in H. unfold MAX_STORED_MESSAGES in *. simpl in H. lia.
  - lia.
Qed.

(** The messages kept on load are the newest ones: a suffix of at most 100, not
    empty unless nothing was stored, whose texts together stay within the limit unless
    only one message is left, and to which the next older message could not be added. *)
Theorem load_selection messages :
  let kept := trimMessagesByContentSize (trimMessages messages) in
  exists older, trimMessages messages = older ++ kept
  /\ (exists dropped, messages = dropped ++ trimMessages messages)
  /\ (length kept <= MAX_STORED_MESSAGES)%nat
  /\ (messages <> [] -> kept <> [])
  /\ (total_size kept <= MAX_LOADED_MESSAGES_CHARS \/ length kept = 1%nat)
  /\ (forall m, last older = Some m -> MAX_LOADED_MESSAGES_CHARS < getMessageSize m + total_size kept).
Proof.
  intros kept. destruct (trim_messages_suffix messages) as (dropped & Hd & Hlen & Hne & _).
  set (l := trimMessages messages) in *.
  destruct (take_fitting_spec (reverse l) 0 false) as (rest & Hl & _ & Hrest).
  assert (l = reverse rest ++ kept) as Hsplit.
  { apply (f_equal reverse) in Hl. rewrite reverse_involutive, reverse_app in Hl. exact Hl. }
  assert (total_size kept = total_size (take_fitting 0 false (reverse l))) as Hts by apply total_size_reverse.
  exists (reverse rest). split_and!; [done|by exists dropped| | | |].
  - rewrite Hsplit, length_app in Hlen. lia.
  - intros Hm. unfold kept, trimMessagesByContentSize. destruct (reverse l) as [|m r] eqn:E.
    + specialize (Hne Hm). apply (f_equal reverse) in E. by rewrite reverse_involutive in E.
    + simpl. rewrite reverse_cons. by intros [_ ?]%app_nil.
  - unfold kept, trimMessagesByContentSize. destruct (reverse l) as [|m r] eqn:E; [left; done|]. simpl.
    destruct (take_fitting_spec r (0 + getMessageSize m) true) as (rest' & _ & Hb & _).
    destruct (Hb eq_refl) as [->|Hb']; [by right|left].
    rewrite reverse_cons, total_size_app, total_size_reverse. unfold total_size in *. simpl in *. lia.
  - intros m Hm. rewrite Hts. destruct rest as [|m' rest]; [done|].
    rewrite reverse_cons, last_snoc in Hm. injection Hm as ->. destruct Hrest as [_ Hr]. lia.
Qed.

(** ** Saving and loading *)

(** A text that is not shortened: no heading of a section is repeated three times in it,
    unless it is too short for that to count, and it is within the limit. *)
Definition kept_text (text : jsstr) : Prop :=
  len text <= MAX_LOADED_MESSAGE_CHARS
  /\ (len text < MIN_PREFIX_COLLAPSE_LENGTH
      \/ forall h j, (h, j) ∈ getSectionOccurrences text -> (heading_count (getSectionOccurrences text) h < MIN_REPEATED_SECTION_COUNT)%nat).

(** A finished message within the limits. *)
Definition settled (m : Message) : Prop :=
  Forall (fun v => kept_text v.(content)) m.(versions)
  /\ (forall r, m.(reasoning) = Some r -> len r.(r_content) <= MAX_LOADED_MESSAGE_CHARS)
  /\ isAssistantMessagePending m = false.

Lemma collapse_kept text : kept_text text -> collapseRepeatedSectionSnapshots text = text.
Proof.
  intros [_ [Hs|Hr]]; [by apply collapse_short|].
  destruct (collapse_spec text) as [[-> _]|(h & i & Hin & Hrep & _)]; [done|]. specialize (Hr h i Hin). lia.
Qed.

Lemma normalize_settled ck m : settled m -> normalizeStoredMessageForLoad ck m = m.
Proof.
  intros (Hv & Hr & Hp). unfold normalizeStoredMessageForLoad.
  assert (map load_version m.(versions) = m.(versions)) as ->.
  { clear Hr Hp. induction Hv as [|v vs Hv _ IH]; [done|]. simpl. rewrite IH. f_equal.
    unfold load_version. rewrite collapse_kept, truncate_id by apply Hv. by destruct v. }
  assert (load_reasoning <$> m.(reasoning) = m.(reasoning)) as ->.
  { destruct m.(reasoning) as [r|]; [|done]. simpl. f_equal. unfold load_reasoning.
    rewrite truncate_id by auto. by destruct r. }
  assert (with_reasoning m.(reasoning) (with_versions m.(versions) m) = m) as -> by (by destruct m).
  by rewrite Hp.
Qed.

Lemma take_fitting_all l : forall total some,
  total + total_size l <= MAX_LOADED_MESSAGES_CHARS -> take_fitting total some l = l.
Proof.
  induction l as [|m l IH]; intros total some H; [done|]. unfold total_size in *. simpl in *.
  assert (0 <= foldr (fun m acc => getMessageSize m + acc) 0 l) as Hn.
  { clear. induction l as [|m l IH]; simpl; [lia|]. pose proof (size_nonneg m). lia. }
  rewrite (proj2 (Z.ltb_ge _ _)) by lia. rewrite andb_false_r. rewrite IH; [done|lia].
Qed.

Lemma load_parsed_settled t ck messages :
  Forall settled messages -> (length messages <= MAX_STORED_MESSAGES)%nat ->
  total_size messages <= MAX_LOADED_MESSAGES_CHARS -> load_parsed t ck messages = messages.
Proof.
  intros Hs Hl Ht. unfold load_parsed.
  assert (map (normalizeStoredMessageForLoad ck) messages = messages) as ->.
  { clear Hl Ht. induction Hs as [|m l Hm _ IH]; [done|]. simpl. by rewrite normalize_settled, IH. }
  destruct (trim_messages_suffix messages) as (_ & _ & _ & _ & ->); [|done].
  unfold trimMessagesByContentSize. rewrite take_fitting_all by (rewrite total_size_reverse; lia).
  rewrite reverse_involutive. unfold sanitizeMessagesOnLoad. pose proof (last_pending_spec messages 0) as Hp.
  destruct (last_pending messages 0) as [i|]; [|done]. destruct Hp as (j & m & _ & Hj & Hp & _).
  rewrite Forall_lookup in Hs. destruct (Hs j m Hj) as (_ & _ & Hn).
  unfold isPendingAssistantMessage in Hp. by rewrite Hn, andb_false_r in Hp.
Qed.

(** C37: a conversation of at most 100 finished messages loads exactly as it was saved,
    through the schema, the envelope and JSON, and loading leaves the store as it is. The
    messages have a version each, texts of at most 40000 characters without a section
    heading that is repeated three times (which only counts from 2000 characters on) and
    of at most 120000 together, numbers that are integers a double is and that JSON gives
    back ([time_ok], checked for each), and a stored text of at most 1 MB. Without a version
    in one of the last hundred messages nothing is saved. *)
Theorem save_load_roundtrip t ck st messages :
  (forallb storable messages = true -> Forall settled messages -> (length messages <= MAX_STORED_MESSAGES)%nat ->
   total_size messages <= MAX_LOADED_MESSAGES_CHARS -> len (stored_text messages) <= MAX_STORED_MESSAGES_BYTES ->
   saveMessages messages st !! MESSAGES_KEY = Some (stored_text messages)
   /\ loadMessages t ck (saveMessages messages st) = (Some messages, saveMessages messages st))
  /\ ((exists m, m ∈ trimMessages messages /\ m.(versions) = []) -> saveMessages messages st = st).
Proof.
  split.
  - intros Ho Hs Hl Ht Hsize. destruct (messages_carried messages Ho) as [Hsch Hjson].
    destruct (trim_messages_suffix messages) as (_ & _ & _ & _ & Etr). specialize (Etr Hl).
    assert (saveMessages messages st = <[MESSAGES_KEY := stored_text messages]> st) as Hsave by (unfold saveMessages; by rewrite Etr, Hsch).
    rewrite Hsave. split; [by rewrite lookup_insert_eq|]. unfold loadMessages. rewrite lookup_insert_eq.
    assert (stored_text messages <> []) as Hne by (intros E; by rewrite E in Hjson).
    destruct (stored_text messages) as [|c text] eqn:E; [done|]. rewrite (proj2 (Z.ltb_ge _ _)) by lia.
    rewrite Hjson. cbn [truthy negb]. change (unwrapStoredValue _) with (VArr (map message_val messages)).
    rewrite Hsch, load_parsed_settled by done. unfold saveMessages. rewrite Etr, Hsch. unfold writeStoredValue. fold (stored_text messages). by rewrite E, insert_insert_eq.
  - intros (m & Hin & Hv). unfold saveMessages.
    assert (messagesSchema (VArr (map message_val (trimMessages messages))) = None) as ->; [|done].
    apply mapM_None. apply Exists_exists. exists (message_val m). split; [by apply list_elem_of_fmap_2|].
    unfold messageSchema, message_val. change (z_object ?f (object ?l)) with (f (object l)). cbv beta. repeat read_object. rewrite Hv. cbn [map z_array z_string mbind option_bind].
    by destruct (messageRoleSchema _).
Qed.

(** A question, and an answer with reasoning and times. *)
Definition demo_saved : list Message :=
  [createUserMessage (js "u1") (js "v1") (js "hi") 1700000000000;
   mkMessage (js "a1") ASSISTANT [mkVersion (js "v2") (js "Hello")] None (Some 1700000000001) (Some 1700000002001) (Some 2000)
     (Some [(js "https://a.example", js "A")]) (Some (mkReasoning (js "greet") 1 (Some 1700000000001) (Some 1700000001001) (Some 1000)))
     (Some false) None None (Some COMPLETE) (Some None)].

Lemma save_load_roundtrip_witness :
  saveMessages demo_saved ∅ !! MESSAGES_KEY = Some (stored_text demo_saved)
  /\ loadMessages (fun s => s) ck0 (saveMessages demo_saved ∅) = (Some demo_saved, saveMessages demo_saved ∅).
Proof.
  apply (proj1 (save_load_roundtrip (fun s => s) ck0 ∅ demo_saved)); [vm_compute; reflexivity| |vm_compute; lia|vm_compute; discriminate|vm_compute; discriminate].
  repeat (apply Forall_cons; split); try apply Forall_nil_2;
    (split; [apply Forall_singleton; split; [vm_compute; discriminate|left; reflexivity]|]; split; [|reflexivity]).
  - discriminate.
  - intros r [= <-]. vm_compute. discriminate.
Defined.

End PlaygroundStorage.
