(* ===== verification/GroupRatios.v ===== *)
(** The groups of the gateway (src/web/src/features/system-settings/models/): the table of
    groups and the automatic order (group-ratio-visual-editor.tsx), the rules that show or
    hide groups (group-special-usable-editor.tsx), the texts of the form they edit
    (group-ratio-form.tsx, utils.ts) and the save (ratio-settings-card.tsx), next to what
    the server makes of the rules (service/group.go).

    The form holds JSON texts. Names of groups are other than those of [Object.prototype];
    [None] stands for an exception. *)

From stdpp Require Import gmap.
From S2P Require Import Prelude JsValue NumText JsonString Json ModelPricing.

Module GroupRatios.

Abbreviation fields := (list (jsstr * val)).

(** ** The texts of a form *)

Definition formatJsonForTextarea (value : jsstr) : jsstr :=
  if truthy_str (trim value) then match json_parse value with Some parsed => stringify2 parsed | None => value end else [].

Definition normalizeJsonString (value : jsstr) : jsstr :=
  let trimmed := trim value in
  if truthy_str trimmed then match json_parse trimmed with Some parsed => stringify parsed | None => trimmed end else [].

Inductive JsonValidationError := required | structure | syntax.

(** [None] for a valid text; of an error its type. *)
Definition validateJsonString (value : jsstr) (allowEmpty : bool) (predicate : val -> bool) : option JsonValidationError :=
  let trimmed := trim value in
  if negb (truthy_str trimmed) then (if allowEmpty then None else Some required)
  else match json_parse trimmed with
       | Some parsed => if negb (predicate parsed) then Some structure else None
       | None => Some syntax
       end.

Definition auto_groups_ok (parsed : val) : bool := match parsed with VArr l => forallb typeof_string l | _ => false end.

(** [Object.keys] and [Object.entries] *)
Definition object_entries (v : val) : option fields := match v with VNull | VUndef => None | _ => Some (own_fields v) end.

Definition has_key (k : jsstr) (fs : fields) : bool := bool_decide (k ∈ map fst fs).

(** ** The table of groups *)

Record GroupPricingRow := mkRow { row_id : Z; name : jsstr; ratio : jsstr; topupRatio : jsstr; selectable : bool; description : jsstr }.

Definition one : num := num_of_Z 1.

Definition normalizeRatio (value : val) : option num := parsed ← to_number value; Some (if is_finite parsed then parsed else one).

Definition parseRatioMap (value : jsstr) : val := ModelPricing.safeJsonParse value.
Definition parseUsableMap (value : jsstr) : val := ModelPricing.safeJsonParse value.

(** The three texts the table is made of. *)
Record Texts := mkTexts { groupRatio : jsstr; userUsableGroups : jsstr; topupGroupRatio : jsstr }.

Definition group_names (t : Texts) : option (list jsstr) :=
  r ← object_entries (parseRatioMap (groupRatio t));
  u ← object_entries (parseUsableMap (userUsableGroups t));
  p ← object_entries (parseRatioMap (topupGroupRatio t));
  Some (dedup (map fst r ++ map fst u ++ map fst p)).

Definition build_row (r u p : fields) (id : Z) (n : jsstr) : option GroupPricingRow :=
  x ← normalizeRatio (lookup_field n r);
  top ← (if has_key n p then to_string (lookup_field n p) else Some []);
  desc ← match lookup_field n u with VUndef | VNull => Some [] | d => to_string d end;
  Some (mkRow id n (num_text x) top (has_key n u) desc).

Fixpoint build_rows (r u p : fields) (id : Z) (names : list jsstr) : option (list GroupPricingRow) :=
  match names with
  | [] => Some []
  | n :: names' => row ← build_row r u p id n; rows ← build_rows r u p (id + 1) names'; Some (row :: rows)
  end.

(** [id] is the next value of [groupPricingIdCounter]. *)
Definition buildGroupPricingRows (t : Texts) (id : Z) : option (list GroupPricingRow) :=
  r ← object_entries (parseRatioMap (groupRatio t));
  u ← object_entries (parseUsableMap (userUsableGroups t));
  p ← object_entries (parseRatioMap (topupGroupRatio t));
  build_rows r u p id (dedup (map fst r ++ map fst u ++ map fst p)).

(** Of a text: it never raises. *)
Definition ratio_of (s : jsstr) : num := let parsed := string_to_number s in if is_finite parsed then parsed else one.

Record Maps := mkMaps { m_ratio : fields; m_usable : fields; m_topup : fields }.

Definition serialize_row (m : Maps) (row : GroupPricingRow) : Maps :=
  let n := trim (name row) in
  if negb (truthy_str n) then m else
  let topup := trim (topupRatio row) in
  mkMaps (set_field n (VNum (ratio_of (ratio row))) (m_ratio m))
    (if selectable row then set_field n (VStr (description row)) (m_usable m) else m_usable m)
    (if negb (streq topup []) && is_finite (string_to_number topup) then set_field n (VNum (string_to_number topup)) (m_topup m) else m_topup m).

Definition serialize_maps (rows : list GroupPricingRow) : Maps := fold_left serialize_row rows (mkMaps [] [] []).

Definition serializeGroupPricingRows (rows : list GroupPricingRow) : Texts :=
  let m := serialize_maps rows in mkTexts (stringify2 (VObj (m_ratio m))) (stringify2 (VObj (m_usable m))) (stringify2 (VObj (m_topup m))).

Definition sourceGroupPricingSignature (t : Texts) : jsstr :=
  stringify (VObj [(js "groupRatio", parseRatioMap (groupRatio t)); (js "userUsableGroups", parseUsableMap (userUsableGroups t));
                   (js "topupGroupRatio", parseRatioMap (topupGroupRatio t))]).

Definition groupPricingSignature (rows : list GroupPricingRow) : jsstr := sourceGroupPricingSignature (serializeGroupPricingRows rows).

(** *** The component *)

Record Table := mkTable { rows : list GroupPricingRow; next_id : Z; texts : Texts }.

Definition open_table (t : Texts) (id : Z) : option Table :=
  l ← buildGroupPricingRows t id; Some (mkTable l (id + Z.of_nat (length l)) t).

(** The effect on the texts. *)
Definition sync (w : Table) : option Table :=
  if streq (groupPricingSignature (rows w)) (sourceGroupPricingSignature (texts w)) then Some w else open_table (texts w) (next_id w).

Definition emitRows (l : list GroupPricingRow) (w : Table) : Table := mkTable l (next_id w) (serializeGroupPricingRows l).

Inductive RowChange := SetName (v : jsstr) | SetRatio (v : jsstr) | SetTopup (v : jsstr) | SetSelectable (v : bool) | SetDescription (v : jsstr).

Definition change_row (c : RowChange) (r : GroupPricingRow) : GroupPricingRow :=
  match c with
  | SetName v => mkRow (row_id r) v (ratio r) (topupRatio r) (selectable r) (description r)
  | SetRatio v => mkRow (row_id r) (name r) v (topupRatio r) (selectable r) (description r)
  | SetTopup v => mkRow (row_id r) (name r) (ratio r) v (selectable r) (description r)
  | SetSelectable v => mkRow (row_id r) (name r) (ratio r) (topupRatio r) v (description r)
  | SetDescription v => mkRow (row_id r) (name r) (ratio r) (topupRatio r) (selectable r) v
  end.

Definition updateRow (id : Z) (c : RowChange) (w : Table) : Table :=
  emitRows (map (fun r => if row_id r =? id then change_row c r else r) (rows w)) w.

Definition group_n (index : Z) : jsstr := js "group_" ++ dec index.

Fixpoint free_index (fuel : nat) (existing : list jsstr) (index : Z) : Z :=
  match fuel with
  | O => index
  | S f => if bool_decide (group_n index ∈ existing) then free_index f existing (index + 1) else index
  end.

(** One try more than there are rows is enough. *)
Definition addRow (w : Table) : Table :=
  let existing := map name (rows w) in
  let index := free_index (S (length existing)) existing 1 in
  emitRows (rows w ++ [mkRow (next_id w) (group_n index) (js "1") [] true []]) (mkTable (rows w) (next_id w + 1) (texts w)).

Definition removeRow (id : Z) (w : Table) : Table := emitRows (List.filter (fun r => negb (row_id r =? id)) (rows w)) w.

Definition duplicateNames (l : list GroupPricingRow) : list jsstr :=
  let names := List.filter truthy_str (map (fun r => trim (name r)) l) in
  List.filter (fun n => (1 <? length (List.filter (streq n) names))%nat) (dedup names).

(** ** The automatic order *)

(** [autoGroupsList], for a text that is an array. *)
Definition autoGroupsList (autoGroups : jsstr) : option (list val) :=
  let v := if truthy_str (trim autoGroups) then default (VArr []) (json_parse (trim autoGroups)) else VArr [] in
  match v with VArr l => Some l | _ => None end.

Definition is_name (n : jsstr) (v : val) : bool := match v with VStr s => streq n s | _ => false end.

(** What the handlers emit; [None] when they emit nothing. *)
Definition handleAutoGroupAdd (n : jsstr) (l : list val) : option jsstr :=
  if existsb (is_name n) l then None else Some (stringify2 (VArr (l ++ [VStr n]))).

Definition handleAutoGroupDelete (index : nat) (l : list val) : jsstr := stringify2 (VArr (delete index l)).

Definition swap (i j : nat) (l : list val) : list val :=
  match l !! i, l !! j with Some a, Some b => <[j := a]> (<[i := b]> l) | _, _ => l end.

Definition handleAutoGroupMove (index : nat) (up : bool) (l : list val) : option jsstr :=
  if up then (if (index =? 0)%nat then None else Some (stringify2 (VArr (swap index (index - 1) l))))
  else if (length l <=? index + 1)%nat then None else Some (stringify2 (VArr (swap index (index + 1) l))).

Definition autoGroupCandidates (registryNames : list jsstr) (l : list val) : list jsstr :=
  List.filter (fun n => negb (existsb (is_name n) l)) registryNames.

(** ** Rules that show and hide groups *)

Record Rule := mkRule { rule_id : Z; userGroup : jsstr; visible : bool; targetGroup : jsstr; rule_description : jsstr }.

Definition parseRawKey (rawKey : jsstr) : bool * jsstr :=
  if starts_with (js "-:") rawKey then (false, drop 2 rawKey)
  else if starts_with (js "+:") rawKey then (true, drop 2 rawKey)
  else (true, rawKey).

Definition toRawKey (visible : bool) (groupName : jsstr) : jsstr := (if visible then js "+:" else js "-:") ++ groupName.

Definition safeParseJson (str : jsstr) : val := if truthy_str (trim str) then default (VObj []) (json_parse str) else VObj [].

(** [typeof v === 'object'] and not [null]. *)
Definition is_rules (v : val) : bool := match v with VObj _ | VArr _ => true | _ => false end.

Definition flat_rule (u : jsstr) (id : Z) (e : jsstr * val) : Rule :=
  let '(v, g) := parseRawKey e.1 in
  mkRule id u v g (if negb v then js "remove" else match e.2 with VStr d => d | _ => [] end).

Fixpoint flat_group (u : jsstr) (id : Z) (inner : fields) : list Rule :=
  match inner with [] => [] | e :: inner' => flat_rule u id e :: flat_group u (id + 1) inner' end.

Fixpoint flat_groups (id : Z) (nested : fields) : list Rule :=
  match nested with
  | [] => []
  | (u, inner) :: nested' =>
    if negb (is_rules inner) then flat_groups id nested'
    else let l := flat_group u id (own_fields inner) in l ++ flat_groups (id + Z.of_nat (length l)) nested'
  end.

(** [id] is the next value of [_idCounter]. *)
Definition flattenRules (nested : val) (id : Z) : option (list Rule) := fs ← object_entries nested; Some (flat_groups id fs).

Definition inner_of (u : jsstr) (result : fields) : fields := match lookup_field u result with VObj inner => inner | _ => [] end.

Definition serialize_rule (result : fields) (r : Rule) : fields :=
  if negb (truthy_str (userGroup r)) || negb (truthy_str (targetGroup r)) then result
  else set_field (userGroup r) (VObj (set_field (toRawKey (visible r) (targetGroup r)) (VStr (rule_description r)) (inner_of (userGroup r) result))) result.

Definition rule_map (rules : list Rule) : fields := fold_left serialize_rule rules [].

Definition serializeRules (rules : list Rule) : jsstr :=
  match rule_map rules with [] => js "{}" | result => stringify2 (VObj result) end.

Inductive RuleChange := SetVisible (v : bool) | SetTarget (v : jsstr) | SetRuleDescription (v : jsstr).

Definition change_rule (c : RuleChange) (r : Rule) : Rule :=
  match c with
  | SetVisible false => mkRule (rule_id r) (userGroup r) false (targetGroup r) (js "remove")
  | SetVisible true =>
    mkRule (rule_id r) (userGroup r) true (targetGroup r)
      (if negb (visible r) && streq (rule_description r) (js "remove") then [] else rule_description r)
  | SetTarget v => mkRule (rule_id r) (userGroup r) (visible r) v (rule_description r)
  | SetRuleDescription v => mkRule (rule_id r) (userGroup r) (visible r) (targetGroup r) v
  end.

(** The editor: its rules, the next identifier and the text of the form. *)
Record RuleEditor := mkEditor { rules : list Rule; next_rule : Z; rule_text : jsstr }.

Definition open_rules (value : jsstr) (id : Z) : option RuleEditor :=
  l ← flattenRules (safeParseJson value) id; Some (mkEditor l (id + Z.of_nat (length l)) value).

Definition emitChange (l : list Rule) (w : RuleEditor) : RuleEditor := mkEditor l (next_rule w) (serializeRules l).

Definition updateRule (id : Z) (c : RuleChange) (w : RuleEditor) : RuleEditor :=
  emitChange (map (fun r => if rule_id r =? id then change_rule c r else r) (rules w)) w.
Definition removeRule (id : Z) (w : RuleEditor) : RuleEditor := emitChange (List.filter (fun r => negb (rule_id r =? id)) (rules w)) w.
Definition removeGroup (g : jsstr) (w : RuleEditor) : RuleEditor := emitChange (List.filter (fun r => negb (streq (userGroup r) g)) (rules w)) w.
Definition addRuleToGroup (g : jsstr) (w : RuleEditor) : RuleEditor :=
  emitChange (rules w ++ [mkRule (next_rule w) g true [] []]) (mkEditor (rules w) (next_rule w + 1) (rule_text w)).

Definition grouped (l : list Rule) : list (jsstr * list Rule) :=
  map (fun u => (u, List.filter (fun r => streq (userGroup r) u) l)) (dedup (List.filter truthy_str (map userGroup l))).

Definition newGroupCandidates (l : list Rule) (groupOptions : list jsstr) : list jsstr :=
  List.filter (fun n => negb (bool_decide (n ∈ map fst (grouped l)))) groupOptions.

(** *** What the details of a group show of the rules *)

Record VisibilityRule := mkVisibility { v_userGroup : jsstr; v_visible : bool; v_description : jsstr }.

Definition visibilityRules (n : jsstr) (special : val) : option (list VisibilityRule) :=
  fs ← object_entries special;
  Some (flat_map (fun g =>
    if negb (is_rules g.2) then []
    else flat_map (fun e =>
      let '(v, target) := parseRawKey e.1 in
      if streq target n then [mkVisibility g.1 v (match e.2 with VStr d => d | _ => [] end)] else []) (own_fields g.2)) fs).

(** ** The server *)

Abbreviation Groups := (gmap jsstr jsstr).

Definition apply_special (groups : Groups) (e : jsstr * jsstr) : Groups :=
  if starts_with (js "-:") e.1 then delete (drop 2 e.1) groups
  else if starts_with (js "+:") e.1 then <[drop 2 e.1 := e.2]> groups
  else <[e.1 := e.2]> groups.

(** The entries come in the order the runtime chooses. *)
Definition applyGroupSpecialUsable (groups : Groups) (special : list (jsstr * jsstr)) : Groups := fold_left apply_special special groups.

Definition GetUserUsableGroups (usable : Groups) (owned : jsstr -> bool) (special : list (jsstr * jsstr)) (userDesc u : jsstr) : Groups :=
  let groups := filter (fun e => e.1 = u \/ owned e.1 = false) usable in
  if truthy_str u then
    let groups := applyGroupSpecialUsable groups special in
    match groups !! u with Some _ => groups | None => <[u := userDesc]> groups end
  else groups.

Definition GetUserBillableGroups (usable : Groups) (special : list (jsstr * jsstr)) (u : jsstr) : Groups :=
  if truthy_str u then applyGroupSpecialUsable {[u := default u (usable !! u)]} special else ∅.

(** The entries of a user group in the stored option, a map of maps of texts. *)
Definition stored_special (u : jsstr) (text : jsstr) : option (list (jsstr * jsstr)) :=
  v ← json_parse text;
  match v with
  | VObj fs =>
    match lookup_field u fs with
    | VObj inner => mapM (fun e => match e.2 with VStr d => Some (e.1, d) | _ => None end) inner
    | VUndef => Some []
    | _ => None
    end
  | _ => None
  end.

(** ** The save *)

Record GroupFormValues := mkForm {
  GroupRatio : jsstr; TopupGroupRatio : jsstr; UserUsableGroups : jsstr; GroupGroupRatio : jsstr; AutoGroups : jsstr;
  MaxTokenAutoGroups : num; DefaultUseAutoGroup : bool; GroupSpecialUsableGroup : jsstr }.

(** The normalised values, under the names of the options. *)
Definition normalized (f : GroupFormValues) : fields :=
  [(js "GroupRatio", VStr (normalizeJsonString (GroupRatio f)));
   (js "TopupGroupRatio", VStr (normalizeJsonString (TopupGroupRatio f)));
   (js "UserUsableGroups", VStr (normalizeJsonString (UserUsableGroups f)));
   (js "GroupGroupRatio", VStr (normalizeJsonString (GroupGroupRatio f)));
   (js "AutoGroups", VStr (normalizeJsonString (AutoGroups f)));
   (js "MaxTokenAutoGroups", VNum (MaxTokenAutoGroups f));
   (js "DefaultUseAutoGroup", VBool (DefaultUseAutoGroup f));
   (js "group_ratio_setting.group_special_usable_group", VStr (normalizeJsonString (GroupSpecialUsableGroup f)))].

Definition strict_eq (a b : val) : bool :=
  match a, b with
  | VStr s, VStr t => streq s t
  | VNum x, VNum y => neq x y
  | VBool x, VBool y => Bool.eqb x y
  | _, _ => false
  end.

Definition updates (now defaults : fields) : fields := List.filter (fun e => negb (strict_eq e.2 (lookup_field e.1 defaults))) now.

(** One request after the other, until the server refuses one. *)
Fixpoint send_options (accepts : jsstr -> val -> bool) (l : fields) (stored : fields) : fields * bool :=
  match l with
  | [] => (stored, true)
  | (k, v) :: l' => if accepts k v then send_options accepts l' (set_field k v stored) else (stored, false)
  end.

(** The stored options and the defaults the next save compares with. *)
Definition saveGroupRatios (accepts : jsstr -> val -> bool) (f : GroupFormValues) (defaults stored : fields) : fields * fields :=
  let now := normalized f in
  let '(stored, fine) := send_options accepts (updates now defaults) stored in
  (stored, if fine then now else defaults).

End GroupRatios.
