(* ===== verification/GroupRatiosLaws.v ===== *)
(** Groups: what the server makes of the rules the editor shows, what an edit of the table
    changes, and the identity of its rows. *)

From stdpp Require Import gmap relations.
From S2P Require Import Prelude JsValue NumText JsonString Json ModelPricing ModelPricingLaws GroupRatios.
Import GroupRatios.

Module GroupRatiosLaws.

(** ** Objects as lists of members *)

Lemma lookup_member k v (fs : fields) : NoDup (map fst fs) -> (k, v) ∈ fs -> lookup_field k fs = v.
Proof.
  induction fs as [|[k1 v1] fs IH]; intros Hd Hin; [by apply elem_of_nil in Hin|]. cbn [map fst lookup_field] in *. apply NoDup_cons in Hd as [Hn Hd].
  apply elem_of_cons in Hin as [[= <- <-]|Hin]; [by rewrite streq_refl|]. destruct (streq k k1) eqn:E; [|by apply IH]. apply streq_true in E as ->.
  exfalso. apply Hn. apply list_elem_of_fmap. by exists (k1, v).
Qed.

Lemma member_lookup k (fs : fields) : lookup_field k fs <> VUndef -> (k, lookup_field k fs) ∈ fs.
Proof.
  induction fs as [|[k1 v1] fs IH]; [done|]. cbn [lookup_field]. destruct (streq k k1) eqn:E; [apply streq_true in E as ->; by left|]. intros H. right. by apply IH.
Qed.

(** ** Rules *)

Lemma raw_key_back v g : parseRawKey (toRawKey v g) = (v, g).
Proof. by destruct v. Qed.

Lemma raw_key_plain v g : is_index (toRawKey v g) = false.
Proof. by destruct v. Qed.

(** A rule whose names can be keys and texts of JSON. *)
Definition rule_ok (r : Rule) : Prop := is_index (userGroup r) = false /\ units (userGroup r) /\ units (targetGroup r) /\ units (rule_description r).

(** A rule that is stored. *)
Definition kept (r : Rule) : Prop := userGroup r <> [] /\ targetGroup r <> [].

Lemma raw_key_units v g : units g -> units (toRawKey v g).
Proof. intros H. destruct v; cbn; repeat (constructor; [done|]); exact H. Qed.

Lemma rule_map_snoc l r : rule_map (l ++ [r]) = serialize_rule (rule_map l) r.
Proof. unfold rule_map. by rewrite fold_left_app. Qed.

(** The rules of one group. *)
Definition inner_ok (fs : fields) : Prop := plain_obj fs /\ Forall (fun e => exists d, e.2 = VStr d) fs.

Lemma set_elem k v (fs : fields) e : NoDup (map fst (set_field k v fs)) -> e ∈ set_field k v fs -> e = (k, v) \/ e ∈ fs.
Proof.
  intros Hd Hin. destruct e as [k' v']. pose proof (lookup_member _ _ _ Hd Hin) as Hl. unfold set_field in Hin. destruct (replace_field k v fs) as [fs'|] eqn:E.
  - destruct (replace_field_elem _ _ _ _ _ E Hin) as [?| ->]; auto.
  - clear E Hd Hl. induction fs as [|[k1 v1] fs IH]; cbn [insert_field] in Hin; [by apply list_elem_of_singleton in Hin; left|].
    destruct (_ && _); [apply elem_of_cons in Hin as [?|?]; auto|]. apply elem_of_cons in Hin as [->|Hin]; [right; by left|]. destruct (IH Hin) as [?|?]; [by left|right; by right].
Qed.

Lemma rule_map_ok l : Forall rule_ok l -> plain_obj (rule_map l) /\ forall u, inner_ok (inner_of u (rule_map l)).
Proof.
  assert (inner_ok []) as Hnil by (split; [split; [apply NoDup_nil_2|done]|done]).
  induction l as [|r l IH] using rev_ind; intros Hf; [split; [split; [apply NoDup_nil_2|done]|done]|]. apply Forall_app in Hf as [Hf [Hr _]%Forall_cons]. destruct (IH Hf) as [Hp Hi].
  rewrite rule_map_snoc. unfold serialize_rule. destruct (_ || _); [done|]. destruct Hr as (H1 & H2 & H3 & H4).
  assert (inner_ok (set_field (toRawKey (visible r) (targetGroup r)) (VStr (rule_description r)) (inner_of (userGroup r) (rule_map l)))) as Hin.
  { destruct (Hi (userGroup r)) as [Hq Ht]. assert (plain_obj (set_field (toRawKey (visible r) (targetGroup r)) (VStr (rule_description r)) (inner_of (userGroup r) (rule_map l)))) as Hq'.
    { apply plain_obj_set; [apply raw_key_plain|by apply raw_key_units|by constructor|done]. }
    split; [done|]. apply Forall_forall. intros e He. destruct (set_elem _ _ _ _ (proj1 Hq') He) as [->|He']; [by eexists|]. rewrite Forall_forall in Ht. by apply Ht. }
  split; [apply plain_obj_set; [done|done|apply plain_obj_wf, Hin|done]|].
  intros u. unfold inner_of. rewrite lookup_set_any. destruct (streq u (userGroup r)); [exact Hin|apply Hi].
Qed.

(** The rules a rule of the table stands next to: same group, same target, both shown or both hidden. *)
Definition same_entry (u : jsstr) (v : bool) (g : jsstr) (r : Rule) : bool := streq (userGroup r) u && Bool.eqb (visible r) v && streq (targetGroup r) g.

Lemma rule_map_lookup l u v g : u <> [] -> g <> [] ->
  lookup_field (toRawKey v g) (inner_of u (rule_map l)) = match last (List.filter (same_entry u v g) l) with Some r => VStr (rule_description r) | None => VUndef end.
Proof.
  intros Hu Hg. induction l as [|r l IH] using rev_ind; [done|]. rewrite rule_map_snoc, List.filter_app. cbn [List.filter]. unfold serialize_rule.
  destruct (same_entry u v g r) eqn:E.
  - unfold same_entry in E. rewrite !andb_true_iff, !streq_true, Bool.eqb_true_iff in E. destruct E as [[<- <-] <-].
    destruct (userGroup r) as [|] eqn:Eu; [done|]. destruct (targetGroup r) as [|] eqn:Et; [done|]. cbn [truthy_str negb orb]. rewrite last_snoc.
    unfold inner_of at 1. by rewrite lookup_set_any, streq_refl, lookup_set_any, streq_refl.
  - rewrite app_nil_r. destruct (_ || _); [exact IH|]. unfold inner_of at 1. rewrite lookup_set_any. destruct (streq u (userGroup r)) eqn:Es; [|exact IH].
    apply streq_true in Es. subst u. rewrite lookup_set_any. destruct (streq (toRawKey v g) _) eqn:Ek; [|exact IH]. exfalso.
    apply streq_true in Ek. apply (f_equal parseRawKey) in Ek. rewrite !raw_key_back in Ek. injection Ek as Ev Eg. subst v g.
    unfold same_entry in E. by rewrite !streq_refl, Bool.eqb_reflx in E.
Qed.

Lemma rule_map_members l u : Forall rule_ok l ->
  forall e, e ∈ inner_of u (rule_map l) -> exists r, r ∈ l /\ kept r /\ userGroup r = u /\ e.1 = toRawKey (visible r) (targetGroup r).
Proof.
  induction l as [|r l IH] using rev_ind; intros Hf; [intros e Hin; by apply elem_of_nil in Hin|]. pose proof (proj2 (rule_map_ok _ Hf) u) as [[Hd _] _].
  apply Forall_app in Hf as [Hf _]. specialize (IH Hf). rewrite rule_map_snoc in *.
  assert (forall e, e ∈ inner_of u (rule_map l) -> exists r', r' ∈ l ++ [r] /\ kept r' /\ userGroup r' = u /\ e.1 = toRawKey (visible r') (targetGroup r')) as Hold.
  { intros e (r' & Hin & Hr')%IH. exists r'. split; [apply elem_of_app; by left|done]. }
  unfold serialize_rule in *. destruct (userGroup r) as [|c u'] eqn:Eu; [exact Hold|]. destruct (targetGroup r) as [|d g'] eqn:Eg; [exact Hold|]. cbn [truthy_str negb orb] in *.
  unfold inner_of at 1 in Hd. unfold inner_of at 1. rewrite lookup_set_any in *. destruct (streq u (c :: u')) eqn:Es; [|exact Hold].
  intros e He. destruct (set_elem _ _ _ _ Hd He) as [->|He']; [|apply Hold]; apply streq_true in Es as ->; [|done].
  exists r. unfold kept. rewrite Eu, Eg. split_and!; try done. apply elem_of_app. right. by left.
Qed.

(** *** The server *)

(** What an entry does to a group. *)
Lemma apply_special_lookup groups e t :
  apply_special groups e !! t = if streq (parseRawKey e.1).2 t then (if (parseRawKey e.1).1 then Some e.2 else None) else groups !! t.
Proof.
  unfold apply_special, parseRawKey. destruct (starts_with (js "-:") e.1); [|destruct (starts_with (js "+:") e.1)]; cbn [fst snd]; unfold streq; case_bool_decide as E; subst;
    by rewrite ?lookup_delete_eq, ?lookup_delete_ne, ?lookup_insert_eq, ?lookup_insert_ne by done.
Qed.

Lemma special_untouched l groups t : Forall (fun e => (parseRawKey e.1).2 <> t) l -> applyGroupSpecialUsable groups l !! t = groups !! t.
Proof.
  unfold applyGroupSpecialUsable. revert groups. induction l as [|e l IH]; intros groups Hf; [done|]. apply Forall_cons in Hf as [He Hf]. cbn [fold_left].
  rewrite IH, apply_special_lookup by done. by rewrite (proj2 (streq_false _ _)).
Qed.

Lemma special_decided l groups t e :
  e ∈ l -> (parseRawKey e.1).2 = t -> (forall e', e' ∈ l -> (parseRawKey e'.1).2 = t -> e' = e) ->
  applyGroupSpecialUsable groups l !! t = if (parseRawKey e.1).1 then Some e.2 else None.
Proof.
  intros Hin Ht Hu. unfold applyGroupSpecialUsable. induction l as [|e1 l IH] using rev_ind; [by apply elem_of_nil in Hin|].
  rewrite fold_left_app. cbn [fold_left]. rewrite apply_special_lookup. destruct (streq (parseRawKey e1.1).2 t) eqn:E.
  - apply streq_true in E. by rewrite (Hu e1) by (done || (apply elem_of_app; right; by left)).
  - apply streq_false in E. apply IH.
    + apply elem_of_app in Hin as [?|Hin]; [done|]. apply list_elem_of_singleton in Hin as ->. done.
    + intros e' He'. apply Hu, elem_of_app. by left.
Qed.

Lemma rule_map_objects l u : lookup_field u (rule_map l) = VUndef \/ exists inner, lookup_field u (rule_map l) = VObj inner.
Proof.
  induction l as [|r l IH] using rev_ind; [by left|]. rewrite rule_map_snoc. unfold serialize_rule. destruct (_ || _); [done|]. rewrite lookup_set_any. destruct (streq _ _); eauto.
Qed.

(** The stored text, read by the server. *)
Lemma stored_rules l u : Forall rule_ok l ->
  exists special, stored_special u (normalizeJsonString (serializeRules l)) = Some special
    /\ inner_of u (rule_map l) = map (fun e => (e.1, VStr e.2)) special.
Proof.
  intros Hf. destruct (rule_map_ok l Hf) as [Hp Hi].
  assert (json_parse (normalizeJsonString (serializeRules l)) = Some (VObj (rule_map l))) as Hparse.
  { unfold serializeRules. destruct (rule_map l) as [|f fs] eqn:E; [by vm_compute|]. rewrite <- E in *. unfold normalizeJsonString, stringify2.
    destruct (ModelPricingLaws.object_text_solid [32; 32] (rule_map l)) as [-> ->]. rewrite parse_stringify; [|by repeat constructor|by apply plain_obj_wf].
    apply (parse_stringify []); [apply Forall_nil_2|by apply plain_obj_wf]. }
  unfold stored_special. rewrite Hparse. cbn [mbind option_bind]. destruct (Hi u) as [_ Ht]. unfold inner_of in *.
  destruct (rule_map_objects l u) as [E|[inner E]]; rewrite E in *; [by exists []|].
  revert Ht. clear. induction inner as [|[k v] inner IH]; intros Ht; [by exists []|]. apply Forall_cons in Ht as [[d Hd] Ht]. cbn in Hd. subst v.
  destruct (IH Ht) as (sp & Hsp & Hm). exists ((k, d) :: sp). cbn [mapM]. rewrite Hsp. split; [done|]. cbn. by rewrite Hm.
Qed.

(** What the editor shows for a target: its last rule. *)
Definition verdict (l : list Rule) (u t : jsstr) : option (bool * jsstr) :=
  (fun r => (visible r, rule_description r)) <$> last (List.filter (fun r => streq (userGroup r) u && streq (targetGroup r) t) l).

(** What a verdict makes of a group. *)
Definition decided (v : option (bool * jsstr)) (before : option jsstr) : option jsstr :=
  match v with Some (true, d) => Some d | Some (false, _) => None | None => before end.

Lemma usable_decided usable owned order desc u t v :
  u <> [] -> t <> u -> (forall groups, applyGroupSpecialUsable groups order !! t = decided v (groups !! t)) ->
  GetUserUsableGroups usable owned order desc u !! t = decided v (if owned t then None else usable !! t).
Proof.
  intros Hu Htu Happ. unfold GetUserUsableGroups. destruct u as [|c u']; [done|]. cbn [truthy_str].
  set (g := applyGroupSpecialUsable _ order). assert (g !! t = decided v (if owned t then None else usable !! t)) as Hg.
  { unfold g. rewrite Happ. f_equal. rewrite map_lookup_filter. destruct (usable !! t) as [d|]; cbn; [|by destruct (owned t)]. case_guard as Ho; cbn in Ho; destruct (owned t); naive_solver. }
  destruct (g !! (c :: u')); [exact Hg|]. by rewrite lookup_insert_ne.
Qed.

(** No target is both shown and hidden. *)
Definition no_conflict (l : list Rule) (u : jsstr) : Prop :=
  forall r r', r ∈ l -> r' ∈ l -> userGroup r = u -> userGroup r' = u -> targetGroup r = targetGroup r' -> visible r = visible r'.

Lemma last_elem (p : Rule -> bool) l r : last (List.filter p l) = Some r -> r ∈ l /\ p r = true.
Proof. intros H%last_Some_elem_of. by apply list_elem_of_In, filter_In in H as [H%list_elem_of_In Hp]. Qed.

Lemma verdict_entry l u t v d : no_conflict l u -> verdict l u t = Some (v, d) ->
  (exists r, last (List.filter (same_entry u v t) l) = Some r /\ rule_description r = d)
  /\ forall r, r ∈ l -> userGroup r = u -> targetGroup r = t -> visible r = v.
Proof.
  intros Hc. unfold verdict. intros (r & Hl & [= -> ->])%fmap_Some. destruct (last_elem _ _ _ Hl) as [Hr [Eu%streq_true Et%streq_true]%andb_true_iff]. subst u t.
  assert (forall r0, r0 ∈ l -> userGroup r0 = userGroup r -> targetGroup r0 = targetGroup r -> visible r0 = visible r) as Hv by (intros; by apply Hc).
  split; [|done]. exists r. split; [|done]. rewrite <- Hl. f_equal. apply List.filter_ext_in. intros r0 Hr0%list_elem_of_In. unfold same_entry.
  destruct (streq (userGroup r0) _) eqn:E1, (streq (targetGroup r0) _) eqn:E2; rewrite ?andb_false_r; try done. apply streq_true in E1, E2.
  by rewrite (Hv r0), Bool.eqb_reflx.
Qed.

(** C20: refinement, for a user group that no target is both shown to and hidden from. The rules of the editor mean what the server does:
    saved and read again, in whatever order the server goes through them, a group the editor shows as hidden from the user group is taken away,
    one it shows as extra visible is given with its description, and every other group is as it was; so the groups a user may select are those
    of everyone, less those of other customers, as the rules change them, and a user is billed under other groups only where a rule says so.
    The editor accepts rules that both show and hide a target; what the server does with them depends on its order ([conflicting_rules_undecided]). *)
Theorem rules_applied l u (Hf : Forall rule_ok l) (Hu : u <> []) (Hc : no_conflict l u) :
  exists special, stored_special u (normalizeJsonString (serializeRules l)) = Some special
    /\ forall order t, order ≡ₚ special -> t <> [] ->
         (forall groups, applyGroupSpecialUsable groups order !! t = decided (verdict l u t) (groups !! t))
         /\ (t <> u -> (forall usable owned desc, GetUserUsableGroups usable owned order desc u !! t = decided (verdict l u t) (if owned t then None else usable !! t))
                       /\ (forall usable, GetUserBillableGroups usable order u !! t = decided (verdict l u t) None)).
Proof.
  destruct (stored_rules l u Hf) as (special & Hs & Hm). exists special. split; [done|]. intros order t Hperm Ht.
  enough (forall groups, applyGroupSpecialUsable groups order !! t = decided (verdict l u t) (groups !! t)) as Happ.
  { split; [done|]. intros Htu. split; [intros; by apply usable_decided|]. intros usable. unfold GetUserBillableGroups. destruct u; [done|]. cbn [truthy_str]. by rewrite Happ, lookup_singleton_ne. }
  intros groups. assert (forall e, e ∈ order -> exists r, r ∈ l /\ userGroup r = u /\ e.1 = toRawKey (visible r) (targetGroup r)) as Hmem.
  { intros e He. rewrite Hperm in He. destruct (rule_map_members l u Hf (e.1, VStr e.2)) as (r & ? & _ & ? & ?); [|by exists r].
    rewrite Hm. by apply (list_elem_of_fmap_2 (fun e => (e.1, VStr e.2))). }
  destruct (verdict l u t) as [[v d]|] eqn:Ev.
  - destruct (verdict_entry l u t v d Hc Ev) as [(r & Hl & Hd) Hv].
    pose proof (rule_map_lookup l u v t Hu Ht) as Hlk. rewrite Hl, Hd, Hm in Hlk.
    assert ((toRawKey v t, d) ∈ order) as Hin.
    { rewrite Hperm. assert ((toRawKey v t, VStr d) ∈ map (fun e => (e.1, VStr e.2)) special) as Hx by (rewrite <- Hlk; apply member_lookup; by rewrite Hlk).
      apply list_elem_of_fmap in Hx as ([k x] & [= -> ->] & Hx). done. }
    rewrite (special_decided _ _ t (toRawKey v t, d) Hin); cbn [fst snd]; rewrite ?raw_key_back; [by destruct v|done|].
    intros e He Het. destruct (Hmem e He) as (r' & Hr' & Hu' & Hk). rewrite Hk, raw_key_back in Het. cbn in Het. rewrite Het, (Hv r' Hr' Hu' Het) in Hk.
    destruct e as [k x]. cbn in Hk. subst k. f_equal. pose proof (proj2 (rule_map_ok l Hf) u) as [[Hnd _] _]. rewrite Hm in Hnd.
    assert (VStr x = VStr d) as [= ->]; [|done]. rewrite <- Hlk. symmetry. apply lookup_member; [done|]. rewrite Hperm in He.
    by apply (list_elem_of_fmap_2 (fun e => (e.1, VStr e.2))) in He.
  - apply special_untouched, Forall_forall. intros e He Het. destruct (Hmem e He) as (r' & Hr' & Hu' & Hk). rewrite Hk, raw_key_back in Het. cbn in Het.
    unfold verdict in Ev. apply fmap_None, last_None in Ev. assert (r' ∈ @nil Rule) as Hx; [|by apply elem_of_nil in Hx].
    rewrite <- Ev. apply list_elem_of_In, filter_In. split; [by apply list_elem_of_In|]. by rewrite Hu', Het, !streq_refl.
Qed.

(** ** The table *)

Definition row_of (k : jsstr) (l : list GroupPricingRow) : option GroupPricingRow := List.find (fun r => streq (trim (name r)) k) l.

(** The number a row stores as the ratio for recharges. *)
Definition topup_of (r : GroupPricingRow) : option num :=
  let s := trim (topupRatio r) in if negb (streq s []) && is_finite (string_to_number s) then Some (string_to_number s) else None.

Lemma row_of_None k l : row_of k l = None <-> k ∉ map (fun r => trim (name r)) l.
Proof.
  induction l as [|r l IH]; cbn [row_of List.find map]; [split; [intros _ H; by apply elem_of_nil in H|done]|]. rewrite elem_of_cons. destruct (streq _ k) eqn:E.
  - apply streq_true in E. split; [done|]. intros H. exfalso. apply H. by left.
  - apply streq_false in E. fold (row_of k l). rewrite IH. naive_solver.
Qed.

Lemma row_of_Some k l r : row_of k l = Some r -> r ∈ l /\ trim (name r) = k.
Proof. intros [H E]%List.find_some. split; [by apply list_elem_of_In|by apply streq_true]. Qed.

(** Rows with different names do not touch each other's entries. *)
Lemma serialize_lookup l k : NoDup (map (fun r => trim (name r)) l) -> k <> [] -> forall m,
  let m' := fold_left serialize_row l m in
  lookup_field k (m_ratio m') = match row_of k l with Some r => VNum (ratio_of (ratio r)) | None => lookup_field k (m_ratio m) end
  /\ lookup_field k (m_usable m') = match row_of k l with Some r => if selectable r then VStr (description r) else lookup_field k (m_usable m) | None => lookup_field k (m_usable m) end
  /\ lookup_field k (m_topup m') = match row_of k l ≫= topup_of with Some x => VNum x | None => lookup_field k (m_topup m) end.
Proof.
  intros Hd Hk. induction l as [|r l IH]; intros m; [done|]. cbn [fold_left map] in *. apply NoDup_cons in Hd as [Hn Hd]. cbv zeta. destruct (IH Hd (serialize_row m r)) as (-> & -> & ->).
  cbn [row_of List.find]. fold (row_of k l). unfold serialize_row. destruct (streq (trim (name r)) k) eqn:E.
  - apply streq_true in E. rewrite (proj2 (row_of_None k l)) by (by rewrite <- E). rewrite E. destruct k; [done|]. cbn [truthy_str negb m_ratio m_usable m_topup mbind option_bind].
    unfold topup_of. split_and!; [by rewrite lookup_set_any, streq_refl| |]; [destruct (selectable r)|destruct (_ && _)]; by rewrite ?lookup_set_any, ?streq_refl.
  - apply streq_false in E. assert (streq k (trim (name r)) = false) as Hne by (apply streq_false; congruence).
    destruct (negb (truthy_str (trim (name r)))); [done|]. cbn [m_ratio m_usable m_topup]. rewrite lookup_set_any, Hne.
    split_and!; [done| |]; [destruct (selectable r)|destruct (negb _ && _)]; by rewrite ?lookup_set_any, ?Hne.
Qed.

(** A number whose text the table reads back. *)
Definition num_back (x : num) : bool := is_finite x && truthy_str (num_text x) && bool_decide (trim (num_text x) = num_text x) && bool_decide (string_to_number (num_text x) = x).

Record texts_ok (t : Texts) (r u p : fields) : Prop := {
  t_ratio : parseRatioMap (groupRatio t) = VObj r;
  t_usable : parseUsableMap (userUsableGroups t) = VObj u;
  t_topup : parseRatioMap (topupGroupRatio t) = VObj p;
  t_names : Forall (fun k => trim k = k /\ k <> []) (map fst r ++ map fst u ++ map fst p);
  t_numbers : Forall (fun e => exists x, e.2 = VNum x /\ num_back x = true) (r ++ p);
  t_descriptions : Forall (fun e => exists d, e.2 = VStr d) u
}.

Lemma lookup_shape (P : val -> Prop) k (fs : fields) : Forall (fun e => P e.2) fs -> if has_key k fs then P (lookup_field k fs) else lookup_field k fs = VUndef.
Proof.
  intros Hf. unfold has_key. case_bool_decide as Hk; [|by apply lookup_field_None]. apply list_elem_of_fmap in Hk as ([k' v] & -> & Hin). cbn [fst].
  induction fs as [|[k1 v1] fs IH]; [by apply elem_of_nil in Hin|]. apply Forall_cons in Hf as [H1 Hf]. cbn [lookup_field]. destruct (streq k' k1) eqn:E; [done|].
  apply elem_of_cons in Hin as [[= -> ->]|Hin]; [by rewrite streq_refl in E|by apply IH].
Qed.

(** What the table stores of a group it was opened with. *)
Definition ratio_entry (k : jsstr) (r : fields) : val := match lookup_field k r with VUndef => VNum one | v => v end.

Lemma build_row_stored t r u p id k row : texts_ok t r u p -> build_row r u p id k = Some row ->
  name row = k /\ row_id row = id /\ VNum (ratio_of (ratio row)) = ratio_entry k r
  /\ (if selectable row then VStr (description row) else VUndef) = lookup_field k u
  /\ match topup_of row with Some x => VNum x | None => VUndef end = lookup_field k p.
Proof.
  intros [_ _ _ _ Hn Hu]. apply Forall_app in Hn as [Hr Hp].
  pose proof (lookup_shape (fun v => exists x, v = VNum x /\ num_back x = true) k r Hr) as Lr. pose proof (lookup_shape (fun v => exists d, v = VStr d) k u Hu) as Lu.
  pose proof (lookup_shape (fun v => exists x, v = VNum x /\ num_back x = true) k p Hp) as Lp.
  unfold build_row. intros (x & Hx & (top & Htop & (desc & Hdesc & [= <-])%bind_Some)%bind_Some)%bind_Some. cbn [name row_id ratio selectable description].
  split_and!; [done|done| | |].
  - unfold ratio_entry. destruct (has_key k r); [destruct Lr as (y & Hy & Hb)|]; [rewrite Hy in *|rewrite Lr in *]; cbn in Hx.
    + unfold num_back in Hb. rewrite !andb_true_iff, !bool_decide_eq_true in Hb. destruct Hb as [[[Hfin _] _] Hback]. rewrite Hfin in Hx. injection Hx as <-.
      unfold ratio_of. by rewrite Hback, Hfin.
    + injection Hx as <-. by vm_compute.
  - destruct (has_key k u); [destruct Lu as (d & Hd); rewrite Hd in *; by injection Hdesc as <-|by rewrite Lu].
  - unfold topup_of. cbn [topupRatio]. destruct (has_key k p); [destruct Lp as (y & Hy & Hb); rewrite Hy in *|by rewrite Lp; injection Htop as <-].
    cbn in Htop. injection Htop as <-. unfold num_back in Hb. rewrite !andb_true_iff, !bool_decide_eq_true in Hb. destruct Hb as [[[Hfin Ht] Htrim] Hback].
    rewrite Htrim, Hback, Hfin. by destruct (num_text y).
Qed.

(** The rows are built one for each name, with identifiers of their own. *)
Lemma build_rows_spec r u p names : forall id l, build_rows r u p id names = Some l ->
  map name l = names /\ map row_id l = map (fun i => id + Z.of_nat i) (seq 0 (length names))
  /\ forall row, row ∈ l -> build_row r u p (row_id row) (name row) = Some row.
Proof.
  induction names as [|n names IH]; intros id l.
  - intros [= <-]. split_and!; [done|done|]. intros row Hin. by apply elem_of_nil in Hin.
  - cbn [build_rows]. intros (row & Hrow & (rest & Hrest & [= <-])%bind_Some)%bind_Some. destruct (IH _ _ Hrest) as (Hn & Hi & Hb).
    assert (name row = n /\ row_id row = id) as [En Ei].
    { unfold build_row in Hrow. apply bind_Some in Hrow as (x & _ & Hrow). apply bind_Some in Hrow as (tp & _ & Hrow). apply bind_Some in Hrow as (d & _ & [= <-]). done. }
    cbn [map length seq]. rewrite Hn, Hi, En, Ei. split_and!; [done| |].
    + f_equal; [lia|]. rewrite <- seq_shift, map_map. apply map_ext. lia.
    + intros row' [->|Hin]%elem_of_cons; [by rewrite En, Ei|by apply Hb].
Qed.

Lemma row_of_map k f l : (forall r, name (f r) = name r) -> row_of k (map f l) = f <$> row_of k l.
Proof. intros Hf. unfold row_of. induction l as [|r l IH]; [done|]. cbn [map List.find]. rewrite Hf. by destruct (streq _ k). Qed.

Lemma names_map f l : (forall r, name (f r) = name r) -> map (fun r => trim (name r)) (map f l) = map (fun r => trim (name r)) l.
Proof. intros Hf. rewrite map_map. apply map_ext. intros r. by rewrite Hf. Qed.

Definition ids_ok (l : list GroupPricingRow) (n : Z) : Prop := NoDup (map row_id l) /\ Forall (fun r => row_id r < n) l.

Lemma open_ids t id w : open_table t id = Some w -> ids_ok (rows w) (next_id w).
Proof.
  unfold open_table, buildGroupPricingRows. intros (l & Hl & [= <-])%bind_Some. apply bind_Some in Hl as (r & _ & Hl). apply bind_Some in Hl as (u & _ & Hl). apply bind_Some in Hl as (p & _ & Hl).
  destruct (build_rows_spec _ _ _ _ _ _ Hl) as (Hn & Hi & _). cbn [rows next_id]. split.
  - rewrite Hi. apply NoDup_fmap_2_strong; [intros; lia|]. apply NoDup_ListNoDup, seq_NoDup.
  - apply Forall_forall. intros row Hin. assert (row_id row ∈ map row_id l) as Hr by (by apply list_elem_of_fmap_2). rewrite Hi in Hr. apply list_elem_of_fmap in Hr as (i & -> & Hi').
    apply elem_of_seq in Hi'. rewrite <- Hn, length_map in Hi'. lia.
Qed.

Lemma opened_rows t r u p id w : texts_ok t r u p -> open_table t id = Some w ->
  let names := dedup (map fst r ++ map fst u ++ map fst p) in
  map (fun r => trim (name r)) (rows w) = names
  /\ forall row, row ∈ rows w -> trim (name row) = name row /\ build_row r u p (row_id row) (name row) = Some row.
Proof.
  intros Hok. unfold open_table, buildGroupPricingRows. rewrite (t_ratio _ _ _ _ Hok), (t_usable _ _ _ _ Hok), (t_topup _ _ _ _ Hok). cbn [object_entries own_fields mbind option_bind].
  intros (l & Hl & [= <-])%bind_Some. cbn [rows]. destruct (build_rows_spec _ _ _ _ _ _ Hl) as (Hn & _ & Hb).
  assert (forall row, row ∈ l -> trim (name row) = name row) as Htrim.
  { intros row Hin. pose proof (t_names _ _ _ _ Hok) as Hf. rewrite Forall_forall in Hf. apply Hf. apply elem_of_dedup. rewrite <- Hn. by apply list_elem_of_fmap_2. }
  split; [|intros row Hin; split; [by apply Htrim|by apply Hb]].
  rewrite <- Hn. apply map_ext_in. intros row Hin%list_elem_of_In. by apply Htrim.
Qed.

Lemma map_distinct {A B} (g : A -> B) l x y : NoDup (map g l) -> x ∈ l -> y ∈ l -> g x = g y -> x = y.
Proof.
  induction l as [|r l IH]; [intros _ H; by apply elem_of_nil in H|]. cbn [map]. rewrite NoDup_cons, !elem_of_cons. intros [Hn Hd] [->|Hx] [->|Hy] E; [done| | |by apply IH].
  - exfalso. apply Hn. rewrite E. by apply list_elem_of_fmap_2.
  - exfalso. apply Hn. rewrite <- E. by apply list_elem_of_fmap_2.
Qed.

(** C21: functional. Opening the stored options and changing one group, other than its name, stores of every other group what was stored:
    its ratio, its description if users may select it, its ratio for recharges. A group that had no ratio
    gets 1. Of the changed group the row is stored. *)
Theorem edit_is_local t r u p id w v c
    (Hok : texts_ok t r u p) (Ho : open_table t id = Some w) (Hv : v ∈ rows w) (Hc : forall x, name (change_row c x) = name x) :
  let m := serialize_maps (rows (updateRow (row_id v) c w)) in
  (forall k, k <> [] -> k <> name v ->
     lookup_field k (m_ratio m) = (if has_key k r || has_key k u || has_key k p then ratio_entry k r else VUndef)
     /\ lookup_field k (m_usable m) = lookup_field k u /\ lookup_field k (m_topup m) = lookup_field k p)
  /\ lookup_field (name v) (m_ratio m) = VNum (ratio_of (ratio (change_row c v)))
  /\ lookup_field (name v) (m_usable m) = (if selectable (change_row c v) then VStr (description (change_row c v)) else VUndef)
  /\ lookup_field (name v) (m_topup m) = match topup_of (change_row c v) with Some x => VNum x | None => VUndef end.
Proof.
  destruct (opened_rows t r u p id w Hok Ho) as (Hn & Hrow). destruct (open_ids t id w Ho) as [Hid _]. set (f := fun x => if row_id x =? row_id v then change_row c x else x).
  assert (forall x, name (f x) = name x) as Hf by (intros x; unfold f; by destruct (_ =? _)).
  assert (NoDup (map (fun x => trim (name x)) (map f (rows w)))) as Hnd by (rewrite names_map, Hn by done; apply NoDup_dedup).
  cbv zeta. unfold updateRow, emitRows. cbn [rows]. fold f. unfold serialize_maps. split.
  - intros k Hk Hkv. destruct (serialize_lookup _ k Hnd Hk (mkMaps [] [] [])) as (-> & -> & ->). cbn [m_ratio m_usable m_topup lookup_field]. rewrite row_of_map by done. destruct (row_of k (rows w)) as [x|] eqn:E; cbn [fmap option_fmap option_map mbind option_bind].
    + destruct (row_of_Some _ _ _ E) as [Hin Hx]. destruct (Hrow x Hin) as [Htx Hb]. rewrite Htx in Hx. subst k.
      assert (f x = x) as -> by (unfold f; destruct (Z.eqb_spec (row_id x) (row_id v)) as [Hi|]; [by rewrite (map_distinct row_id _ _ _ Hid Hin Hv Hi) in Hkv|done]).
      destruct (build_row_stored _ _ _ _ _ _ _ Hok Hb) as (_ & _ & H1 & H2 & H3). rewrite H1, H2, H3. split; [|done].
      assert (name x ∈ map fst r ++ map fst u ++ map fst p) as Hname by (apply elem_of_dedup; rewrite <- Hn, <- Htx; by apply (list_elem_of_fmap_2 (fun r => trim (name r)))).
      rewrite !elem_of_app in Hname. unfold has_key. destruct Hname as [Hy|[Hy|Hy]]; rewrite (bool_decide_eq_true_2 _ Hy); by rewrite ?orb_true_r.
    + apply row_of_None in E. rewrite Hn, elem_of_dedup, !elem_of_app in E. unfold has_key. rewrite !bool_decide_eq_false_2 by tauto. rewrite !lookup_field_None by tauto. done.
  - destruct (Hrow v Hv) as [Htv _]. assert (name v <> []) as Hne.
    { pose proof (t_names _ _ _ _ Hok) as Hall. rewrite Forall_forall in Hall. apply (Hall (name v)). apply elem_of_dedup. rewrite <- Hn, <- Htv. by apply (list_elem_of_fmap_2 (fun r => trim (name r))). }
    assert (row_of (name v) (rows w) = Some v) as Ev.
    { destruct (row_of (name v) (rows w)) as [x|] eqn:E.
      - destruct (row_of_Some _ _ _ E) as [Hin Hx]. f_equal.
        apply (map_distinct (fun r => trim (name r)) (rows w)); [rewrite Hn; apply NoDup_dedup|done|done|congruence].
      - apply row_of_None in E. exfalso. apply E. rewrite <- Htv. by apply (list_elem_of_fmap_2 (fun r => trim (name r))). }
    destruct (serialize_lookup _ (name v) Hnd Hne (mkMaps [] [] [])) as (-> & -> & ->). rewrite row_of_map, Ev by done. cbn [fmap option_fmap option_map mbind option_bind].
    assert (f v = change_row c v) as -> by (unfold f; by rewrite Z.eqb_refl). done.
Qed.

(** *** Rows keep their identity *)

Lemma free_index_bad fuel existing i : group_n (free_index fuel existing i) ∈ existing -> forall j, i <= j < i + Z.of_nat fuel -> group_n j ∈ existing.
Proof.
  revert i. induction fuel as [|fuel IH]; intros i; cbn [free_index]; [lia|]. case_bool_decide as Hi; [|done]. intros Hb j Hj.
  destruct (decide (j = i)) as [->|Hne]; [done|]. apply (IH _ Hb). lia.
Qed.

Lemma group_n_inj i j : 0 <= i -> 0 <= j -> group_n i = group_n j -> i = j.
Proof. unfold group_n. intros Hi Hj E%app_inv_head. by rewrite <- (dec_value i Hi), <- (dec_value j Hj), E. Qed.

(** The loop of [addRow] ends with a name no row has. *)
Lemma fresh_group_name existing : group_n (free_index (S (length existing)) existing 1) ∉ existing.
Proof.
  intros Hb. pose proof (free_index_bad _ _ _ Hb) as Hall.
  assert (length (map group_n (seqZ 1 (Z.of_nat (S (length existing))))) <= length existing)%nat as Hlen.
  { apply submseteq_length, NoDup_submseteq.
    - apply NoDup_fmap_2_strong; [|apply NoDup_seqZ]. intros x y Hx%elem_of_seqZ Hy%elem_of_seqZ. apply group_n_inj; lia.
    - intros x (j & -> & Hj%elem_of_seqZ)%list_elem_of_fmap. apply Hall. lia. }
  rewrite length_map, length_seqZ in Hlen. lia.
Qed.

Inductive TableStep : Table -> Table -> Prop :=
| table_update id c w : TableStep w (updateRow id c w)
| table_add w : TableStep w (addRow w)
| table_remove id w : TableStep w (removeRow id w)
| table_reset t w w' : sync (mkTable (rows w) (next_id w) t) = Some w' -> TableStep w w'.

Definition table_reachable (w : Table) : Prop := exists t id w0, open_table t id = Some w0 /\ rtc TableStep w0 w.

Lemma change_row_id c r : row_id (change_row c r) = row_id r.
Proof. by destruct c. Qed.

Lemma add_ids w : ids_ok (rows w) (next_id w) -> ids_ok (rows (addRow w)) (next_id (addRow w)).
Proof.
  intros [Hd Hf]. cbn. split.
  - rewrite map_app. apply NoDup_app. split_and!; [done| |apply NoDup_singleton]. intros i Hi ->%list_elem_of_singleton.
    apply list_elem_of_fmap in Hi as (r & Hr & Hin). rewrite Forall_forall in Hf. specialize (Hf r Hin). cbn in Hr. lia.
  - apply Forall_app. split; [eapply Forall_impl; [exact Hf|]; cbn; intros; lia|]. apply Forall_singleton. cbn. lia.
Qed.

Lemma table_ids w w' : TableStep w w' -> ids_ok (rows w) (next_id w) -> ids_ok (rows w') (next_id w').
Proof.
  destruct 1 as [id c w|w|id w|t w w' Hs]; intros [Hd Hf].
  - assert (map row_id (rows (updateRow id c w)) = map row_id (rows w)) as E.
    { cbn. rewrite map_map. apply map_ext. intros r. destruct (_ =? _); [apply change_row_id|done]. }
    split; [by rewrite E|]. cbn. apply Forall_fmap. eapply Forall_impl; [exact Hf|]. intros r Hr. cbn. destruct (_ =? _); [by rewrite change_row_id|done].
  - by apply add_ids.
  - cbn. split; [|by apply Forall_forall; intros r [Hr%list_elem_of_In _]%list_elem_of_In%filter_In; rewrite Forall_forall in Hf; apply Hf].
    apply NoDup_ListNoDup. apply NoDup_ListNoDup in Hd. revert Hd. generalize (rows w). clear. intros l. induction l as [|r l IH]; [done|]. cbn. intros Hd. inversion Hd; subst.
    destruct (negb _); [|by apply IH]. cbn. constructor; [|by apply IH]. intros Hin. apply in_map_iff in Hin as (x & Hx & [Hin _]%filter_In). apply H1. apply in_map_iff. by exists x.
  - unfold sync in Hs. cbn in Hs. destruct (streq _ _); [injection Hs as <-; by split|]. by eapply open_ids.
Qed.

(** C22: invariant. In every state the table reaches, from any stored options, through changes, new rows, removals and new settings from the server, its
    rows have identifiers of their own; a new row gets a name no row has; and what is typed stays as typed when the form answers
    with the texts made of it. *)
Theorem table_invariant w (Hr : table_reachable w) :
  NoDup (map row_id (rows w))
  /\ (exists r, rows (addRow w) = rows w ++ [r] /\ name r ∉ map name (rows w) /\ row_id r ∉ map row_id (rows w))
  /\ (forall id c, sync (updateRow id c w) = Some (updateRow id c w)) /\ sync (addRow w) = Some (addRow w) /\ (forall id, sync (removeRow id w) = Some (removeRow id w)).
Proof.
  destruct Hr as (t & id & w0 & Ho & Hs). assert (ids_ok (rows w) (next_id w)) as [Hd Hf].
  { apply open_ids in Ho. induction Hs; eauto using table_ids. }
  assert (forall l v, sync (emitRows l v) = Some (emitRows l v)) as Hsync by (intros l v; unfold sync, emitRows; cbn; by unfold groupPricingSignature; rewrite streq_refl).
  split_and!; [done| |intros; apply Hsync|apply Hsync|intros; apply Hsync].
  eexists. split; [done|]. cbn. split; [apply fresh_group_name|]. intros (r & Hr & Hin)%list_elem_of_fmap. rewrite Forall_forall in Hf. specialize (Hf r Hin). cbn in Hr. lia.
Qed.

(** ** The save *)

Lemma send_all accepts l stored : (forall k v, accepts k v = true) -> send_options accepts l stored = (spread_over stored l, true).
Proof.
  intros Ha. revert stored. induction l as [|[k v] l IH]; intros stored; [done|]. cbn [send_options]. rewrite Ha, IH. done.
Qed.

(** Every text of the form is stored normalised: a text that differs from the defaults is sent, and the others are stored already. *)
Theorem save_stores accepts f defaults stored k s
    (Ha : forall k v, accepts k v = true) (Hs : forall k, lookup_field k stored = lookup_field k defaults) (Hk : (k, VStr s) ∈ normalized f) :
  lookup_field k (saveGroupRatios accepts f defaults stored).1 = VStr s /\ (saveGroupRatios accepts f defaults stored).2 = normalized f.
Proof.
  unfold saveGroupRatios. rewrite send_all by done. split; [|done]. cbn [fst].
  assert (NoDup (map fst (normalized f))) as Hd by (apply (bool_decide_unpack _); by vm_compute).
  assert (NoDup (map fst (updates (normalized f) defaults))) as Hu.
  { unfold updates. revert Hd. generalize (normalized f). intros l. induction l as [|e l IH]; [done|]. cbn [map List.filter]. rewrite NoDup_cons. intros [Hn Hd].
    destruct (negb _); [|by apply IH]. cbn [map]. rewrite NoDup_cons. split; [|by apply IH]. intros (x & Hx & [Hin%list_elem_of_In _]%list_elem_of_In%filter_In)%list_elem_of_fmap.
    apply Hn. rewrite Hx. by apply list_elem_of_fmap_2. }
  rewrite lookup_spread by done. case_bool_decide as Hin.
  - apply list_elem_of_fmap in Hin as ([k' v] & Hk' & Hin). cbn in Hk'. subst k'. rewrite (lookup_member _ _ _ Hu Hin). apply list_elem_of_In, filter_In in Hin as [Hin%list_elem_of_In _].
    by rewrite <- (lookup_member _ _ _ Hd Hin), (lookup_member _ _ _ Hd Hk).
  - destruct (strict_eq (VStr s) (lookup_field k defaults)) eqn:E.
    + rewrite Hs. cbn in E. destruct (lookup_field k defaults); try done. by apply streq_true in E as ->.
    + exfalso. apply Hin. apply list_elem_of_fmap. exists (k, VStr s). split; [done|]. apply list_elem_of_In, filter_In. split; [by apply list_elem_of_In|]. cbn [fst snd]. by rewrite E.
Qed.

(** ** Examples *)

Definition rules0 : list Rule :=
  [mkRule 1 (js "vip") true (js "beta") (js "Early access"); mkRule 2 (js "vip") false (js "default") (js "remove"); mkRule 3 (js "vip") true [] []].

Lemma rules_applied_witness :
  Forall rule_ok rules0 /\ no_conflict rules0 (js "vip")
  /\ exists special, stored_special (js "vip") (normalizeJsonString (serializeRules rules0)) = Some special
       /\ applyGroupSpecialUsable {[js "default" := js "Standard"]} (reverse special) !! js "default" = None
       /\ applyGroupSpecialUsable {[js "default" := js "Standard"]} special !! js "beta" = Some (js "Early access").
Proof.
  assert (Forall rule_ok rules0) as Hok by (repeat constructor).
  assert (no_conflict rules0 (js "vip")) as Hc.
  { intros r r' Hr Hr' _ _. unfold rules0 in *. rewrite !elem_of_cons, elem_of_nil in Hr, Hr'. destruct Hr as [->|[->|[->|[]]]], Hr' as [->|[->|[->|[]]]]; try done; discriminate. }
  split; [exact Hok|]. split; [exact Hc|]. destruct (rules_applied rules0 (js "vip") Hok ltac:(discriminate) Hc) as (special & Hs & Happ). exists special. split; [exact Hs|]. split.
  - rewrite (proj1 (Happ (reverse special) (js "default") (reverse_Permutation _) ltac:(discriminate))). reflexivity.
  - rewrite (proj1 (Happ special (js "beta") (Permutation_refl _) ltac:(discriminate))). reflexivity.
Defined.

Definition texts0 : Texts := mkTexts (jq "{'default':1,'vip':0.8}") (jq "{'default':'Standard','beta':'Early access'}") (jq "{'vip':1.2}").
Definition num_of (s : string) : num := string_to_number (js s).
Definition table0 : Table := default (mkTable [] 0 texts0) (open_table texts0 1).
Definition vip0 : GroupPricingRow := mkRow 2 (js "vip") (js "0.8") (js "1.2") false [].

Lemma edit_is_local_witness :
  let m := serialize_maps (rows (updateRow 2 (SetRatio (js "0.7")) table0)) in
  lookup_field (js "vip") (m_ratio m) = VNum (num_of "0.7") /\ lookup_field (js "default") (m_ratio m) = VNum one /\ lookup_field (js "default") (m_usable m) = VStr (js "Standard").
Proof.
  assert (vip0 ∈ rows table0) as Hv by (change (vip0 ∈ [mkRow 1 (js "default") (js "1") [] true (js "Standard"); vip0; mkRow 3 (js "beta") (js "1") [] true (js "Early access")]); right; by left).
  destruct (edit_is_local texts0 [(js "default", VNum one); (js "vip", VNum (num_of "0.8"))] [(js "default", VStr (js "Standard")); (js "beta", VStr (js "Early access"))] [(js "vip", VNum (num_of "1.2"))] 1 table0 vip0 (SetRatio (js "0.7"))) as (Hother & Hvip & _).
  - constructor; [vm_compute; reflexivity|vm_compute; reflexivity|vm_compute; reflexivity| | |].
    + repeat (constructor; [split; [vm_compute; reflexivity|discriminate]|]). constructor.
    + repeat (constructor; [eexists; split; [reflexivity|vm_compute; reflexivity]|]). constructor.
    + repeat (constructor; [eexists; reflexivity|]). constructor.
  - vm_compute. reflexivity.
  - exact Hv.
  - intros x. reflexivity.
  - split; [exact Hvip|]. destruct (Hother (js "default") ltac:(discriminate) ltac:(discriminate)) as (H1 & H2 & _). split; [exact H1|exact H2].
Defined.

Lemma table_invariant_witness : NoDup (map row_id (rows (addRow table0))).
Proof.
  apply (table_invariant (addRow table0)). exists texts0, 1, table0. split; [vm_compute; reflexivity|]. apply rtc_once. constructor.
Defined.

(** A group that only has a description gets a ratio as soon as any row is edited, and the server lets users select groups with a ratio. *)
Example described_group_priced :
  json_parse (groupRatio (texts (updateRow 2 (SetRatio (js "0.7")) table0)))
  = Some (VObj [(js "default", VNum one); (js "vip", VNum (num_of "0.7")); (js "beta", VNum one)]).
Proof. vm_compute. reflexivity. Qed.

(** A target that is both shown and hidden: the server's answer depends on the order it happens to go through its map. *)
Example conflicting_rules_undecided :
  let l := [mkRule 1 (js "vip") true (js "beta") (js "x"); mkRule 2 (js "vip") false (js "beta") (js "remove")] in
  let special := default [] (stored_special (js "vip") (serializeRules l)) in
  applyGroupSpecialUsable ∅ special !! js "beta" = None /\ applyGroupSpecialUsable ∅ (reverse special) !! js "beta" = Some (js "x").
Proof. split; vm_compute; reflexivity. Qed.

(** The rules are read when the editor opens: settings that arrive later are not shown, and the next edit stores the old rules over them. *)
Example late_rules_overwritten :
  let w := default (mkEditor [] 0 []) (open_rules (jq "{'vip':{'+:beta':'x'}}") 1) in
  let arrived := mkEditor (rules w) (next_rule w) (jq "{'vip':{'-:default':'remove'}}") in
  stored_special (js "vip") (rule_text (addRuleToGroup (js "vip") arrived)) = Some [(js "+:beta", js "x")].
Proof. vm_compute. reflexivity. Qed.

End GroupRatiosLaws.
