(* ===== verification/PlaygroundTransport.v ===== *)
(** The requests of the playground: the controller of a stream
    (src/web/src/features/playground/hooks/use-stream-request.ts), the handler of the chat
    with its buffer (hooks/use-chat-handler.ts), the conversation that starts requests
    (hooks/use-playground-conversation.ts), and the reading of events and errors
    (lib/streaming/stream-utils.ts, lib/streaming/request-error-utils.ts).

    One state holds the refs and the React state of the hooks; every callback, timer, answer
    and render is a step. An update of the messages is evaluated when React gets to it: at
    once, when no other update waits and React chooses to, or in the next render. Either way
    the hooks see its result after the next render. The updates that wait are a queue, and
    [eager] says for each update which case it is. *)

From S2P Require Import Prelude JsValue NumText JsonString Json PlaygroundMessages.
Import PlaygroundMessages.

Module PlaygroundTransport.

(** ** Events *)

Definition API_REQUEST_ERROR : jsstr := js "Request error occurred".
Definition NETWORK_ERROR : jsstr := js "Network connection failed or server not responding".
Definition PARSE_ERROR : jsstr := js "Error parsing response data".
Definition STREAM_START_ERROR : jsstr := js "Error establishing connection".
Definition CONNECTION_CLOSED : jsstr := js "Connection closed".
Definition INTERRUPTED : jsstr := js "Generation was interrupted".
Definition KNOWN_ERROR_MESSAGES : list jsstr := [API_REQUEST_ERROR; NETWORK_ERROR; PARSE_ERROR; STREAM_START_ERROR; CONNECTION_CLOSED; INTERRUPTED].

(** As they come: the declared types say texts, the payload of a server need not be. *)
Record ErrorDetails := mkDetails { errorCode : val; errorMessage : val }.

(** [v || d] *)
Definition or_val (v d : val) : val := if truthy v then v else d.

Definition parseStreamErrorDetails (data : option jsstr) : ErrorDetails :=
  let fallbackMessage := VStr (or_str (default [] data) API_REQUEST_ERROR) in
  match data with
  | Some d =>
    if truthy_str d then
      match json_parse d with
      | Some parsed =>
        let error := get "error" parsed in
        if truthy error then mkDetails (or_val (get "code" error) VUndef) (or_val (get "message" error) fallbackMessage)
        else mkDetails VUndef fallbackMessage
      | None => mkDetails VUndef fallbackMessage
      end
    else mkDetails VUndef fallbackMessage
  | None => mkDetails VUndef fallbackMessage
  end.

(** [v?.[0]] *)
Definition index0 (v : val) : val :=
  match v with VArr (x :: _) => x | VStr (c :: _) => VStr [c] | VObj fs => lookup_field (js "0") fs | _ => VUndef end.

(** [None] for an exception, of [JSON.parse] or of a property of [null]. *)
Definition parseStreamMessageUpdates (data : jsstr) : option (list (StreamChunkType * val)) :=
  chunk ← json_parse data;
  match chunk with
  | VNull => None
  | _ =>
    let delta := get "delta" (index0 (get "choices" chunk)) in
    if truthy delta then
      Some ((if truthy (get "reasoning_content" delta) then [(chunk_reasoning, get "reasoning_content" delta)] else [])
            ++ (if truthy (get "content" delta) then [(chunk_content, get "content" delta)] else []))
    else Some []
  end.

Definition isStreamDoneMessage (data : jsstr) : bool := streq data (js "[DONE]").
Definition isStreamClosedReadyState (readyState : option Z) : bool := bool_decide (readyState = Some 2).

Definition getStreamReadyStateError (eventReadyState status : option Z) : option jsstr :=
  match eventReadyState, status with
  | Some r, Some s => if (2 <=? r) && negb (s =? 200) then Some (js "HTTP " ++ dec s ++ js ": " ++ CONNECTION_CLOSED) else None
  | _, _ => None
  end.

(** The error of a request that failed, as a value. *)
Definition parseRequestErrorDetails (error : val) : ErrorDetails :=
  let data := get "data" (get "response" error) in
  mkDetails (or_val (get "code" (get "error" data)) VUndef) (or_val (get "message" data) (or_val (get "message" error) (VStr API_REQUEST_ERROR))).

(** ** State *)

Record PendingStreamChunks := mkPending { p_generation : Z; p_content : jsstr; p_reasoning : jsstr }.

(** A stream request waits for its headers or has a source; [r_chat] is the generation of the chat
    its callbacks are for. *)
Inductive Phase := waiting | opened (completed : bool) | finished.
Record StreamRequest := mkStream { r_chat : Z; r_phase : Phase }.

(** An update of the messages, with the generation it asks for when it is evaluated. *)
Record Update := mkUpdate { u_generation : option Z; u_apply : Clock -> list Message -> list Message }.

Record World := mkWorld {
  messages : list Message; queue : list Update;
  generation : Z; pending : PendingStreamChunks; timer : option Z; requesting : bool;
  abortController : option Z; aborted : list Z;
  c_generation : Z; source : option Z; streams : list (Z * StreamRequest); streaming : bool; closed : list Z }.

Definition set_messages ms q w := mkWorld ms q (generation w) (pending w) (timer w) (requesting w) (abortController w) (aborted w) (c_generation w) (source w)
  (streams w) (streaming w) (closed w).
Definition set_chat g p tm rq w := mkWorld (messages w) (queue w) g p tm rq (abortController w) (aborted w) (c_generation w) (source w) (streams w) (streaming w) (closed w).
Definition set_abort a l w := mkWorld (messages w) (queue w) (generation w) (pending w) (timer w) (requesting w) a l (c_generation w) (source w) (streams w)
  (streaming w) (closed w).
Definition set_stream g s rs st cl w := mkWorld (messages w) (queue w) (generation w) (pending w) (timer w) (requesting w) (abortController w) (aborted w) g s rs st cl.

Definition initial (ms : list Message) : World := mkWorld ms [] 0 (mkPending 0 [] []) None false None [] 0 None [] false [].

Definition isGenerating (w : World) : bool := streaming w || requesting w.

(** *** Updates of the messages *)

Definition run_update (ck : Clock) (w : World) (u : Update) : World :=
  match u_generation u with
  | Some g => if g =? generation w then set_messages (u_apply u ck (messages w)) (queue w) w else w
  | None => set_messages (u_apply u ck (messages w)) (queue w) w
  end.

Definition put_messages (ms : list Message) : Update := mkUpdate None (fun _ _ => ms).

(** [setMessages]: an update evaluated at once waits with its result. *)
Definition enqueue (eager : bool) (ck : Clock) (u : Update) (w : World) : World :=
  match queue w with
  | [] => set_messages (messages w) [if eager then put_messages (messages (run_update ck w u)) else u] w
  | q => set_messages (messages w) (q ++ [u]) w
  end.

Definition render (ck : Clock) (w : World) : World := fold_left (run_update ck) (queue w) (set_messages (messages w) [] w).

(** ** The buffer *)

(** Text and what comes; [None] when [startsWith] is not a function. *)
Definition mergePendingStreamChunk (currentChunk : jsstr) (nextChunk : val) : option jsstr :=
  if truthy_str currentChunk then
    match nextChunk with
    | VStr s => Some (if starts_with currentChunk s then s else currentChunk ++ s)
    | _ => None
    end
  else to_string nextChunk.

Definition flush_update (p : PendingStreamChunks) (ck : Clock) (ms : list Message) : list Message :=
  updateLastAssistantMessage ms (fun m =>
    let m := if truthy_str (p_reasoning p) then applyStreamingChunk ck m chunk_reasoning (p_reasoning p) else m in
    if truthy_str (p_content p) then applyStreamingChunk ck m chunk_content (p_content p) else m).

Definition discardPendingStreamUpdates (g : Z) (w : World) : World := set_chat (generation w) (mkPending g [] []) None (requesting w) w.

Definition flushStreamUpdates (eager : bool) (ck : Clock) (g : Z) (w : World) : World :=
  if negb (g =? generation w) then w else
  let w := set_chat (generation w) (pending w) None (requesting w) w in
  let p := pending w in
  if negb (p_generation p =? g) then w
  else if negb (truthy_str (p_reasoning p)) && negb (truthy_str (p_content p)) then w
  else enqueue eager ck (mkUpdate (Some g) (flush_update p)) (set_chat (generation w) (mkPending g [] []) (timer w) (requesting w) w).

Definition scheduleStreamFlush (g : Z) (w : World) : World :=
  if negb (g =? generation w) then w
  else match timer w with Some _ => w | None => set_chat (generation w) (pending w) (Some g) (requesting w) w end.

Definition handleStreamUpdate (g : Z) (type : StreamChunkType) (chunk : val) (w : World) : option World :=
  if negb (g =? generation w) then Some w
  else if negb (p_generation (pending w) =? g) then Some w
  else
    let p := pending w in
    p' ← match type with
         | chunk_reasoning => s ← mergePendingStreamChunk (p_reasoning p) chunk; Some (mkPending (p_generation p) (p_content p) s)
         | chunk_content => s ← mergePendingStreamChunk (p_content p) chunk; Some (mkPending (p_generation p) s (p_reasoning p))
         end;
    Some (scheduleStreamFlush g (set_chat (generation w) p' (timer w) (requesting w) w)).

(** ** The end of a request *)

Section Handler.
Context (t : jsstr -> jsstr).

(** [None] when [endsWith] is not a function. *)
Definition getDisplayError (error : val) : option jsstr :=
  match error with
  | VStr error =>
    if bool_decide (error ∈ KNOWN_ERROR_MESSAGES) then Some (t error) else
    let suffix := js ": " ++ CONNECTION_CLOSED in
    if bool_decide (drop (length error - length suffix) error = suffix) && (length suffix <=? length error)%nat
    then Some (take (length error - length CONNECTION_CLOSED) error ++ t CONNECTION_CLOSED)
    else Some error
  | _ => None
  end.

(** The code a message keeps: its type says a text, and one that is none is left out. *)
Definition code_text (code : val) : option jsstr := match code with VStr s => Some s | _ => None end.

Definition complete_update (ck : Clock) (ms : list Message) : list Message :=
  updateLastAssistantMessage ms (fun m => if isAssistantMessageFinal m then m else completeAssistantMessage ck m).

(** [eager] for the two updates of a handler. *)
Definition handleStreamComplete (eager : bool * bool) (ck : Clock) (g : Z) (w : World) : World :=
  if negb (g =? generation w) then w else
  let w := flushStreamUpdates eager.1 ck g w in
  let w := set_chat (generation w) (pending w) (timer w) false w in
  enqueue eager.2 ck (mkUpdate (Some g) complete_update) w.

(** [false] when it raises. *)
Definition handleStreamError (eager : bool * bool) (ck : Clock) (g : Z) (error code : val) (w : World) : World * bool :=
  if negb (g =? generation w) then (w, true) else
  let w := flushStreamUpdates eager.1 ck g w in
  let w := set_chat (generation w) (pending w) (timer w) false w in
  match getDisplayError error with
  | Some displayError =>
    (enqueue eager.2 ck
       (mkUpdate (Some g) (fun ck ms => updateAssistantMessageWithError ck ms displayError (code_text code) (t API_REQUEST_ERROR))) w, true)
  | None => (w, false)
  end.

(** ** The controller of a stream *)

Fixpoint stream_at (g : Z) (l : list (Z * StreamRequest)) : option StreamRequest :=
  match l with [] => None | (g', r) :: l' => if g' =? g then Some r else stream_at g l' end.
Definition set_phase (g : Z) (ph : Phase) (l : list (Z * StreamRequest)) : list (Z * StreamRequest) :=
  map (fun e => if e.1 =? g then (e.1, mkStream (r_chat e.2) ph) else e) l.

Definition close_source (w : World) : list Z := match source w with Some s => s :: closed w | None => closed w end.

Definition closeActiveSource (g : Z) (w : World) : World :=
  if bool_decide (source w = Some g) then set_stream (c_generation w) None (streams w) false (g :: closed w) w
  else set_stream (c_generation w) (source w) (streams w) (streaming w) (g :: closed w) w.

(** Up to the request for the headers. *)
Definition send (chat : Z) (w : World) : World :=
  let g := c_generation w + 1 in
  set_stream g None ((g, mkStream chat waiting) :: streams w) false (close_source w) w.

Definition isCurrent (g : Z) (w : World) : bool := (c_generation w =? g) && bool_decide (source w = Some g).

Definition handleError (eager : bool * bool) (ck : Clock) (g : Z) (r : StreamRequest) (message code : val) (w : World) : World :=
  let w := set_stream (c_generation w) (source w) (set_phase g (opened true) (streams w)) (streaming w) (closed w) w in
  let '(w, fine) := handleStreamError eager ck (r_chat r) message code w in
  if fine then closeActiveSource g w else w.

(** The headers could not be had. *)
Definition headers_failed (eager : bool * bool) (ck : Clock) (g : Z) (message : option jsstr) (w : World) : World :=
  match stream_at g (streams w) with
  | Some (mkStream chat waiting) =>
    let w := set_stream (c_generation w) (source w) (set_phase g finished (streams w)) (streaming w) (closed w) w in
    if negb (c_generation w =? g) then w else (handleStreamError eager ck chat (VStr (default STREAM_START_ERROR message)) VUndef w).1
  | _ => w
  end.

(** The rest of [send] once the headers are there; the listeners it registers are [on_message], [on_error] and
    [on_readystatechange] below, and [starts] says whether the source can be started. *)
Definition headers_ready (eager : bool * bool) (ck : Clock) (g : Z) (starts : bool) (w : World) : World :=
  match stream_at g (streams w) with
  | Some (mkStream chat waiting) =>
    if negb (c_generation w =? g) then set_stream (c_generation w) (source w) (set_phase g finished (streams w)) (streaming w) (closed w) w
    else
      let w := set_stream (c_generation w) (Some g) (set_phase g (opened false) (streams w)) true (closed w) w in
      if starts then w else handleError eager ck g (mkStream chat (opened false)) (VStr STREAM_START_ERROR) VUndef w
  | _ => w
  end.

(** A listener acts for the current source that is not done. *)
Definition live (g : Z) (w : World) : option StreamRequest :=
  match stream_at g (streams w) with
  | Some (mkStream chat (opened false)) => if isCurrent g w then Some (mkStream chat (opened false)) else None
  | _ => None
  end.

(** The updates until one raises. *)
Fixpoint apply_updates (chat : Z) (updates : list (StreamChunkType * val)) (w : World) : World * bool :=
  match updates with
  | [] => (w, true)
  | (type, chunk) :: rest => match handleStreamUpdate chat type chunk w with Some w' => apply_updates chat rest w' | None => (w, false) end
  end.

Definition on_message (eager : bool * bool) (ck : Clock) (g : Z) (data : jsstr) (w : World) : World :=
  match live g w with
  | None => w
  | Some r =>
    if isStreamDoneMessage data then
      let w := set_stream (c_generation w) (source w) (set_phase g (opened true) (streams w)) (streaming w) (closed w) w in
      handleStreamComplete eager ck (r_chat r) (closeActiveSource g w)
    else
      match parseStreamMessageUpdates data with
      | None => handleError eager ck g r (VStr PARSE_ERROR) VUndef w
      | Some updates =>
        let '(w, fine) := apply_updates (r_chat r) updates w in
        if fine then w else handleError eager ck g r (VStr PARSE_ERROR) VUndef w
      end
  end.

Definition on_error (eager : bool * bool) (ck : Clock) (g : Z) (data : option jsstr) (readyState : option Z) (w : World) : World :=
  match live g w with
  | None => w
  | Some r =>
    if isStreamClosedReadyState readyState then w
    else let d := parseStreamErrorDetails data in handleError eager ck g r (errorMessage d) (errorCode d) w
  end.

Definition on_readystatechange (eager : bool * bool) (ck : Clock) (g : Z) (readyState status : option Z) (w : World) : World :=
  match live g w with
  | None => w
  | Some r => match getStreamReadyStateError readyState status with Some message => handleError eager ck g r (VStr message) VUndef w | None => w end
  end.

(** [stop] and [dispose]. *)
Definition cancel (notify : bool) (w : World) : World :=
  set_stream (c_generation w + 1) None (streams w) (if notify then false else streaming w) (close_source w) w.

(** ** Requests of the chat *)

Definition abort_current (w : World) : World :=
  match abortController w with Some g => set_abort None (g :: aborted w) w | None => w end.

Definition sendStreamingChat (w : World) : World :=
  let g := generation w + 1 in
  let w := abort_current (set_chat g (pending w) (timer w) (requesting w) w) in
  let w := discardPendingStreamUpdates g w in
  send g (set_chat (generation w) (pending w) (timer w) true w).

Definition sendNonStreamingChat (w : World) : World :=
  let g := generation w + 1 in
  let w := cancel true (set_chat g (pending w) (timer w) (requesting w) w) in
  let w := abort_current (discardPendingStreamUpdates g w) in
  let w := set_abort (Some g) (aborted w) w in
  set_chat (generation w) (pending w) (timer w) true w.

Definition sendChat (stream : bool) (w : World) : World := if stream then sendStreamingChat w else sendNonStreamingChat w.

Inductive Answer := Response (choices : list Choice) | Failure (error : val).

(** The answer to the request of a generation that is not a stream. *)
Definition plain_answer (eager : bool * bool) (ck : Clock) (g : Z) (a : Answer) (w : World) : World :=
  if bool_decide (g ∈ aborted w) || negb (generation w =? g) then w else
  let w :=
    match a with
    | Response [] => (handleStreamError eager ck g (VStr API_REQUEST_ERROR) VUndef w).1
    | Response choices =>
      enqueue eager.1 ck
        (mkUpdate (Some g) (fun ck ms => updateLastAssistantMessage ms (fun m => default m (applyChatCompletionResponse ck m choices)))) w
    | Failure error => let d := parseRequestErrorDetails error in (handleStreamError eager ck g (errorMessage d) (errorCode d) w).1
    end in
  set_chat (generation w) (pending w) (timer w) false (set_abort None (aborted w) w).

Definition stop_update (ck : Clock) (ms : list Message) : list Message :=
  updateLastAssistantMessage ms (fun m => if isAssistantMessagePending m then completeAssistantMessage ck m else m).

Definition stopGeneration (eager : bool * bool) (ck : Clock) (w : World) : World :=
  let stopped := generation w in
  let w := flushStreamUpdates eager.1 ck stopped w in
  let idle := stopped + 1 in
  let w := discardPendingStreamUpdates idle (set_chat idle (pending w) (timer w) (requesting w) w) in
  let w := abort_current (cancel true w) in
  let w := set_chat (generation w) (pending w) (timer w) false w in
  enqueue eager.2 ck (mkUpdate (Some idle) stop_update) w.

Definition timer_fires (eager : bool) (ck : Clock) (w : World) : World :=
  match timer w with Some g => flushStreamUpdates eager ck g w | None => w end.

(** The component goes away: the cleanup of both hooks. *)
Definition unmount (w : World) : World :=
  cancel false (abort_current (set_chat (generation w + 1) (pending w) None (requesting w) w)).

(** ** The conversation *)

Definition handleSendMessage (eager : bool) (ck : Clock) (ids : Ids) (now : Z) (stream : bool) (text : jsstr) (w : World) : World :=
  sendChat stream (enqueue eager ck (put_messages (appendUserMessagePair ids now (messages w) text)) w).

Definition handleRegenerateMessage (eager : bool) (ck : Clock) (ids : Ids) (now : Z) (stream : bool) (messageKey : jsstr) (w : World) : World :=
  match createRegeneratedMessages ids now (messages w) messageKey with
  | None => w
  | Some next => sendChat stream (enqueue eager ck (put_messages next) w)
  end.

Definition applyEdit (eager : bool) (ck : Clock) (ids : Ids) (now : Z) (stream : bool) (editingMessageKey c : jsstr) (shouldSubmit : bool) (w : World) : World :=
  if negb (truthy_str editingMessageKey) then w else
  match applyMessageEdit ids now (messages w) editingMessageKey c shouldSubmit with
  | None => w
  | Some (next, shouldSend) =>
    let w := enqueue eager ck (put_messages next) w in if shouldSend then sendChat stream w else w
  end.

Definition handleDeleteMessage (eager : bool) (ck : Clock) (messageKey : jsstr) (w : World) : World :=
  enqueue eager ck (mkUpdate None (fun _ ms => removeMessageByKey ms messageKey)) w.

Definition clearMessages (eager : bool) (ck : Clock) (w : World) : World := enqueue eager ck (put_messages []) w.

End Handler.

End PlaygroundTransport.
