(* ===== verification/PlaygroundTransportLaws.v ===== *)
(** The requests of the playground: a request that was stopped or replaced never acts again,
    a busy chat waits for a request whose end frees it, an ended answer is final (with the
    exceptions that the theorems name), and the buffer changes nothing of a text that comes in pieces. *)

From stdpp Require Import relations.
From S2P Require Import Prelude JsValue NumText JsonString Json PlaygroundMessages PlaygroundTransport.
Import PlaygroundMessages PlaygroundTransport.

Module PlaygroundTransportLaws.

Section Handler.
Context (t : jsstr -> jsstr).

(** ** The state *)

(** What holds of the refs and of the state; [busy] is for a chat that waits for an answer: someone will end it. *)
Record Quiet (w : World) : Prop := {
  inv_pending : p_generation (pending w) = generation w;
  inv_timer : forall g, timer w = Some g -> g = generation w;
  inv_source : forall g, source w = Some g -> g = c_generation w /\ exists chat completed, stream_at g (streams w) = Some (mkStream chat (opened completed));
  inv_streaming : streaming w = bool_decide (is_Some (source w));
  inv_streams : forall g r, stream_at g (streams w) = Some r -> g <= c_generation w;
  inv_chat : forall r, stream_at (c_generation w) (streams w) = Some r -> r_chat r = generation w;
  inv_aborted : forall a, a ∈ aborted w -> a < generation w;
  inv_abort : forall g, abortController w = Some g -> g = generation w /\ source w = None /\ stream_at (c_generation w) (streams w) = None
}.

Definition busy (w : World) : Prop :=
  requesting w = true ->
  abortController w = Some (generation w)
  \/ exists chat ph, stream_at (c_generation w) (streams w) = Some (mkStream chat ph) /\ (ph = waiting \/ ph = opened false /\ source w = Some (c_generation w)).

Definition Inv (w : World) : Prop := Quiet w /\ busy w.

(** All but the messages. *)
Definition frame (w : World) :=
  (generation w, pending w, timer w, requesting w, abortController w, aborted w, (c_generation w, source w, streams w, streaming w, closed w)).

Lemma frame_inv w w' : frame w' = frame w -> Inv w -> Inv w'.
Proof. destruct w, w'. unfold frame. cbn. intros [= -> -> -> -> -> -> -> -> -> -> ->] [[] Hb]. by split. Qed.

Lemma frame_run ck w u : frame (run_update ck w u) = frame w.
Proof. unfold run_update. destruct (u_generation u) as [g|]; [|done]. by destruct (g =? generation w). Qed.

Lemma frame_enqueue e ck u w : frame (enqueue e ck u w) = frame w.
Proof. unfold enqueue. by destruct (queue w). Qed.

Lemma frame_fold ck l w : frame (fold_left (run_update ck) l w) = frame w.
Proof. revert w. induction l as [|u l IH]; intros w; [done|]. cbn [fold_left]. by rewrite IH, frame_run. Qed.

Lemma frame_render ck w : frame (render ck w) = frame w.
Proof. unfold render. by rewrite frame_fold. Qed.

(** [flushStreamUpdates] empties the buffer and clears the timer. *)
Lemma frame_flush e ck g w :
  p_generation (pending w) = generation w -> g = generation w ->
  frame (flushStreamUpdates e ck g w)
  = (generation w, mkPending g [] [], None, requesting w, abortController w, aborted w, (c_generation w, source w, streams w, streaming w, closed w)).
Proof.
  intros Hp ->. unfold flushStreamUpdates. rewrite Z.eqb_refl. cbn [negb pending set_chat generation]. rewrite Hp, Z.eqb_refl. cbn [negb].
  destruct (pending w) as [g c r] eqn:E. cbn [p_generation p_content p_reasoning] in *. subst g. destruct r, c; cbn [truthy_str negb andb]; [|by rewrite frame_enqueue..].
  done.
Qed.

Lemma flush_stale e ck g w : g <> generation w -> flushStreamUpdates e ck g w = w.
Proof. intros H. unfold flushStreamUpdates. by rewrite (proj2 (Z.eqb_neq _ _)). Qed.

(** The frame of the two ends of a request. *)
Definition ended_frame (w : World) :=
  (generation w, mkPending (generation w) [] [], @None Z, false, abortController w, aborted w, (c_generation w, source w, streams w, streaming w, closed w)).

Lemma frame_set_chat_requesting w b :
  frame (set_chat (generation w) (pending w) (timer w) b w) = (generation w, pending w, timer w, b, abortController w, aborted w, (c_generation w, source w, streams w, streaming w, closed w)).
Proof. done. Qed.

Lemma frame_fields w g p tm rq ab al cs : frame w = (g, p, tm, rq, ab, al, cs) ->
  generation w = g /\ pending w = p /\ timer w = tm /\ requesting w = rq /\ abortController w = ab /\ aborted w = al /\ (c_generation w, source w, streams w, streaming w, closed w) = cs.
Proof. by intros [= -> -> -> -> -> -> <-]. Qed.

Lemma frame_complete e ck w : p_generation (pending w) = generation w -> frame (handleStreamComplete e ck (generation w) w) = ended_frame w.
Proof.
  intros Hp. unfold handleStreamComplete. rewrite Z.eqb_refl. cbn [negb]. rewrite frame_enqueue, frame_set_chat_requesting.
  destruct (frame_fields _ _ _ _ _ _ _ _ (frame_flush e.1 ck (generation w) w Hp eq_refl)) as (-> & -> & -> & _ & -> & -> & ->). done.
Qed.

(** An error that is a text is shown; any other raises when the chat is free again. *)
Lemma frame_error e ck w msg code : p_generation (pending w) = generation w -> frame (handleStreamError t e ck (generation w) msg code w).1 = ended_frame w.
Proof.
  intros Hp. unfold handleStreamError. rewrite Z.eqb_refl. cbn [negb].
  destruct (frame_fields _ _ _ _ _ _ _ _ (frame_flush e.1 ck (generation w) w Hp eq_refl)) as (F1 & F2 & F3 & _ & F5 & F6 & F7).
  destruct (getDisplayError t msg); cbn [fst]; rewrite ?frame_enqueue, frame_set_chat_requesting, F1, F2, F3, F5, F6, F7; done.
Qed.

Lemma error_shown e ck g w msg code : (handleStreamError t e ck g (VStr msg) code w).2 = true.
Proof. unfold handleStreamError. destruct (negb _); [done|]. cbn [getDisplayError]. by repeat destruct (bool_decide _ && _) || destruct (bool_decide _). Qed.

Lemma stream_at_phase g g' ph l :
  stream_at g (set_phase g' ph l) = if g =? g' then (fun r => mkStream (r_chat r) ph) <$> stream_at g l else stream_at g l.
Proof.
  unfold set_phase. induction l as [|[k r] l IH]; cbn [map stream_at fst snd]; [by destruct (g =? g')|]. destruct (k =? g') eqn:E; cbn [stream_at].
  - destruct (k =? g) eqn:E2; [|exact IH]. assert (g =? g' = true) as ->; [lia|done].
  - destruct (k =? g) eqn:E2; [|exact IH]. assert (g =? g' = false) as ->; [lia|done].
Qed.

(** *** The steps keep it *)

Lemma inv_enqueue e ck u w : Inv w -> Inv (enqueue e ck u w).
Proof. apply frame_inv, frame_enqueue. Qed.

Lemma inv_render ck w : Inv w -> Inv (render ck w).
Proof. apply frame_inv, frame_render. Qed.

(** The state after an end: the messages aside. *)
Definition ended (w : World) : World := set_chat (generation w) (mkPending (generation w) [] []) None false w.

Lemma ended_inv w : Quiet w -> Inv (ended w).
Proof. intros []. split; [constructor; cbn; auto; by intros|by intros]. Qed.

Lemma flush_inv e ck g w : Inv w -> Inv (flushStreamUpdates e ck g w).
Proof.
  intros [Hq Hb]. destruct (decide (g = generation w)) as [->|Hne]; [|by rewrite flush_stale].
  apply (frame_inv (set_chat (generation w) (mkPending (generation w) [] []) None (requesting w) w)); [by rewrite frame_flush by (done || apply Hq)|].
  destruct Hq. split; [by constructor|exact Hb].
Qed.

(** A source that is done. *)
Definition done_with (g : Z) (w : World) : World := set_stream (c_generation w) None (set_phase g (opened true) (streams w)) false (g :: closed w) w.

Lemma set_phase_chat g ph w r : stream_at (c_generation w) (set_phase g ph (streams w)) = Some r -> exists r0, stream_at (c_generation w) (streams w) = Some r0 /\ r_chat r = r_chat r0.
Proof. rewrite stream_at_phase. destruct (_ =? g); [|by eexists]. intros (r0 & -> & ->)%fmap_Some. by eexists. Qed.

Lemma set_phase_bound g ph w k r : Quiet w -> stream_at k (set_phase g ph (streams w)) = Some r -> k <= c_generation w.
Proof. intros Hq. rewrite stream_at_phase. destruct (_ =? g); [intros (r0 & Hr & ->)%fmap_Some|intros Hr]; by eapply inv_streams. Qed.

Lemma done_quiet g w : Quiet w -> Quiet (done_with g w).
Proof.
  intros Hq. pose proof Hq as [H1 H2 H3 H4 H5 H6 H7 H8]. constructor; cbn; try done.
  - intros k r. apply set_phase_bound, Hq.
  - intros r (r0 & Hr & ->)%set_phase_chat. by apply H6.
  - intros g' Hg. destruct (H8 g' Hg) as (-> & _ & Hn). split_and!; [done..|]. rewrite stream_at_phase, Hn. by destruct (_ =? g).
Qed.

Lemma error_frame e ck g chat w msg code :
  Quiet w -> source w = Some g -> chat = generation w ->
  frame (handleError t e ck g (mkStream chat (opened false)) (VStr msg) code w) = frame (ended (done_with g w)).
Proof.
  intros Hq Hs ->. unfold handleError. cbn [r_chat].
  pose proof (frame_error e ck (set_stream (c_generation w) (source w) (set_phase g (opened true) (streams w)) (streaming w) (closed w) w) (VStr msg) code (inv_pending w Hq)) as Hf.
  pose proof (error_shown e ck (generation w) (set_stream (c_generation w) (source w) (set_phase g (opened true) (streams w)) (streaming w) (closed w) w) msg code) as Hfine.
  change (generation (set_stream _ _ _ _ _ w)) with (generation w) in Hf.
  destruct (handleStreamError _ _ _ _ _ _ _) as [w1 fine]. cbn [fst snd] in *. subst fine.
  destruct (frame_fields _ _ _ _ _ _ _ _ Hf) as (F1 & F2 & F3 & F4 & F5 & F6 & F7). cbn in F1, F2, F3, F4, F5, F6, F7. injection F7 as G1 G2 G3 G4 G5.
  unfold closeActiveSource. rewrite bool_decide_eq_true_2 by congruence. unfold frame. cbn. by rewrite F1, F2, F3, F4, F5, F6, G1, G3, G5.
Qed.

(** *** Phases *)

Definition phase_now (g : Z) (ph : Phase) (w : World) : World := set_stream (c_generation w) (source w) (set_phase g ph (streams w)) (streaming w) (closed w) w.

(** A request changes its phase alone; the one of the source has it open. *)
Lemma phase_quiet g ph w : (source w = Some g -> exists completed, ph = opened completed) -> Quiet w -> Quiet (phase_now g ph w).
Proof.
  intros Hs Hq. pose proof Hq as [H1 H2 H3 H4 H5 H6 H7 H8]. constructor; cbn; try done.
  - intros k Hk. destruct (H3 k Hk) as [Hc (chat & completed & Hr)]. split; [done|]. rewrite stream_at_phase. destruct (Z.eqb_spec k g) as [->|]; [|by exists chat, completed].
    destruct (Hs Hk) as [completed' ->]. exists chat, completed'. by rewrite Hr.
  - intros k r. apply set_phase_bound, Hq.
  - intros r (r0 & Hr & ->)%set_phase_chat. by apply H6.
  - intros k Hk. destruct (H8 k Hk) as (-> & -> & Hn). split_and!; [done..|]. rewrite stream_at_phase, Hn. by destruct (_ =? g).
Qed.

(** A message that is not a text raises: the request is done, but its source stays open. *)
Definition is_text (v : val) : bool := match v with VStr _ => true | _ => false end.

Lemma raised_frame e ck g chat w msg code :
  Quiet w -> chat = generation w -> is_text msg = false ->
  frame (handleError t e ck g (mkStream chat (opened false)) msg code w) = frame (ended (phase_now g (opened true) w)).
Proof.
  intros Hq -> Hm. unfold handleError. cbn [r_chat]. fold (phase_now g (opened true) w).
  pose proof (frame_error e ck (phase_now g (opened true) w) msg code (inv_pending w Hq)) as Hf. change (generation (phase_now _ _ w)) with (generation w) in Hf.
  assert ((handleStreamError t e ck (generation w) msg code (phase_now g (opened true) w)).2 = false) as Hfine.
  { unfold handleStreamError. cbn [generation phase_now set_stream]. rewrite Z.eqb_refl. cbn [negb]. by destruct msg. }
  destruct (handleStreamError _ _ _ _ _ _ _) as [w1 fine]. cbn [fst snd] in *. by subst fine.
Qed.

Lemma error_inv e ck g chat w msg code :
  Quiet w -> source w = Some g -> chat = generation w -> Inv (handleError t e ck g (mkStream chat (opened false)) msg code w).
Proof.
  intros Hq Hs Hc. destruct (is_text msg) eqn:Hm.
  - destruct msg as [| | | |msg| |]; try done. eapply frame_inv; [by apply error_frame|]. by apply ended_inv, done_quiet.
  - eapply frame_inv; [by apply raised_frame|]. apply ended_inv, phase_quiet; [by eexists|done].
Qed.

(** The request of the current source, when it is not done. *)
Definition listens (g : Z) (w : World) : Prop := source w = Some g /\ exists chat, stream_at g (streams w) = Some (mkStream chat (opened false)).

Lemma live_spec g w r : Inv w -> live g w = Some r -> source w = Some g /\ c_generation w = g /\ r = mkStream (generation w) (opened false).
Proof.
  intros [Hq _]. unfold live. destruct (stream_at g (streams w)) as [[chat [| [] |]]|] eqn:Es; try done. unfold isCurrent. destruct (Z.eqb_spec (c_generation w) g) as [E|]; [|done].
  cbn [andb]. case_bool_decide as Hs; [|done]. intros [= <-]. split_and!; try done. f_equal. rewrite <- E in Es. by apply (inv_chat w Hq (mkStream chat (opened false))).
Qed.

Lemma live_current g w : Inv w -> listens g w -> live g w = Some (mkStream (generation w) (opened false)).
Proof.
  intros [Hq _] [Hs [chat Hc]]. destruct (inv_source w Hq g Hs) as [-> _]. unfold live. rewrite Hc. unfold isCurrent. rewrite Z.eqb_refl, bool_decide_eq_true_2 by done. cbn [andb].
  by rewrite <- (inv_chat w Hq _ Hc).
Qed.

Lemma update_inv g ty chunk w w' : Inv w -> handleStreamUpdate g ty chunk w = Some w' -> Inv w' /\ generation w' = generation w /\ source w' = source w /\ c_generation w' = c_generation w.
Proof.
  intros Hi. unfold handleStreamUpdate. destruct (Z.eqb_spec g (generation w)) as [->|]; [|intros [= <-]; done]. cbn [negb].
  destruct (Z.eqb_spec (p_generation (pending w)) (generation w)) as [Hp|]; [|intros [= <-]; done]. cbn [negb]. intros (p & Hx & [= <-])%bind_Some.
  assert (p_generation p = generation w) as Hg by (destruct ty; apply bind_Some in Hx as (s & _ & [= <-]); exact Hp).
  destruct Hi as [[H1 H2 H3 H4 H5 H6 H7 H8] Hb]. unfold scheduleStreamFlush. cbn [set_chat generation timer]. rewrite Z.eqb_refl. cbn [negb].
  destruct (timer w) as [g'|] eqn:Et; (split; [split; [constructor; cbn; auto|exact Hb]|done]). all: by intros g0 [= <-].
Qed.

Lemma updates_inv g l w : Inv w -> Inv (apply_updates g l w).1 /\ generation (apply_updates g l w).1 = generation w /\ source (apply_updates g l w).1 = source w
  /\ c_generation (apply_updates g l w).1 = c_generation w.
Proof.
  revert w. induction l as [|[ty chunk] l IH]; intros w Hi; [done|]. cbn [apply_updates]. destruct (handleStreamUpdate g ty chunk w) as [w'|] eqn:E; [|done].
  destruct (update_inv _ _ _ _ _ Hi E) as (Hi' & <- & <- & <-). by apply IH.
Qed.

(** The pieces go to the buffer. *)
Lemma updates_messages g l w : (messages (apply_updates g l w).1, queue (apply_updates g l w).1, generation (apply_updates g l w).1, c_generation (apply_updates g l w).1)
  = (messages w, queue w, generation w, c_generation w).
Proof.
  revert w. induction l as [|[ty chunk] l IH]; intros w; [done|]. cbn [apply_updates]. destruct (handleStreamUpdate g ty chunk w) as [w'|] eqn:E; [|done]. rewrite IH.
  unfold handleStreamUpdate in E. destruct (negb (g =? _)); [by injection E as <-|]. destruct (negb _); [by injection E as <-|].
  apply bind_Some in E as (p & _ & [= <-]). unfold scheduleStreamFlush. cbn. destruct (negb _); [done|]. by destruct (timer w).
Qed.

Lemma message_inv e ck g data w : Inv w -> Inv (on_message t e ck g data w).
Proof.
  intros Hi. unfold on_message. destruct (live g w) as [r|] eqn:El; [|done]. destruct (live_spec g w r Hi El) as (Hs & Hc & ->). cbn [r_chat]. destruct (isStreamDoneMessage data).
  - eapply (frame_inv (ended (done_with g w))); [|by apply ended_inv, done_quiet; destruct Hi].
    unfold closeActiveSource. cbn [set_stream source]. rewrite bool_decide_eq_true_2 by done.
    exact (frame_complete e ck (done_with g w) (inv_pending w (proj1 Hi))).
  - destruct (parseStreamMessageUpdates data) as [updates|]; [|apply error_inv; [apply Hi|done|done]].
    destruct (apply_updates (generation w) updates w) as [w' fine] eqn:Ea. destruct (updates_inv (generation w) updates w Hi) as (Hi' & Hg & Hs' & _).
    rewrite Ea in *. cbn [fst] in *. destruct fine; [done|]. apply error_inv; [apply Hi'|congruence|done].
Qed.

Definition text_error (data : option jsstr) : bool := is_text (errorMessage (parseStreamErrorDetails data)).

Lemma stream_error_inv e ck g data rs w : Inv w -> Inv (on_error t e ck g data rs w).
Proof.
  intros Hi. unfold on_error. destruct (live g w) as [r|] eqn:El; [|done]. destruct (live_spec g w r Hi El) as (Hs & Hc & ->). destruct (isStreamClosedReadyState rs); [done|].
  apply error_inv; [apply Hi|done|done].
Qed.

Lemma readystate_inv e ck g rs st w : Inv w -> Inv (on_readystatechange t e ck g rs st w).
Proof.
  intros Hi. unfold on_readystatechange. destruct (live g w) as [r|] eqn:El; [|done]. destruct (live_spec g w r Hi El) as (Hs & Hc & ->).
  destruct (getStreamReadyStateError rs st); [|done]. apply error_inv; [apply Hi|done|done].
Qed.

(** *** The headers *)

Lemma phase_stale_inv g ph w : c_generation w <> g -> Inv w -> Inv (phase_now g ph w).
Proof.
  intros Hg [Hq Hb]. split; [apply phase_quiet; [|done]|].
  - intros Hs. destruct (inv_source w Hq g Hs). congruence.
  - intros Hr. destruct (Hb Hr) as [?|(chat & p & Hp & Hx)]; [by left|]. right. exists chat, p. cbn. rewrite stream_at_phase.
    destruct (Z.eqb_spec (c_generation w) g); [done|]. by split.
Qed.

Lemma waiting_source g w chat : Quiet w -> stream_at g (streams w) = Some (mkStream chat waiting) -> source w <> Some g.
Proof. intros Hq Hs Hg. destruct (inv_source w Hq g Hg) as [_ (? & ? & ?)]. congruence. Qed.

Lemma headers_failed_inv e ck g message w : Inv w -> Inv (headers_failed t e ck g message w).
Proof.
  intros Hi. unfold headers_failed. destruct (stream_at g (streams w)) as [[chat [| |]]|] eqn:Es; try done. fold (phase_now g finished w). cbn [phase_now set_stream c_generation].
  destruct (Z.eqb_spec (c_generation w) g) as [<-|Hne]; cbn [negb]; [|by apply phase_stale_inv].
  destruct Hi as [Hq _]. rewrite (inv_chat w Hq _ Es : chat = generation (phase_now (c_generation w) finished w)). apply (frame_inv (ended (phase_now (c_generation w) finished w))); [apply frame_error, Hq|].
  apply ended_inv, phase_quiet; [intros Hs; by apply (waiting_source _ _ _ Hq Es) in Hs|done].
Qed.

(** The source is there. *)
Definition source_opened (g : Z) (w : World) : World := set_stream (c_generation w) (Some g) (set_phase g (opened false) (streams w)) true (closed w) w.

Lemma source_opened_inv w chat : Inv w -> stream_at (c_generation w) (streams w) = Some (mkStream chat waiting) -> Inv (source_opened (c_generation w) w).
Proof.
  intros [Hq Hb] Hs. pose proof Hq as [H1 H2 H3 H4 H5 H6 H7 H8].
  assert (stream_at (c_generation w) (set_phase (c_generation w) (opened false) (streams w)) = Some (mkStream chat (opened false))) as Hn by (by rewrite stream_at_phase, Z.eqb_refl, Hs).
  split; [constructor; cbn; try done|].
  - intros g [= <-]. split; [done|]. by exists chat, false.
  - intros k r. apply set_phase_bound, Hq.
  - intros r Hr. rewrite Hn in Hr. injection Hr as <-. exact (H6 _ Hs).
  - intros k Hk. destruct (H8 k Hk) as (_ & _ & Hx). congruence.
  - intros _. right. exists chat, (opened false). cbn. by auto.
Qed.

Lemma headers_ready_inv e ck g starts w : Inv w -> Inv (headers_ready t e ck g starts w).
Proof.
  intros Hi. unfold headers_ready. destruct (stream_at g (streams w)) as [[chat [| |]]|] eqn:Es; try done.
  destruct (Z.eqb_spec (c_generation w) g) as [<-|Hne]; cbn [negb]; [|by apply phase_stale_inv].
  pose proof (source_opened_inv w chat Hi Es) as Ho. fold (source_opened (c_generation w) w). destruct starts; [done|].
  apply error_inv; [apply Ho|done|]. exact (inv_chat w (proj1 Hi) _ Es).
Qed.

(** *** Requests *)

Lemma abort_bound w a : Quiet w -> a ∈ aborted (abort_current w) -> a < generation w + 1.
Proof.
  intros Hq. unfold abort_current. destruct (abortController w) as [g|] eqn:E; cbn; [|intros Ha%(inv_aborted w Hq); lia].
  intros [->|Ha%(inv_aborted w Hq)]%elem_of_cons; [|lia]. destruct (inv_abort w Hq g E) as [-> _]. lia.
Qed.

Lemma frame_abort w : frame (abort_current w)
  = (generation w, pending w, timer w, requesting w, None, aborted (abort_current w), (c_generation w, source w, streams w, streaming w, closed w)).
Proof. unfold abort_current. destruct (abortController w) eqn:E; unfold frame; cbn; [done|]. by rewrite E. Qed.

Lemma no_next_stream w : Quiet w -> stream_at (c_generation w + 1) (streams w) = None.
Proof. intros Hq. destruct (stream_at _ _) as [r|] eqn:E; [|done]. apply (inv_streams w Hq) in E. lia. Qed.

(** The state after a request starts, the messages aside. *)
Definition streaming_sent (w : World) : World :=
  mkWorld (messages w) (queue w) (generation w + 1) (mkPending (generation w + 1) [] []) None true None (aborted (abort_current w))
    (c_generation w + 1) None ((c_generation w + 1, mkStream (generation w + 1) waiting) :: streams w) false (close_source w).
Definition plain_sent (w : World) : World :=
  mkWorld (messages w) (queue w) (generation w + 1) (mkPending (generation w + 1) [] []) None true (Some (generation w + 1)) (aborted (abort_current w))
    (c_generation w + 1) None (streams w) false (close_source w).
Definition stopped (w : World) : World :=
  mkWorld (messages w) (queue w) (generation w + 1) (mkPending (generation w + 1) [] []) None false None (aborted (abort_current w))
    (c_generation w + 1) None (streams w) false (close_source w).

Lemma sent_spec stream w : sendChat stream w = if stream then streaming_sent w else plain_sent w.
Proof.
  destruct w as [ms q g p tm rq [a|] al cg sc ss st cl], stream; reflexivity.
Qed.

Lemma sent_inv stream w : Quiet w -> Inv (sendChat stream w).
Proof.
  intros Hq. pose proof (no_next_stream w Hq) as Hn. rewrite sent_spec. destruct stream; (split; [constructor; cbn; try done|]).
  - intros g r. destruct (Z.eqb_spec (c_generation w + 1) g); [lia|]. intros Hr%(inv_streams w Hq). lia.
  - intros r. rewrite Z.eqb_refl. by intros [= <-].
  - intros a. by apply abort_bound.
  - intros _. right. cbn. rewrite Z.eqb_refl. eauto.
  - intros g r Hr%(inv_streams w Hq). lia.
  - intros r Hr. congruence.
  - intros a. by apply abort_bound.
  - by intros g [= <-].
  - by left.
Qed.

Lemma stopped_inv w : Quiet w -> Inv (stopped w).
Proof.
  intros Hq. pose proof (no_next_stream w Hq) as Hn. split; [constructor; cbn; try done|done].
  - intros g r Hr%(inv_streams w Hq). lia.
  - intros r Hr. congruence.
  - intros a. by apply abort_bound.
Qed.

Lemma stop_frame e ck w : Quiet w -> frame (stopGeneration e ck w) = frame (stopped w).
Proof.
  intros Hq. unfold stopGeneration. rewrite frame_enqueue, frame_set_chat_requesting.
  destruct (frame_fields _ _ _ _ _ _ _ _ (frame_flush e.1 ck (generation w) w (inv_pending w Hq) eq_refl)) as (F1 & F2 & F3 & F4 & F5 & F6 & F7).
  injection F7 as G1 G2 G3 G4 G5. set (wf := flushStreamUpdates _ _ _ _) in *. clearbody wf.
  set (wc := cancel true _). destruct (frame_fields _ _ _ _ _ _ _ _ (frame_abort wc)) as (-> & -> & -> & _ & -> & _ & ->).
  unfold frame, stopped, abort_current, close_source, wc, cancel, close_source. cbn. rewrite F5, G1, G2, G3, G5. destruct (abortController w); cbn; by rewrite F6.
Qed.

Lemma stop_inv e ck w : Inv w -> Inv (stopGeneration e ck w).
Proof. intros [Hq _]. by eapply frame_inv; [apply stop_frame|apply stopped_inv]. Qed.

(** The state after an answer that is not a stream. *)
Definition answered (w : World) : World := set_chat (generation w) (pending w) (timer w) false (set_abort None (aborted w) w).

Lemma answered_inv w : Quiet w -> Inv (answered w).
Proof. intros []. split; [by constructor|done]. Qed.

Lemma answered_frame w w' : frame w = frame w' -> frame (answered w) = frame (answered w').
Proof. destruct w, w'. unfold frame. cbn. by intros [= -> -> -> -> -> -> -> -> -> -> ->]. Qed.

(** An answer to the current request: [ended] when it is an error, with the messages aside. *)
Lemma plain_frame e ck a w :
  Quiet w -> generation w ∉ aborted w ->
  frame (plain_answer t e ck (generation w) a w) = frame (answered w) \/ frame (plain_answer t e ck (generation w) a w) = frame (answered (ended w)).
Proof.
  intros Hq Ha. unfold plain_answer. rewrite bool_decide_eq_false_2, Z.eqb_refl by done. cbn [orb negb].
  destruct a as [[|c cs]|err]; [right|left|right]; refine (answered_frame _ _ _); [apply frame_error, Hq|apply frame_enqueue|apply frame_error, Hq].
Qed.

Lemma plain_stale e ck g a w : g <> generation w -> plain_answer t e ck g a w = w.
Proof. intros Hg. unfold plain_answer. rewrite (proj2 (Z.eqb_neq (generation w) g)) by congruence. by rewrite orb_true_r. Qed.

Lemma current_not_aborted w : Quiet w -> generation w ∉ aborted w.
Proof. intros Hq Ha%(inv_aborted w Hq). lia. Qed.

Lemma plain_inv e ck g a w : Inv w -> Inv (plain_answer t e ck g a w).
Proof.
  intros [Hq Hb]. destruct (decide (g = generation w)) as [->|Hne]; [|by rewrite plain_stale].
  destruct (plain_frame e ck a w Hq (current_not_aborted w Hq)) as [Hf|Hf]; (eapply frame_inv; [exact Hf|]); apply answered_inv; [done|]. by apply ended_inv.
Qed.

Lemma timer_inv e ck w : Inv w -> Inv (timer_fires e ck w).
Proof. intros Hi. unfold timer_fires. destruct (timer w); [by apply flush_inv|done]. Qed.

(** ** Runs of the mounted playground *)

(** What a stream request reports: its headers, then the events of its source. *)
Inductive StreamReport (g : Z) (w : World) : World -> Prop :=
| report_headers_failed e ck message : StreamReport g w (headers_failed t e ck g message w)
| report_headers_ready e ck starts : StreamReport g w (headers_ready t e ck g starts w)
| report_message e ck data : StreamReport g w (on_message t e ck g data w)
| report_error e ck data rs : StreamReport g w (on_error t e ck g data rs w)
| report_readystate e ck rs st : StreamReport g w (on_readystatechange t e ck g rs st w).

(** Steps come in any order. An answer that is not a stream is for a request whose controller is held or was aborted. *)
Inductive Step : World -> World -> Prop :=
| step_send e ck ids now stream text w : Step w (handleSendMessage e ck ids now stream text w)
| step_regenerate e ck ids now stream k w : Step w (handleRegenerateMessage e ck ids now stream k w)
| step_edit e ck ids now stream k c submit w : Step w (applyEdit e ck ids now stream k c submit w)
| step_delete e ck k w : Step w (handleDeleteMessage e ck k w)
| step_clear e ck w : Step w (clearMessages e ck w)
| step_stop e ck w : Step w (stopGeneration e ck w)
| step_report g w w' : StreamReport g w w' -> Step w w'
| step_answer e ck g a w : abortController w = Some g \/ g ∈ aborted w -> Step w (plain_answer t e ck g a w)
| step_timer e ck w : Step w (timer_fires e ck w)
| step_render ck w : Step w (render ck w).

Lemma initial_inv ms : Inv (initial ms).
Proof. split; [constructor; cbn; try done|done]. intros a Ha. by apply elem_of_nil in Ha. Qed.

Lemma report_inv g w w' : StreamReport g w w' -> Inv w -> Inv w'.
Proof. destruct 1; intros Hi; [by apply headers_failed_inv|by apply headers_ready_inv|by apply message_inv|by apply stream_error_inv|by apply readystate_inv]. Qed.

Lemma step_inv w w' : Step w w' -> Inv w -> Inv w'.
Proof.
  destruct 1; intros Hi.
  - by apply sent_inv, inv_enqueue.
  - unfold handleRegenerateMessage. destruct (createRegeneratedMessages _ _ _ _); [by apply sent_inv, inv_enqueue|done].
  - unfold applyEdit. destruct (negb _); [done|]. destruct (applyMessageEdit _ _ _ _ _ _) as [[next []]|]; [by apply sent_inv, inv_enqueue|by apply inv_enqueue|done].
  - by apply inv_enqueue.
  - by apply inv_enqueue.
  - by apply stop_inv.
  - by eapply report_inv.
  - by apply plain_inv.
  - by apply timer_inv.
  - by apply inv_render.
Qed.

Definition Steps := rtc Step.
Definition reachable (w : World) : Prop := exists ms, Steps (initial ms) w.

Lemma steps_inv w w' : Steps w w' -> Inv w -> Inv w'.
Proof. induction 1; eauto using step_inv. Qed.

Lemma reachable_inv w : reachable w -> Inv w.
Proof. intros [ms Hs]. eapply steps_inv; [done|apply initial_inv]. Qed.

(** *** A busy chat can be freed *)

Lemma frame_generating w w' : frame w = frame w' -> isGenerating w = isGenerating w'.
Proof. destruct w, w'. unfold frame. cbn. by intros [= -> -> -> -> -> -> -> -> -> -> ->]. Qed.

Lemma not_streaming w : Quiet w -> source w = None -> streaming w = false.
Proof. intros Hq Hs. rewrite (inv_streaming w Hq), Hs. by apply bool_decide_eq_false_2, is_Some_None. Qed.

Lemma plain_frees e ck a w : Quiet w -> abortController w = Some (generation w) -> isGenerating (plain_answer t e ck (generation w) a w) = false.
Proof.
  intros Hq Ha. destruct (inv_abort w Hq _ Ha) as (_ & Hs & _). pose proof (not_streaming w Hq Hs) as Hst.
  destruct (plain_frame e ck a w Hq (current_not_aborted w Hq)) as [Hf|Hf]; rewrite (frame_generating _ _ Hf); unfold isGenerating; cbn; by rewrite Hst.
Qed.

Lemma waiting_idle w chat : Quiet w -> stream_at (c_generation w) (streams w) = Some (mkStream chat waiting) -> source w = None.
Proof.
  intros Hq Hw. destruct (source w) as [k|] eqn:E; [|done]. destruct (inv_source w Hq k E) as [-> (? & ? & ?)]. congruence.
Qed.

Lemma failure_frees e ck m w :
  Quiet w -> stream_at (c_generation w) (streams w) = Some (mkStream (generation w) waiting) ->
  isGenerating (headers_failed t e ck (c_generation w) m w) = false.
Proof.
  intros Hq Hw. unfold headers_failed. rewrite Hw. fold (phase_now (c_generation w) finished w). cbn [phase_now set_stream c_generation]. rewrite Z.eqb_refl. cbn [negb].
  rewrite (frame_generating _ (ended (phase_now (c_generation w) finished w)) (frame_error e ck (phase_now (c_generation w) finished w) _ _ (inv_pending w Hq))).
  unfold isGenerating. cbn. by rewrite (not_streaming w Hq (waiting_idle w _ Hq Hw)).
Qed.

Lemma done_frees e ck g w : Inv w -> listens g w -> isGenerating (on_message t e ck g (js "[DONE]") w) = false.
Proof.
  intros Hi Hs. unfold on_message. rewrite (live_current g w Hi Hs). cbn [r_chat]. change (isStreamDoneMessage (js "[DONE]")) with true. cbn match.
  unfold closeActiveSource. cbn [set_stream source]. rewrite bool_decide_eq_true_2 by apply Hs.
  exact (frame_generating _ (ended (done_with g w)) (frame_complete e ck (done_with g w) (inv_pending w (proj1 Hi)))).
Qed.

Lemma error_frees e ck g w msg code : Quiet w -> source w = Some g -> isGenerating (handleError t e ck g (mkStream (generation w) (opened false)) (VStr msg) code w) = false.
Proof. intros Hq Hs. by rewrite (frame_generating _ _ (error_frame e ck g (generation w) w msg code Hq Hs eq_refl)). Qed.

Lemma reported_error e ck g data rs w :
  Inv w -> listens g w -> rs <> Some 2 ->
  if text_error data then isGenerating (on_error t e ck g data rs w) = false
  else source (on_error t e ck g data rs w) = Some g /\ exists chat, stream_at g (streams (on_error t e ck g data rs w)) = Some (mkStream chat (opened true)).
Proof.
  intros Hi Hl Hr. unfold on_error. rewrite (live_current g w Hi Hl). unfold isStreamClosedReadyState. rewrite bool_decide_eq_false_2 by done.
  unfold text_error. destruct (is_text _) eqn:Ht.
  - destruct (errorMessage (parseStreamErrorDetails data)); try done. apply error_frees; [apply Hi|apply Hl].
  - destruct (frame_fields _ _ _ _ _ _ _ _ (raised_frame e ck g (generation w) w _ (errorCode (parseStreamErrorDetails data)) (proj1 Hi) eq_refl Ht)) as (_ & _ & _ & _ & _ & _ & Hc).
    injection Hc as _ -> -> _ _. cbn. split; [apply Hl|]. rewrite stream_at_phase, Z.eqb_refl. destruct Hl as [_ [chat ->]]. by exists chat.
Qed.

(** What a message that is not the last one does, when it is not the pieces of an answer. *)
Definition odd_message (chat : Z) (data : jsstr) (w : World) : Prop :=
  match parseStreamMessageUpdates data with None => True | Some updates => (apply_updates chat updates w).2 = false end.

Lemma odd_handled e ck g data w :
  Inv w -> listens g w -> isStreamDoneMessage data = false -> odd_message (generation w) data w ->
  exists w1, on_message t e ck g data w = handleError t e ck g (mkStream (generation w1) (opened false)) (VStr PARSE_ERROR) VUndef w1
    /\ Inv w1 /\ source w1 = Some g /\ messages w1 = messages w /\ queue w1 = queue w /\ generation w1 = generation w.
Proof.
  intros Hi Hl Hd Ho. unfold on_message. rewrite (live_current g w Hi Hl), Hd. unfold odd_message in Ho. cbn [r_chat].
  destruct (parseStreamMessageUpdates data) as [l|]; [|exists w; split; [done|]; split; [done|]; split; [apply Hl|done]].
  destruct (updates_inv (generation w) l w Hi) as (Hi' & Hg & Hs & _). pose proof (updates_messages (generation w) l w) as Hm.
  destruct (apply_updates _ _ _) as [w1 fine]. cbn [fst snd] in *. subst fine. exists w1. rewrite Hg. injection Hm as H1 H2 _ _. split; [done|]. split; [done|]. split; [rewrite Hs; apply Hl|done].
Qed.

Lemma odd_frees e ck g data w :
  Inv w -> listens g w -> isStreamDoneMessage data = false -> odd_message (generation w) data w -> isGenerating (on_message t e ck g data w) = false.
Proof. intros Hi Hl Hd Ho. destruct (odd_handled e ck g data w Hi Hl Hd Ho) as (w1 & -> & Hi1 & Hs1 & _). apply error_frees; [apply Hi1|done]. Qed.




(** *** What was stopped or replaced *)

(** The two counters of requests. *)
Definition gens (w : World) : Z * Z := (generation w, c_generation w).

Lemma gens_frame w w' : frame w = frame w' -> gens w = gens w'.
Proof. destruct w, w'. unfold frame. cbn. by intros [= -> -> -> -> -> -> -> -> -> -> ->]. Qed.

Lemma gens_enqueue e ck u w : gens (enqueue e ck u w) = gens w.
Proof. apply gens_frame, frame_enqueue. Qed.

Lemma gens_flush e ck g w : gens (flushStreamUpdates e ck g w) = gens w.
Proof. unfold flushStreamUpdates. destruct (negb (g =? _)); [done|]. cbn. destruct (negb _); [done|]. destruct (_ && _); [done|]. by rewrite gens_enqueue. Qed.

Lemma gens_chat p tm rq w w' : gens w = gens w' -> gens (set_chat (generation w) p tm rq w) = gens w'.
Proof. done. Qed.

Lemma gens_complete e ck g w : gens (handleStreamComplete e ck g w) = gens w.
Proof. unfold handleStreamComplete. destruct (negb _); [done|]. rewrite gens_enqueue. apply gens_chat, gens_flush. Qed.

Lemma gens_error e ck g msg code w : gens (handleStreamError t e ck g msg code w).1 = gens w.
Proof.
  unfold handleStreamError. destruct (negb _); [done|]. destruct (getDisplayError t msg); cbn [fst]; rewrite ?gens_enqueue; apply gens_chat, gens_flush.
Qed.

Lemma gens_stream sc ss st cl w w' : gens w = gens w' -> gens (set_stream (c_generation w) sc ss st cl w) = gens w'.
Proof. done. Qed.

Lemma gens_close g w : gens (closeActiveSource g w) = gens w.
Proof. unfold closeActiveSource. by destruct (bool_decide _). Qed.

Lemma gens_handleError e ck g r msg code w : gens (handleError t e ck g r msg code w) = gens w.
Proof.
  unfold handleError. set (w1 := set_stream _ _ _ _ _ _). pose proof (gens_error e ck (r_chat r) msg code w1) as H.
  destruct (handleStreamError _ _ _ _ _ _ _) as [w2 []]; cbn [fst] in H; by rewrite ?gens_close, H.
Qed.

Lemma gens_updates g l w : gens (apply_updates g l w).1 = gens w.
Proof. pose proof (updates_messages g l w) as H. unfold gens. by injection H as _ _ -> ->. Qed.

Lemma gens_report g w w' : StreamReport g w w' -> gens w' = gens w.
Proof.
  destruct 1.
  - unfold headers_failed. destruct (stream_at g (streams w)) as [[chat [| |]]|]; try done. destruct (negb _); [done|]. by rewrite gens_error.
  - unfold headers_ready. destruct (stream_at g (streams w)) as [[chat [| |]]|]; try done. destruct (negb _); [done|]. destruct starts; [done|]. by rewrite gens_handleError.
  - unfold on_message. destruct (live g w) as [r|]; [|done]. destruct (isStreamDoneMessage data); [by rewrite gens_complete, gens_close|].
    destruct (parseStreamMessageUpdates data) as [l|]; [|by rewrite gens_handleError]. pose proof (gens_updates (r_chat r) l w) as H.
    destruct (apply_updates _ _ _) as [w1 []]; cbn [fst] in H; by rewrite ?gens_handleError, H.
  - unfold on_error. destruct (live g w) as [r|]; [|done]. destruct (isStreamClosedReadyState rs); [done|]. by rewrite gens_handleError.
  - unfold on_readystatechange. destruct (live g w) as [r|]; [|done]. destruct (getStreamReadyStateError _ _); [by rewrite gens_handleError|done].
Qed.

Lemma gens_answer e ck g a w : gens (plain_answer t e ck g a w) = gens w.
Proof.
  unfold plain_answer. destruct (_ || _); [done|]. destruct a as [[|c cs]|err]; refine (gens_chat _ _ _ (set_abort _ _ _) _ _); [apply gens_error|apply gens_enqueue|apply gens_error].
Qed.

Lemma gens_sent stream w : gens (sendChat stream w) = (generation w + 1, c_generation w + 1).
Proof. rewrite sent_spec. by destruct stream. Qed.

Lemma gens_stop e ck w : gens (stopGeneration e ck w) = (generation w + 1, c_generation w + 1).
Proof.
  unfold stopGeneration. rewrite gens_enqueue. pose proof (gens_flush e.1 ck (generation w) w) as H. destruct (flushStreamUpdates _ _ _ _).
  unfold gens in *. cbn in *. injection H as -> ->. unfold abort_current. cbn. by destruct abortController0.
Qed.

(** Both counters only grow. *)
Definition later (p q : Z * Z) : Prop := p.1 <= q.1 /\ p.2 <= q.2.

Lemma sent_later stream w p : later p (gens w) -> later p (gens (sendChat stream w)).
Proof. rewrite gens_sent. unfold later, gens. cbn. lia. Qed.

Lemma step_later w w' p : Step w w' -> later p (gens w) -> later p (gens w').
Proof.
  destruct 1; intros Hl.
  - by apply sent_later; rewrite gens_enqueue.
  - unfold handleRegenerateMessage. destruct (createRegeneratedMessages _ _ _ _); [by apply sent_later; rewrite gens_enqueue|done].
  - unfold applyEdit. destruct (negb _); [done|]. destruct (applyMessageEdit _ _ _ _ _ _) as [[next []]|]; [by apply sent_later; rewrite gens_enqueue|by rewrite gens_enqueue|done].
  - unfold handleDeleteMessage. by rewrite gens_enqueue.
  - unfold clearMessages. by rewrite gens_enqueue.
  - rewrite gens_stop. unfold later, gens in *. cbn in *. lia.
  - by erewrite gens_report.
  - by rewrite gens_answer.
  - unfold timer_fires. destruct (timer w); [by rewrite gens_flush|done].
  - by rewrite (gens_frame _ _ (frame_render ck w)).
Qed.

Lemma steps_later w w' p : Steps w w' -> later p (gens w) -> later p (gens w').
Proof. induction 1; eauto using step_later. Qed.

(** All but the phases of the stream requests. *)
Definition visible (w : World) :=
  (messages w, queue w, generation w, pending w, timer w, requesting w, (abortController w, aborted w, c_generation w, source w, streaming w, closed w)).

Lemma outdated_report g w w' : g < c_generation w -> StreamReport g w w' -> visible w' = visible w.
Proof.
  intros Hg Hs. assert (c_generation w =? g = false) as Hne by lia.
  assert (live g w = None) as Hl by (unfold live, isCurrent; rewrite Hne; by destruct (stream_at g (streams w)) as [[chat [|[]|]]|]).
  destruct Hs; unfold on_message, on_error, on_readystatechange, headers_failed, headers_ready; rewrite ?Hl; try done.
  all: destruct (stream_at g (streams w)) as [[chat [| |]]|]; try done. cbn [set_stream c_generation]. by rewrite Hne. by rewrite Hne.
Qed.

(** C11: safety. Once the generation was stopped or a new request was sent, nothing the requests before it report, in whatever order
    and however late, changes the messages, the updates that wait, the buffer or the flags: not the headers and events of
    their streams, not an answer that is not a stream, and not an update of theirs that React evaluates late. *)
Theorem outdated_inert w w1 w2 (H1 : (exists e ck, w1 = stopGeneration e ck w) \/ (exists stream, w1 = sendChat stream w)) (H2 : Steps w1 w2) :
  (forall g w3, g <= c_generation w -> StreamReport g w2 w3 -> visible w3 = visible w2)
  /\ (forall e ck g a, g <= generation w -> plain_answer t e ck g a w2 = w2)
  /\ (forall ck u g, u_generation u = Some g -> g <= generation w -> run_update ck w2 u = w2).
Proof.
  assert (later (generation w + 1, c_generation w + 1) (gens w2)) as [Hg Hc].
  { eapply steps_later; [done|]. destruct H1 as [(e & ck & ->)|[stream ->]]; rewrite ?gens_stop, ?gens_sent; by unfold later. }
  cbn [fst snd gens] in *. split_and!.
  - intros g w3 Hle. apply outdated_report. lia.
  - intros e ck g a Hle. apply plain_stale. lia.
  - intros ck u g Hu Hle. unfold run_update. rewrite Hu. by rewrite (proj2 (Z.eqb_neq g (generation w2))) by lia.
Qed.

(** *** The end of a request *)

(** The messages the next render shows. *)
Definition shown (ck : Clock) (w : World) : list Message := messages (render ck w).

Definition run_pure (ck : Clock) (g : Z) (ms : list Message) (u : Update) : list Message :=
  match u_generation u with Some g' => if g' =? g then u_apply u ck ms else ms | None => u_apply u ck ms end.

Lemma shown_fold ck l w : messages (fold_left (run_update ck) l w) = fold_left (run_pure ck (generation w)) l (messages w).
Proof.
  revert w. induction l as [|u l IH]; intros w; [done|]. cbn [fold_left]. rewrite IH.
  assert (generation (run_update ck w u) = generation w /\ messages (run_update ck w u) = run_pure ck (generation w) (messages w) u) as [-> ->]; [|done].
  unfold run_update, run_pure. destruct (u_generation u) as [g|]; [|done]. by destruct (g =? generation w).
Qed.

Lemma shown_spec ck w : shown ck w = fold_left (run_pure ck (generation w)) (queue w) (messages w).
Proof. unfold shown, render. by rewrite shown_fold. Qed.

(** What the next render shows depends on these alone. *)
Definition mq (w : World) := (messages w, queue w, generation w).

Lemma shown_mq ck w w' : mq w = mq w' -> shown ck w = shown ck w'.
Proof. rewrite !shown_spec. unfold mq. by intros [= -> -> ->]. Qed.

(** An update is evaluated at once or in the render, with the clock of then. *)
Lemma shown_enqueue e ck1 ck u w : exists ck2, shown ck (enqueue e ck1 u w) = run_pure ck2 (generation w) (shown ck w) u.
Proof.
  rewrite !shown_spec. unfold enqueue. destruct (queue w) as [|v q] eqn:E; cbn [set_messages queue messages generation].
  - destruct e; [exists ck1|exists ck]; cbn [fold_left]; [|done]. unfold run_pure at 1. cbn. unfold run_update, run_pure. destruct (u_generation u) as [g|]; [|done]. by destruct (g =? _).
  - exists ck. by rewrite fold_left_app.
Qed.

(** Only the last message differs. *)
Definition last_only (ms ms' : list Message) : Prop := length ms' = length ms /\ forall i, (S i < length ms)%nat -> ms' !! i = ms !! i.

#[global] Instance last_only_preorder : PreOrder last_only.
Proof.
  split; [done|]. intros a b c [H1 H2] [H3 H4]. split; [congruence|]. intros i Hi. rewrite H4 by lia. by apply H2.
Qed.

Lemma last_only_update ms f : last_only ms (updateLastAssistantMessage ms f).
Proof.
  unfold updateLastAssistantMessage. destruct (last ms) as [m|]; [|done]. case_bool_decide; [|done]. split; [by rewrite length_insert|].
  intros i Hi. apply list_lookup_insert_ne. lia.
Qed.

Lemma last_updated ms f m :
  last (updateLastAssistantMessage ms f) = Some m -> from m = ASSISTANT -> exists m0, last ms = Some m0 /\ from m0 = ASSISTANT /\ m = f m0.
Proof.
  unfold updateLastAssistantMessage. destruct (last ms) as [m0|] eqn:E; [|congruence]. case_bool_decide as Hf; [|congruence].
  rewrite last_lookup, length_insert in *. replace (pred (length ms)) with (length ms - 1)%nat by lia.
  rewrite list_lookup_insert_eq; [intros [= <-]; eauto|]. destruct ms; [done|cbn; lia].
Qed.

Lemma shown_same ck w w' : mq w = mq w' -> last_only (shown ck w) (shown ck w').
Proof. by intros ->%(shown_mq ck). Qed.

Lemma shown_flush e ck1 ck g w : last_only (shown ck w) (shown ck (flushStreamUpdates e ck1 g w)).
Proof.
  unfold flushStreamUpdates. destruct (negb (g =? _)) eqn:Eg; [done|]. cbn [pending set_chat]. destruct (negb (p_generation _ =? g)); [by apply shown_same|].
  destruct (_ && _); [by apply shown_same|].
  match goal with |- context [enqueue e ck1 ?u ?v] => destruct (shown_enqueue e ck1 ck u v) as [ck2 ->]; rewrite <- (shown_mq ck w v) by done end.
  unfold run_pure. cbn. destruct (g =? _); [apply last_only_update|done].
Qed.

(** A step that ends with an update of the last message, after which [P] holds of it. *)
Definition Closing (P : Message -> Prop) (w w' : World) : Prop :=
  exists e ck u w0 f, mq w' = mq (enqueue e ck u w0) /\ u_generation u = Some (generation w0)
    /\ (forall ck ms, u_apply u ck ms = updateLastAssistantMessage ms (f ck)) /\ (forall ck m, P (f ck m)) /\ (forall ck, last_only (shown ck w) (shown ck w0)).

Lemma closing_shown P w w' ck :
  Closing P w w' -> last_only (shown ck w) (shown ck w') /\ forall m, last (shown ck w') = Some m -> from m = ASSISTANT -> P m.
Proof.
  intros (e & ck1 & u & w0 & f & Hm & Hu & Ha & Hf & Hl). rewrite (shown_mq ck _ _ Hm). destruct (shown_enqueue e ck1 ck u w0) as [ck2 ->].
  unfold run_pure. rewrite Hu, Z.eqb_refl, Ha. split; [etransitivity; [apply Hl|apply last_only_update]|].
  intros m Hm' Hfm. destruct (last_updated _ _ _ Hm' Hfm) as (m0 & _ & _ & ->). apply Hf.
Qed.

Lemma closing_mq P w1 w2 w1' w2' : mq w1 = mq w2 -> mq w1' = mq w2' -> Closing P w1 w1' -> Closing P w2 w2'.
Proof.
  intros H1 H2 (e & ck & u & w0 & f & Hm & Hu & Ha & Hf & Hl). exists e, ck, u, w0, f. split_and!; [congruence|done..|].
  intros ck'. by rewrite <- (shown_mq ck' _ _ H1).
Qed.

Definition final (m : Message) : Prop := isAssistantMessageFinal m = true.

Lemma complete_final ck m : final (if isAssistantMessageFinal m then m else completeAssistantMessage ck m).
Proof.
  destruct (isAssistantMessageFinal m) eqn:E; [done|]. unfold final, isAssistantMessageFinal, completeAssistantMessage.
  by destruct (complete_timing_fields (with_status COMPLETE (finalizeMessage ck m [])) (c_end ck)) as (_ & _ & _ & -> & _).
Qed.

Lemma closing_complete e ck g w : g = generation w -> Closing final w (handleStreamComplete e ck g w).
Proof.
  intros ->. unfold handleStreamComplete. rewrite Z.eqb_refl. cbn [negb].
  exists e.2, ck. eexists _, _, (fun ck m => if isAssistantMessageFinal m then m else completeAssistantMessage ck m). split_and!; [done| |done|apply complete_final|].
  - pose proof (gens_flush e.1 ck (generation w) w) as H. injection H as H _. cbn. by rewrite H.
  - intros ck'. etransitivity; [apply shown_flush|by apply shown_same].
Qed.

Lemma closing_error e ck g msg code w : g = generation w -> Closing final w (handleStreamError t e ck g (VStr msg) code w).1.
Proof.
  intros ->. unfold handleStreamError. pose proof (error_shown e ck (generation w) w msg code) as Hs. unfold handleStreamError in Hs. rewrite Z.eqb_refl in *. cbn [negb] in *.
  destruct (getDisplayError t (VStr msg)) as [d|]; [|done]. cbn [fst].
  exists e.2, ck. eexists _, _, (fun ck m => _). split_and!; [done| |done| |].
  - pose proof (gens_flush e.1 ck (generation w) w) as H. injection H as H _. cbn. by rewrite H.
  - intros ck' m. unfold final, isAssistantMessageFinal. by match goal with |- context [completeAssistantTiming ?x ?t] => destruct (complete_timing_fields x t) as (_ & _ & _ & -> & _) end.
  - intros ck'. etransitivity; [apply shown_flush|by apply shown_same].
Qed.

Lemma mq_close g w : mq (closeActiveSource g w) = mq w.
Proof. unfold closeActiveSource. by destruct (bool_decide _). Qed.

Lemma closing_handleError e ck g msg code w : Closing final w (handleError t e ck g (mkStream (generation w) (opened false)) (VStr msg) code w).
Proof.
  unfold handleError. cbn [r_chat]. set (w1 := set_stream _ _ _ _ _ w). pose proof (closing_error e ck (generation w) msg code w1 eq_refl) as H.
  destruct (handleStreamError _ _ _ _ _ _ _) as [w2 fine]. cbn [fst] in H. refine (closing_mq final w1 _ w2 _ _ _ H); [done|]. destruct fine; [by rewrite mq_close|done].
Qed.

(** What ends the request of a busy chat, other than stopping it: the last event; a message that is not JSON, or not of texts; an error
    with a text; a state of the connection; the start; the headers; an answer; a failure with a text. *)
Inductive Ending (w : World) : World -> Prop :=
| end_done e ck g : listens g w -> Ending w (on_message t e ck g (js "[DONE]") w)
| end_odd e ck g data : listens g w -> isStreamDoneMessage data = false -> odd_message (generation w) data w -> Ending w (on_message t e ck g data w)
| end_error e ck g data rs : listens g w -> text_error data = true -> rs <> Some 2 -> Ending w (on_error t e ck g data rs w)
| end_status e ck g rs st message : listens g w -> getStreamReadyStateError rs st = Some message -> Ending w (on_readystatechange t e ck g rs st w)
| end_not_started e ck : stream_at (c_generation w) (streams w) = Some (mkStream (generation w) waiting) -> Ending w (headers_ready t e ck (c_generation w) false w)
| end_no_headers e ck message : stream_at (c_generation w) (streams w) = Some (mkStream (generation w) waiting) -> Ending w (headers_failed t e ck (c_generation w) message w)
| end_answer e ck choices : abortController w = Some (generation w) -> Ending w (plain_answer t e ck (generation w) (Response choices) w)
| end_failure e ck error :
    abortController w = Some (generation w) -> is_text (errorMessage (parseRequestErrorDetails error)) = true ->
    Ending w (plain_answer t e ck (generation w) (Failure error) w).

Lemma ending_frees w w' : Inv w -> Ending w w' -> isGenerating w' = false.
Proof.
  intros Hi. pose proof (proj1 Hi) as Hq. destruct 1 as [ | |e ck g data rs Hl Ht Hr|e ck g rs st message Hl Hm|e ck Hw| | | ].
  - by apply done_frees.
  - by apply odd_frees.
  - pose proof (reported_error e ck g data rs w Hi Hl Hr) as H. by rewrite Ht in H.
  - unfold on_readystatechange. rewrite (live_current g w Hi Hl), Hm. apply error_frees; [done|apply Hl].
  - unfold headers_ready. rewrite Hw, Z.eqb_refl. cbn [negb]. fold (source_opened (c_generation w) w). apply (error_frees _ _ _ (source_opened (c_generation w) w)); [|done].
    by eapply source_opened_inv.
  - by apply failure_frees.
  - by apply plain_frees.
  - by apply plain_frees.
Qed.

Lemma closing_answer e ck w choices :
  Quiet w -> Closing final w (plain_answer t e ck (generation w) (Response choices) w).
Proof.
  intros Hq. unfold plain_answer. rewrite bool_decide_eq_false_2, Z.eqb_refl by (by apply current_not_aborted). cbn [orb negb]. destruct choices as [|c cs].
  - refine (closing_mq final w _ _ _ eq_refl _ (closing_error e ck (generation w) _ _ w eq_refl)). done.
  - exists e.1, ck. eexists _, w, (fun ck m => applyChatCompletionChoice ck m c). split_and!; [done|done|done| |done].
    intros ck' m. unfold final, isAssistantMessageFinal, applyChatCompletionChoice.
    by match goal with |- context [completeAssistantTiming ?x ?t] => destruct (complete_timing_fields x t) as (_ & _ & _ & -> & _) end.
Qed.

Lemma ending_closing w w' : Inv w -> Ending w w' -> Closing final w w'.
Proof.
  intros Hi. pose proof (proj1 Hi) as Hq. destruct 1 as [e ck g Hl|e ck g data Hl Hd Ho|e ck g data rs Hl Ht Hr|e ck g rs st message Hl Hm|e ck Hw|e ck message Hw| |e ck error Ha He].
  - unfold on_message. rewrite (live_current g w Hi Hl). cbn [r_chat]. change (isStreamDoneMessage (js "[DONE]")) with true. cbn match.
    set (w1 := closeActiveSource _ _). assert (mq w1 = mq w) as Hw1 by (unfold w1; by rewrite mq_close).
    apply (closing_mq final w1 w (handleStreamComplete e ck (generation w) w1)); [done|done|]. apply closing_complete. by injection Hw1.
  - destruct (odd_handled e ck g data w Hi Hl Hd Ho) as (w1 & -> & _ & _ & Hm & Hqu & Hg).
    refine (closing_mq final w1 w _ _ _ eq_refl (closing_handleError _ _ _ _ _ _)). unfold mq. by rewrite Hm, Hqu, Hg.
  - unfold on_error. rewrite (live_current g w Hi Hl). unfold isStreamClosedReadyState. rewrite bool_decide_eq_false_2 by done.
    unfold text_error in Ht. destruct (errorMessage (parseStreamErrorDetails data)); try done. apply closing_handleError.
  - unfold on_readystatechange. rewrite (live_current g w Hi Hl), Hm. apply closing_handleError.
  - unfold headers_ready. rewrite Hw, Z.eqb_refl. cbn [negb]. refine (closing_mq final (source_opened (c_generation w) w) w _ _ eq_refl eq_refl (closing_handleError _ _ _ _ _ _)).
  - unfold headers_failed. rewrite Hw. cbn [set_stream c_generation]. rewrite Z.eqb_refl. cbn [negb].
    refine (closing_mq final (phase_now (c_generation w) finished w) w _ _ eq_refl eq_refl (closing_error _ _ _ _ _ _ eq_refl)).
  - by apply closing_answer.
  - unfold plain_answer. rewrite bool_decide_eq_false_2, Z.eqb_refl by (by apply current_not_aborted). cbn [orb negb].
    destruct (errorMessage (parseRequestErrorDetails error)) as [| | | |message| |]; try done.
    refine (closing_mq final w _ _ _ eq_refl _ (closing_error e ck (generation w) _ _ w eq_refl)). done.
Qed.

(** A failure with a message that is not a text flushes the buffer and raises. *)
Lemma raised_failure e ck error w :
  Quiet w -> is_text (errorMessage (parseRequestErrorDetails error)) = false ->
  mq (plain_answer t e ck (generation w) (Failure error) w) = mq (flushStreamUpdates e.1 ck (generation w) w).
Proof.
  intros Hq Ht. unfold plain_answer. rewrite bool_decide_eq_false_2, Z.eqb_refl by (by apply current_not_aborted). cbn [orb negb].
  unfold handleStreamError. rewrite Z.eqb_refl. cbn [negb]. by destruct (errorMessage (parseRequestErrorDetails error)).
Qed.

Lemma stop_settles e ck ck' w m :
  last (shown ck' (stopGeneration e ck w)) = Some m -> from m = ASSISTANT -> isAssistantMessagePending m = false.
Proof.
  unfold stopGeneration. match goal with |- context [enqueue _ _ _ ?v] => set (w0 := v) end. destruct (shown_enqueue e.2 ck ck' (mkUpdate (Some (generation w + 1)) stop_update) w0) as [ck2 ->].
  assert (generation w0 = generation w + 1) as ->.
  { pose proof (gens_stop e ck w) as H. unfold stopGeneration in H. rewrite gens_enqueue in H. by injection H. }
  unfold run_pure. cbn. rewrite Z.eqb_refl. intros Hm Hf. destruct (last_updated _ _ _ Hm Hf) as (m0 & _ & _ & ->). destruct (isAssistantMessagePending m0) eqn:E; [|done].
  unfold completeAssistantMessage, isAssistantMessagePending.
  by destruct (complete_timing_fields (with_status COMPLETE (finalizeMessage ck2 m0 [])) (c_end ck2)) as (_ & _ & _ & -> & _).
Qed.

(** C13: functional. When the request of a busy chat ends - by its last event, by a message that is not JSON or not of texts, by an error with
    a text, by a connection that is refused or cannot be started, by an answer that is not a stream or by a failure with a text - the chat
    generates no more, the next render shows the answer as complete or as an error, and every message before it as it would have been. After
    a stop the answer is not left loading or streaming. The one end that is left out is a failure whose message is not a text: the chat
    generates no more, but the handler raises, so the answer is shown as before, with the buffer flushed, and may stay loading. (An error
    event of that kind does not end the request, see [chat_freed].) *)
Theorem ended_answer_final w (Hr : reachable w) :
  (forall w', Ending w w' ->
     isGenerating w' = false
     /\ forall ck, last_only (shown ck w) (shown ck w') /\ forall m, last (shown ck w') = Some m -> from m = ASSISTANT -> isAssistantMessageFinal m = true)
  /\ (forall e ck ck' m, last (shown ck' (stopGeneration e ck w)) = Some m -> from m = ASSISTANT -> isAssistantMessagePending m = false)
  /\ (forall e ck error, abortController w = Some (generation w) -> is_text (errorMessage (parseRequestErrorDetails error)) = false ->
       let w' := plain_answer t e ck (generation w) (Failure error) w in
       isGenerating w' = false /\ forall ck', shown ck' w' = shown ck' (flushStreamUpdates e.1 ck (generation w) w)).
Proof.
  pose proof (reachable_inv w Hr) as Hi. split_and!; [|intros *; apply stop_settles|].
  - intros w' He. split; [by eapply ending_frees|]. intros ck. by apply (closing_shown final), ending_closing.
  - intros e ck error Ha Ht w'. split; [by apply plain_frees; [apply Hi|]|]. intros ck'. apply shown_mq, raised_failure; [apply Hi|done].
Qed.

(** ** The buffer *)

Lemma updated_last ms f m : last ms = Some m -> from m = ASSISTANT -> last (updateLastAssistantMessage ms f) = Some (f m).
Proof.
  intros Hl Hf. unfold updateLastAssistantMessage. rewrite Hl, bool_decide_eq_true_2 by done. rewrite last_lookup, length_insert.
  replace (pred (length ms)) with (length ms - 1)%nat by lia. apply list_lookup_insert_eq. destruct ms; [done|cbn; lia].
Qed.

(** The update of a flush, of one message. *)
Definition flush_one (p : PendingStreamChunks) (ck : Clock) (m : Message) : Message :=
  let m := if truthy_str (p_reasoning p) then applyStreamingChunk ck m chunk_reasoning (p_reasoning p) else m in
  if truthy_str (p_content p) then applyStreamingChunk ck m chunk_content (p_content p) else m.

Definition open_message (x : jsstr) (m : Message) : Prop := from m = ASSISTANT /\ status m <> Some ERROR /\ getMessageContent m = x.

Lemma flush_one_open p ck m x :
  open_message x m -> open_message (if truthy_str (p_content p) then absorb x (p_content p) else x) (flush_one p ck m).
Proof.
  intros (Hf & Hs & Hc). unfold flush_one.
  assert (open_message x (if truthy_str (p_reasoning p) then applyStreamingChunk ck m chunk_reasoning (p_reasoning p) else m)) as (Hf' & Hs' & Hc').
  { destruct (truthy_str (p_reasoning p)); [|done]. destruct (apply_chunk_fields ck m chunk_reasoning (p_reasoning p) Hs) as (? & Hst & _ & ? & _).
    unfold open_message. rewrite Hst. split_and!; congruence. }
  cbv zeta. destruct (truthy_str (p_content p)); [|done]. set (m1 := if truthy_str _ then _ else _) in *. clearbody m1.
  destruct (apply_chunk_fields ck m1 chunk_content (p_content p) Hs') as (? & Hst & _ & ? & _). unfold open_message. rewrite Hst. split_and!; congruence.
Qed.

(** The text of the answer the next render shows. *)
Definition shows (x : jsstr) (w : World) : Prop := forall ck, exists m, last (shown ck w) = Some m /\ open_message x m.

Lemma shows_mq x w w' : mq w = mq w' -> shows x w -> shows x w'.
Proof. intros H Hs ck. rewrite <- (shown_mq ck _ _ H). apply Hs. Qed.

Lemma shows_enqueue e ck u w x y f :
  u_generation u = Some (generation w) -> (forall ck ms, u_apply u ck ms = updateLastAssistantMessage ms (f ck)) ->
  (forall ck m, open_message x m -> open_message y (f ck m)) -> shows x w -> shows y (enqueue e ck u w).
Proof.
  intros Hu Ha Hf Hs ck'. destruct (shown_enqueue e ck ck' u w) as [ck2 ->]. unfold run_pure. rewrite Hu, Z.eqb_refl, Ha. destruct (Hs ck') as (m & Hl & Hm).
  exists (f ck2 m). split; [|by apply Hf]. apply updated_last; [done|apply Hm].
Qed.

Lemma shows_flush e ck w x :
  p_generation (pending w) = generation w -> shows x w ->
  shows (if truthy_str (p_content (pending w)) then absorb x (p_content (pending w)) else x) (flushStreamUpdates e ck (generation w) w).
Proof.
  intros Hp Hs. unfold flushStreamUpdates. rewrite Z.eqb_refl. cbn [negb pending set_chat generation]. rewrite Hp, Z.eqb_refl. cbn [negb].
  destruct (negb (truthy_str (p_reasoning (pending w))) && negb (truthy_str (p_content (pending w)))) eqn:E.
  - apply andb_true_iff in E as [_ ->%negb_true_iff]. by apply (shows_mq _ w).
  - apply (shows_enqueue _ _ _ _ x _ (flush_one (pending w))); [done|done|intros; by apply flush_one_open|]. by apply (shows_mq _ w).
Qed.

(** What happens while an answer is streamed: a piece comes, the timer fires, React renders. *)
Inductive Moment := Piece (ty : StreamChunkType) (s : jsstr) | Tick (eager : bool) (ck : Clock) | Draw (ck : Clock).

Definition moment (w : World) (i : Moment) : World :=
  match i with
  | Piece ty s => default w (handleStreamUpdate (generation w) ty (VStr s) w)
  | Tick e ck => timer_fires e ck w
  | Draw ck => render ck w
  end.

Definition pieces (l : list Moment) : list jsstr := omap (fun i => match i with Piece chunk_content s => Some s | _ => None end) l.

(** Deltas that no one can take for a snapshot: no run of them starts with the whole text before it, and none starts with a run that
    ends where it begins. *)
Definition deltas (x : jsstr) (cs : list jsstr) : Prop :=
  (forall a b c, cs = a ++ b ++ c -> x ++ concat a <> [] -> concat b <> [] -> starts_with (x ++ concat a) (concat b) = false)
  /\ (forall a b d c, cs = a ++ b ++ d :: c -> concat b <> [] -> starts_with (concat b) d = false).

(** Some of the pieces are in the answer, the others in the buffer. *)
Definition Buffered (x : jsstr) (sofar : list jsstr) (w : World) : Prop :=
  p_generation (pending w) = generation w
  /\ exists a b, sofar = a ++ b /\ shows (x ++ concat a) w /\ p_content (pending w) = concat b.

Lemma buffered_ext x l w w' : mq w = mq w' -> pending w = pending w' -> Buffered x l w -> Buffered x l w'.
Proof.
  intros Hm Hp (Hg & a & b & -> & Hs & Hb). split; [unfold mq in Hm; congruence|]. exists a, b. rewrite <- Hp. split_and!; [done|by eapply shows_mq|done].
Qed.

Lemma flush_buffered e ck x l r w :
  deltas x (l ++ r) -> Buffered x l w -> Buffered x l (flushStreamUpdates e ck (generation w) w) /\ shows (x ++ concat l) (flushStreamUpdates e ck (generation w) w).
Proof.
  intros [Hd _] (Hp & a & b & -> & Hs & Hb). pose proof (shows_flush e ck w _ Hp Hs) as Hf. rewrite Hb in Hf.
  assert (shows (x ++ concat (a ++ b)) (flushStreamUpdates e ck (generation w) w)) as Hall.
  { rewrite concat_app, app_assoc. destruct (concat b) as [|c0 cb] eqn:E; [by rewrite app_nil_r|]. cbn [truthy_str] in Hf. rewrite <- E in *.
    destruct (decide (x ++ concat a = [])) as [Hnil|Hne]; [by rewrite Hnil in *|]. rewrite absorb_delta in Hf; [done|].
    apply (Hd a b r); [by rewrite <- app_assoc|done|congruence]. }
  split; [|done]. destruct (frame_fields _ _ _ _ _ _ _ _ (frame_flush e ck (generation w) w Hp eq_refl)) as (F1 & F2 & _).
  split; [by rewrite F1, F2|]. exists (a ++ b), []. rewrite F2, app_nil_r. by split_and!.
Qed.

Lemma piece_buffered x l s r w ty :
  deltas x (l ++ (match ty with chunk_content => [s] | _ => [] end) ++ r) -> Buffered x l w -> Buffered x (l ++ match ty with chunk_content => [s] | _ => [] end) (moment w (Piece ty s)).
Proof.
  intros [_ Hd] (Hp & a & b & -> & Hs & Hb). cbn [moment]. unfold handleStreamUpdate. rewrite Z.eqb_refl, Hp, Z.eqb_refl. cbn [negb].
  assert (forall c0, mergePendingStreamChunk c0 (VStr s) = Some (if truthy_str c0 then if starts_with c0 s then s else c0 ++ s else s)) as Hm
    by (intros c0; unfold mergePendingStreamChunk; by destruct (truthy_str c0)).
  assert (forall p, Buffered x ((a ++ b) ++ match ty with chunk_content => [s] | _ => [] end) (set_chat (generation w) p (timer w) (requesting w) w) ->
    Buffered x ((a ++ b) ++ match ty with chunk_content => [s] | _ => [] end) (scheduleStreamFlush (generation w) (set_chat (generation w) p (timer w) (requesting w) w))) as Hsch.
  { intros p HB. unfold scheduleStreamFlush. cbn [generation set_chat timer]. rewrite Z.eqb_refl. cbn [negb]. destruct (timer w); (eapply buffered_ext; [| |exact HB]); done. }
  destruct ty; rewrite Hm; cbn [mbind option_bind default]; apply Hsch; (split; [done|]); cbn [pending set_chat p_content].
  - exists a, b. rewrite app_nil_r. split_and!; [done|by apply (shows_mq _ w)|done].
  - exists a, (b ++ [s]). rewrite <- app_assoc. split_and!; [done|by apply (shows_mq _ w)|]. rewrite Hb, concat_app. cbn [concat]. rewrite app_nil_r.
    destruct (concat b) as [|c0 cb] eqn:E; [done|]. cbn [truthy_str]. rewrite <- E, (Hd a b s r); [done|by rewrite <- app_assoc|congruence].
Qed.

Lemma fold_queue ck l w : queue (fold_left (run_update ck) l w) = queue w.
Proof. revert w. induction l as [|u l IH]; intros w; [done|]. cbn [fold_left]. rewrite IH. unfold run_update. destruct (u_generation u); [|done]. by destruct (_ =? _). Qed.

Lemma moments_buffered x l : forall k r w, deltas x (k ++ pieces l ++ r) -> Buffered x k w -> Buffered x (k ++ pieces l) (fold_left moment l w).
Proof.
  induction l as [|i l IH]; intros k r w Hd HB; [by rewrite app_nil_r|]. cbn [fold_left]. destruct i as [ty s|e ck|ck].
  - assert (pieces (Piece ty s :: l) = (match ty with chunk_content => [s] | _ => [] end) ++ pieces l) as Hp by (by destruct ty). rewrite Hp in *.
    rewrite app_assoc. apply (IH _ r); [by rewrite <- !app_assoc in *|]. apply (piece_buffered _ _ _ (pieces l ++ r)); [by rewrite <- !app_assoc in *|done].
  - change (pieces (Tick e ck :: l)) with (pieces l) in *. apply (IH _ r); [done|]. cbn [moment]. unfold timer_fires. destruct (timer w) as [g|]; [|done].
    destruct (decide (g = generation w)) as [->|]; [|by rewrite flush_stale]. by apply (flush_buffered e ck x k (pieces l ++ r)).
  - change (pieces (Draw ck :: l)) with (pieces l) in *. apply (IH _ r); [done|]. destruct HB as (Hp & a & b & Hk & Hs & Hb). cbn [moment].
    destruct (frame_fields _ _ _ _ _ _ _ _ (frame_render ck w)) as (F1 & F2 & _). split; [by rewrite F1, F2|]. exists a, b. rewrite F2. split_and!; [done| |done].
    intros ck'. assert (shown ck' (render ck w) = shown ck w) as ->; [|apply Hs]. rewrite (shown_spec ck' (render ck w)).
    assert (queue (render ck w) = []) as ->; [|done]. unfold render. apply fold_queue.
Qed.

Lemma moments_gens l : forall w, gens (fold_left moment l w) = gens w.
Proof.
  induction l as [|i l IH]; intros w; [done|]. cbn [fold_left]. rewrite IH. destruct i as [ty s|e ck|ck]; cbn [moment].
  - pose proof (gens_updates (generation w) [(ty, VStr s)] w) as H. cbn [apply_updates] in H. by destruct (handleStreamUpdate _ _ _ _).
  - unfold timer_fires. destruct (timer w); [apply gens_flush|done].
  - apply gens_frame, frame_render.
Qed.

(** C23: equivalence. The buffer of a stream is invisible: whenever the timer fires and React renders, once the buffer is flushed the
    next render shows the text that was there and the pieces that came, all of them and in order, as if each had been shown when
    it came. That is for pieces no one can take for a snapshot of the text. *)
Theorem buffer_transparent x l w e ck
    (Hp : p_generation (pending w) = generation w) (Hc : p_content (pending w) = []) (Hs : shows x w) (Hd : deltas x (pieces l)) :
  shows (x ++ concat (pieces l)) (flushStreamUpdates e ck (generation w) (fold_left moment l w)).
Proof.
  assert (Buffered x (pieces l) (fold_left moment l w)) as HB.
  { apply (moments_buffered x l [] [] w); [by rewrite app_nil_r|]. split; [done|]. exists [], []. cbn. by rewrite app_nil_r. }
  pose proof (moments_gens l w) as Hg. injection Hg as Hg _. rewrite <- Hg. apply (flush_buffered e ck x _ []); [by rewrite app_nil_r|done].
Qed.

End Handler.

(** ** A conversation *)

Definition ids0 : Ids := mkIds (js "u") (js "uv") (js "a") (js "av").
Definition same : jsstr -> jsstr := fun s => s.
Definition never : bool * bool := (false, false).

(** A message sent as a stream, its source opened, and the first piece of the answer. *)
Definition asked : World := handleSendMessage false ck0 ids0 0 true (js "Hi?") (initial []).
Definition opened_source : World := headers_ready same never ck0 1 true (render ck0 asked).
Definition piece (s : string) : jsstr := jq ("{'choices':[{'delta':{'content':'" ++ s ++ "'}}]}").
Definition hearing : World := on_message same never ck0 1 (piece "Hel") opened_source.

Definition answer (w : World) : option jsstr := getMessageContent <$> last (shown ck0 w).

Lemma asked_reachable : reachable same asked.
Proof. exists []. apply rtc_once, step_send. Qed.

Lemma hearing_reachable : reachable same hearing.
Proof.
  destruct asked_reachable as [ms Hs]. exists ms. eapply rtc_r; [eapply rtc_r; [eapply rtc_r; [exact Hs|apply step_render]|]|]; eapply step_report.
  - apply report_headers_ready.
  - apply report_message.
Qed.


Lemma outdated_inert_witness :
  let w2 := render ck0 (stopGeneration never ck0 hearing) in visible (on_message same never ck0 1 (piece "lo") w2) = visible w2 /\ source hearing = Some 1.
Proof.
  split; [|reflexivity].
  pose proof (outdated_inert same hearing _ (render ck0 (stopGeneration never ck0 hearing)) (or_introl (ex_intro _ never (ex_intro _ ck0 eq_refl))) (rtc_once _ _ (step_render same ck0 _))) as [Hin _].
  apply (Hin 1); [vm_compute; discriminate|apply report_message].
Defined.

Lemma ended_answer_final_witness :
  let w' := on_message same never ck0 1 (js "[DONE]") hearing in isGenerating hearing = true /\ isGenerating w' = false /\ answer w' = Some (js "Hel").
Proof.
  pose proof (ended_answer_final same hearing hearing_reachable) as [Hend _].
  assert (listens 1 hearing) as Hl by (split; [reflexivity|by exists 1]).
  split_and!; [reflexivity|exact (proj1 (Hend _ (end_done same hearing never ck0 1 Hl)))|reflexivity].
Defined.

Lemma buffer_transparent_witness :
  shows (js "Hello") (flushStreamUpdates false ck0 1
    (fold_left moment [Piece chunk_content (js "Hel"); Tick true ck0; Draw ck0; Piece chunk_reasoning (js "?"); Piece chunk_content (js "lo")] opened_source)).
Proof.
  apply (buffer_transparent [] [Piece chunk_content (js "Hel"); Tick true ck0; Draw ck0; Piece chunk_reasoning (js "?"); Piece chunk_content (js "lo")] opened_source false ck0).
  - reflexivity.
  - reflexivity.
  - intros ck. eexists. by split.
  - split; intros; cbn in *; repeat match goal with H : _ :: _ = ?a ++ _ |- _ => destruct a; simplify_eq/= | H : [] = ?a ++ _ |- _ => destruct a; simplify_eq/= end; done.
Defined.

(** *** What the buffer can lose *)

(** Within one flush a piece that starts with the piece before it replaces it; a flush in between keeps both. *)
Example timing_changes_text :
  let l a := [Piece chunk_content (js "n="); Tick true ck0; Draw ck0; Piece chunk_content (js "1")] ++ a ++ [Piece chunk_content (js "10"); Tick true ck0] in
  answer (fold_left moment (l []) opened_source) = Some (js "n=10") /\ answer (fold_left moment (l [Tick true ck0; Draw ck0]) opened_source) = Some (js "n=110").
Proof. split_and!; vm_compute; reflexivity. Qed.

(** Stopping flushes the buffer first, but an update that is not evaluated at once finds the generation already moved on. *)
Example stopped_text_lost :
  answer (stopGeneration (true, true) ck0 hearing) = Some (js "Hel") /\ answer (stopGeneration never ck0 hearing) = Some [].
Proof. split_and!; vm_compute; reflexivity. Qed.

(** An error whose message is not a text raises before the source is closed: the chat stays busy, deaf to the source. *)
Example error_object_sticks :
  let w := on_error same never ck0 1 (Some (jq "{'error':{'message':{'detail':'quota'}}}")) None hearing in
  isGenerating w = true /\ isGenerating (on_message same never ck0 1 (js "[DONE]") w) = true /\ source w = Some 1.
Proof. split_and!; vm_compute; reflexivity. Qed.

(** A failure of a request that is not a stream whose message is an object: the chat is free, the answer stays loading. *)
Example failure_object_loads :
  let w := handleSendMessage false ck0 ids0 0 false (js "Hi?") (initial []) in
  let w' := plain_answer same never ck0 1 (Failure (VObj [(js "response", VObj [(js "data", VObj [(js "message", VObj [(js "detail", VStr (js "quota"))])])])])) w in
  isGenerating w = true /\ isGenerating w' = false /\ (status <$> last (shown ck0 w')) = Some (Some LOADING).
Proof. split_and!; vm_compute; reflexivity. Qed.

End PlaygroundTransportLaws.
