(* ===== verification/CreditSupply.v ===== *)
(** Credit supply: the health of a lot of vendor credit, what it owes its seller, and
    the buttons the operator's screen offers
    (src/web/src/features/system-settings/billing/credit-supply-logic.ts), against
    the transition check of the server (src/model/credit_lot.go). *)

From S2P Require Import Prelude JsValue.

Module CreditSupply.

(** ** Data *)

Inductive CreditLotStatus := pending | verified | active | suspended | exhausted | expired | rejected.
Inductive LotSource := source_admin | source_supplier.

#[export] Instance CreditLotStatus_eq_dec : EqDecision CreditLotStatus.
Proof. solve_decision. Defined.
#[export] Instance LotSource_eq_dec : EqDecision LotSource.
Proof. solve_decision. Defined.

(** The fields of a lot that the logic reads. *)
Record CreditLot := mkLot {
  status : CreditLotStatus;
  source : LotSource;
  channel_id : Z;
  expires_at : Z;
  face_value_usd : num;
  consumed_usd : num;
  low_water_usd : num;
  revenue_share_pct : num;
  share_revenue_usd : num;
  share_cost_usd : num;
  paid_share_usd : num
}.

Definition zero : num := num_of_Z 0.
Definition hundred : num := num_of_Z 100.

Definition SECONDS_PER_DAY : Z := 86400.
Definition EXPIRY_ATTENTION_DAYS : Z := 7.

(** ** Amounts *)

Definition remainingUSD (lot : CreditLot) : num := nmax (nsub lot.(face_value_usd) lot.(consumed_usd)) zero.

Definition shareBasisUSD (lot : CreditLot) : num :=
  nmax (nsub lot.(share_revenue_usd) lot.(share_cost_usd)) zero.

Definition earnedShareUSD (lot : CreditLot) : num := nmul (shareBasisUSD lot) lot.(revenue_share_pct).

(** [0.005] *)
Definition SHARE_CENT_THRESHOLD : num := num_of_decimal 5 3.

Definition unpaidShareUSD (lot : CreditLot) : num :=
  let unpaid := nsub (earnedShareUSD lot) lot.(paid_share_usd) in
  if nlt unpaid SHARE_CENT_THRESHOLD then zero else unpaid.

Definition consumedPct (lot : CreditLot) : num :=
  if nle lot.(face_value_usd) zero then zero
  else nmin hundred (nmax zero (nmul (ndiv lot.(consumed_usd) lot.(face_value_usd)) hundred)).

(** ** Health *)

Inductive LotHealth := h_pending | h_verified | h_healthy | h_low | h_expiring | h_suspended | h_retired | h_rejected.

Definition lotHealth (lot : CreditLot) (nowSeconds : Z) : LotHealth :=
  match lot.(status) with
  | pending => h_pending
  | verified => h_verified
  | rejected => h_rejected
  | suspended => h_suspended
  | exhausted | expired => h_retired
  | active =>
      if ngt lot.(low_water_usd) zero && nle (remainingUSD lot) lot.(low_water_usd) then h_low
      else if negb (lot.(expires_at) =? 0)
              && (lot.(expires_at) - nowSeconds <=? EXPIRY_ATTENTION_DAYS * SECONDS_PER_DAY) then h_expiring
      else h_healthy
  end.

(** ** Transitions offered *)

Record LotTransition := mkTransition {
  to : CreditLotStatus;
  labelKey : jsstr;
  destructive : bool;
  blockedKey : option jsstr
}.

Definition offer (s : CreditLotStatus) (label : jsstr) : LotTransition := mkTransition s label false None.
Definition reject_offer : LotTransition := mkTransition rejected (js "Reject") true None.

Definition availableTransitions (lot : CreditLot) (nowSeconds : Z) : list LotTransition :=
  match lot.(status) with
  | pending =>
      if bool_decide (lot.(source) = source_supplier) then [reject_offer]
      else [mkTransition active (js "Approve") false
              (if lot.(channel_id) =? 0 then Some (js "Bind the lot to a channel before approving it") else None);
            reject_offer]
  | verified => [offer active (js "Accept"); reject_offer]
  | active => [mkTransition suspended (js "Suspend") true None]
  | suspended => [offer active (js "Reactivate")]
  | exhausted =>
      [mkTransition active (js "Reactivate") false
         (if ngt (remainingUSD lot) zero then None
          else Some (js "Raise the face value first; nothing is left to draw"))]
  | expired =>
      [mkTransition active (js "Reactivate") false
         (if (lot.(expires_at) =? 0) || (nowSeconds <? lot.(expires_at)) then None
          else Some (js "Move or clear the expiry first"))]
  | rejected => []
  end.

Definition daysUntil (timestamp nowSeconds : Z) : Z := - ((nowSeconds - timestamp) / SECONDS_PER_DAY).

(** ** The server *)

(** [RemainingUSD] of the Go model. *)
Definition server_remaining (lot : CreditLot) : num :=
  let remaining := nsub lot.(face_value_usd) lot.(consumed_usd) in
  if nlt remaining zero then zero else remaining.

(** The status switch of [TransitionCreditLot]. *)
Definition server_allows (lot : CreditLot) (now : Z) (to : CreditLotStatus) : bool :=
  match lot.(status) with
  | pending => (bool_decide (to = active) && negb (bool_decide (lot.(source) = source_supplier)))
               || bool_decide (to = rejected)
  | verified => bool_decide (to = active) || bool_decide (to = rejected)
  | active => bool_decide (to = suspended)
  | suspended => bool_decide (to = active)
  | exhausted => bool_decide (to = active) && ngt (server_remaining lot) zero
  | expired => bool_decide (to = active) && ((lot.(expires_at) =? 0) || (now <? lot.(expires_at)))
  | rejected => false
  end.

(** What the request and the rest of the database contribute: a reason was given and
    names no secret, the transfer of rights was confirmed, no other live lot holds the
    channel. *)
Record RequestFacts := mkFacts {
  reason_given : bool; reason_clean : bool; rights_confirmed : bool; channel_free : bool
}.

(** The checks of [TransitionCreditLot] up to the write; [true] when it goes through. *)
Definition TransitionCreditLot (lot : CreditLot) (now : Z) (to : CreditLotStatus) (q : RequestFacts) : bool :=
  let needs_reason := bool_decide (to = rejected) || bool_decide (to = suspended) in
  (negb needs_reason || q.(reason_given)) && q.(reason_clean)
  && server_allows lot now to
  && (negb (bool_decide (to = active))
      || (negb (lot.(channel_id) =? 0)
          && (negb (bool_decide (lot.(status) = pending) || bool_decide (lot.(status) = verified)) || q.(rights_confirmed))
          && q.(channel_free)
          && ((lot.(expires_at) =? 0) || (now <? lot.(expires_at))))).

(** A request with everything in order. *)
Definition in_order (q : RequestFacts) : Prop :=
  q.(reason_given) = true /\ q.(reason_clean) = true /\ q.(rights_confirmed) = true /\ q.(channel_free) = true.

(** ** Properties *)

(** Screen and server agree on whether anything is left. *)
Lemma remaining_agree lot : ngt (remainingUSD lot) zero = ngt (server_remaining lot) zero.
Proof.
  unfold remainingUSD, server_remaining, nmax. cbv zeta. set (r := nsub _ _).
  destruct (is_nan r) eqn:En; [by destruct r|]. change (is_nan zero) with false. cbn [orb].
  by destruct (nlt r zero).
Qed.

(** Whether the server lets the lot go live, the status switch apart. *)
Definition can_serve (lot : CreditLot) (now : Z) : bool :=
  negb (lot.(channel_id) =? 0) && ((lot.(expires_at) =? 0) || (now <? lot.(expires_at))).

Lemma server_in_order lot now s q :
  in_order q ->
  TransitionCreditLot lot now s q = server_allows lot now s && (negb (bool_decide (s = active)) || can_serve lot now).
Proof.
  intros (H1 & H2 & H3 & H4). unfold TransitionCreditLot, can_serve. rewrite H1, H2, H3, H4.
  rewrite !orb_true_r, !andb_true_r. done.
Qed.

Ltac inv_offer :=
  repeat match goal with
  | H : _ ∈ _ :: _ |- _ => apply elem_of_cons in H as [->|H]
  | H : _ ∈ [] |- _ => by apply elem_of_nil in H
  end; cbn [to blockedKey offer reject_offer] in *.

(** What the screen enables, the status switch of the server allows, and the reverse. *)
Lemma enabled_allowed lot now t :
  t ∈ availableTransitions lot now -> server_allows lot now t.(to) = bool_decide (t.(blockedKey) = None)
  \/ (lot.(status) = pending /\ t.(to) = active /\ lot.(channel_id) = 0 /\ t.(blockedKey) <> None).
Proof.
  unfold availableTransitions, server_allows. rewrite <- remaining_agree.
  destruct (lot.(status)); intros Ht.
  - case_bool_decide; inv_offer; [by left|..|by left].
    destruct (Z.eqb_spec lot.(channel_id) 0); [right; done|left; done].
  - inv_offer; by left.
  - inv_offer; by left.
  - inv_offer; by left.
  - inv_offer. left. by destruct (ngt _ _).
  - inv_offer. left. by destruct (_ || _).
  - inv_offer.
Qed.

Lemma allowed_offered lot now s :
  server_allows lot now s = true ->
  exists t, t ∈ availableTransitions lot now /\ t.(to) = s
    /\ (t.(blockedKey) = None \/ (lot.(status) = pending /\ s = active /\ lot.(channel_id) = 0)).
Proof.
  unfold availableTransitions, server_allows. rewrite <- remaining_agree.
  destruct (lot.(status)); rewrite ?orb_true_iff, ?andb_true_iff, ?negb_true_iff, ?bool_decide_eq_true, ?bool_decide_eq_false.
  - intros [[-> Hs]| ->].
    + rewrite bool_decide_false by done. eexists. split; [left|]. split; [done|].
      cbn [blockedKey]. destruct (Z.eqb_spec lot.(channel_id) 0); auto.
    + case_bool_decide; exists reject_offer; (split; [|auto]); [left|right; left].
  - intros [->| ->]; [exists (offer active (js "Accept")); split; [left|auto]|].
    exists reject_offer. split; [right; left|auto].
  - intros ->. eexists. split; [left|auto].
  - intros ->. eexists. split; [left|auto].
  - intros [-> Hr]. eexists. split; [left|]. cbn [to blockedKey]. rewrite Hr. auto.
  - intros [-> Hr]. eexists. split; [left|]. cbn [to blockedKey].
    destruct (_ || _) eqn:E; [auto|]. exfalso. lia.
  - done.
Qed.

(** C39: With a request in order (reason given, rights confirmed, channel not taken):
    every enabled button that does not activate the lot is accepted by the server; an
    enabled button that activates it is accepted exactly when the lot has a channel and
    is not past its expiry; every greyed out button would be refused; and whatever the
    server accepts is offered, enabled. *)
Theorem screen_matches_server lot now q (Hq : in_order q) :
  (forall t, t ∈ availableTransitions lot now -> t.(blockedKey) = None ->
     TransitionCreditLot lot now t.(to) q = negb (bool_decide (t.(to) = active)) || can_serve lot now)
  /\ (forall t, t ∈ availableTransitions lot now -> t.(blockedKey) <> None ->
     TransitionCreditLot lot now t.(to) q = false)
  /\ (forall s, TransitionCreditLot lot now s q = true ->
     exists t, t ∈ availableTransitions lot now /\ t.(to) = s /\ t.(blockedKey) = None).
Proof.
  split_and!.
  - intros t Ht Hb. rewrite server_in_order by done.
    destruct (enabled_allowed lot now t Ht) as [->|(_ & _ & _ & ?)]; [|done].
    by rewrite bool_decide_true.
  - intros t Ht Hb. rewrite server_in_order by done.
    destruct (enabled_allowed lot now t Ht) as [->|(_ & -> & Hc & _)].
    + by rewrite bool_decide_false.
    + unfold can_serve. rewrite Hc. simpl. by rewrite andb_false_r.
  - intros s. rewrite server_in_order by done. intros [Ha Hs]%andb_true_iff.
    destruct (allowed_offered lot now s Ha) as (t & Ht & Hto & [Hb|(_ & -> & Hc)]); [by exists t|].
    unfold can_serve in Hs. rewrite Hc in Hs. done.
Qed.

Definition demo_lot (s : CreditLotStatus) (ch : Z) : CreditLot :=
  mkLot s source_admin ch 0 hundred zero zero zero zero zero zero.

Lemma screen_matches_server_witness :
  TransitionCreditLot (demo_lot verified 0) 5 active (mkFacts true true true true) = false
  /\ TransitionCreditLot (demo_lot verified 3) 5 active (mkFacts true true true true) = true.
Proof.
  destruct (screen_matches_server (demo_lot verified 0) 5 (mkFacts true true true true) ltac:(done)) as [H1 _].
  destruct (screen_matches_server (demo_lot verified 3) 5 (mkFacts true true true true) ltac:(done)) as [H2 _].
  split; [apply (H1 (offer active (js "Accept")))|apply (H2 (offer active (js "Accept")))]; try reflexivity; left.
Defined.

End CreditSupply.
