(* ===== verification/Calendar.v ===== *)
(** Local calendar dates of the JavaScript [Date] as far as the console uses them:
    the constructor with out of range months and days, ISO texts and their order. A
    date is its local year, month (from 0) and day. *)

From S2P Require Import Prelude.

(** ** The calendar *)

Record Civil := mkCivil { year : Z; month : Z; day : Z }.

Definition is_leap (y : Z) : bool := (y mod 4 =? 0) && (negb (y mod 100 =? 0) || (y mod 400 =? 0)).

Definition month_len (y m : Z) : Z :=
  if m =? 1 then (if is_leap y then 29 else 28)
  else if (m =? 3) || (m =? 5) || (m =? 8) || (m =? 10) then 30 else 31.

Definition valid (c : Civil) : Prop :=
  0 <= c.(month) < 12 /\ 1 <= c.(day) <= month_len c.(year) c.(month).

(** Carrying an out of range day into the months around it. *)
Fixpoint carry (fuel : nat) (y m d : Z) : Civil :=
  match fuel with
  | O => mkCivil y m d
  | S f =>
      if d <? 1 then
        let y' := if m =? 0 then y - 1 else y in
        let m' := if m =? 0 then 11 else m - 1 in
        carry f y' m' (d + month_len y' m')
      else if month_len y m <? d then
        carry f (if m =? 11 then y + 1 else y) (if m =? 11 then 0 else m + 1) (d - month_len y m)
      else mkCivil y m d
  end.

(** [new Date(y, m, d)]: years 0 to 99 stand for 1900 to 1999, months carry into
    years, days into months. A round moves the day by at least 28 towards its range. *)
Definition newDate (y m d : Z) : Civil :=
  let y := if (0 <=? y) && (y <=? 99) then 1900 + y else y in
  carry (S (Z.to_nat (Z.abs d))) (y + m / 12) (m mod 12) d.

(** [date.setDate(d)] *)
Definition setDate (c : Civil) (d : Z) : Civil := carry (S (Z.to_nat (Z.abs d))) c.(year) c.(month) d.

(** ** Texts *)

(** [String(n).padStart(2, '0')] *)
Definition pad2 (n : Z) : jsstr := let s := dec n in if (length s <? 2)%nat then 48 :: s else s.

(** [a < b] on strings. *)
Fixpoint str_lt (a b : jsstr) : bool :=
  match a, b with
  | _, [] => false
  | [], _ :: _ => true
  | x :: a', y :: b' => (x <? y) || ((x =? y) && str_lt a' b')
  end.

Definition toISODate (c : Civil) : jsstr :=
  dec c.(year) ++ js "-" ++ pad2 (c.(month) + 1) ++ js "-" ++ pad2 c.(day).

(** ** Day numbers *)

(** Days before the first of January of a year, counted from year 0. *)
Definition before_year (y : Z) : Z := 365 * y + (y - 1) / 4 - (y - 1) / 100 + (y - 1) / 400.

Definition before_month (y m : Z) : Z :=
  (if m <=? 0 then 0 else if m =? 1 then 31 else if m =? 2 then 59 else if m =? 3 then 90 else if m =? 4 then 120
   else if m =? 5 then 151 else if m =? 6 then 181 else if m =? 7 then 212 else if m =? 8 then 243
   else if m =? 9 then 273 else if m =? 10 then 304 else if m =? 11 then 334 else 365)
  + (if (2 <=? m) && is_leap y then 1 else 0).

Definition day_number (c : Civil) : Z := before_year c.(year) + before_month c.(year) c.(month) + c.(day).

Lemma div_step k y : 0 < k -> y / k - (y - 1) / k = if y mod k =? 0 then 1 else 0.
Proof.
  intros Hk. pose proof (Z.div_mod y k ltac:(lia)) as Hd. pose proof (Z.mod_pos_bound y k Hk) as Hm.
  destruct (Z.eqb_spec (y mod k) 0) as [E|E].
  - rewrite <- (Z.div_unique_pos (y - 1) k (y / k - 1) (k - 1)); lia.
  - rewrite <- (Z.div_unique_pos (y - 1) k (y / k) (y mod k - 1)); lia.
Qed.

Lemma mod_divides k j y : 0 < k -> 0 < j -> y mod (k * j) = 0 -> y mod k = 0.
Proof.
  intros Hk Hj H. apply Z.mod_divide in H; [|lia]. apply Z.mod_divide; [lia|].
  destruct H as [q ->]. exists (q * j). lia.
Qed.

Lemma before_year_succ y : before_year (y + 1) = before_year y + 365 + (if is_leap y then 1 else 0).
Proof.
  unfold before_year, is_leap. replace (y + 1 - 1) with y by lia.
  pose proof (div_step 4 y ltac:(lia)). pose proof (div_step 100 y ltac:(lia)). pose proof (div_step 400 y ltac:(lia)).
  assert (y mod 100 = 0 -> y mod 4 = 0) as A by (apply (mod_divides 4 25); lia).
  assert (y mod 400 = 0 -> y mod 100 = 0) as B by (apply (mod_divides 100 4); lia).
  destruct (Z.eqb_spec (y mod 4) 0), (Z.eqb_spec (y mod 100) 0), (Z.eqb_spec (y mod 400) 0);
    first [exfalso; tauto|cbn [andb orb negb]; lia].
Qed.

Lemma month_len_bounds y m : 28 <= month_len y m <= 31.
Proof. unfold month_len. repeat case_match; lia. Qed.

Lemma before_month_succ y m :
  0 <= m < 12 -> before_month y (m + 1) = before_month y m + month_len y m.
Proof.
  intros Hm. unfold before_month, month_len.
  assert (m = 0 \/ m = 1 \/ m = 2 \/ m = 3 \/ m = 4 \/ m = 5 \/ m = 6 \/ m = 7 \/ m = 8 \/ m = 9 \/ m = 10 \/ m = 11) as H by lia.
  repeat destruct H as [->|H]; try subst m; simpl; destruct (is_leap y); simpl; reflexivity.
Qed.

Lemma before_month_0 y : before_month y 0 = 0.
Proof. reflexivity. Qed.

Lemma before_month_12 y : before_month y 12 = 365 + (if is_leap y then 1 else 0).
Proof. unfold before_month. simpl. by destruct (is_leap y). Qed.

(** The months before and after, in day numbers. *)
Lemma prev_month y m d :
  0 <= m < 12 ->
  let y' := if m =? 0 then y - 1 else y in
  let m' := if m =? 0 then 11 else m - 1 in
  0 <= m' < 12 /\ day_number (mkCivil y' m' (d + month_len y' m')) = day_number (mkCivil y m d).
Proof.
  intros Hm y' m'. unfold day_number, y', m'. cbn [year month day]. destruct (Z.eqb_spec m 0) as [->|Hne].
  - split; [lia|]. pose proof (before_year_succ (y - 1)) as H. replace (y - 1 + 1) with y in H by lia.
    pose proof (before_month_succ (y - 1) 11 ltac:(lia)) as H2. rewrite before_month_12 in H2.
    rewrite before_month_0. lia.
  - split; [lia|]. pose proof (before_month_succ y (m - 1) ltac:(lia)) as H.
    replace (m - 1 + 1) with m in H by lia. lia.
Qed.

Lemma next_month y m d :
  0 <= m < 12 ->
  let y' := if m =? 11 then y + 1 else y in
  let m' := if m =? 11 then 0 else m + 1 in
  0 <= m' < 12 /\ day_number (mkCivil y' m' (d - month_len y m)) = day_number (mkCivil y m d).
Proof.
  intros Hm y' m'. unfold day_number, y', m'. cbn [year month day]. destruct (Z.eqb_spec m 11) as [->|Hne].
  - split; [lia|]. pose proof (before_year_succ y). pose proof (before_month_succ y 11 ltac:(lia)) as H2.
    rewrite before_month_12 in H2. rewrite before_month_0. lia.
  - split; [lia|]. pose proof (before_month_succ y m Hm). lia.
Qed.

(** Carrying keeps the day and ends at a valid date. *)
Lemma carry_spec fuel : forall y m d,
  0 <= m < 12 -> (Z.abs d < Z.of_nat fuel) ->
  valid (carry fuel y m d) /\ day_number (carry fuel y m d) = day_number (mkCivil y m d).
Proof.
  induction fuel as [|f IH]; intros y m d Hm Hf; [lia|]. cbn [carry].
  destruct (Z.ltb_spec d 1).
  - destruct (prev_month y m d Hm) as [Hm' <-]. cbv zeta in *.
    set (y' := if m =? 0 then y - 1 else y) in *. set (m' := if m =? 0 then 11 else m - 1) in *.
    pose proof (month_len_bounds y' m'). destruct (Z.ltb_spec (d + month_len y' m') 1).
    + apply IH; lia.
    + assert (carry f y' m' (d + month_len y' m') = mkCivil y' m' (d + month_len y' m')) as ->.
      { destruct f; cbn [carry]; [done|]. rewrite (proj2 (Z.ltb_ge _ _)) by lia.
        by rewrite (proj2 (Z.ltb_ge _ _)) by lia. }
      split; [|done]. unfold valid. cbn [year month day]. lia.
  - destruct (Z.ltb_spec (month_len y m) d).
    + destruct (next_month y m d Hm) as [Hm' <-]. cbv zeta in *.
      pose proof (month_len_bounds y m). apply IH; lia.
    + split; [|done]. unfold valid. cbn [year month day]. lia.
Qed.

Lemma newDate_spec y m d :
  ~ 0 <= y <= 99 ->
  valid (newDate y m d)
  /\ day_number (newDate y m d) = day_number (mkCivil (y + m / 12) (m mod 12) d).
Proof.
  intros Hy. unfold newDate. replace ((0 <=? y) && (y <=? 99)) with false
    by (symmetry; apply andb_false_iff; rewrite !Z.leb_gt; lia).
  apply carry_spec; [apply Z.mod_pos_bound; lia|lia].
Qed.

(** A date in range is taken as it is. *)
Lemma newDate_id y m d :
  ~ 0 <= y <= 99 -> valid (mkCivil (y + m / 12) (m mod 12) d) ->
  newDate y m d = mkCivil (y + m / 12) (m mod 12) d.
Proof.
  intros Hy [_ Hd]. cbn [year month day] in Hd. unfold newDate.
  replace ((0 <=? y) && (y <=? 99)) with false by (symmetry; apply andb_false_iff; rewrite !Z.leb_gt; lia).
  cbn [carry]. rewrite (proj2 (Z.ltb_ge d 1)), (proj2 (Z.ltb_ge _ d)) by lia. done.
Qed.

(** ** Order *)

Definition civil_lt (a b : Civil) : Prop :=
  a.(year) < b.(year) \/ (a.(year) = b.(year) /\ (a.(month) < b.(month)
    \/ (a.(month) = b.(month) /\ a.(day) < b.(day)))).

Lemma before_month_mono y m m' : 0 <= m -> m <= m' <= 12 -> before_month y m <= before_month y m'.
Proof.
  intros Hm Hle. replace m' with (m + Z.of_nat (Z.to_nat (m' - m))) in * by lia.
  induction (Z.to_nat (m' - m)) as [|k IH]; [rewrite Z.add_0_r; lia|].
  replace (m + Z.of_nat (S k)) with (m + Z.of_nat k + 1) in * by lia.
  rewrite before_month_succ by lia. pose proof (month_len_bounds y (m + Z.of_nat k)). specialize (IH ltac:(lia)). lia.
Qed.

Lemma before_year_mono y k : before_year y <= before_year (y + Z.of_nat k).
Proof.
  induction k as [|k IH]; [rewrite Z.add_0_r; lia|].
  replace (y + Z.of_nat (S k)) with (y + Z.of_nat k + 1) by lia. rewrite before_year_succ.
  destruct (is_leap _); lia.
Qed.

Lemma valid_in_year c : valid c -> before_year c.(year) < day_number c <= before_year (c.(year) + 1).
Proof.
  intros [Hm Hd]. unfold day_number. rewrite before_year_succ.
  pose proof (before_month_12 c.(year)) as H12.
  pose proof (before_month_mono c.(year) 0 c.(month) ltac:(lia) ltac:(lia)) as H0. rewrite before_month_0 in H0.
  pose proof (before_month_succ c.(year) c.(month) Hm).
  pose proof (before_month_mono c.(year) (c.(month) + 1) 12 ltac:(lia) ltac:(lia)). lia.
Qed.

Lemma civil_lt_number a b : valid a -> valid b -> civil_lt a b -> day_number a < day_number b.
Proof.
  intros Ha Hb H. pose proof (valid_in_year a Ha) as Ya. pose proof (valid_in_year b Hb) as Yb.
  destruct H as [Hy|(Hy & H)].
  - pose proof (before_year_mono (a.(year) + 1) (Z.to_nat (b.(year) - (a.(year) + 1)))) as H.
    replace (a.(year) + 1 + Z.of_nat (Z.to_nat (b.(year) - (a.(year) + 1)))) with b.(year) in H by lia. lia.
  - destruct Ha as [Hma Hda], Hb as [Hmb Hdb]. unfold day_number. rewrite Hy in *.
    destruct H as [Hlt|[Heq Hd]]; [|rewrite Heq; lia].
    pose proof (before_month_succ b.(year) a.(month) Hma).
    pose proof (before_month_mono b.(year) (a.(month) + 1) b.(month) ltac:(lia) ltac:(lia)). lia.
Qed.

Lemma civil_trichotomy a b : civil_lt a b \/ a = b \/ civil_lt b a.
Proof.
  unfold civil_lt. destruct a as [y m d], b as [y' m' d']. cbn [year month day].
  destruct (Z.lt_trichotomy y y') as [|[->|]]; [lia| |lia].
  destruct (Z.lt_trichotomy m m') as [|[->|]]; [lia| |lia].
  destruct (Z.lt_trichotomy d d') as [|[->|]]; [lia|auto|lia].
Qed.

Lemma civil_lt_iff a b : valid a -> valid b -> (civil_lt a b <-> day_number a < day_number b).
Proof.
  intros Ha Hb. split; [by apply civil_lt_number|]. intros H.
  destruct (civil_trichotomy a b) as [|[->|Hlt]]; [done|lia|].
  apply civil_lt_number in Hlt; [lia|done|done].
Qed.

(** Valid dates with the same day number are the same. *)
Lemma day_number_inj a b : valid a -> valid b -> day_number a = day_number b -> a = b.
Proof.
  intros Ha Hb H. destruct (civil_trichotomy a b) as [Hlt|[|Hlt]]; [|done|];
    apply civil_lt_number in Hlt; try done; lia.
Qed.

(** ** Texts and order *)

Lemma dec_4 n : 1000 <= n <= 9999 ->
  dec n = [48 + n / 10 / 10 / 10 mod 10; 48 + n / 10 / 10 mod 10; 48 + n / 10 mod 10; 48 + n mod 10].
Proof.
  intros Hn. unfold dec. assert (9 <= Z.log2 n) as Hl by (apply Z.log2_le_pow2; lia).
  replace (S (Z.to_nat (Z.log2 n))) with (S (S (S (S (Z.to_nat (Z.log2 n - 3)))))) by lia.
  assert (100 <= n / 10 <= 999 /\ 10 <= n / 10 / 10 <= 99 /\ 1 <= n / 10 / 10 / 10 <= 9) as (H1 & H2 & H3)
    by (split_and!; Z.to_euclidean_division_equations; lia).
  cbn [dec_aux]. rewrite !(proj2 (Z.ltb_ge _ _)) by lia. by rewrite (proj2 (Z.ltb_lt _ _)) by lia.
Qed.

Lemma pad2_2 n : 0 <= n <= 99 -> pad2 n = [48 + n / 10; 48 + n mod 10].
Proof.
  intros Hn. unfold pad2, dec. destruct (Z.ltb_spec n 10) as [Hlt|Hge].
  - cbn [dec_aux]. rewrite (proj2 (Z.ltb_lt n 10)) by lia. cbn [length Nat.ltb Nat.leb].
    rewrite Z.div_small, Z.mod_small by lia. done.
  - assert (3 <= Z.log2 n) as Hl by (apply Z.log2_le_pow2; lia).
    replace (S (Z.to_nat (Z.log2 n))) with (S (S (Z.to_nat (Z.log2 n - 1)))) by lia.
    assert (1 <= n / 10 <= 9) by (Z.to_euclidean_division_equations; lia).
    cbn [dec_aux]. rewrite (proj2 (Z.ltb_ge n 10)), (proj2 (Z.ltb_lt (n / 10) 10)) by lia.
    cbn [length Nat.ltb Nat.leb]. rewrite (Z.mod_small (n / 10)) by lia. done.
Qed.

Lemma digits_value_4 n : 1000 <= n <= 9999 -> digits_value (dec n) = n.
Proof. intros. apply dec_value. lia. Qed.

Lemma digits_value_pad2 n : 0 <= n <= 99 -> digits_value (pad2 n) = n.
Proof.
  intros Hn. rewrite pad2_2 by done. unfold digits_value. cbn [fold_left].
  pose proof (Z.div_mod n 10 ltac:(lia)). lia.
Qed.

Lemma pad2_digits n : 0 <= n <= 99 -> Forall (fun c => is_digit c = true) (pad2 n).
Proof.
  intros Hn. rewrite pad2_2 by done. assert (0 <= n / 10 <= 9) by (Z.to_euclidean_division_equations; lia).
  pose proof (Z.mod_pos_bound n 10). repeat constructor; unfold is_digit; lia.
Qed.

Lemma digits_forallb s : Forall (fun c => is_digit c = true) s -> forallb is_digit s = true.
Proof. induction 1 as [|c s Hc _ IH]; [done|]. cbn [forallb]. by rewrite Hc. Qed.

Lemma str_lt_app a a' b b' :
  length a = length a' -> str_lt (a ++ b) (a' ++ b') = str_lt a a' || (streq a a' && str_lt b b').
Proof.
  revert a'. induction a as [|x a IH]; intros [|y a'] Hl; try done.
  injection Hl as Hl. rewrite <- !app_comm_cons. cbn [str_lt]. rewrite (IH a' Hl).
  destruct (Z.eqb_spec x y) as [->|Hne].
  - rewrite Z.ltb_irrefl. cbn [orb andb]. f_equal. f_equal.
    destruct (streq a a') eqn:E.
    + apply streq_true in E as ->. symmetry. apply streq_refl.
    + symmetry. apply streq_false. apply streq_false in E. congruence.
  - replace (streq (x :: a) (y :: a')) with false by (symmetry; apply streq_false; congruence).
    cbn [andb]. by rewrite !orb_false_r.
Qed.

Lemma digits_value_bound s :
  Forall (fun c => is_digit c = true) s -> 0 <= digits_value s < 10 ^ Z.of_nat (length s).
Proof.
  induction 1 as [|c s Hc _ IH]; [unfold digits_value; cbn; lia|].
  rewrite digits_value_cons. cbn [length]. rewrite Nat2Z.inj_succ, Z.pow_succ_r by lia.
  unfold is_digit in Hc. nia.
Qed.

(** Digit strings of one length are ordered as the numbers they write. *)
Lemma str_lt_digits a b :
  Forall (fun c => is_digit c = true) a -> Forall (fun c => is_digit c = true) b ->
  length a = length b ->
  str_lt a b = (digits_value a <? digits_value b) /\ streq a b = (digits_value a =? digits_value b).
Proof.
  intros Ha. revert b. induction Ha as [|x a Hx Ha IH]; intros b Hb Hl; [by destruct b|].
  destruct Hb as [|y b Hy Hb]; [done|]. injection Hl as Hl. destruct (IH b Hb Hl) as [IH1 IH2].
  cbn [str_lt]. rewrite IH1, !digits_value_cons, Hl.
  pose proof (digits_value_bound a Ha) as Ba. pose proof (digits_value_bound b Hb) as Bb. rewrite Hl in Ba.
  unfold is_digit in *. set (P := 10 ^ Z.of_nat (length b)) in *.
  destruct (Z.lt_trichotomy x y) as [Hlt|[->|Hgt]].
  - split; [rewrite (proj2 (Z.ltb_lt x y)) by lia; symmetry; apply Z.ltb_lt; nia|].
    replace (streq (x :: a) (y :: b)) with false by (symmetry; apply streq_false; intros [=]; lia).
    symmetry. apply Z.eqb_neq. nia.
  - rewrite Z.ltb_irrefl, Z.eqb_refl. cbn [orb andb]. split; [destruct (Z.ltb_spec (digits_value a) (digits_value b)); symmetry; [apply Z.ltb_lt|apply Z.ltb_ge]; lia|].
    transitivity (streq a b).
    + destruct (streq a b) eqn:E; [apply streq_true in E as ->; apply streq_refl|].
      apply streq_false. apply streq_false in E. congruence.
    + rewrite IH2. destruct (Z.eqb_spec (digits_value a) (digits_value b)); symmetry; [apply Z.eqb_eq|apply Z.eqb_neq]; lia.
  - split.
    + rewrite (proj2 (Z.ltb_ge x y)), (proj2 (Z.eqb_neq x y)) by lia. symmetry. apply Z.ltb_ge. nia.
    + replace (streq (x :: a) (y :: b)) with false by (symmetry; apply streq_false; intros [=]; lia).
      symmetry. apply Z.eqb_neq. nia.
Qed.

(** Dates whose year has four digits: the range of an ISO date without a sign. *)
Definition iso_range (c : Civil) : Prop := valid c /\ 1000 <= c.(year) <= 9999.

(** ISO texts are ordered as the dates they write. *)
Lemma toISODate_lt a b : iso_range a -> iso_range b ->
  (str_lt (toISODate a) (toISODate b) = true <-> day_number a < day_number b).
Proof.
  intros [Ha Ya] [Hb Yb]. rewrite <- civil_lt_iff by done. destruct Ha as [Ma Da], Hb as [Mb Db].
  pose proof (month_len_bounds a.(year) a.(month)). pose proof (month_len_bounds b.(year) b.(month)).
  unfold toISODate.
  assert (forall n, 1000 <= n <= 9999 -> length (dec n) = 4%nat) as L4 by (intros; by rewrite dec_4).
  assert (forall n, 0 <= n <= 99 -> length (pad2 n) = 2%nat) as L2 by (intros; by rewrite pad2_2).
  rewrite str_lt_app by (by rewrite !L4). rewrite (str_lt_app (js "-") (js "-")) by done.
  rewrite str_lt_app by (rewrite !L2; lia). rewrite (str_lt_app (js "-") (js "-")) by done.
  replace (str_lt (js "-") (js "-")) with false by done. rewrite streq_refl. cbn [orb andb].
  destruct (str_lt_digits (dec a.(year)) (dec b.(year))) as [-> ->];
    [apply dec_digits; lia|apply dec_digits; lia|by rewrite !L4|].
  destruct (str_lt_digits (pad2 (a.(month) + 1)) (pad2 (b.(month) + 1))) as [-> ->];
    [apply pad2_digits; lia|apply pad2_digits; lia|rewrite !L2; lia|].
  destruct (str_lt_digits (pad2 a.(day)) (pad2 b.(day))) as [-> _];
    [apply pad2_digits; lia|apply pad2_digits; lia|rewrite !L2; lia|].
  rewrite !digits_value_4, !digits_value_pad2 by lia. unfold civil_lt. lia.
Qed.
