(* ===== verification/Settlement.v ===== *)
(** The settlement and profit screens: billing periods, what state a settlement is
    in, how a vendor invoice compares with the model, and whether a statement adds
    up (src/web/src/features/system-settings/models/settlement-logic.ts and
    profit-logic.ts). *)

From S2P Require Import Prelude JsValue Calendar.

(** ** Reporting windows of the profit screen *)

Module Profit.

Record PeriodPreset := mkPreset { id : jsstr; labelKey : jsstr; daysBack : Z; includesToday : bool }.

Definition PERIOD_PRESETS : list PeriodPreset :=
  [mkPreset (js "today") (js "Today") 0 true;
   mkPreset (js "7d") (js "Last 7 days") 6 true;
   mkPreset (js "30d") (js "Last 30 days") 29 true;
   mkPreset (js "mtd") (js "Month to date") (-1) true].

(** The first day of the window. *)
Definition window_start (preset : PeriodPreset) (today : Civil) : Civil :=
  if streq preset.(id) (js "mtd") then newDate today.(year) today.(month) 1
  else setDate today (today.(day) - preset.(daysBack)).

(** The start and the end of the window, both inclusive. *)
Definition resolvePeriod (preset : PeriodPreset) (today : Civil) : jsstr * jsstr :=
  let end_ := toISODate today in
  (toISODate (window_start preset today), end_).

(** The fields of a report line that the screen reads. *)
Record ReconcileLine := mkReconcileLine {
  prompt_tokens : num;
  cached_tokens : num;
  revenue_usd : num;
  cost_usd : num;
  margin_usd : num;
  margin_pct : num;
  unpriced_requests : num;
  unpriced_models : option (list jsstr)
}.

Inductive MarginHealth := loss | thin | healthy | unmeasured.

Definition THIN_MARGIN_PCT : num := num_of_Z 10.

Definition marginHealth (line : ReconcileLine) (hasCostBasis : bool) : MarginHealth :=
  if negb hasCostBasis then unmeasured
  else if nlt line.(margin_usd) (num_of_Z 0) then loss
  else if ngt line.(revenue_usd) (num_of_Z 0) && nlt line.(margin_pct) THIN_MARGIN_PCT then thin
  else healthy.

(** One step of a derivation; the note's parameters are a count and the joined
    model names. *)
Record DerivationStep := mkStep {
  step_labelKey : jsstr;
  amountUSD : option num;
  noteKey : option jsstr;
  noteParams : option (num * jsstr);
  emphasis : bool
}.

Definition NOTE_LEDGER : jsstr :=
  js "Sum of quota actually deducted " ++ [8212]
  ++ js " already includes model discount, group ratio and cache pricing.".
Definition NOTE_MODELLED : jsstr := js "Tokens x vendor official price x this channel purchasing ratio.".

(** [-x] *)
Definition nopp (x : num) : num := SFopp x.

(** [(models ?? []).join(', ')] *)
Definition join_models (models : option (list jsstr)) : jsstr := join (js ", ") (default [] models).

Definition deriveMargin (line : ReconcileLine) : list DerivationStep :=
  [mkStep (js "Billed to customers (from the ledger)") (Some line.(revenue_usd)) (Some NOTE_LEDGER) None false;
   mkStep (js "Upstream cost (modelled)") (Some (nopp line.(cost_usd))) (Some NOTE_MODELLED) None false;
   mkStep (js "Margin") (Some line.(margin_usd)) None None true]
  ++ (if ngt line.(unpriced_requests) (num_of_Z 0) then
        [mkStep (js "Not costable") None
           (Some (js "{{count}} requests used models with no catalog price ({{models}}), so this margin is overstated."))
           (Some (line.(unpriced_requests), join_models line.(unpriced_models))) false]
      else []).

Definition cacheHitRate (line : ReconcileLine) : option num :=
  if nle line.(prompt_tokens) (num_of_Z 0) then None
  else Some (ndiv line.(cached_tokens) line.(prompt_tokens)).

End Profit.

(** ** Settlements *)

Module Settlement.
Import Profit.

Record BillingPeriod := mkPeriod { start : jsstr; end_ : jsstr; label : jsstr }.

Inductive SettlementState := not_issued | issued | settled | drifted | void.

Record CustomerInvoiceUI := mkUI {
  heading : jsstr; description : jsstr; saveLabel : jsstr; canOpen : bool
}.

Definition customerInvoiceUI (state : SettlementState) : CustomerInvoiceUI :=
  match state with
  | not_issued =>
      mkUI (js "Create the customer invoice")
        (js "Issue the invoice to freeze this period and create its PDF. The CSV is supporting line-item detail.")
        (js "Issue invoice") false
  | void =>
      mkUI (js "Invoice voided")
        (js "This invoice is void and cannot be sent. Create a replacement record before billing the customer.")
        (js "Save internal note") false
  | _ =>
      mkUI (js "Invoice ready to send")
        (js "Open the invoice, then print or save it as a PDF to send to the customer.")
        (js "Save internal note") true
  end.

(** *** Periods *)

(** The local [first] and [last] of [monthPeriod]. *)
Definition month_first (today : Civil) (monthsBack : Z) : Civil :=
  newDate today.(year) (today.(month) - monthsBack) 1.
Definition month_last (today : Civil) (monthsBack : Z) : Civil :=
  newDate today.(year) (today.(month) - monthsBack + 1) 0.

Definition month_label (c : Civil) : jsstr := dec c.(year) ++ js "-" ++ pad2 (c.(month) + 1).

Definition monthPeriod (today : Civil) (monthsBack : Z) : BillingPeriod :=
  let first := month_first today monthsBack in
  let last := month_last today monthsBack in
  mkPeriod (toISODate first) (toISODate last) (month_label first).

Definition MONTH_OFFSETS : list Z := [0; 1; 2; 3; 4; 5].

Definition recentPeriods (today : Civil) : list BillingPeriod := map (monthPeriod today) MONTH_OFFSETS.

(** The two groups of [/^(\d{4})-(\d{2})$/]. *)
Definition match_month (s : jsstr) : option (jsstr * jsstr) :=
  match s with
  | [a; b; c; d; h; e; f] =>
      if forallb is_digit [a; b; c; d] && (h =? 45) && forallb is_digit [e; f]
      then Some ([a; b; c; d], [e; f]) else None
  | _ => None
  end.

Definition periodFromMonthLabel (lbl : jsstr) : option BillingPeriod :=
  match match_month lbl with
  | None => None
  | Some (g1, g2) =>
      let y := digits_value g1 in
      let m := digits_value g2 in
      if (m <? 1) || (12 <? m) then None
      else Some (mkPeriod (toISODate (newDate y (m - 1) 1)) (toISODate (newDate y m 0)) lbl)
  end.

Definition isPeriodClosed (period : BillingPeriod) (today : Civil) : bool :=
  str_lt period.(end_) (toISODate today).

(** *** Rows *)

Inductive SettlementStatus := st_issued | st_settled | st_void | st_superseded.

(** The fields the logic reads. *)
Record SettlementRecord := mkRecord {
  amount_usd : num; invoiced_usd : num; invoice_recorded : bool; status : SettlementStatus
}.

Record SettlementRow := mkRow { settlement : option SettlementRecord; drift_usd : option num }.

(** [0.005] *)
Definition DRIFT_TOLERANCE_USD : num := num_of_decimal 5 3.

Definition settlementState (row : SettlementRow) : SettlementState :=
  match row.(settlement) with
  | None => not_issued
  | Some r =>
      match r.(status) with
      | st_void => void
      | st => if ngt (nabs (default (num_of_Z 0) row.(drift_usd))) DRIFT_TOLERANCE_USD then drifted
              else match st with st_settled => settled | _ => issued end
      end
  end.

Inductive VarianceVerdict := v_pending | v_reconciled | v_over | v_under.

(** [2.0] *)
Definition VARIANCE_TOLERANCE_PCT : num := num_of_Z 2.

Definition variance_pct (invoiced modelled : num) : num :=
  nmul (ndiv (nsub invoiced modelled) modelled) (num_of_Z 100).

Definition varianceVerdict (row : SettlementRow) : VarianceVerdict :=
  match row.(settlement) with
  | None => v_pending
  | Some r =>
      if negb r.(invoice_recorded) then v_pending
      else
        let modelled := r.(amount_usd) in
        if neq modelled (num_of_Z 0) then
          if neq r.(invoiced_usd) (num_of_Z 0) then v_reconciled else v_over
        else
          let pct := variance_pct r.(invoiced_usd) modelled in
          if nle (nabs pct) VARIANCE_TOLERANCE_PCT then v_reconciled
          else if ngt pct (num_of_Z 0) then v_over else v_under
  end.

(** *** Statements *)

Inductive StatementKind := customer | vendor.

(** A line of any of the breakdowns: its amount (or credit) and its requests. *)
Record StatementLine := mkLine { line_amount : num; line_requests : num }.

Record Statement := mkStatement {
  kind : StatementKind;
  lines : list StatementLine;
  users : option (list StatementLine);
  funding : option (list num);
  funded_usd : option num;
  funding_to_date : option (list num);
  funded_to_date_usd : option num;
  requests : num;
  st_amount_usd : num;
  st_unpriced_requests : num;
  st_unpriced_models : option (list jsstr)
}.

(** [l.reduce((sum, x) => sum + f(x), 0)] *)
Definition sum_by {A} (f : A -> num) (l : list A) : num :=
  fold_left (fun sum x => nadd sum (f x)) l (num_of_Z 0).

(** [1e-8] *)
Definition BALANCE_EPSILON : num := num_of_decimal 1 8.

(** [Math.abs(a - b) <= 1e-8] *)
Definition within_epsilon (a b : num) : bool := nle (nabs (nsub a b)) BALANCE_EPSILON.

Definition lines_balanced (ls : list StatementLine) (s : Statement) : bool :=
  within_epsilon (sum_by line_amount ls) s.(st_amount_usd) && neq (sum_by line_requests ls) s.(requests).

Definition statementIsBalanced (s : Statement) : bool := lines_balanced s.(lines) s.

Definition userLinesAreBalanced (s : Statement) : bool :=
  match s.(users) with
  | None | Some [] => true
  | Some us => lines_balanced us s
  end.

Definition credits_balanced (ls : option (list num)) (total : option num) : bool :=
  match ls with
  | None | Some [] => true
  | Some fs => within_epsilon (sum_by (fun f => f) fs) (default (num_of_Z 0) total)
  end.

Definition fundingLinesAreBalanced (s : Statement) : bool := credits_balanced s.(funding) s.(funded_usd).

Definition fundingToDateLinesAreBalanced (s : Statement) : bool :=
  credits_balanced s.(funding_to_date) s.(funded_to_date_usd).

Definition deriveStatement (s : Statement) : list DerivationStep :=
  match s.(kind) with
  | customer =>
      [mkStep (js "Usage this period (from the ledger)") (Some s.(st_amount_usd)) (Some NOTE_LEDGER) None false]
  | vendor =>
      mkStep (js "Modelled upstream cost") (Some s.(st_amount_usd)) (Some NOTE_MODELLED) None true
      :: (if ngt s.(st_unpriced_requests) (num_of_Z 0) then
            [mkStep (js "Not costable") None
               (Some (js "{{count}} requests used models with no catalog price ({{models}}), so this amount is understated "
                      ++ [8212] ++ js " do not pay from it as-is."))
               (Some (s.(st_unpriced_requests), join_models s.(st_unpriced_models))) false]
          else [])
  end.

(** ** Properties of the periods *)

(** Months counted from year 0. *)
Definition month_index (c : Civil) : Z := 12 * c.(year) + c.(month).

(** The month with a given index, as year and month. *)
Lemma month_index_split y m : 12 * (y + m / 12) + m mod 12 = 12 * y + m.
Proof. pose proof (Z.div_mod m 12 ltac:(lia)). lia. Qed.

(** Years from 100 on are not read as two digit years. *)
Definition full_year (c : Civil) : Prop := 100 <= c.(year).

Lemma newDate_first y m : 100 <= y -> newDate y m 1 = mkCivil (y + m / 12) (m mod 12) 1.
Proof.
  intros Hy. apply newDate_id; [lia|]. unfold valid. cbn [year month day].
  pose proof (month_len_bounds (y + m / 12) (m mod 12)). pose proof (Z.mod_pos_bound m 12). lia.
Qed.

(** Day 0 of the next month is the last day of the month. *)
Lemma newDate_last y m : 100 <= y ->
  newDate y (m + 1) 0
  = mkCivil (y + m / 12) (m mod 12) (month_len (y + m / 12) (m mod 12)).
Proof.
  intros Hy. unfold newDate. rewrite (proj2 (Z.leb_gt y 99)) by lia. rewrite andb_false_r.
  cbn [Z.abs Z.to_nat carry Z.ltb Z.compare].
  destruct (Z.eqb_spec ((m + 1) mod 12) 0) as [E|E].
  - assert ((m + 1) / 12 = m / 12 + 1 /\ m mod 12 = 11) as [-> ->]
      by (Z.to_euclidean_division_equations; lia).
    replace (y + (m / 12 + 1) - 1) with (y + m / 12) by lia. done.
  - assert ((m + 1) / 12 = m / 12 /\ (m + 1) mod 12 - 1 = m mod 12) as [-> ->]
      by (Z.to_euclidean_division_equations; lia). done.
Qed.

Lemma month_bounds y m :
  valid (mkCivil (y + m / 12) (m mod 12) 1)
  /\ valid (mkCivil (y + m / 12) (m mod 12) (month_len (y + m / 12) (m mod 12))).
Proof.
  unfold valid. cbn [year month day].
  pose proof (month_len_bounds (y + m / 12) (m mod 12)). pose proof (Z.mod_pos_bound m 12). lia.
Qed.

(** The days between the first and the last of a month are the days of that month. *)
Lemma month_days y m d : valid d ->
  (day_number (mkCivil (y + m / 12) (m mod 12) 1) <= day_number d
   <= day_number (mkCivil (y + m / 12) (m mod 12) (month_len (y + m / 12) (m mod 12)))
   <-> month_index d = 12 * y + m).
Proof.
  intros Hd. destruct (month_bounds y m) as [Hf Hl]. rewrite <- month_index_split.
  rewrite !Z.le_ngt, <- !civil_lt_iff by done. clear Hf Hl. destruct Hd as [Hm Hd].
  pose proof (Z.mod_pos_bound m 12 ltac:(lia)). set (Y := y + m / 12) in *. set (M := m mod 12) in *.
  unfold civil_lt, month_index. cbn [year month day]. split; [lia|].
  intros E. assert (d.(year) = Y /\ d.(month) = M) as [E1 E2] by lia. rewrite E1, E2 in *. lia.
Qed.

(** The billing periods partition the calendar: the days from the first to the last
    day of the period [k] months back are exactly the days of that month. So every day
    lies in exactly one period, consecutive periods meet without gap or overlap
    (February and the 30/31 split included), and period 0 holds today. *)
Theorem periods_partition today k d (Ht : full_year today) (Hd : valid d) :
  (day_number (month_first today k) <= day_number d <= day_number (month_last today k)
   <-> month_index d = month_index today - k)
  /\ day_number (month_last today (k + 1)) + 1 = day_number (month_first today k)
  /\ monthPeriod today k
     = mkPeriod (toISODate (month_first today k)) (toISODate (month_last today k)) (month_label (month_first today k)).
Proof.
  unfold month_first, month_last, full_year in *. split_and!; [| |done].
  - rewrite newDate_first, newDate_last by done. rewrite month_days by done. unfold month_index. lia.
  - set (m := today.(month) - k). replace (today.(month) - (k + 1) + 1) with m by lia.
    rewrite newDate_first by done. rewrite (proj2 (newDate_spec today.(year) m 0 ltac:(lia))).
    unfold day_number. cbn [year month day]. lia.
Qed.

Definition leap_day : Civil := mkCivil 2024 1 29.

Lemma periods_partition_witness :
  month_last (mkCivil 2024 2 15) 1 = leap_day
  /\ day_number (month_first (mkCivil 2024 2 15) 1) <= day_number leap_day <= day_number (month_last (mkCivil 2024 2 15) 1).
Proof.
  split; [vm_compute; reflexivity|].
  apply (periods_partition (mkCivil 2024 2 15) 1 leap_day ltac:(vm_compute; discriminate) ltac:(vm_compute; intuition discriminate)).
  reflexivity.
Defined.

(** A month whose label has a four digit year. *)
Definition label_range (c : Civil) : Prop := 1000 <= c.(year) <= 9999 /\ 0 <= c.(month) < 12.

Lemma match_month_label c : label_range c ->
  match_month (month_label c) = Some (dec c.(year), pad2 (c.(month) + 1)).
Proof.
  intros [Hy Hm]. unfold month_label.
  pose proof (dec_digits c.(year) ltac:(lia)) as D1. pose proof (pad2_digits (c.(month) + 1) ltac:(lia)) as D2.
  rewrite dec_4, pad2_2 in * by lia.
  change (js "-") with [45]. cbn [app match_month]. rewrite Z.eqb_refl.
  by rewrite (digits_forallb _ D1), (digits_forallb _ D2).
Qed.

(** The month picker and the list agree: a period's label selects that very period. *)
Theorem label_roundtrip today k (Ht : full_year today) (Hr : label_range (month_first today k)) :
  periodFromMonthLabel (monthPeriod today k).(label) = Some (monthPeriod today k).
Proof.
  unfold periodFromMonthLabel. cbn [monthPeriod label]. rewrite match_month_label by done.
  pose proof Hr as [Hy Hm]. cbv zeta. rewrite digits_value_4, digits_value_pad2 by lia.
  replace (_ || _) with false by lia. unfold monthPeriod. f_equal.
  unfold month_last, month_first, full_year in *. rewrite (newDate_first today.(year)) in * by done.
  rewrite (newDate_last today.(year)) by done.
  cbn [year month day] in *. set (Y := today.(year) + (today.(month) - k) / 12) in *.
  set (M := (today.(month) - k) mod 12) in *. replace (M + 1 - 1) with M by lia.
  rewrite newDate_first, newDate_last by lia. rewrite Z.div_small, Z.mod_small, Z.add_0_r by lia. done.
Qed.

Lemma label_roundtrip_witness :
  periodFromMonthLabel (js "2023-12") = Some (monthPeriod (mkCivil 2024 2 15) 3).
Proof.
  apply (label_roundtrip (mkCivil 2024 2 15) 3); [vm_compute; discriminate|vm_compute; intuition discriminate].
Defined.

(** A period is closed, comparing its end with today as texts, exactly when today
    is in a later month (years of four digits). *)
Theorem closed_iff_later_month today k now
  (Ht : full_year today) (Hr : label_range (month_first today k)) (Hn : iso_range now) :
  isPeriodClosed (monthPeriod today k) now = true <-> month_index today - k < month_index now.
Proof.
  unfold isPeriodClosed, full_year in *. cbn [monthPeriod end_]. pose proof Hn as [Hv Hy].
  assert (iso_range (month_last today k)) as Hl.
  { unfold month_last. unfold month_first in Hr. rewrite newDate_first in Hr by done. rewrite newDate_last by done.
    split; [apply month_bounds|apply Hr]. }
  rewrite toISODate_lt by done. pose proof Hl as [Hlv _].
  unfold month_last in *. rewrite newDate_last in * by done. rewrite <- civil_lt_iff by done.
  replace (month_index today - k) with (12 * today.(year) + (today.(month) - k)) by (unfold month_index; lia).
  rewrite <- month_index_split.
  destruct Hv as [Hm Hd]. pose proof (Z.mod_pos_bound (today.(month) - k) 12 ltac:(lia)).
  set (Y := today.(year) + _) in *. set (M := _ mod 12) in *. unfold civil_lt, month_index. cbn [year month day].
  split; [|lia]. intros [?|[EY [?|[EM Hlt]]]]; [lia|lia|]. rewrite EY, EM in Hlt. lia.
Qed.

Lemma closed_iff_later_month_witness :
  isPeriodClosed (monthPeriod (mkCivil 2024 0 31) 1) (mkCivil 2024 0 1) = true.
Proof.
  apply (closed_iff_later_month (mkCivil 2024 0 31) 1 (mkCivil 2024 0 1));
    [vm_compute; discriminate|vm_compute; intuition discriminate|vm_compute; intuition discriminate|reflexivity].
Defined.

(** ** Properties of the windows *)

(** A reporting window ends today and, for the presets that count days, is made of
    [daysBack + 1] days; the month to date starts on the first of the month. Nothing of
    it depends on the length of the months it crosses. *)
Theorem window_length preset today (Ht : valid today) (Hy : full_year today) :
  let first := window_start preset today in
  resolvePeriod preset today = (toISODate first, toISODate today)
  /\ valid first
  /\ (preset.(id) <> js "mtd" -> day_number today - day_number first + 1 = preset.(daysBack) + 1)
  /\ (preset.(id) = js "mtd" -> first = mkCivil today.(year) today.(month) 1).
Proof.
  intros first. split; [done|]. unfold first, window_start, full_year in *. destruct Ht as [Hm Hd].
  destruct (streq preset.(id) (js "mtd")) eqn:E; [apply streq_true in E|apply streq_false in E].
  - rewrite newDate_first by done. destruct (month_bounds today.(year) today.(month)) as [Hv _].
    split; [done|]. rewrite Z.div_small, Z.mod_small, Z.add_0_r by lia. done.
  - unfold setDate. destruct (carry_spec (S (Z.to_nat (Z.abs (today.(day) - preset.(daysBack)))))
      today.(year) today.(month) (today.(day) - preset.(daysBack)) Hm ltac:(lia)) as [Hv Hn].
    split; [done|]. split; [|done]. intros _. rewrite Hn. unfold day_number. cbn [year month day]. lia.
Qed.

Lemma window_length_witness :
  resolvePeriod (mkPreset (js "30d") (js "Last 30 days") 29 true) (mkCivil 2024 2 1) = (js "2024-02-01", js "2024-03-01").
Proof.
  apply (window_length (mkPreset (js "30d") (js "Last 30 days") 29 true) (mkCivil 2024 2 1));
    [vm_compute; intuition discriminate|vm_compute; discriminate].
Defined.

(** ** The screen and the nightly alert *)

(** The verdicts of [varianceVerdict] in the server's reconciliation. *)
Inductive ServerVerdict := no_activity | nothing_modelled | not_invoiced | reconciled | exceeds | below.

(** [CompareVendorInvoices] for one vendor: the percentage it stores. *)
Definition server_variance_pct (modelled invoiced : num) : num :=
  let variance := nsub invoiced modelled in
  if negb (neq modelled (num_of_Z 0)) then nmul (ndiv variance modelled) (num_of_Z 100)
  else if negb (neq invoiced (num_of_Z 0)) then num_of_Z 100
  else num_of_Z 0.

(** Go's [abs]. *)
Definition go_abs (x : num) : num := if nlt x (num_of_Z 0) then SFopp x else x.

Definition server_verdict (modelled invoiced : num) : ServerVerdict :=
  if neq modelled (num_of_Z 0) && neq invoiced (num_of_Z 0) then no_activity
  else if neq modelled (num_of_Z 0) then nothing_modelled
  else if neq invoiced (num_of_Z 0) then not_invoiced
  else if nle (go_abs (server_variance_pct modelled invoiced)) (num_of_Z 2) then reconciled
  else if ngt (nsub invoiced modelled) (num_of_Z 0) then exceeds
  else below.

(** What each verdict of the server means on the screen. *)
Definition verdict_of_server (v : ServerVerdict) : VarianceVerdict :=
  match v with
  | no_activity | reconciled => v_reconciled
  | nothing_modelled | exceeds => v_over
  | not_invoiced | below => v_under
  end.

Lemma abs_agree x y : nle (go_abs x) y = nle (nabs x) y.
Proof.
  unfold go_abs, nabs. destruct x as [[]|[]| |[] m e]; try done; unfold nle, SFleb.
Qed.

(** Off the tolerance, the percentage has the sign of the difference. *)
Lemma pct_sign v m e :
  let pct := nmul (ndiv v (S754_finite false m e)) (num_of_Z 100) in
  nle (nabs pct) (num_of_Z 2) = false -> ngt pct (num_of_Z 0) = ngt v (num_of_Z 0).
Proof.
  intros pct. unfold pct. destruct v as [s|s| |s mv ev]; [by destruct s|by destruct s|done|].
  pose proof (ndiv_sign s false mv m ev e) as Hs. rewrite xorb_false_r in Hs.
  destruct (ndiv _ _) as [s'|s'| |s' mq eq]; simpl in Hs; try done; subst s'; [by destruct s|].
  change (num_of_Z 100) with (S754_finite false 7036874417766400 (-46)).
  pose proof (nmul_sign s false mq 7036874417766400 eq (-46)) as Hm. rewrite xorb_false_r in Hm.
  by destruct (nmul _ _) as [[]|[]| |[] ? ?], s.
Qed.

(** The settlement screen and the nightly reconciliation classify an invoice alike:
    for a recorded invoice against a modelled cost that is zero or positive, the badge
    of the screen is the one the server's verdict calls for, whatever the rounding of
    the percentage. *)
Theorem verdicts_agree row r
  (Hs : row.(settlement) = Some r) (Hr : r.(invoice_recorded) = true)
  (Hf : is_finite r.(amount_usd) = true) (Hm : nge r.(amount_usd) (num_of_Z 0) = true) :
  varianceVerdict row = verdict_of_server (server_verdict r.(amount_usd) r.(invoiced_usd)).
Proof.
  unfold varianceVerdict, server_verdict, server_variance_pct. rewrite Hs, Hr. cbn [negb]. cbv zeta.
  destruct (neq r.(amount_usd) (num_of_Z 0)) eqn:E0; [by destruct (neq r.(invoiced_usd) _)|].
  destruct r.(amount_usd) as [s|s| |[] m e]; try done. cbn [negb andb].
  unfold variance_pct, VARIANCE_TOLERANCE_PCT. rewrite abs_agree.
  destruct (neq r.(invoiced_usd) (num_of_Z 0)) eqn:Ei.
  - destruct r.(invoiced_usd) as [si|[]| |[] ? ?]; try done.
    change (nsub (S754_zero si) (S754_finite false m e)) with (S754_finite true m e).
    by rewrite ndiv_self.
  - destruct (nle _ _) eqn:El; [done|]. rewrite (pct_sign _ _ _ El). by destruct (ngt _ _).
Qed.

Lemma verdicts_agree_witness :
  varianceVerdict (mkRow (Some (mkRecord (num_of_Z 100) (num_of_Z 103) true st_issued)) None) = v_over.
Proof.
  rewrite (verdicts_agree (mkRow (Some (mkRecord (num_of_Z 100) (num_of_Z 103) true st_issued)) None)
             (mkRecord (num_of_Z 100) (num_of_Z 103) true st_issued)); reflexivity.
Defined.

End Settlement.
