(* ===== verification/Channels.v ===== *)
(** Channel lists: aggregation of channels by tag, key texts, model and group lists
    and the attention flags
    (src/web/src/features/channels/lib/channel-utils.ts, with the list functions of
    model-mapping-validation.ts). *)

From S2P Require Import Prelude JsValue.

Module Channels.

(** ** Data *)

(** [number | null | undefined] *)
Inductive nnum := NUndef | NNull | NNum (x : num).

(** [a === b] *)
Definition strict_eq (a b : nnum) : bool :=
  match a, b with
  | NUndef, NUndef | NNull, NNull => true
  | NNum x, NNum y => neq x y
  | _, _ => false
  end.

Record ChannelInfo := mkInfo {
  is_multi_key : bool;
  multi_key_size : Z;
  multi_key_status_list : option (list (jsstr * num))
}.

(** The fields the functions below read or overwrite; [others] are the remaining ones.
    Identifiers are the non-negative integers of the database. *)
Record Channel := mkChannel {
  id : Z;
  type : num;
  key : jsstr;
  status : num;
  name : jsstr;
  weight : nnum;
  created_time : num;
  test_time : num;
  response_time : num;
  balance : num;
  balance_updated_time : num;
  models : jsstr;
  group : jsstr;
  used_quota : num;
  priority : nnum;
  tag : option jsstr;
  channel_info : option ChannelInfo;
  others : list (jsstr * val)
}.

(** A tag row is a channel with overwritten fields and children; its identifier is the
    tag (cast to a number) and its status may be undefined. *)
Record TagRow := mkTagRow {
  row_id : jsstr;
  row_type : num;
  row_key : jsstr;
  row_status : option num;
  row_name : jsstr;
  row_weight : nnum;
  row_created_time : num;
  row_test_time : num;
  row_response_time : num;
  row_balance : num;
  row_balance_updated_time : num;
  row_models : jsstr;
  row_group : jsstr;
  row_used_quota : num;
  row_priority : nnum;
  row_tag : jsstr;
  row_channel_info : option ChannelInfo;
  row_others : list (jsstr * val);
  children : list Channel
}.

Definition n0 : num := num_of_Z 0.
Definition n1 : num := num_of_Z 1.
Definition minus_one : nnum := NNum (num_of_Z (-1)).

(** ** Channels by tag *)

(** [channel.tag || ''] *)
Definition channel_tag (c : Channel) : jsstr := default [] c.(tag).

(** The row created for the first channel of a tag. *)
Definition new_row (c : Channel) : TagRow :=
  let t := channel_tag c in
  mkTagRow t n0 t None t minus_one n0 n0 n0 n0 n0 [] [] n0 minus_one t
    c.(channel_info) c.(others) [].

(** [s.split(',').filter(Boolean)] *)
Definition entries (s : jsstr) : list jsstr := List.filter truthy_str (split_on 44 s).

(** [if (row === -1) row = channel; else if (row !== channel) row = null] *)
Definition merge_value (row channel : nnum) : nnum :=
  if strict_eq row minus_one then channel
  else if negb (strict_eq row channel) then NNull
  else row.

(** The groups of the channel appended to those of the row. The set of known groups
    is taken before the loop. *)
Definition merge_group (row channel : jsstr) : jsstr :=
  match row with
  | [] => channel
  | _ =>
      let existingGroups := entries row in
      fold_left (fun acc g => if bool_decide (g ∈ existingGroups) then acc else acc ++ 44 :: g)
        (entries channel) row
  end.

Definition merge_status (row : option num) (channel : num) : option num :=
  if neq channel n1 then Some n1
  else match row with None => Some channel | Some s => Some s end.

(** The body of the loop once the row is there. *)
Definition add_child (r : TagRow) (c : Channel) : TagRow :=
  let cs := r.(children) ++ [c] in
  let childCount := num_of_Z (Z.of_nat (length cs)) in
  mkTagRow r.(row_id) r.(row_type) r.(row_key)
    (merge_status r.(row_status) c.(status))
    r.(row_name)
    (merge_value r.(row_weight) c.(weight))
    r.(row_created_time) r.(row_test_time)
    (ndiv (nadd (nmul r.(row_response_time) (nsub childCount n1)) c.(response_time)) childCount)
    r.(row_balance) r.(row_balance_updated_time) r.(row_models)
    (merge_group r.(row_group) c.(group))
    (nadd r.(row_used_quota) c.(used_quota))
    (merge_value r.(row_priority) c.(priority))
    r.(row_tag) r.(row_channel_info) r.(row_others) cs.

(** The rows of [result]; the values of [tagMap] are these very objects, looked up by
    their tag. *)
Definition aggregate_step (rows : list TagRow) (c : Channel) : list TagRow :=
  let t := channel_tag c in
  let rows := if bool_decide (t ∈ map row_tag rows) then rows else rows ++ [new_row c] in
  map (fun r => if streq r.(row_tag) t then add_child r c else r) rows.

Definition aggregateChannelsByTag (channels : list Channel) : list TagRow :=
  fold_left aggregate_step channels [].

Inductive Row := RowChannel (c : Channel) | RowTag (r : TagRow).

Definition isTagAggregateRow (row : Row) : bool :=
  match row with RowTag _ => true | RowChannel _ => false end.

Definition getChannelTableRowId (row : Row) : jsstr :=
  match row with
  | RowTag r => js "tag:" ++ r.(row_tag)
  | RowChannel c => js "channel:" ++ dec c.(id)
  end.

(** ** Status, balance and attention *)

Definition isChannelEnabled (c : Channel) : bool := neq c.(status) n1.

Definition isMultiKeyChannel (c : Channel) : bool :=
  match c.(channel_info) with Some i => i.(is_multi_key) | None => false end.

Definition AUTO_DISABLED : num := num_of_Z 3.

(** [channel.balance > 0 && channel.balance < 1] *)
Definition low_balance (c : Channel) : bool := ngt c.(balance) n0 && nlt c.(balance) n1.

(** Every key of a multi-key channel has a status entry. *)
Definition all_keys_disabled (c : Channel) : bool :=
  match c.(channel_info) with
  | Some i => i.(is_multi_key)
              && match i.(multi_key_status_list) with
                 | Some l => i.(multi_key_size) <=? Z.of_nat (length l)
                 | None => false
                 end
  | None => false
  end.

Definition channelNeedsAttention (c : Channel) : bool :=
  if neq c.(status) AUTO_DISABLED then true
  else if low_balance c then true
  else if all_keys_disabled c then true
  else false.

Definition getAttentionReason (c : Channel) : option jsstr :=
  if neq c.(status) AUTO_DISABLED then Some (js "Auto-disabled")
  else if low_balance c then Some (js "Low balance")
  else if all_keys_disabled c then Some (js "All keys disabled")
  else None.

Inductive Variant := success | warning | danger | neutral.

Definition getBalanceVariant (b : num) : Variant :=
  if neq b n0 then neutral
  else if nlt b n1 then danger
  else if nlt b (num_of_Z 10) then warning
  else success.

Definition getResponseTimeConfig (timeMs : num) : Variant * jsstr :=
  if neq timeMs n0 then (neutral, js "Not tested")
  else if nle timeMs (num_of_Z 500) then (success, js "Excellent")
  else if nle timeMs (num_of_Z 1000) then (success, js "Good")
  else if nle timeMs (num_of_Z 2000) then (warning, js "Fair")
  else (danger, js "Poor").

(** ** Keys *)

(** [s.slice(0, n)] and [s.slice(-n)] *)
Definition slice_first (n : nat) (s : jsstr) : jsstr := take n s.
Definition slice_last (n : nat) (s : jsstr) : jsstr := drop (length s - n) s.

(** [key.split('\n').filter((k) => k.trim())] *)
Definition nonblank_lines (s : jsstr) : list jsstr :=
  List.filter (fun k => truthy_str (trim k)) (split_on 10 s).

Definition formatChannelKey (k : jsstr) (isMultiKey : bool) : jsstr :=
  if negb (truthy_str k) then []
  else if isMultiKey then dec (Z.of_nat (length (nonblank_lines k))) ++ js " keys"
  else if (length k <=? 16)%nat then slice_first 4 k ++ js "..." ++ slice_last 4 k
  else slice_first 8 k ++ js "..." ++ slice_last 8 k.

Definition formatKeyPreview (k : jsstr) (maxLength : nat) : jsstr :=
  if negb (truthy_str k) then []
  else if (length k <=? maxLength)%nat then k
  else slice_first maxLength k ++ js "...".

Definition countKeys (k : jsstr) : nat :=
  if negb (truthy_str k) then 0%nat else length (nonblank_lines k).

Record Deduplicated := mkDedup {
  deduplicatedText : jsstr; beforeCount : Z; afterCount : Z; removedCount : Z
}.

(** The loop over the lines, with the keys kept so far (also the contents of the set). *)
Definition dedup_line (kept : list jsstr) (line : jsstr) : list jsstr :=
  let trimmedLine := trim line in
  if truthy_str trimmedLine && negb (bool_decide (trimmedLine ∈ kept)) then kept ++ [trimmedLine] else kept.

Definition deduplicateKeys (keysText : jsstr) : Deduplicated :=
  if negb (truthy_str keysText) || streq (trim keysText) [] then mkDedup [] 0 0 0
  else
    let keyLines := split_on 10 keysText in
    let before := Z.of_nat (length keyLines) in
    let deduplicatedKeys := fold_left dedup_line keyLines [] in
    let after := Z.of_nat (length deduplicatedKeys) in
    mkDedup (join [10] deduplicatedKeys) before after (before - after).

(** ** Lists *)

Definition parseModelsList (ms : jsstr) : list jsstr :=
  if negb (truthy_str ms) then [] else List.filter truthy_str (map trim (split_on 44 ms)).

Section Locale.
(** [a.localeCompare(b) <= 0] *)
Context (locale_le : jsstr -> jsstr -> bool).

Definition group_le (a b : jsstr) : bool :=
  if streq a (js "default") then true
  else if streq b (js "default") then false
  else locale_le a b.

Definition parseGroupsList (groups : jsstr) : list jsstr :=
  if negb (truthy_str groups) then [] else isort group_le (List.filter truthy_str (map trim (split_on 44 groups))).

Definition validateGroups (groups : jsstr) : bool := negb (bool_decide (parseGroupsList groups = [])).
End Locale.

Definition formatModelsString (ms : list jsstr) : jsstr := join (js ",") ms.
Definition formatGroupsString (gs : list jsstr) : jsstr := join (js ",") gs.

Definition validateChannelName (n : jsstr) : bool := (0 <? Z.of_nat (length (trim n))).
Definition validateApiKey (k : jsstr) : bool := (0 <? Z.of_nat (length (trim k))).
Definition validateModels (ms : jsstr) : bool := negb (bool_decide (parseModelsList ms = [])).

(** The functions of the mapping validation on lists of names. *)
Definition parseModelsString (ms : jsstr) : list jsstr :=
  if truthy_str ms then List.filter truthy_str (map trim (split_on 44 ms)) else [].
Definition formatModelsArray (ms : list jsstr) : jsstr := join (js ",") (dedup ms).
Definition normalizeModelName (m : jsstr) : jsstr := trim m.

Definition hasModelConfigChanged (currentModels : list jsstr) (currentModelMapping : jsstr)
    (initialModels : list jsstr) (initialModelMapping : jsstr) : bool :=
  if bool_decide (initialModels = []) && negb (truthy_str initialModelMapping) then true
  else if negb (bool_decide (currentModels = initialModels)) then true
  else negb (streq (trim currentModelMapping) (trim initialModelMapping)).

Record Categories := mkCategories {
  normalizedCurrentModels : list jsstr;
  normalizedRedirectModels : list jsstr;
  classificationSet : list jsstr;
  redirectOnlySet : list jsstr
}.

Definition categorizeModelsWithRedirect (currentModels redirectModels : list jsstr) : Categories :=
  let current := dedup (List.filter truthy_str (map normalizeModelName currentModels)) in
  let redirect := dedup (List.filter truthy_str (map normalizeModelName redirectModels)) in
  mkCategories current redirect (dedup (current ++ redirect))
    (dedup (List.filter (fun m => negb (bool_decide (m ∈ current))) redirect)).

(** ** Properties of the aggregation *)

(** *** What a row should be *)

(** The value shared by all the children, or null. *)
Definition common (vs : list nnum) : nnum :=
  match vs with
  | [] => minus_one
  | v :: rest => if forallb (strict_eq v) rest then v else NNull
  end.

(** Enabled if a child is, otherwise the status of the first child. *)
Definition joint_status (ss : list num) : option num :=
  if existsb (fun s => neq s n1) ss then Some n1 else head ss.

(** A list of priorities or weights without the value that marks a fresh row. *)
Definition unmarked (vs : list nnum) : Prop := Forall (fun v => strict_eq v minus_one = false) vs.

Definition row_ok (channels : list Channel) (r : TagRow) : Prop :=
  r.(children) = List.filter (fun c => streq (channel_tag c) r.(row_tag)) channels
  /\ r.(row_used_quota) = fold_left nadd (map used_quota r.(children)) n0
  /\ r.(row_status) = joint_status (map status r.(children))
  /\ (unmarked (map priority r.(children)) -> r.(row_priority) = common (map priority r.(children)))
  /\ (unmarked (map weight r.(children)) -> r.(row_weight) = common (map weight r.(children)))
  /\ (forall g, g ∈ entries r.(row_group) <-> exists c, c ∈ r.(children) /\ g ∈ entries c.(group)).

(** *** Lemmas *)

Lemma merge_value_common vs v :
  unmarked (vs ++ [v]) -> merge_value (common vs) v = common (vs ++ [v]).
Proof.
  intros [Hvs Hv]%Forall_app. destruct vs as [|w vs]; [reflexivity|].
  apply Forall_cons in Hvs as [Hw _]. cbn [common app]. rewrite forallb_app. cbn [forallb]. rewrite andb_true_r.
  unfold merge_value. destruct (forallb (strict_eq w) vs); cbn [andb].
  - rewrite Hw. by destruct (strict_eq w v).
  - by destruct v.
Qed.

Lemma merge_status_joint ss s :
  merge_status (joint_status ss) s = joint_status (ss ++ [s]).
Proof.
  unfold merge_status, joint_status. rewrite existsb_app. cbn [existsb]. rewrite orb_false_r.
  destruct (neq s n1); [by rewrite orb_true_r|]. rewrite orb_false_r.
  destruct (existsb _ ss); [done|]. by destruct ss.
Qed.

Lemma split_on_snoc sep a b : split_on sep (a ++ sep :: b) = split_on sep a ++ split_on sep b.
Proof.
  induction a as [|c a IH]; cbn [app split_on]; [by rewrite Z.eqb_refl|].
  rewrite IH. destruct (c =? sep); [done|].
  destruct (split_on sep a) as [|w ws] eqn:E; [by apply split_on_nonempty in E|done].
Qed.

Lemma entries_snoc a g : 44 ∉ g -> entries (a ++ 44 :: g) = entries a ++ entries g.
Proof. intros Hg. unfold entries. by rewrite split_on_snoc, List.filter_app. Qed.

Lemma elem_of_entries g s : g ∈ entries s <-> g ∈ split_on 44 s /\ g <> [].
Proof.
  unfold entries. rewrite !list_elem_of_In, List.filter_In, <- truthy_str_spec. done.
Qed.

Lemma entries_self g s : g ∈ entries s -> entries g = [g] /\ 44 ∉ g.
Proof.
  intros [Hg Hne]%elem_of_entries.
  pose proof (proj1 (Forall_forall _ _) (split_on_parts_fresh 44 s) g Hg) as Hf. cbv beta in Hf.
  split; [|done]. unfold entries. rewrite split_on_fresh by done. cbn [List.filter].
  apply truthy_str_spec in Hne. by rewrite Hne.
Qed.

(** Appending entries one by one. *)
Lemma append_entries (known gs : list jsstr) (row g : jsstr) :
  (forall x, x ∈ gs -> entries x = [x] /\ 44 ∉ x) -> (forall x, x ∈ known -> x ∈ entries row) ->
  (g ∈ entries (fold_left (fun acc x => if bool_decide (x ∈ known) then acc else acc ++ 44 :: x) gs row)
   <-> g ∈ entries row \/ g ∈ gs).
Proof.
  revert row. induction gs as [|x gs IH]; intros row Hgs Hk; cbn [fold_left].
  { rewrite elem_of_nil. tauto. }
  destruct (Hgs x ltac:(left)) as [Hx Hf]. rewrite elem_of_cons.
  case_bool_decide as Hin.
  - rewrite IH; [|by intros; apply Hgs; right|done]. split; [tauto|]. intros [?|[->|?]]; auto.
  - rewrite IH; [|by intros; apply Hgs; right|].
    + rewrite entries_snoc, Hx, elem_of_app, list_elem_of_singleton by done. tauto.
    + intros y Hy. rewrite entries_snoc by done. apply elem_of_app. auto.
Qed.

Lemma merge_group_entries row ch g :
  g ∈ entries (merge_group row ch) <-> g ∈ entries row \/ g ∈ entries ch.
Proof.
  destruct row as [|c row]; cbn [merge_group].
  - change (entries []) with (@nil jsstr). rewrite elem_of_nil. tauto.
  - rewrite append_entries; [done| |done]. intros x Hx. by apply entries_self in Hx.
Qed.

Lemma dedup_from_snoc `{EqDecision A} (seen l : list A) x :
  dedup_from seen (l ++ [x])
  = dedup_from seen l ++ (if bool_decide (x ∈ seen \/ x ∈ l) then [] else [x]).
Proof.
  revert seen. induction l as [|y l IH]; intros seen; cbn [app dedup_from].
  - repeat case_bool_decide; try done; set_solver.
  - case_bool_decide; rewrite IH; cbn [app]; repeat case_bool_decide; try done; set_solver.
Qed.

Lemma row_ok_other chs c r : row_ok chs r -> channel_tag c <> r.(row_tag) -> row_ok (chs ++ [c]) r.
Proof.
  intros (Hc & H) Hne. split; [|done]. rewrite List.filter_app. cbn [List.filter].
  apply streq_false in Hne. rewrite Hne, app_nil_r. done.
Qed.

Lemma row_ok_child chs c r : row_ok chs r -> channel_tag c = r.(row_tag) -> row_ok (chs ++ [c]) (add_child r c).
Proof.
  intros (Hc & Hq & Hs & Hp & Hw & Hg) Ht. unfold row_ok.
  cbn [add_child children row_tag row_used_quota row_status row_priority row_weight row_group].
  rewrite !map_app, fold_left_app. cbn [map fold_left]. split_and!.
  - rewrite List.filter_app, Hc. cbn [List.filter]. by rewrite Ht, streq_refl.
  - by rewrite Hq.
  - by rewrite Hs, merge_status_joint.
  - intros H. rewrite Hp by (by apply Forall_app in H as [? _]). by apply merge_value_common.
  - intros H. rewrite Hw by (by apply Forall_app in H as [? _]). by apply merge_value_common.
  - intros g. rewrite merge_group_entries, Hg. setoid_rewrite elem_of_app. setoid_rewrite list_elem_of_singleton.
    split; [intros [(c' & ? & ?)|?]; eauto|]. intros (c' & [?| ->] & ?); eauto.
Qed.

Lemma row_ok_new chs c : channel_tag c ∉ map channel_tag chs -> row_ok chs (new_row c).
Proof.
  intros Hn. unfold row_ok. cbn [new_row children row_tag row_used_quota row_status row_priority row_weight row_group map].
  split_and!; try done.
  - induction chs as [|c' chs IH]; [done|]. cbn [map List.filter] in *.
    apply not_elem_of_cons in Hn as [Hne Hn]. rewrite (proj2 (streq_false _ _)) by congruence. by apply IH.
  - intros g. change (entries []) with (@nil jsstr). rewrite elem_of_nil. split; [done|].
    by intros (c' & ?%elem_of_nil & _).
Qed.

Lemma add_child_tag r c : row_tag (add_child r c) = r.(row_tag).
Proof. done. Qed.

Lemma step_tags c rows :
  map row_tag (map (fun r => if streq r.(row_tag) (channel_tag c) then add_child r c else r) rows) = map row_tag rows.
Proof. rewrite map_map. apply map_ext. intros r. by destruct (streq _ _). Qed.

Lemma aggregate_step_inv chs rows c :
  map row_tag rows = dedup (map channel_tag chs) /\ Forall (row_ok chs) rows ->
  map row_tag (aggregate_step rows c) = dedup (map channel_tag (chs ++ [c]))
  /\ Forall (row_ok (chs ++ [c])) (aggregate_step rows c).
Proof.
  intros [Ht Hok]. unfold aggregate_step. cbv zeta. rewrite step_tags.
  rewrite map_app. cbn [map]. unfold dedup. rewrite dedup_from_snoc.
  rewrite Ht. rewrite (bool_decide_ext (channel_tag c ∈ dedup (map channel_tag chs)) (channel_tag c ∈ map channel_tag chs))
    by apply elem_of_dedup.
  rewrite (bool_decide_ext (channel_tag c ∈ [] \/ channel_tag c ∈ map channel_tag chs) (channel_tag c ∈ map channel_tag chs))
    by (rewrite elem_of_nil; tauto).
  set (rows' := if bool_decide _ then rows else _).
  assert (Forall (row_ok chs) rows') as Hok'.
  { unfold rows'. case_bool_decide; [done|]. apply Forall_app. split; [done|].
    apply Forall_singleton. by apply row_ok_new. }
  split.
  - unfold rows'. case_bool_decide; [by rewrite Ht, app_nil_r|]. rewrite map_app, Ht. done.
  - apply Forall_map. eapply Forall_impl; [exact Hok'|]. intros r Hr. cbv beta.
    destruct (streq r.(row_tag) (channel_tag c)) eqn:E.
    + apply row_ok_child; [done|]. by apply streq_true in E.
    + apply row_ok_other; [done|]. apply streq_false in E. congruence.
Qed.

(** Tag mode: one row per distinct tag, in order of first appearance, holding the
    channels of that tag in order; its used quota is their sum, it is enabled exactly
    when one of them is, its priority and weight are the common value or null (when no
    channel uses -1, the mark of a fresh row), its groups are the union of theirs. *)
Theorem aggregate_spec channels :
  map row_tag (aggregateChannelsByTag channels) = dedup (map channel_tag channels)
  /\ Forall (row_ok channels) (aggregateChannelsByTag channels).
Proof.
  unfold aggregateChannelsByTag. induction channels as [|c chs IH] using rev_ind; [by split|].
  rewrite fold_left_app. cbn [fold_left]. by apply aggregate_step_inv.
Qed.

(** ** Properties of the key texts *)

(** The keys of a text: its trimmed lines that are not blank, without repetitions. *)
Definition keys_of (text : jsstr) : list jsstr := dedup (List.filter truthy_str (map trim (split_on 10 text))).

Lemma dedup_snoc `{EqDecision A} (l : list A) x :
  dedup (l ++ [x]) = if bool_decide (x ∈ dedup l) then dedup l else dedup l ++ [x].
Proof.
  unfold dedup at 1. rewrite dedup_from_snoc. fold (dedup l).
  rewrite (bool_decide_ext _ (x ∈ dedup l)) by (rewrite elem_of_nil, elem_of_dedup; tauto).
  case_bool_decide; [by rewrite app_nil_r|done].
Qed.

Lemma dedup_lines lines : fold_left dedup_line lines [] = dedup (List.filter truthy_str (map trim lines)).
Proof.
  induction lines as [|l ls IH] using rev_ind; [done|].
  rewrite fold_left_app, map_app, List.filter_app, IH. cbn [fold_left map List.filter]. unfold dedup_line. cbv zeta.
  destruct (truthy_str (trim l)); cbn [andb]; [|by rewrite app_nil_r].
  rewrite dedup_snoc. by case_bool_decide.
Qed.

Lemma keys_of_facts text : Forall (fun k => trim k = k /\ k <> [] /\ 10 ∉ k) (keys_of text).
Proof.
  apply Forall_forall. intros k. unfold keys_of. rewrite elem_of_dedup, list_elem_of_In, List.filter_In, <- list_elem_of_In.
  intros [(l & -> & Hl)%list_elem_of_fmap Ht]. split_and!; [apply trim_idem|by apply truthy_str_spec|].
  intros H%trim_elem. by apply (proj1 (Forall_forall _ _) (split_on_parts_fresh 10 text) l Hl).
Qed.

Lemma trim_last_nonspace s : trim s <> [] -> exists c, c ∈ s /\ is_space c = false.
Proof.
  intros H. unfold trim in H. destruct (trim_start (reverse (trim_start s))) as [|c r] eqn:E; [done|].
  exists c. split; [|by eapply trim_start_head].
  apply trim_elem. unfold trim. rewrite E. apply elem_of_reverse. left.
Qed.

Lemma keys_of_blank text : trim text = [] -> keys_of text = [].
Proof.
  intros Hb%trim_nil_spaces. destruct (keys_of text) as [|k ks] eqn:E; [done|]. exfalso.
  assert (k ∈ keys_of text) as Hk by (rewrite E; left). unfold keys_of in Hk.
  rewrite elem_of_dedup, list_elem_of_In, List.filter_In, <- list_elem_of_In in Hk.
  destruct Hk as [(l & -> & Hl)%list_elem_of_fmap Ht]. apply truthy_str_spec, trim_last_nonspace in Ht as (c & Hc & Hs).
  rewrite (proj1 (Forall_forall _ _) Hb c) in Hs; [done|]. by eapply elem_of_split_on.
Qed.

Lemma dedup_text text :
  deduplicatedText (deduplicateKeys text) = join [10] (keys_of text)
  /\ afterCount (deduplicateKeys text) = Z.of_nat (length (keys_of text)).
Proof.
  unfold deduplicateKeys. destruct (_ || _) eqn:E.
  - rewrite keys_of_blank; [done|]. apply orb_true_iff in E as [E|E]; [by destruct text|by apply streq_true].
  - cbn [deduplicatedText afterCount]. by rewrite dedup_lines.
Qed.

Lemma keys_of_join text : keys_of (join [10] (keys_of text)) = keys_of text.
Proof.
  pose proof (keys_of_facts text) as Hf. destruct (decide (keys_of text = [])) as [->|Hne]; [done|].
  unfold keys_of at 1. rewrite split_on_join; [|done|by eapply Forall_impl; [exact Hf|intros k (_ & _ & ?)]].
  assert (map trim (keys_of text) = keys_of text) as ->.
  { clear Hne. induction Hf as [|k ks (Hk & _) _ IH]; [done|]. cbn [map]. by rewrite Hk, IH. }
  assert (List.filter truthy_str (keys_of text) = keys_of text) as ->.
  { clear Hne. induction Hf as [|k ks (_ & Hk & _) _ IH]; [done|]. cbn [List.filter].
    apply truthy_str_spec in Hk. by rewrite Hk, IH. }
  apply dedup_idem.
Qed.

(** Deduplicating a text of keys leaves one line for each distinct trimmed line that
    is not blank, in order of first appearance, and reports their number; a second pass
    finds nothing to remove and changes nothing. *)
Theorem deduplicate_spec text :
  let result := deduplicateKeys text in
  result.(deduplicatedText) = join [10] (keys_of text)
  /\ result.(afterCount) = Z.of_nat (length (keys_of text))
  /\ result.(removedCount) = result.(beforeCount) - result.(afterCount)
  /\ deduplicateKeys result.(deduplicatedText)
     = mkDedup result.(deduplicatedText) result.(afterCount) result.(afterCount) 0.
Proof.
  cbv zeta. destruct (dedup_text text) as [-> ->]. split_and!; [done|done| |].
  { rewrite <- (proj2 (dedup_text text)). unfold deduplicateKeys. by destruct (_ || _). }
  pose proof (dedup_text (join [10] (keys_of text))) as [H1 H2]. rewrite keys_of_join in H1, H2.
  assert (beforeCount (deduplicateKeys (join [10] (keys_of text))) = Z.of_nat (length (keys_of text))
    /\ removedCount (deduplicateKeys (join [10] (keys_of text))) = 0) as [H3 H4].
  { pose proof (keys_of_facts text) as Hf. destruct (decide (keys_of text = [])) as [->|Hne]; [done|].
    revert H2. unfold deduplicateKeys. destruct (_ || _); cbn [beforeCount removedCount afterCount]; [lia|].
    intros ->. rewrite split_on_join; [lia|done|]. eapply Forall_impl; [exact Hf|]. by intros k (_ & _ & Hk). }
  destruct (deduplicateKeys (join [10] (keys_of text))). cbn in *. congruence.
Qed.

(** A line feed at the end of the text is counted as a removed key. *)
Example blank_line_counted : deduplicateKeys (js "sk-a" ++ [10]) = mkDedup (js "sk-a") 2 1 1.
Proof. vm_compute. reflexivity. Qed.

(** A key of eight characters is shown whole. *)
Example short_key_shown : formatChannelKey (js "abcd1234") false = js "abcd...1234".
Proof. vm_compute. reflexivity. Qed.

Definition demo_channel (t g : jsstr) (p : Z) (st : Z) : Channel :=
  mkChannel 1 n1 [] (num_of_Z st) [] (NNum n0) n0 n0 n0 n0 n0 [] g n1 (NNum (num_of_Z p)) (Some t) None [].

(** A first channel of priority -1 is forgotten: the row shows the second one's. *)
Example marked_priority_lost :
  map row_priority (aggregateChannelsByTag [demo_channel (js "t") [] (-1) 1; demo_channel (js "t") [] 5 1])
  = [NNum (num_of_Z 5)].
Proof. vm_compute. reflexivity. Qed.

(** A group named twice by a later channel is appended twice. *)
Example repeated_group_kept :
  map row_group (aggregateChannelsByTag [demo_channel (js "t") (js "a") 0 1; demo_channel (js "t") (js "b,b") 0 2])
  = [js "a,b,b"].
Proof. vm_compute. reflexivity. Qed.

End Channels.
