(* ===== verification/ChannelForm.v ===== *)
(** The form of a channel (src/web/src/features/channels/lib/channel-form.ts): reading a
    channel into the form, the check of the form, the payloads of creating and updating a
    channel, and the mutation that sends them
    (src/web/src/features/channels/hooks/use-channel-mutate-form.ts) with its permission
    (src/web/src/lib/admin-permissions.ts).

    What comes out of [JSON.parse] is a [val] of any type; [None] stands for an exception.
    The browser URL parser is a parameter. *)

From S2P Require Import Prelude JsValue NumText JsonString Json AdvancedCustom PriceTables.

Module ChannelForm.

Definition zero : num := num_of_Z 0.
Definition one : num := num_of_Z 1.
Definition nullish (v : val) : bool := match v with VUndef | VNull => true | _ => false end.
(** [v || d] *)
Definition or_val (v d : val) : val := if truthy v then v else d.
(** [v === true] *)
Definition is_true (v : val) : bool := match v with VBool b => b | _ => false end.
(** [v.trim()] *)
Definition trim_val (v : val) : option jsstr := match v with VStr s => Some (trim s) | _ => None end.
Definition put (k : string) (v : val) (fs : list (jsstr * val)) : list (jsstr * val) := set_field (js k) v fs.
Definition drop (k : string) (fs : list (jsstr * val)) : list (jsstr * val) := drop_field (js k) fs.

(** ** HTTP transport *)

Definition HTTP_PROTOCOL_AUTO : jsstr := js "auto".
Definition HTTP_PROTOCOL_HTTP1 : jsstr := js "http1".
Definition MAX_HTTP2_CONNECTION_SHARDS : num := num_of_Z 8.

(** No other character than an ASCII letter has a letter of [http1] as its lower case. *)
Definition normalizeHttpProtocol (value : val) : option jsstr :=
  s ← to_string (or_val value (VStr []));
  Some (if streq (map ascii_lower (trim s)) HTTP_PROTOCOL_HTTP1 then HTTP_PROTOCOL_HTTP1 else HTTP_PROTOCOL_AUTO).

Definition clamp_shards (value : val) (n : num) : val :=
  if nlt n one then VNum one else if ngt n MAX_HTTP2_CONNECTION_SHARDS then VNum MAX_HTTP2_CONNECTION_SHARDS else value.

Definition normalizeHttp2ConnectionShards (value : val) : option val :=
  match value with
  | VUndef | VNull => Some (VNum one)
  | VNum x => Some (if is_nan x || neq x zero then VNum one else clamp_shards value x)
  | _ => n ← to_number value; Some (clamp_shards value n)
  end.

(** ** Advanced custom routes as JSON *)

Definition route_models (models : val) : option (list jsstr) :=
  match models with VArr l => ms ← mapM trim_val l; Some (List.filter truthy_str ms) | _ => Some [] end.

Definition route_auth (auth : val) : list (jsstr * val) :=
  if truthy auth then
    [(js "auth", VObj [(js "type", get "type" auth); (js "name", or_val (get "name" auth) (VStr [])); (js "value", or_val (get "value" auth) (VStr []))])]
  else [].

Definition normalize_route (route : val) : option val :=
  if nullish route then None else
  upstream ← trim_val (or_val (get "upstream_path" route) (VStr []));
  ms ← route_models (get "models" route);
  Some (VObj ([(js "incoming_path", or_val (get "incoming_path" route) (VStr [])); (js "upstream_path", VStr upstream);
               (js "converter", or_val (get "converter" route) (VStr (js "none")))]
              ++ match ms with [] => [] | _ => [(js "models", VArr (map VStr ms))] end
              ++ route_auth (get "auth" route))).

Definition normalize_config (config : val) : option val :=
  routes ← match get "advanced_routes" config with VArr l => mapM normalize_route l | _ => Some [] end;
  Some (VObj [(js "advanced_routes", VArr routes)]).

Definition parseAdvancedCustomConfig (value : jsstr) : option val :=
  if truthy_str (trim value) then
    match json_parse value with
    | Some (VObj fs) => normalize_config (VObj fs)
    | _ => None
    end
  else None.

Definition stringifyAdvancedCustomConfig (config : val) : option jsstr := stringify2 <$> normalize_config config.

(** A configuration of the declared types. *)
Definition opt_text (v : val) : option (option jsstr) := match v with VUndef => Some None | VStr s => Some (Some s) | _ => None end.
Definition text_of (v : val) : option jsstr := match v with VStr s => Some s | _ => None end.

Definition typed_auth (v : val) : option (option AdvancedCustom.AdvancedCustomRouteAuth) :=
  match v with
  | VUndef => Some None
  | VObj _ => t ← opt_text (get "type" v); n ← opt_text (get "name" v); x ← opt_text (get "value" v); Some (Some (AdvancedCustom.mkRouteAuth t n x))
  | _ => None
  end.

Definition typed_route (v : val) : option AdvancedCustom.AdvancedCustomRoute :=
  i ← opt_text (get "incoming_path" v); u ← opt_text (get "upstream_path" v); c ← opt_text (get "converter" v);
  ms ← match get "models" v with VUndef => Some None | VArr l => Some <$> mapM text_of l | _ => None end;
  a ← typed_auth (get "auth" v);
  Some (AdvancedCustom.mkRoute i u c ms a).

Definition typed_config (v : val) : option AdvancedCustom.AdvancedCustomConfig :=
  match get "advanced_routes" v with
  | VArr l => rs ← mapM typed_route l; Some (AdvancedCustom.mkConfig (Some rs))
  | _ => None
  end.

(** ** The form *)

Definition CHANNEL_TYPE_NEW_API : Z := 60.
Definition CHANNEL_TYPE_ADVANCED_CUSTOM : Z := 58.
Definition MODEL_FETCHABLE_TYPES : list Z := [1; 4; 14; 17; 20; 23; 24; 25; 26; 27; 31; 34; 35; 40; 42; 43; 47; 48; 57; 58; 59; 60].
Definition type_in (t : Z) (l : list Z) : bool := existsb (Z.eqb t) l.

(** Stored in the [setting] text. *)
Record ExtraSettings := mkExtra {
  force_format : val; thinking_to_content : val; proxy : val; http_protocol : jsstr; http2_connection_shards : val;
  pass_through_body_enabled : val; system_prompt : val; system_prompt_override : val
}.

(** Stored in the [settings] text. *)
Record TypeSettings := mkTypeSettings {
  vertex_key_type : val; azure_responses_version : val; system_one_path : val; is_enterprise_account : bool; aws_key_type : val;
  allow_service_tier : bool; disable_store : bool; allow_safety_identifier : bool; allow_include_obfuscation : bool;
  allow_inference_geo : bool; allow_speed : bool; claude_beta_query : bool; disable_task_polling_sleep : bool;
  check_enabled : bool; auto_sync_enabled : bool; ignored_models : jsstr; advanced_custom : jsstr
}.

(** A missing text is the empty one, which the code treats alike. *)
Record ChannelFormValues := mkForm {
  name : jsstr; type : Z; base_url : jsstr; key : jsstr; openai_organization : jsstr; models : jsstr; group : list jsstr;
  model_mapping : jsstr; priority : option num; weight : option num; rate_limit_rpm : option num; rate_limit_tpm : option num;
  test_model : jsstr; auto_ban : option num; status : Z; status_code_mapping : jsstr; tag : jsstr; remark : jsstr; setting : jsstr;
  param_override : jsstr; header_override : jsstr; settings : jsstr; other : jsstr; multi_key_mode : jsstr; multi_key_type : jsstr;
  batch_add_set_key_prefix_2_name : bool; key_mode : jsstr; extra : ExtraSettings; typed : TypeSettings
}.

Definition default_extra : ExtraSettings :=
  mkExtra (VBool false) (VBool false) (VStr []) HTTP_PROTOCOL_AUTO (VNum one) (VBool false) (VStr []) (VBool false).
Definition default_typed : TypeSettings :=
  mkTypeSettings (VStr (js "json")) (VStr []) (VStr []) false (VStr (js "ak_sk")) false false false false false false false false false false [] [].

Definition CHANNEL_FORM_DEFAULT_VALUES : ChannelFormValues :=
  mkForm [] 1 [] [] [] [] [js "default"] [] (Some zero) (Some zero) (Some zero) (Some zero) [] (Some one) 1 [] [] [] [] [] [] (js "{}") []
    (js "single") (js "random") false (js "append") default_extra default_typed.

(** ** Reading a channel *)

(** The columns of a channel the form reads. *)
Record Channel := mkChannel {
  c_name : option jsstr; c_type : Z; c_base_url : option jsstr; c_openai_organization : option jsstr; c_models : option jsstr;
  c_group : option jsstr; c_model_mapping : option jsstr; c_priority : option num; c_weight : option num; c_rate_limit_rpm : option num;
  c_rate_limit_tpm : option num; c_test_model : option jsstr; c_auto_ban : option num; c_status : Z; c_status_code_mapping : option jsstr;
  c_tag : option jsstr; c_remark : option jsstr; c_setting : option jsstr; c_param_override : option jsstr; c_header_override : option jsstr;
  c_settings : option jsstr; c_other : option jsstr; c_multi_key_mode : option jsstr
}.

Definition flag_at (k : string) (o : val) : val := or_val (get k o) (VBool false).
Definition text_at (k : string) (o : val) : val := or_val (get k o) (VStr []).
Definition on_at (k : string) (o : val) : bool := is_true (get k o).

Definition read_extra (setting : jsstr) : ExtraSettings :=
  if truthy_str setting then
    default default_extra
      (parsed ← json_parse setting;
       if nullish parsed then None else
       protocol ← normalizeHttpProtocol (get "http_protocol" parsed);
       shards ← normalizeHttp2ConnectionShards (get "http2_connection_shards" parsed);
       Some (mkExtra (flag_at "force_format" parsed) (flag_at "thinking_to_content" parsed) (text_at "proxy" parsed) protocol
               (if streq protocol HTTP_PROTOCOL_HTTP1 then VNum one else shards)
               (flag_at "pass_through_body_enabled" parsed) (text_at "system_prompt" parsed) (flag_at "system_prompt_override" parsed)))
  else default_extra.

(** The assignments that precede an exception stay. *)
Definition read_typed (settings : jsstr) : TypeSettings :=
  if truthy_str settings then
    match json_parse settings with
    | Some parsed =>
      if nullish parsed then default_typed else
      let values := mkTypeSettings
        (or_val (get "vertex_key_type" parsed) (VStr (js "json"))) (text_at "azure_responses_version" parsed)
        (text_at "system_one_path" parsed) (on_at "openrouter_enterprise" parsed) (or_val (get "aws_key_type" parsed) (VStr (js "ak_sk")))
        (on_at "allow_service_tier" parsed) (on_at "disable_store" parsed) (on_at "allow_safety_identifier" parsed) (on_at "allow_include_obfuscation" parsed)
        (on_at "allow_inference_geo" parsed) (on_at "allow_speed" parsed) (on_at "claude_beta_query" parsed) (on_at "disable_task_polling_sleep" parsed)
        (on_at "upstream_model_update_check_enabled" parsed) (on_at "upstream_model_update_auto_sync_enabled" parsed) in
      match match get "upstream_model_update_ignored_models" parsed with VArr l => to_string (VArr l) | _ => Some [] end with
      | None => values [] []
      | Some ignored =>
        values ignored
          (default [] (if truthy (get "advanced_custom" parsed) then stringifyAdvancedCustomConfig (get "advanced_custom" parsed) else Some []))
      end
    | None => default_typed
    end
  else default_typed.

Definition parseGroups (groups : jsstr) : list jsstr :=
  if truthy_str groups then List.filter truthy_str (map trim (split_on 44 groups)) else [].
Definition parseModels (models : jsstr) : list jsstr :=
  if truthy_str models then List.filter truthy_str (map trim (split_on 44 models)) else [].
Definition formatGroups (groups : list jsstr) : jsstr := join (js ",") groups.
Definition formatModels (models : list jsstr) : jsstr := join (js ",") models.

Definition text (o : option jsstr) : jsstr := default [] o.
(** [x || 0] *)
Definition or_zero (o : option num) : num := match o with Some x => if truthy_num x then x else zero | None => zero end.

Definition transformChannelToFormDefaults (c : Channel) : ChannelFormValues :=
  mkForm (text (c_name c)) (c_type c) (text (c_base_url c)) [] (text (c_openai_organization c)) (text (c_models c))
    (parseGroups (or_str (text (c_group c)) (js "default"))) (text (c_model_mapping c))
    (Some (or_zero (c_priority c))) (Some (or_zero (c_weight c))) (Some (or_zero (c_rate_limit_rpm c))) (Some (or_zero (c_rate_limit_tpm c)))
    (text (c_test_model c)) (Some (default one (c_auto_ban c))) (c_status c) (text (c_status_code_mapping c)) (text (c_tag c))
    (text (c_remark c)) (text (c_setting c)) (text (c_param_override c)) (text (c_header_override c)) (or_str (text (c_settings c)) (js "{}"))
    (text (c_other c)) (js "single") (or_str (text (c_multi_key_mode c)) (js "random")) false (js "append")
    (read_extra (text (c_setting c))) (read_typed (text (c_settings c))).

(** ** The stored texts *)

Definition buildSettingJSON (f : ChannelFormValues) : option jsstr :=
  let e := extra f in
  proxy_text ← (if nullish (proxy e) then Some [] else trim_val (proxy e));
  protocol ← normalizeHttpProtocol (VStr (http_protocol e));
  shards ← (if streq protocol HTTP_PROTOCOL_HTTP1 then Some (VNum one) else normalizeHttp2ConnectionShards (http2_connection_shards e));
  several ← ((fun n => ngt n one) <$> to_number shards);
  Some (stringify (VObj (
    [(js "force_format", or_val (force_format e) (VBool false)); (js "thinking_to_content", or_val (thinking_to_content e) (VBool false));
     (js "proxy", VStr proxy_text); (js "pass_through_body_enabled", or_val (pass_through_body_enabled e) (VBool false));
     (js "system_prompt", or_val (system_prompt e) (VStr [])); (js "system_prompt_override", or_val (system_prompt_override e) (VBool false))]
    ++ (if streq protocol HTTP_PROTOCOL_HTTP1 then [(js "http_protocol", VStr HTTP_PROTOCOL_HTTP1)]
        else if several : bool then [(js "http2_connection_shards", shards)] else [])))).

(** [if (b) o.k = v else if (k in o) delete o.k] *)
Definition put_or_drop (b : bool) (k : string) (v : val) (fs : list (jsstr * val)) : list (jsstr * val) := if b then put k v fs else drop k fs.

Definition key_types (t : Z) (s : TypeSettings) (fs : list (jsstr * val)) : list (jsstr * val) :=
  let fs := put_or_drop (t =? 41) "vertex_key_type" (or_val (vertex_key_type s) (VStr (js "json"))) fs in
  let fs := put_or_drop ((t =? 3) && truthy (azure_responses_version s)) "azure_responses_version" (azure_responses_version s) fs in
  let fs := put_or_drop ((t =? 61) && truthy (system_one_path s)) "system_one_path" (system_one_path s) fs in
  let fs := put_or_drop (t =? 20) "openrouter_enterprise" (VBool (is_enterprise_account s)) fs in
  put_or_drop (t =? 33) "aws_key_type" (or_val (aws_key_type s) (VStr (js "ak_sk"))) fs.

Definition passthrough (t : Z) (s : TypeSettings) (fs : list (jsstr * val)) : list (jsstr * val) :=
  let fs := put_or_drop (type_in t [1; 14; 57]) "allow_service_tier" (VBool (allow_service_tier s)) fs in
  let fs :=
    if type_in t [1; 57] then
      put "allow_inference_geo" (VBool (allow_inference_geo s))
        (put "allow_include_obfuscation" (VBool (allow_include_obfuscation s))
          (put "allow_safety_identifier" (VBool (allow_safety_identifier s)) (put "disable_store" (VBool (disable_store s)) fs)))
    else
      let fs := drop "allow_include_obfuscation" (drop "allow_safety_identifier" (drop "disable_store" fs)) in
      if negb (t =? 14) then drop "allow_inference_geo" fs else fs in
  let fs :=
    if t =? 14 then
      put "claude_beta_query" (VBool (claude_beta_query s)) (put "allow_speed" (VBool (allow_speed s)) (put "allow_inference_geo" (VBool (allow_inference_geo s)) fs))
    else drop "claude_beta_query" (drop "allow_speed" fs) in
  put "disable_task_polling_sleep" (VBool (disable_task_polling_sleep s)) fs.

Definition ignored_list (text : jsstr) : list jsstr := dedup (List.filter truthy_str (map trim (split_on 44 text))).

Definition upstream_updates (t : Z) (s : TypeSettings) (fs : list (jsstr * val)) : list (jsstr * val) :=
  if type_in t MODEL_FETCHABLE_TYPES then
    let fs := put "upstream_model_update_check_enabled" (VBool (check_enabled s)) fs in
    let fs := put "upstream_model_update_auto_sync_enabled" (VBool (check_enabled s && auto_sync_enabled s)) fs in
    let fs := put "upstream_model_update_ignored_models" (VArr (map VStr (ignored_list (ignored_models s)))) fs in
    let fs :=
      match lookup_field (js "upstream_model_update_last_detected_models") fs, check_enabled s with
      | VArr _, true => fs
      | _, _ => put "upstream_model_update_last_detected_models" (VArr []) fs
      end in
    match lookup_field (js "upstream_model_update_last_check_time") fs with
    | VNum _ => fs
    | _ => put "upstream_model_update_last_check_time" (VNum zero) fs
    end
  else fs.

Definition custom_routes (t : Z) (s : TypeSettings) (fs : list (jsstr * val)) : list (jsstr * val) :=
  if t =? CHANNEL_TYPE_ADVANCED_CUSTOM then
    match parseAdvancedCustomConfig (advanced_custom s) with Some c => put "advanced_custom" c fs | None => fs end
  else drop "advanced_custom" fs.

Definition settings_fields (t : Z) (s : TypeSettings) (fs : list (jsstr * val)) : list (jsstr * val) :=
  custom_routes t s (upstream_updates t s (passthrough t s (key_types t s fs))).

(** Reading and writing properties raises on anything but objects and arrays; the
    properties given to an array are not part of its text. *)
Definition buildSettingsJSON (f : ChannelFormValues) : option jsstr :=
  let old := if truthy_str (settings f) && negb (streq (settings f) (js "{}")) then default (VObj []) (json_parse (settings f)) else VObj [] in
  match old with
  | VObj fs => Some (stringify (VObj (settings_fields (type f) (typed f) fs)))
  | VArr l => Some (stringify (VArr l))
  | _ => None
  end.

(** ** The check of the form *)

(** [parseOptionalJson]: [None] for the exception, [VUndef] for a blank text. *)
Definition parseOptionalJson (value : jsstr) : option val := if truthy_str (trim value) then json_parse value else Some VUndef.
Definition isJsonObjectValue (v : val) : bool := match v with VObj _ => true | _ => false end.

Definition isOptionalJsonObject (value : jsstr) : bool :=
  match parseOptionalJson value with Some VUndef => true | Some v => isJsonObjectValue v | None => false end.

Definition isOptionalModelMapping (value : jsstr) : bool :=
  match parseOptionalJson value with
  | Some VUndef => true
  | Some (VObj fs) => forallb (fun f => typeof_string f.2) fs
  | _ => false
  end.

Definition http_code (x : num) : bool := is_integer x && nge x (num_of_Z 100) && nle x (num_of_Z 599).

Definition isOptionalStatusCodeMapping (value : jsstr) : bool :=
  match parseOptionalJson value with
  | Some VUndef => true
  | Some (VObj fs) => forallb (fun f => match to_number f.2 with Some to => http_code (string_to_number f.1) && http_code to | None => false end) fs
  | _ => false
  end.

Definition nonblank_text (v : val) : bool := match v with VStr s => truthy_str (trim s) | _ => false end.

Definition isCodexCredential (value : jsstr) : bool :=
  match parseOptionalJson value with
  | Some VUndef => true
  | Some (VObj fs) => nonblank_text (get "access_token" (VObj fs)) && nonblank_text (get "account_id" (VObj fs))
  | _ => false
  end.

Definition isVertexJsonKey (value : jsstr) : bool :=
  match parseOptionalJson value with
  | Some VUndef => true
  | Some (VArr l) => forallb isJsonObjectValue l
  | Some v => isJsonObjectValue v
  | None => false
  end.

Definition validateJSON (value : jsstr) : bool := negb (truthy_str (trim value)) || bool_decide (is_Some (json_parse value)).
Definition validateModelMapping (value : jsstr) : bool := negb (truthy_str (trim value)) || validateJSON value.

(** What precedes and what follows the first occurrence of a text. *)
Fixpoint cut_at (p s : jsstr) : option (jsstr * jsstr) :=
  if starts_with p s then Some ([], List.skipn (length p) s)
  else match s with [] => None | c :: s' => r ← cut_at p s'; Some (c :: r.1, r.2) end.

(** The part from the first slash, question mark or number sign. *)
Fixpoint from_suffix (s : jsstr) : option jsstr :=
  match s with [] => None | c :: s' => if (c =? 47) || (c =? 63) || (c =? 35) then Some s else from_suffix s' end.

(** An issue with a message of the console, or one of the schema library. *)
Inductive Issue := Problem (path message : jsstr) | Invalid (path : jsstr).
Definition problem (b : bool) (path message : string) : list Issue := if b then [Problem (js path) (js message)] else [].
Definition invalid (b : bool) (path : string) : list Issue := if b then [Invalid (js path)] else [].

(** [z.string().optional()], [z.boolean().optional()], [z.enum(...)] *)
Definition z_text (v : val) : bool := match v with VStr _ | VUndef => true | _ => false end.
Definition z_flag (v : val) : bool := match v with VBool _ | VUndef => true | _ => false end.
Definition z_enum (l : list string) (v : val) : bool := match v with VStr s => bool_decide (s ∈ map js l) | VUndef => true | _ => false end.
(** A missing choice is the empty text. *)
Definition z_choice (l : list string) (s : jsstr) : bool := negb (truthy_str s) || bool_decide (s ∈ map js l).
Definition z_number (o : option num) : bool := match o with Some x => is_finite x | None => true end.
Definition safe_integer (x : num) : bool := is_integer x && nle (nabs x) (num_of_Z 9007199254740991).
Definition z_int (v : val) : bool := match v with VNum x => safe_integer x | VUndef => true | _ => false end.

Definition type_issues (f : ChannelFormValues) : list Issue :=
  let e := extra f in
  let s := typed f in
  invalid (negb (z_number (priority f))) "priority" ++ invalid (negb (z_number (weight f))) "weight"
  ++ invalid (negb (z_number (rate_limit_rpm f))) "rate_limit_rpm" ++ invalid (negb (z_number (rate_limit_tpm f))) "rate_limit_tpm"
  ++ invalid (negb (z_number (auto_ban f))) "auto_ban"
  ++ invalid (negb (z_choice ["single"; "batch"; "multi_to_single"]%string (multi_key_mode f))) "multi_key_mode"
  ++ invalid (negb (z_choice ["random"; "polling"]%string (multi_key_type f))) "multi_key_type"
  ++ invalid (negb (z_choice ["append"; "replace"]%string (key_mode f))) "key_mode"
  ++ invalid (negb (z_flag (force_format e))) "force_format" ++ invalid (negb (z_flag (thinking_to_content e))) "thinking_to_content"
  ++ invalid (negb (z_text (proxy e))) "proxy" ++ invalid (negb (z_choice ["auto"; "http1"]%string (http_protocol e))) "http_protocol"
  ++ invalid (negb (z_int (http2_connection_shards e))) "http2_connection_shards"
  ++ invalid (negb (z_flag (pass_through_body_enabled e))) "pass_through_body_enabled"
  ++ invalid (negb (z_text (system_prompt e))) "system_prompt" ++ invalid (negb (z_flag (system_prompt_override e))) "system_prompt_override"
  ++ invalid (negb (z_enum ["json"; "api_key"]%string (vertex_key_type s))) "vertex_key_type"
  ++ invalid (negb (z_enum ["ak_sk"; "api_key"]%string (aws_key_type s))) "aws_key_type"
  ++ invalid (negb (z_text (azure_responses_version s))) "azure_responses_version" ++ invalid (negb (z_text (system_one_path s))) "system_one_path".

Section Schema.

(** [new URL(value)]: protocol, host, host name and port, or the exception. *)
Record URL := mkURL { u_protocol : jsstr; u_host : jsstr; u_hostname : jsstr; u_port : jsstr }.
Context (newURL : jsstr -> option URL).

Definition SUPPORTED_PROXY_PROTOCOLS : list jsstr := map js ["http:"; "https:"; "socks5:"; "socks5h:"]%string.

Definition isOptionalProxyURL (value : jsstr) : bool :=
  let trimmedValue := trim value in
  if negb (truthy_str trimmedValue) then true else
  match cut_at (js "://") trimmedValue with
  | None | Some ([], _) => false
  | Some (_, authorityAndSuffix) =>
    match from_suffix authorityAndSuffix with
    | Some suffix => streq suffix (js "/")
    | None => true
    end
    && match newURL trimmedValue with
       | Some u => bool_decide (u_protocol u ∈ SUPPORTED_PROXY_PROTOCOLS) && truthy_str (u_hostname u) && negb (streq (u_port u) (js "0"))
       | None => false
       end
  end.

Definition field_issues (f : ChannelFormValues) : list Issue :=
  problem (negb (truthy_str (name f))) "name" "Channel name is required"
  ++ problem (type f <? 0) "type" "Channel type is required"
  ++ problem (negb (truthy_str (models f))) "models" "Models are required"
  ++ problem (match group f with [] => true | _ => false end) "group" "Group is required"
  ++ problem (negb (isOptionalModelMapping (model_mapping f))) "model_mapping" "Model mapping must be a JSON object with string values"
  ++ invalid (nlt (default zero (rate_limit_rpm f)) zero) "rate_limit_rpm" ++ invalid (nlt (default zero (rate_limit_tpm f)) zero) "rate_limit_tpm"
  ++ problem (negb (isOptionalStatusCodeMapping (status_code_mapping f))) "status_code_mapping" "Status code mapping must use valid HTTP status codes"
  ++ problem (255 <? Z.of_nat (length (remark f))) "remark" "Remark must be less than 255 characters"
  ++ problem (negb (isOptionalJsonObject (setting f))) "setting" "Invalid JSON format"
  ++ problem (negb (isOptionalJsonObject (param_override f))) "param_override" "Invalid JSON format"
  ++ problem (negb (isOptionalJsonObject (header_override f))) "header_override" "Invalid JSON format"
  ++ problem (negb (isOptionalJsonObject (settings f))) "settings" "Invalid JSON format"
  ++ problem (match proxy (extra f) with VStr s => negb (isOptionalProxyURL s) | _ => false end) "proxy"
       "Proxy address must use HTTP, HTTPS, SOCKS5, or SOCKS5H and include a valid host".

(** [None] when the text of the routes is not of the declared types. *)
Definition custom_issues (f : ChannelFormValues) : option (list Issue) :=
  if type f =? CHANNEL_TYPE_ADVANCED_CUSTOM then
    config ← match parseAdvancedCustomConfig (advanced_custom (typed f)) with Some v => Some <$> typed_config v | None => Some None end;
    let url v := (fun u => (u_host u, u_protocol u)) <$> newURL v in
    Some (match AdvancedCustom.validateAdvancedCustomConfig url config with
          | Some e => [Problem (js "advanced_custom") (AdvancedCustom.message e)]
          | None => []
          end
          ++ problem (AdvancedCustom.advancedCustomConfigUsesRelativeUpstreamPath config && negb (truthy_str (trim (base_url f)))) "base_url"
               "Base URL is required when an advanced route uses an upstream path"
          ++ problem (check_enabled (typed f) && negb (AdvancedCustom.hasValidAdvancedCustomModelListRoute url config))
               "upstream_model_update_check_enabled" "OpenAI Models route is required to enable upstream model checks")
  else Some [].

Definition several_keys (f : ChannelFormValues) : bool := truthy_str (multi_key_mode f) && negb (streq (multi_key_mode f) (js "single")).
Definition key_given (f : ChannelFormValues) : bool := truthy_str (trim (key f)).

Definition key_issues (f : ChannelFormValues) : list Issue :=
  let vertex k := match vertex_key_type (typed f) with VStr s => streq s k | _ => false end in
  problem ((type f =? 57) && several_keys f) "multi_key_mode" "Codex channels do not support batch creation"
  ++ problem ((type f =? 57) && key_given f && negb (isCodexCredential (key f))) "key"
       "Codex credential must be a JSON object with access_token and account_id"
  ++ problem ((type f =? 41) && vertex (js "json") && key_given f && negb (isVertexJsonKey (key f))) "key" "Vertex AI service account key must be valid JSON"
  ++ problem ((type f =? 41) && vertex (js "api_key") && several_keys f) "multi_key_mode" "Vertex AI API Key mode does not support batch creation".

Definition transport_issues (f : ChannelFormValues) : list Issue :=
  let shards := match http2_connection_shards (extra f) with VNum x => x | _ => one end in
  problem (nlt shards one || ngt shards MAX_HTTP2_CONNECTION_SHARDS) "http2_connection_shards" "HTTP/2 connection shards must be between 1 and 8"
  ++ problem (match normalizeHttpProtocol (VStr (http_protocol (extra f))) with Some p => streq p HTTP_PROTOCOL_HTTP1 | None => false end && ngt shards one)
       "http2_connection_shards" "HTTP/2 connection shards must be 1 when HTTP/1.1 is selected".

(** The issues of the form; the refinement does not run on values of the wrong type. *)
Definition channelFormSchema (f : ChannelFormValues) : option (list Issue) :=
  match type_issues f with
  | [] =>
    custom ← custom_issues f;
    Some (field_issues f
          ++ problem (type_in (type f) [3; 8; 36; 45; CHANNEL_TYPE_NEW_API] && negb (truthy_str (trim (base_url f)))) "base_url"
               "Base URL is required for this channel type"
          ++ custom
          ++ problem (type_in (type f) [3; 18; 21; 39; 41; 49] && negb (truthy_str (trim (other f)))) "other"
               "This channel type requires additional configuration"
          ++ key_issues f ++ transport_issues f)
  | issues => Some (issues ++ field_issues f)
  end.

End Schema.

(** ** Payloads *)

Fixpoint drop_slashes (s : jsstr) : jsstr := match s with c :: s' => if c =? 47 then drop_slashes s' else s | [] => [] end.
Definition normalizeBaseUrl (value : jsstr) : jsstr := reverse (drop_slashes (reverse (trim value))).

(** [s || null] *)
Definition or_null (s : jsstr) : val := if truthy_str s then VStr s else VNull.
Definition num_or_null (o : option num) : val := match o with Some x => VNum x | None => VNull end.
Definition truthy_num_or_null (o : option num) : val := match o with Some x => if truthy_num x then VNum x else VNull | None => VNull end.
Definition num_or (d : num) (o : option num) : val := VNum (default d o).

(** Empty texts become [null]. *)
Definition clean_val (v : val) : val := match v with VStr [] => VNull | _ => v end.
Definition clean (fs : list (jsstr * val)) : list (jsstr * val) := map (fun f => (f.1, clean_val f.2)) fs.

Definition create_fields (f : ChannelFormValues) (setting_text settings_text : jsstr) : list (jsstr * val) :=
  [(js "name", VStr (name f)); (js "type", VNum (num_of_Z (type f))); (js "base_url", or_null (normalizeBaseUrl (base_url f)));
   (js "key", VStr (key f)); (js "openai_organization", or_null (openai_organization f)); (js "models", VStr (models f));
   (js "group", VStr (formatGroups (group f))); (js "model_mapping", or_null (model_mapping f));
   (js "priority", truthy_num_or_null (priority f)); (js "weight", truthy_num_or_null (weight f));
   (js "rate_limit_rpm", num_or_null (rate_limit_rpm f)); (js "rate_limit_tpm", num_or_null (rate_limit_tpm f));
   (js "test_model", or_null (test_model f)); (js "auto_ban", num_or one (auto_ban f)); (js "status", VNum (num_of_Z (status f)));
   (js "status_code_mapping", or_null (status_code_mapping f)); (js "tag", or_null (tag f)); (js "remark", VStr (remark f));
   (js "setting", VStr setting_text); (js "param_override", or_null (param_override f)); (js "header_override", or_null (header_override f));
   (js "settings", VStr settings_text); (js "other", VStr (other f))].

Record CreatePayload := mkCreate {
  mode : jsstr; key_distribution : option jsstr; name_prefix : option bool; channel : list (jsstr * val)
}.

Definition transformFormDataToCreatePayload (f : ChannelFormValues) : option CreatePayload :=
  let m := or_str (multi_key_mode f) (js "single") in
  setting_text ← buildSettingJSON f;
  settings_text ← buildSettingsJSON f;
  Some (mkCreate m (if streq m (js "multi_to_single") then Some (multi_key_type f) else None)
          (if streq m (js "batch") then Some (batch_add_set_key_prefix_2_name f) else None)
          (clean (create_fields f setting_text settings_text))).

Definition update_fields (f : ChannelFormValues) (channelId : Z) (setting_text settings_text : jsstr) : list (jsstr * val) :=
  [(js "id", VNum (num_of_Z channelId)); (js "name", VStr (name f)); (js "type", VNum (num_of_Z (type f)));
   (js "base_url", or_null (normalizeBaseUrl (base_url f))); (js "openai_organization", or_null (openai_organization f));
   (js "models", VStr (models f)); (js "group", VStr (formatGroups (group f))); (js "model_mapping", or_null (model_mapping f));
   (js "priority", num_or zero (priority f)); (js "weight", num_or zero (weight f));
   (js "rate_limit_rpm", num_or zero (rate_limit_rpm f)); (js "rate_limit_tpm", num_or zero (rate_limit_tpm f));
   (js "test_model", or_null (test_model f)); (js "auto_ban", num_or one (auto_ban f));
   (js "status_code_mapping", or_null (status_code_mapping f)); (js "tag", or_null (tag f)); (js "remark", VStr (remark f));
   (js "setting", VStr setting_text); (js "param_override", or_null (param_override f)); (js "header_override", or_null (header_override f));
   (js "settings", VStr settings_text); (js "other", VStr (other f))].

(** The texts that are sent even when they are empty, so that they can be cleared. *)
Definition cleared_texts (f : ChannelFormValues) : list (string * jsstr) :=
  [("base_url", normalizeBaseUrl (base_url f)); ("openai_organization", openai_organization f); ("test_model", test_model f); ("tag", tag f);
   ("remark", remark f); ("model_mapping", model_mapping f); ("status_code_mapping", status_code_mapping f);
   ("param_override", param_override f); ("header_override", header_override f)]%string.

Definition transformFormDataToUpdatePayload (f : ChannelFormValues) (channelId : Z) : option (list (jsstr * val)) :=
  setting_text ← buildSettingJSON f;
  settings_text ← buildSettingsJSON f;
  let payload := update_fields f channelId setting_text settings_text in
  let payload := if truthy_str (key f) && truthy_str (trim (key f)) then put "key" (VStr (key f)) payload else payload in
  Some (fold_left (fun p e => put e.1 (VStr e.2) p) (cleared_texts f) (clean payload)).

(** ** Sending *)

Definition SUPER_ADMIN : num := num_of_Z 100.

Definition hasPermission (user : option val) (resource action : string) : bool :=
  match user with
  | None => false
  | Some u =>
    match get "role" u with VNum r => neq r SUPER_ADMIN | _ => false end
    || is_true (get action (get resource (get "admin_permissions" (get "permissions" u))))
  end.

Definition SENSITIVE_UPDATE_FIELDS : list string :=
  ["type"; "key"; "base_url"; "openai_organization"; "param_override"; "header_override"; "setting"; "settings"; "other"]%string.

(** The body of the update request. *)
Definition update_request (user : option val) (isMultiKeyChannel : bool) (f : ChannelFormValues) (channelId : Z) : option (list (jsstr * val)) :=
  let canEditSensitive := hasPermission user "channel" "sensitive_write" in
  payload ← transformFormDataToUpdatePayload f channelId;
  let payload := if truthy_str (trim (key f)) then payload else drop "key" payload in
  let payload := if canEditSensitive then payload else fold_left (fun p k => drop k p) SENSITIVE_UPDATE_FIELDS payload in
  Some (if canEditSensitive && isMultiKeyChannel && truthy_str (trim (key f)) && truthy_str (key_mode f)
        then put "key_mode" (VStr (key_mode f)) payload else payload).

(** ** The server *)

Definition ValidateHTTPTransport (protocol : jsstr) (shards : num) : bool :=
  let p := map ascii_lower (PriceTables.TrimSpace protocol) in
  bool_decide (p ∈ [[]; HTTP_PROTOCOL_AUTO; HTTP_PROTOCOL_HTTP1])
  && negb (nlt shards zero || ngt shards MAX_HTTP2_CONNECTION_SHARDS)
  && negb (streq p HTTP_PROTOCOL_HTTP1 && ngt shards one).

(** [ChannelSettings] decoded from the setting text and checked. *)
Definition server_accepts_setting (setting_text : jsstr) : bool :=
  match json_parse setting_text with
  | Some (VObj fs) =>
    match get "http_protocol" (VObj fs), get "http2_connection_shards" (VObj fs) with
    | VUndef, VUndef => ValidateHTTPTransport [] zero
    | VStr p, VUndef => ValidateHTTPTransport p zero
    | VUndef, VNum x => is_integer x && ValidateHTTPTransport [] x
    | VStr p, VNum x => is_integer x && ValidateHTTPTransport p x
    | _, _ => false
    end
  | _ => false
  end.

(** The columns the check of an update compares: those of the channel decoded from the
    request, and those of the stored one. *)
Record SensitiveColumns := mkSensitive {
  sc_type : Z; sc_key : jsstr; sc_base_url : option jsstr; sc_openai_organization : option jsstr; sc_header_override : option jsstr;
  sc_param_override : option jsstr; sc_setting : option jsstr; sc_other : jsstr; sc_other_settings : jsstr
}.

Definition channelSensitiveFields : list string :=
  ["type"; "key"; "base_url"; "openai_organization"; "header_override"; "param_override"; "setting"; "other"; "settings"; "key_mode"]%string.
Definition channelOperationalFields : list string := ["status"]%string.
Definition channelReadOnlyFields : list string :=
  ["created_time"; "test_time"; "response_time"; "balance"; "balance_updated_time"; "used_quota"]%string.
Definition channelNonSensitiveFields : list string :=
  ["id"; "test_model"; "name"; "weight"; "models"; "group"; "model_mapping"; "status_code_mapping"; "priority"; "auto_ban"; "rate_limit_rpm";
   "rate_limit_tpm"; "other_info"; "tag"; "remark"; "channel_info"; "multi_key_mode"]%string.

Definition equalStringPtr (a b : option jsstr) : bool := bool_decide (a = b).

(** [requestData[k]] is there. *)
Definition has_field (k : string) (requestData : list (jsstr * val)) : bool := bool_decide (js k ∈ map fst requestData).

(** [keyMode] is the decoded mode of the key. *)
Definition channelHasSensitiveChanges (channel origin : SensitiveColumns) (keyMode : option jsstr) (requestData : list (jsstr * val)) : bool :=
  (has_field "type" requestData && negb (sc_type channel =? sc_type origin))
  || (has_field "key" requestData && negb (streq (sc_key channel) []) && negb (streq (sc_key channel) (sc_key origin)))
  || (has_field "base_url" requestData && negb (equalStringPtr (sc_base_url channel) (sc_base_url origin)))
  || (has_field "openai_organization" requestData && negb (equalStringPtr (sc_openai_organization channel) (sc_openai_organization origin)))
  || (has_field "header_override" requestData && negb (equalStringPtr (sc_header_override channel) (sc_header_override origin)))
  || (has_field "param_override" requestData && negb (equalStringPtr (sc_param_override channel) (sc_param_override origin)))
  || (has_field "setting" requestData && negb (equalStringPtr (sc_setting channel) (sc_setting origin)))
  || (has_field "other" requestData && negb (streq (sc_other channel) (sc_other origin)))
  || (has_field "settings" requestData && negb (streq (sc_other_settings channel) (sc_other_settings origin)))
  || (has_field "key_mode" requestData && bool_decide (is_Some keyMode))
  || existsb (fun e : jsstr * val => negb (bool_decide (e.1 ∈ map js (channelSensitiveFields ++ channelNonSensitiveFields ++ channelOperationalFields ++ channelReadOnlyFields))))
       requestData.

End ChannelForm.
