(* ===== verification/ChannelFormLaws.v ===== *)
(** What the form of a channel sends: every accepted form can be sent, what was saved is
    shown again, settings the form does not know are kept, and sensitive fields are only
    sent with the permission for them. *)

From S2P Require Import Prelude JsValue Scan NumText JsonString Json AdvancedCustom PriceTables ChannelForm.
Import ChannelForm.

Module ChannelFormLaws.

(** ** Fields *)

(** A step on the settings that only touches the listed keys. *)
Definition only (ks : list string) (step : list (jsstr * val) -> list (jsstr * val)) : Prop :=
  forall k fs, k ∉ map js ks -> lookup_field k (step fs) = lookup_field k fs.

Lemma lookup_put k k' v fs : is_index (js k') = false -> lookup_field k (put k' v fs) = if streq k (js k') then v else lookup_field k fs.
Proof. apply lookup_set_field. Qed.

Lemma only_put k v ks : is_index (js k) = false -> k ∈ ks -> only ks (put k v).
Proof.
  intros Hi Hk k' fs Hn. rewrite lookup_put by done. destruct (streq k' (js k)) eqn:E; [|done]. apply streq_true in E as ->. by destruct Hn; apply (list_elem_of_fmap_2 js).
Qed.

Lemma only_drop k ks : k ∈ ks -> only ks (drop k).
Proof.
  intros Hk k' fs Hn. unfold drop. rewrite lookup_drop_field. destruct (streq k' (js k)) eqn:E; [|done]. apply streq_true in E as ->.
  by destruct Hn; apply (list_elem_of_fmap_2 js).
Qed.

Lemma only_if (b : bool) ks f g : only ks f -> only ks g -> only ks (fun fs => if b then f fs else g fs).
Proof. by destruct b. Qed.

Lemma only_comp ks f g : only ks f -> only ks g -> only ks (fun fs => f (g fs)).
Proof. intros Hf Hg k fs Hn. by rewrite Hf, Hg. Qed.

Lemma only_id ks : only ks (fun fs => fs).
Proof. done. Qed.

Lemma only_mono ks ks' f : only ks f -> ks ⊆ ks' -> only ks' f.
Proof. intros H Hs k fs Hn. apply H. intros (x & -> & Hx)%list_elem_of_fmap. apply Hn, list_elem_of_fmap_2, Hs, Hx. Qed.

Lemma lookup_drop k k' fs : lookup_field k (drop k' fs) = if streq k (js k') then VUndef else lookup_field k fs.
Proof. apply lookup_drop_field. Qed.

Lemma lookup_put_or_drop k b k' v fs :
  is_index (js k') = false -> lookup_field k (put_or_drop b k' v fs) = if streq k (js k') then (if b then v else VUndef) else lookup_field k fs.
Proof. intros Hi. destruct b; [by apply lookup_put|apply lookup_drop]. Qed.

Lemma lookup_if (b : bool) k fs gs : lookup_field k (if b then fs else gs) = if b then lookup_field k fs else lookup_field k gs.
Proof. by destruct b. Qed.

(** Decides the comparisons of literal keys. *)
Ltac keys :=
  repeat match goal with
         | |- context [streq (js ?a) (js ?b)] =>
           let r := eval vm_compute in (streq (js a) (js b)) in change (streq (js a) (js b)) with r; cbv iota
         end.
Ltac fields := repeat (rewrite ?lookup_if, ?lookup_put, ?lookup_drop, ?lookup_put_or_drop by reflexivity; keys).

(** ** The settings of a channel type *)

Definition type_keys : list string := ["vertex_key_type"; "azure_responses_version"; "system_one_path"; "openrouter_enterprise"; "aws_key_type"]%string.
Definition passthrough_keys : list string :=
  ["allow_service_tier"; "disable_store"; "allow_safety_identifier"; "allow_include_obfuscation"; "allow_inference_geo"; "allow_speed";
   "claude_beta_query"; "disable_task_polling_sleep"]%string.
Definition update_keys : list string :=
  ["upstream_model_update_check_enabled"; "upstream_model_update_auto_sync_enabled"; "upstream_model_update_ignored_models";
   "upstream_model_update_last_detected_models"; "upstream_model_update_last_check_time"]%string.
Definition managed_keys : list string := type_keys ++ passthrough_keys ++ update_keys ++ ["advanced_custom"%string].

(** A key none of the literal keys is equal to. *)
Ltac other_key H :=
  repeat match goal with
         | |- context [streq ?k (js ?a)] =>
           let E := fresh in
           assert (streq k (js a) = false) as E by (apply streq_false; intros ->; apply H; apply (list_elem_of_fmap_2 js); apply (bool_decide_unpack _); vm_compute; reflexivity);
           rewrite E; clear E; cbv iota
         end.

Lemma only_key_types t s : only type_keys (key_types t s).
Proof. intros k fs Hn. unfold key_types. rewrite !lookup_put_or_drop by reflexivity. by other_key Hn. Qed.

Lemma only_passthrough t s : only passthrough_keys (passthrough t s).
Proof.
  intros k fs Hn. unfold passthrough. repeat (rewrite ?lookup_if, ?lookup_put, ?lookup_drop, ?lookup_put_or_drop by reflexivity; other_key Hn).
  repeat match goal with |- context [if ?b then _ else _] => destruct b end; done.
Qed.

Lemma only_updates t s : only update_keys (upstream_updates t s).
Proof.
  intros k fs Hn. unfold upstream_updates. destruct (type_in t _); [|done]. repeat case_match; rewrite ?lookup_put by reflexivity; by other_key Hn.
Qed.

Lemma only_routes t s : only ["advanced_custom"%string] (custom_routes t s).
Proof.
  intros k fs Hn. unfold custom_routes. repeat case_match; rewrite ?lookup_put, ?lookup_drop by reflexivity; try done; by other_key Hn.
Qed.

Lemma other_settings_kept t s : only managed_keys (settings_fields t s).
Proof.
  intros k fs Hn. unfold settings_fields.
  unfold managed_keys in Hn. rewrite !map_app, !not_elem_of_app in Hn. destruct Hn as (H1 & H2 & H3 & H4).
  by rewrite only_routes, only_updates, only_passthrough, only_key_types.
Qed.

(** *** Well-formed texts *)

Definition val_units (v : val) : Prop := match v with VStr s => units s | _ => True end.

(** A value the schema takes for a text or a choice. *)
Lemma z_text_wf v d : z_text v = true -> val_units v -> units d -> wf_val (or_val v (VStr d)).
Proof. intros Hz Hu Hd. unfold or_val. destruct v; try done; cbn [truthy]; [by constructor|]. case_match; by constructor. Qed.

Lemma z_enum_text l v : z_enum l v = true -> z_text v = true.
Proof. by destruct v. Qed.

Lemma plain_put k v fs : is_index (js k) = false -> wf_val v -> plain_obj fs -> plain_obj (put k v fs).
Proof. intros Hi Hv Hp. apply plain_obj_set; try done. apply units_js. Qed.

Lemma plain_put_or_drop b k v fs : is_index (js k) = false -> (b = true -> wf_val v) -> plain_obj fs -> plain_obj (put_or_drop b k v fs).
Proof. intros Hi Hv Hp. destruct b; [by apply plain_put; auto|by apply plain_obj_drop]. Qed.

Lemma plain_if (b : bool) fs gs : plain_obj fs -> plain_obj gs -> plain_obj (if b then fs else gs).
Proof. by destruct b. Qed.

Lemma ignored_units text : units text -> Forall units (ignored_list text).
Proof.
  intros Hu. apply Forall_forall. intros w Hw. unfold ignored_list in Hw. apply elem_of_dedup, list_elem_of_In, List.filter_In in Hw as [Hw _].
  apply list_elem_of_In, list_elem_of_fmap in Hw as (x & -> & Hx). apply units_trim, Forall_forall. intros c Hc.
  apply (proj1 (Forall_forall _ _) Hu). by eapply elem_of_split_on.
Qed.

(** The settings part of a form with the types of the schema. *)
Record typed_ok (t : Z) (s : TypeSettings) : Prop := {
  ok_vertex : z_text (vertex_key_type s) = true /\ val_units (vertex_key_type s);
  ok_azure : z_text (azure_responses_version s) = true /\ val_units (azure_responses_version s);
  ok_system_one : z_text (system_one_path s) = true /\ val_units (system_one_path s);
  ok_aws : z_text (aws_key_type s) = true /\ val_units (aws_key_type s);
  ok_ignored : units (ignored_models s);
  ok_routes : t = CHANNEL_TYPE_ADVANCED_CUSTOM -> exists c, parseAdvancedCustomConfig (advanced_custom s) = Some c /\ wf_val c
}.

Create HintDb plaindb.
#[local] Hint Resolve plain_put plain_put_or_drop plain_if plain_obj_drop wf_bool : plaindb.

Lemma z_text_truthy v : z_text v = true -> val_units v -> truthy v = true -> wf_val v.
Proof. destruct v; try done. intros _ Hu _. by constructor. Qed.

Lemma plain_key_types t s fs : typed_ok t s -> plain_obj fs -> plain_obj (key_types t s fs).
Proof.
  intros [[Hv1 Hv2] [Ha1 Ha2] [Ho1 Ho2] [Hw1 Hw2] _ _] Hp. unfold key_types.
  repeat (apply plain_put_or_drop; [reflexivity| |]); try done; intros Hb; try (apply andb_true_iff in Hb as [_ Hb]);
    first [by apply z_text_truthy|by apply z_text_wf; [..|apply units_js]|constructor].
Qed.

Lemma plain_passthrough t s fs : plain_obj fs -> plain_obj (passthrough t s fs).
Proof.
  intros Hp. unfold passthrough, drop. repeat first [done|apply plain_put; [reflexivity|constructor|]|apply plain_put_or_drop; [reflexivity|constructor|]
    |apply plain_if|apply plain_obj_drop].
Qed.

Lemma plain_updates t s fs : units (ignored_models s) -> plain_obj fs -> plain_obj (upstream_updates t s fs).
Proof.
  intros Hu Hp. unfold upstream_updates. apply plain_if; [|done].
  assert (wf_val (VArr (map VStr (ignored_list (ignored_models s))))) as Hi.
  { constructor. apply Forall_fmap. eapply Forall_impl; [by apply ignored_units|]. by constructor. }
  set (gs := put "upstream_model_update_ignored_models" _ _).
  assert (plain_obj gs) as Hg by (repeat (apply plain_put; [reflexivity|done || constructor|]); done).
  clearbody gs. set (hs := match lookup_field _ gs with VUndef => _ | _ => _ end).
  assert (plain_obj hs) as Hh by (unfold hs; repeat case_match; try done; by apply plain_put; [|constructor; constructor|]).
  clearbody hs. repeat case_match; try done; by apply plain_put; [|constructor|].
Qed.

Lemma plain_settings t s fs : typed_ok t s -> plain_obj fs -> plain_obj (settings_fields t s fs).
Proof.
  intros Hs Hp. unfold settings_fields, custom_routes.
  assert (plain_obj (upstream_updates t s (passthrough t s (key_types t s fs)))) as Hu
    by (apply plain_updates, plain_passthrough, plain_key_types; [by destruct Hs|done|done]).
  destruct (Z.eqb_spec t CHANNEL_TYPE_ADVANCED_CUSTOM) as [Ht|_]; [|by apply plain_obj_drop].
  destruct (ok_routes _ _ Hs Ht) as (c & -> & Hc). by apply plain_put.
Qed.

(** *** Reading the settings again *)

(** The settings the form shows for a channel of the type once they were stored: those of
    other types have their defaults, and without the model list of an upstream its
    settings are the old ones. *)
Definition settled_typed (t : Z) (s : TypeSettings) (old : list (jsstr * val)) : TypeSettings :=
  let fetchable := type_in t MODEL_FETCHABLE_TYPES in
  mkTypeSettings
    (if t =? 41 then or_val (vertex_key_type s) (VStr (js "json")) else VStr (js "json"))
    (if t =? 3 then or_val (azure_responses_version s) (VStr []) else VStr [])
    (if t =? 61 then or_val (system_one_path s) (VStr []) else VStr [])
    ((t =? 20) && is_enterprise_account s)
    (if t =? 33 then or_val (aws_key_type s) (VStr (js "ak_sk")) else VStr (js "ak_sk"))
    (type_in t [1; 14; 57] && allow_service_tier s) (type_in t [1; 57] && disable_store s) (type_in t [1; 57] && allow_safety_identifier s)
    (type_in t [1; 57] && allow_include_obfuscation s) (type_in t [1; 14; 57] && allow_inference_geo s) ((t =? 14) && allow_speed s)
    ((t =? 14) && claude_beta_query s) (disable_task_polling_sleep s)
    (if fetchable then check_enabled s else on_at "upstream_model_update_check_enabled" (VObj old))
    (if fetchable then check_enabled s && auto_sync_enabled s else on_at "upstream_model_update_auto_sync_enabled" (VObj old))
    (if fetchable then join (js ",") (ignored_list (ignored_models s))
     else match get "upstream_model_update_ignored_models" (VObj old) with VArr l => default [] (to_string (VArr l)) | _ => [] end)
    (if t =? CHANNEL_TYPE_ADVANCED_CUSTOM then default [] (stringify2 <$> parseAdvancedCustomConfig (advanced_custom s)) else []).

(** The stage that decides a key. *)
Lemma settings_type_key t s fs k :
  k ∈ type_keys -> get k (VObj (settings_fields t s fs)) = lookup_field (js k) (key_types t s fs).
Proof.
  intros Hk. cbn [get]. unfold settings_fields. rewrite only_routes, only_updates, only_passthrough; [done|..];
    unfold type_keys in Hk; repeat (apply elem_of_cons in Hk as [->|Hk]; [apply (bool_decide_unpack _); vm_compute; reflexivity|]); by apply elem_of_nil in Hk.
Qed.

Lemma settings_passthrough_key t s fs k :
  k ∈ passthrough_keys -> get k (VObj (settings_fields t s fs)) = lookup_field (js k) (passthrough t s (key_types t s fs)).
Proof.
  intros Hk. cbn [get]. unfold settings_fields. rewrite only_routes, only_updates; [done|..];
    unfold passthrough_keys in Hk; repeat (apply elem_of_cons in Hk as [->|Hk]; [apply (bool_decide_unpack _); vm_compute; reflexivity|]); by apply elem_of_nil in Hk.
Qed.

Lemma settings_update_key t s fs k :
  k ∈ update_keys -> get k (VObj (settings_fields t s fs)) = lookup_field (js k) (upstream_updates t s (passthrough t s (key_types t s fs))).
Proof.
  intros Hk. cbn [get]. unfold settings_fields. rewrite only_routes; [done|].
  unfold update_keys in Hk; repeat (apply elem_of_cons in Hk as [->|Hk]; [apply (bool_decide_unpack _); vm_compute; reflexivity|]); by apply elem_of_nil in Hk.
Qed.

Ltac listed := apply (bool_decide_unpack _); vm_compute; reflexivity.

(** A key of the update settings before they are written. *)
Lemma before_updates t s fs k : k ∈ update_keys -> lookup_field (js k) (passthrough t s (key_types t s fs)) = lookup_field (js k) fs.
Proof.
  intros Hk. rewrite only_passthrough, only_key_types; [done|..];
    unfold update_keys in Hk; repeat (apply elem_of_cons in Hk as [->|Hk]; [listed|]); by apply elem_of_nil in Hk.
Qed.

Lemma updates_value t s fs k v :
  k ∈ ["upstream_model_update_check_enabled"; "upstream_model_update_auto_sync_enabled"; "upstream_model_update_ignored_models"]%string ->
  (forall gs, lookup_field (js k) (put "upstream_model_update_ignored_models" (VArr (map VStr (ignored_list (ignored_models s))))
     (put "upstream_model_update_auto_sync_enabled" (VBool (check_enabled s && auto_sync_enabled s))
       (put "upstream_model_update_check_enabled" (VBool (check_enabled s)) gs))) = v) ->
  lookup_field (js k) (upstream_updates t s fs) = if type_in t MODEL_FETCHABLE_TYPES then v else lookup_field (js k) fs.
Proof.
  intros Hk Hv. unfold upstream_updates. destruct (type_in t _); [|done]. specialize (Hv fs). set (gs := put _ _ (put _ _ _)) in *. clearbody gs.
  rewrite <- Hv. clear Hv. set (hs := match lookup_field _ gs with VUndef => _ | _ => _ end).
  assert (lookup_field (js k) hs = lookup_field (js k) gs) as <-.
  { unfold hs. repeat (apply elem_of_cons in Hk as [->|Hk]); try (by apply elem_of_nil in Hk); repeat case_match; rewrite ?lookup_put by reflexivity; keys; done. }
  clearbody hs. repeat (apply elem_of_cons in Hk as [->|Hk]); try (by apply elem_of_nil in Hk); repeat case_match; rewrite ?lookup_put by reflexivity; keys; done.
Qed.

(** *** Routes *)

Lemma or_val_idem v d : or_val (or_val v d) d = or_val v d.
Proof. unfold or_val. destruct (truthy v) eqn:E; [by rewrite E|by destruct (truthy d)]. Qed.

Lemma mapM_trim ms : mapM trim_val (map VStr ms) = Some (map trim ms).
Proof. induction ms as [|m ms IH]; [done|]. simpl. by rewrite IH. Qed.

Lemma trimmed_models l ms : mapM trim_val l = Some ms -> Forall (fun m => trim m = m) ms.
Proof.
  revert ms. induction l as [|v l IH]; intros ms; [by intros [= <-]|]. cbn. intros (m & Hm & (ms' & Hms & [= <-])%bind_Some)%bind_Some.
  constructor; [|by apply IH]. destruct v; try done. injection Hm as <-. apply trim_idem.
Qed.

Lemma route_models_again v ms : route_models v = Some ms -> map trim ms = ms /\ List.filter truthy_str ms = ms.
Proof.
  intros H. assert (exists l, ms = List.filter truthy_str l /\ Forall (fun m => trim m = m) l) as (l & -> & Hl).
  { destruct v; cbn in H; try (injection H as <-; by exists []). apply bind_Some in H as (l' & Hl & [= <-]). exists l'. split; [done|]. by eapply trimmed_models. }
  clear H. induction l as [|m l IH]; [done|]. apply Forall_cons in Hl as [Hm Hl]. destruct (IH Hl) as [H1 H2]. cbn [List.filter].
  destruct (truthy_str m) eqn:E; [|done]. cbn [map List.filter]. by rewrite E, Hm, H1, H2.
Qed.

Lemma route_auth_again v : route_auth (get "auth" (VObj (route_auth v))) = route_auth v.
Proof.
  unfold route_auth at 2 3. destruct (truthy v); [|done]. cbn [get lookup_field]. keys. unfold route_auth. cbn [truthy get lookup_field]. keys.
  by rewrite !or_val_idem.
Qed.

(** Normalising a configuration twice changes nothing more. *)
Lemma route_json_idem v r : normalize_route v = Some r -> normalize_route r = Some r.
Proof.
  unfold normalize_route. destruct (nullish v); [done|]. intros (u & Hu & (ms & Hms & [= <-])%bind_Some)%bind_Some. cbn [nullish].
  assert (trim u = u) as Ht by (destruct (or_val _ _); try done; injection Hu as <-; apply trim_idem).
  destruct (route_models_again _ _ Hms) as [H1 H2].
  set (i := or_val (get "incoming_path" v) _). set (c := or_val (get "converter" v) _). set (a := route_auth (get "auth" v)).
  assert (or_val i (VStr []) = i) as Hi by apply or_val_idem. assert (or_val c (VStr (js "none")) = c) as Hc by apply or_val_idem.
  assert (trim_val (or_val (VStr u) (VStr [])) = Some u) as Hv by (destruct u; [done|]; cbn [or_val truthy truthy_str trim_val]; by rewrite Ht).
  assert (route_auth (lookup_field (js "auth") a) = a) as Ha by apply route_auth_again.
  assert (lookup_field (js "models") a = VUndef) as Hm by (unfold a, route_auth; by destruct (truthy (get "auth" v))).
  clearbody i c a. destruct ms as [|m ms]; cbn [app get lookup_field]; keys; rewrite Hi, Hc, Hv; cbn [mbind option_bind].
  - rewrite Hm, Ha. done.
  - rewrite Ha. unfold route_models. rewrite mapM_trim, H1. cbn [mbind option_bind]. by rewrite H2.
Qed.

Lemma config_json_idem v c : normalize_config v = Some c -> normalize_config c = Some c /\ exists fs, c = VObj fs.
Proof.
  unfold normalize_config. intros (rs & Hr & [= <-])%bind_Some. split; [|by eexists]. cbn [get lookup_field]. keys.
  assert (Forall (fun r => normalize_route r = Some r) rs) as Hf.
  { destruct (get "advanced_routes" v) as [| | | | |l|]; try (injection Hr as <-; constructor). revert rs Hr. induction l as [|x l IH]; intros rs Hr.
    - injection Hr as <-. constructor.
    - cbn in Hr. apply bind_Some in Hr as (r & H1 & (rs' & H2 & [= <-])%bind_Some). constructor; [by eapply route_json_idem|by apply IH]. }
  assert (mapM normalize_route rs = Some rs) as ->; [|done]. clear Hr. induction Hf as [|r rs H1 H2 IH]; [done|]. simpl. by rewrite H1, IH.
Qed.

Lemma parsed_config_fixed text c : parseAdvancedCustomConfig text = Some c -> normalize_config c = Some c /\ exists fs, c = VObj fs.
Proof. unfold parseAdvancedCustomConfig. destruct (truthy_str _); [|done]. destruct (json_parse text) as [[]|]; try done. apply config_json_idem. Qed.

(** *** The settings text *)

Lemma stringify_truthy fs : truthy_str (stringify (VObj fs)) = true.
Proof. unfold stringify. cbn [json_text]. by case_match. Qed.

Lemma to_string_texts l : to_string (VArr (map VStr l)) = Some (join (js ",") l).
Proof.
  destruct l as [|x l]; [done|]. rewrite join_cons. cbn [map to_string].
  match goal with |- (_ ← Some x; b ← ?go false (map VStr l); _) = _ => assert (go false (map VStr l) = Some (concat (map (fun y => js "," ++ y) l))) as -> end; [|done].
  induction l as [|y l IH]; [done|]. cbn [map concat]. by rewrite IH.
Qed.

Lemma stored_choice (b : bool) v d : or_val (if b then or_val v d else VUndef) d = if b then or_val v d else d.
Proof. destruct b; [apply or_val_idem|done]. Qed.

Lemma stored_text (b : bool) v : or_val (if b && truthy v then v else VUndef) (VStr []) = if b then or_val v (VStr []) else VStr [].
Proof. unfold or_val. destruct b; [|done]. cbn [andb]. destruct (truthy v) eqn:E; [by rewrite E|done]. Qed.

Lemma stored_flag (b c : bool) : is_true (if b then VBool c else VUndef) = b && c.
Proof. by destruct b. Qed.

Section Values.
Context (t : Z) (s : TypeSettings) (old : list (jsstr * val)).
Notation value k := (get k (VObj (settings_fields t s old))).
Notation fetchable := (type_in t MODEL_FETCHABLE_TYPES).

Lemma type_key_values :
  value "vertex_key_type" = (if t =? 41 then or_val (vertex_key_type s) (VStr (js "json")) else VUndef)
  /\ value "azure_responses_version" = (if (t =? 3) && truthy (azure_responses_version s) then azure_responses_version s else VUndef)
  /\ value "system_one_path" = (if (t =? 61) && truthy (system_one_path s) then system_one_path s else VUndef)
  /\ value "openrouter_enterprise" = (if t =? 20 then VBool (is_enterprise_account s) else VUndef)
  /\ value "aws_key_type" = (if t =? 33 then or_val (aws_key_type s) (VStr (js "ak_sk")) else VUndef).
Proof. split_and!; rewrite settings_type_key by listed; unfold key_types; by fields. Qed.

Lemma passthrough_values :
  value "allow_service_tier" = (if type_in t [1; 14; 57] then VBool (allow_service_tier s) else VUndef)
  /\ value "disable_store" = (if type_in t [1; 57] then VBool (disable_store s) else VUndef)
  /\ value "allow_safety_identifier" = (if type_in t [1; 57] then VBool (allow_safety_identifier s) else VUndef)
  /\ value "allow_include_obfuscation" = (if type_in t [1; 57] then VBool (allow_include_obfuscation s) else VUndef)
  /\ value "allow_inference_geo" = (if type_in t [1; 14; 57] then VBool (allow_inference_geo s) else VUndef)
  /\ value "allow_speed" = (if t =? 14 then VBool (allow_speed s) else VUndef)
  /\ value "claude_beta_query" = (if t =? 14 then VBool (claude_beta_query s) else VUndef)
  /\ value "disable_task_polling_sleep" = VBool (disable_task_polling_sleep s).
Proof.
  split_and!; rewrite settings_passthrough_key by listed; unfold passthrough; fields; unfold type_in; cbn [existsb];
    destruct (Z.eqb_spec t 1), (Z.eqb_spec t 14), (Z.eqb_spec t 57); try (exfalso; lia); done.
Qed.

Lemma update_values :
  value "upstream_model_update_check_enabled" = (if fetchable then VBool (check_enabled s) else get "upstream_model_update_check_enabled" (VObj old))
  /\ value "upstream_model_update_auto_sync_enabled"
     = (if fetchable then VBool (check_enabled s && auto_sync_enabled s) else get "upstream_model_update_auto_sync_enabled" (VObj old))
  /\ value "upstream_model_update_ignored_models"
     = (if fetchable then VArr (map VStr (ignored_list (ignored_models s))) else get "upstream_model_update_ignored_models" (VObj old)).
Proof.
  split_and!; rewrite settings_update_key by listed; (erewrite updates_value; [|listed|intros gs; by fields]); by rewrite before_updates by listed.
Qed.

Lemma routes_value c :
  (t = CHANNEL_TYPE_ADVANCED_CUSTOM -> parseAdvancedCustomConfig (advanced_custom s) = Some c) ->
  value "advanced_custom" = if t =? CHANNEL_TYPE_ADVANCED_CUSTOM then c else VUndef.
Proof.
  intros Hc. cbn [get]. unfold settings_fields, custom_routes. destruct (Z.eqb_spec t CHANNEL_TYPE_ADVANCED_CUSTOM) as [Ht|_]; [rewrite (Hc Ht)|]; by fields.
Qed.

End Values.

Lemma typed_reread t s old : typed_ok t s -> plain_obj old -> read_typed (stringify (VObj (settings_fields t s old))) = settled_typed t s old.
Proof.
  intros Hs Hp. unfold read_typed. rewrite stringify_truthy. unfold stringify at 1. rewrite parse_stringify; [|constructor|by apply plain_obj_wf, plain_settings].
  cbn [nullish]. unfold settled_typed, text_at, on_at.
  destruct (type_key_values t s old) as (-> & -> & -> & -> & ->). destruct (passthrough_values t s old) as (-> & -> & -> & -> & -> & -> & -> & ->).
  destruct (update_values t s old) as (-> & -> & ->). rewrite !stored_choice, !stored_text, !stored_flag. cbn [is_true].
  destruct (Z.eqb_spec t CHANNEL_TYPE_ADVANCED_CUSTOM) as [Ht|Ht].
  - destruct (ok_routes _ _ Hs Ht) as (c & Hc & _). rewrite (routes_value t s old c) by done. rewrite (proj2 (Z.eqb_eq _ _) Ht), Hc.
    destruct (parsed_config_fixed _ _ Hc) as (Hn & fs & ->). assert (type_in t MODEL_FETCHABLE_TYPES = true) as -> by (by rewrite Ht).
    rewrite to_string_texts. cbn [truthy is_true]. unfold stringifyAdvancedCustomConfig. by rewrite Hn.
  - rewrite (routes_value t s old VUndef) by done. assert ((t =? CHANNEL_TYPE_ADVANCED_CUSTOM) = false) as -> by (by apply Z.eqb_neq). cbn [truthy].
    destruct (type_in t MODEL_FETCHABLE_TYPES); [by rewrite to_string_texts|].
    destruct (get "upstream_model_update_ignored_models" (VObj old)) as [| | | | |l|]; try done. by destruct (to_string (VArr l)).
Qed.

(** ** The extra settings *)

(** The extra settings of a form with the types of the schema. *)
Record extra_ok (e : ExtraSettings) : Prop := {
  ok_flags : Forall (fun v => z_flag v = true) [force_format e; thinking_to_content e; pass_through_body_enabled e; system_prompt_override e];
  ok_proxy : z_text (proxy e) = true /\ val_units (proxy e);
  ok_prompt : z_text (system_prompt e) = true /\ val_units (system_prompt e);
  ok_shards : z_int (http2_connection_shards e) = true /\ match http2_connection_shards e with VNum x => num_ok x = true | _ => True end
}.

Definition text_of_val (v : val) : jsstr := match v with VStr s => s | _ => [] end.

Definition shards_of (e : ExtraSettings) : num :=
  match http2_connection_shards e with
  | VNum x => if is_nan x || neq x zero || nlt x one then one else if ngt x MAX_HTTP2_CONNECTION_SHARDS then MAX_HTTP2_CONNECTION_SHARDS else x
  | _ => one
  end.

Definition is_http1 (e : ExtraSettings) : bool := streq (map ascii_lower (trim (http_protocol e))) HTTP_PROTOCOL_HTTP1.

(** The extra settings the form shows once they were stored. *)
Definition settled_extra (e : ExtraSettings) : ExtraSettings :=
  mkExtra (or_val (force_format e) (VBool false)) (or_val (thinking_to_content e) (VBool false)) (VStr (trim (text_of_val (proxy e))))
    (if is_http1 e then HTTP_PROTOCOL_HTTP1 else HTTP_PROTOCOL_AUTO) (VNum (if is_http1 e then one else shards_of e))
    (or_val (pass_through_body_enabled e) (VBool false)) (or_val (system_prompt e) (VStr [])) (or_val (system_prompt_override e) (VBool false)).

Definition stored_extra (e : ExtraSettings) : list (jsstr * val) :=
  [(js "force_format", or_val (force_format e) (VBool false)); (js "thinking_to_content", or_val (thinking_to_content e) (VBool false));
   (js "proxy", VStr (trim (text_of_val (proxy e)))); (js "pass_through_body_enabled", or_val (pass_through_body_enabled e) (VBool false));
   (js "system_prompt", or_val (system_prompt e) (VStr [])); (js "system_prompt_override", or_val (system_prompt_override e) (VBool false))]
  ++ (if is_http1 e then [(js "http_protocol", VStr HTTP_PROTOCOL_HTTP1)]
      else if ngt (shards_of e) one then [(js "http2_connection_shards", VNum (shards_of e))] else []).

Lemma normalize_protocol_text s :
  normalizeHttpProtocol (VStr s) = Some (if streq (map ascii_lower (trim s)) HTTP_PROTOCOL_HTTP1 then HTTP_PROTOCOL_HTTP1 else HTTP_PROTOCOL_AUTO).
Proof. unfold normalizeHttpProtocol, or_val. cbn [truthy]. by destruct s. Qed.

Lemma normalize_shards e : z_int (http2_connection_shards e) = true -> normalizeHttp2ConnectionShards (http2_connection_shards e) = Some (VNum (shards_of e)).
Proof.
  intros Hz. unfold shards_of, normalizeHttp2ConnectionShards, clamp_shards. destruct (http2_connection_shards e); try done.
  destruct (is_nan x || neq x zero); cbn [orb]; [done|]. destruct (nlt x one); [done|]. by destruct (ngt x _).
Qed.

Lemma setting_text f :
  z_text (proxy (extra f)) = true -> z_int (http2_connection_shards (extra f)) = true ->
  buildSettingJSON f = Some (stringify (VObj (stored_extra (extra f)))).
Proof.
  intros Hp Hz. unfold buildSettingJSON, stored_extra. rewrite normalize_protocol_text. fold (is_http1 (extra f)).
  assert ((if nullish (proxy (extra f)) then Some [] else trim_val (proxy (extra f))) = Some (trim (text_of_val (proxy (extra f))))) as ->
    by (by destruct (proxy (extra f))).
  cbn [mbind option_bind]. destruct (is_http1 (extra f)).
  - cbn [mbind option_bind fmap option_fmap option_map to_number]. keys. done.
  - rewrite normalize_shards by done. cbn [mbind option_bind fmap option_fmap option_map to_number]. keys. done.
Qed.

Lemma flag_wf v : z_flag v = true -> wf_val (or_val v (VBool false)).
Proof. destruct v as [| |[]| | | |]; try done; intros _; constructor. Qed.

Lemma shards_num_ok e : extra_ok e -> num_ok (shards_of e) = true.
Proof. intros [_ _ _ [_ Hn]]. unfold shards_of. destruct (http2_connection_shards e); try done. repeat case_match; done. Qed.

Lemma stored_extra_plain e : extra_ok e -> plain_obj (stored_extra e).
Proof.
  intros He. pose proof (shards_num_ok e He) as Hsn. destruct He as [Hf [Hp1 Hp2] [Hs1 Hs2] _]. rewrite !Forall_cons in Hf. destruct Hf as (H1 & H2 & H3 & H4 & _).
  assert (units (trim (text_of_val (proxy e)))) as Hpu by (apply units_trim; destruct (proxy e); try done; constructor).
  assert (forall k v, is_index (js k) = false -> wf_val v -> is_index (js k) = false /\ units (js k) /\ wf_val v) as Hk by (intros; split_and!; [done|apply units_js|done]).
  unfold stored_extra. split.
  - destruct (is_http1 e); [|destruct (ngt _ _)]; apply (bool_decide_unpack _); vm_compute; reflexivity.
  - apply Forall_app. split.
    + repeat (apply Forall_cons; split); [..|constructor]; cbn [fst snd]; apply Hk; try reflexivity;
        first [by apply flag_wf|by constructor|by apply z_text_wf; [..|constructor]].
    + destruct (is_http1 e); [|destruct (ngt _ _)]; repeat constructor; cbn [fst snd]; try apply units_js; done.
Qed.

Lemma shards_range e : is_nan (shards_of e) = false /\ nlt (shards_of e) one = false /\ ngt (shards_of e) MAX_HTTP2_CONNECTION_SHARDS = false.
Proof.
  unfold shards_of. destruct (http2_connection_shards e) as [| | |x| | |]; try done. destruct (is_nan x) eqn:E1; [done|]. cbn [orb].
  destruct (neq x zero); [done|]. destruct (nlt x one) eqn:E2; [done|]. cbn [orb]. by destruct (ngt x _) eqn:E3.
Qed.

Lemma at_most_one x : is_nan x = false -> nlt x one = false -> ngt x one = false -> x = one.
Proof.
  intros Hn Hl Hg. assert (neq x one = true) as H; [|exact (neq_finite _ _ _ _ H)]. unfold neq, nlt, ngt, SFeqb, SFltb in *. rewrite (SFcompare_swap x one) in Hg.
  destruct (SFcompare x one) as [[]|] eqn:E; try done. apply SFcompare_None in E as [E|E]; [congruence|done].
Qed.

Lemma normalize_shards_again x :
  is_nan x = false -> nlt x one = false -> ngt x MAX_HTTP2_CONNECTION_SHARDS = false -> normalizeHttp2ConnectionShards (VNum x) = Some (VNum x).
Proof.
  intros Hn Hl Hg. unfold normalizeHttp2ConnectionShards, clamp_shards. rewrite Hn, Hl, Hg. cbn [orb]. destruct (neq x zero) eqn:E; [|done]. exfalso.
  destruct x as [b|b| |b m e]; [destruct b; vm_compute in Hl; discriminate Hl|destruct b; vm_compute in E; discriminate E|discriminate Hn|by destruct b].
Qed.

Lemma extra_reread e : extra_ok e -> read_extra (stringify (VObj (stored_extra e))) = settled_extra e.
Proof.
  intros He. unfold read_extra. rewrite stringify_truthy. unfold stringify. rewrite parse_stringify; [|constructor|by apply plain_obj_wf, stored_extra_plain].
  cbn [mbind option_bind nullish]. destruct (shards_range e) as (Hn & Hl & Hg).
  unfold settled_extra, stored_extra, flag_at, text_at. cbn [app get lookup_field]. keys. rewrite !or_val_idem.
  destruct (is_http1 e); [|destruct (ngt (shards_of e) one) eqn:E]; cbn [get lookup_field]; keys.
  - cbn. by destruct (trim _).
  - rewrite normalize_shards_again by done. cbn. by destruct (trim _).
  - rewrite (at_most_one (shards_of e)) by done. cbn. by destruct (trim _).
Qed.

(** ** The payload of an update *)

Lemma json_parse_blank s : trim s = [] -> json_parse s = None.
Proof.
  intros Hs%trim_nil_spaces. unfold json_parse. cbn [parse_value]. destruct (skip_ws s) as [|c t] eqn:E; [done|].
  assert (is_space c = true) as Hc.
  { apply (proj1 (Forall_forall _ _) Hs). unfold skip_ws in E. destruct (span is_ws s) as [a b] eqn:Ep. cbn in E. apply span_spec in Ep as [-> _]. rewrite E. apply elem_of_app. right. left. }
  assert (forall x, is_space x = false -> (c =? x) = false) as Hx by (intros x Hx; apply Z.eqb_neq; congruence).
  rewrite !Hx by reflexivity. destruct (eat_number (c :: t)) as [r|] eqn:En; [|done]. apply eat_number_head in En as [->|Hd]; [done|].
  apply digit_not_space in Hd. congruence.
Qed.

Lemma json_parse_defined s : json_parse s <> Some VUndef.
Proof.
  unfold json_parse. cbn [parse_value]. destruct (skip_ws s) as [|c t]; [done|]. intros ([v r] & Hp & Hv)%bind_Some. cbn in Hv.
  assert (v = VUndef) as -> by (destruct (skip_ws r); congruence).
  repeat match type of Hp with
         | (if ?b then _ else _) = _ => destruct b
         | (_ ≫= _) = Some _ => apply bind_Some in Hp as (? & _ & Hp)
         | (let '(_, _) := ?p in _) = _ => destruct p
         | match ?x with _ => _ end = _ => destruct x
         end; try discriminate Hp.
Qed.

Definition old_settings (f : ChannelFormValues) : list (jsstr * val) := match json_parse (settings f) with Some (VObj fs) => fs | _ => [] end.

Lemma settings_text f :
  isOptionalJsonObject (settings f) = true -> buildSettingsJSON f = Some (stringify (VObj (settings_fields (type f) (typed f) (old_settings f)))).
Proof.
  intros Ho. assert (json_parse (settings f) = None \/ exists fs, json_parse (settings f) = Some (VObj fs)) as Hp.
  { unfold isOptionalJsonObject, parseOptionalJson in Ho. destruct (truthy_str (trim (settings f))) eqn:E.
    - destruct (json_parse (settings f)) as [[]|] eqn:Ej; try done; [|by right; eexists]. exfalso. clear -Ej. by apply json_parse_defined in Ej.
    - left. apply json_parse_blank. by destruct (trim (settings f)). }
  unfold buildSettingsJSON, old_settings. destruct (truthy_str (settings f)) eqn:E1; [destruct (streq (settings f) (js "{}")) eqn:E2|]; cbn [andb negb].
  - apply streq_true in E2. by rewrite E2.
  - by destruct Hp as [->|[fs ->]].
  - by destruct (settings f).
Qed.

(** The fields of the payload. *)
Definition payload_fields (f : ChannelFormValues) (channelId : Z) (setting_text settings_text : jsstr) : list (jsstr * val) :=
  [(js "id", VNum (num_of_Z channelId)); (js "name", clean_val (VStr (name f))); (js "type", VNum (num_of_Z (type f)));
   (js "base_url", VStr (normalizeBaseUrl (base_url f))); (js "openai_organization", VStr (openai_organization f));
   (js "models", clean_val (VStr (models f))); (js "group", clean_val (VStr (formatGroups (group f)))); (js "model_mapping", VStr (model_mapping f));
   (js "priority", num_or zero (priority f)); (js "weight", num_or zero (weight f));
   (js "rate_limit_rpm", num_or zero (rate_limit_rpm f)); (js "rate_limit_tpm", num_or zero (rate_limit_tpm f));
   (js "test_model", VStr (test_model f)); (js "auto_ban", num_or one (auto_ban f));
   (js "status_code_mapping", VStr (status_code_mapping f)); (js "tag", VStr (tag f)); (js "remark", VStr (remark f));
   (js "setting", clean_val (VStr setting_text)); (js "param_override", VStr (param_override f)); (js "header_override", VStr (header_override f));
   (js "settings", clean_val (VStr settings_text)); (js "other", clean_val (VStr (other f)))]
  ++ (if truthy_str (key f) && truthy_str (trim (key f)) then [(js "key", clean_val (VStr (key f)))] else []).

Lemma update_payload f channelId st ss :
  buildSettingJSON f = Some st -> buildSettingsJSON f = Some ss ->
  transformFormDataToUpdatePayload f channelId = Some (payload_fields f channelId st ss).
Proof.
  intros H1 H2. unfold transformFormDataToUpdatePayload, payload_fields. rewrite H1, H2. cbn [mbind option_bind]. f_equal.
  destruct (truthy_str (key f) && truthy_str (trim (key f))); reflexivity.
Qed.

(** ** An accepted form *)

Lemma problem_nil b p m : problem b p m = [] <-> b = false.
Proof. by destruct b. Qed.
Lemma invalid_nil b p : invalid b p = [] <-> b = false.
Proof. by destruct b. Qed.

(** The texts of the form are texts of JSON, and the settings it was opened with and the
    routes can be written. *)
Record printable (f : ChannelFormValues) : Prop := {
  pr_type : type f < 256;
  pr_texts : Forall val_units [proxy (extra f); system_prompt (extra f); vertex_key_type (typed f); azure_responses_version (typed f);
                               system_one_path (typed f); aws_key_type (typed f)];
  pr_ignored : units (ignored_models (typed f));
  pr_shards : match http2_connection_shards (extra f) with VNum x => num_ok x = true | _ => True end;
  pr_old : plain_obj (old_settings f);
  pr_routes : forall c, parseAdvancedCustomConfig (advanced_custom (typed f)) = Some c -> wf_val c
}.

Section Accepted.
Context (newURL : jsstr -> option URL) (f : ChannelFormValues) (Hok : channelFormSchema newURL f = Some []).

Lemma accepted_types : type_issues f = [].
Proof. unfold channelFormSchema in Hok. by destruct (type_issues f). Qed.

Lemma accepted_parts : field_issues newURL f = [] /\ custom_issues newURL f = Some [].
Proof.
  unfold channelFormSchema in Hok. rewrite accepted_types in Hok. apply bind_Some in Hok as (c & Hc & [= H]).
  apply app_eq_nil in H as [H1 [_ [-> _]%app_eq_nil]%app_eq_nil]. done.
Qed.

Lemma accepted_settings : isOptionalJsonObject (settings f) = true.
Proof.
  destruct accepted_parts as [H _]. unfold field_issues in H. rewrite !app_nil, !problem_nil, !negb_false_iff in H. tauto.
Qed.

Lemma accepted_routes : type f = CHANNEL_TYPE_ADVANCED_CUSTOM -> exists c, parseAdvancedCustomConfig (advanced_custom (typed f)) = Some c.
Proof.
  intros Ht. destruct accepted_parts as [_ H]. unfold custom_issues in H. rewrite (proj2 (Z.eqb_eq _ _) Ht) in H.
  destruct (parseAdvancedCustomConfig _) as [c|]; [by exists c|]. by cbn in H.
Qed.

Lemma accepted_extra : printable f -> extra_ok (extra f).
Proof.
  intros [_ Hu _ Hs _ _]. pose proof accepted_types as H. unfold type_issues in H. rewrite !app_nil, !invalid_nil, !negb_false_iff in H.
  rewrite !Forall_cons in Hu. destruct_and!. split; try (by split); repeat (apply Forall_cons; split); try done; constructor.
Qed.

Lemma accepted_typed : printable f -> typed_ok (type f) (typed f).
Proof.
  intros [_ Hu Hi _ _ Hr]. pose proof accepted_types as H. unfold type_issues in H. rewrite !app_nil, !invalid_nil, !negb_false_iff in H.
  rewrite !Forall_cons in Hu. destruct_and!.
  split; try (by split; [eauto using z_enum_text|]); [done|]. intros Ht. destruct (accepted_routes Ht) as (c & Hc). exists c. auto.
Qed.

Lemma accepted_texts :
  buildSettingJSON f = Some (stringify (VObj (stored_extra (extra f))))
  /\ buildSettingsJSON f = Some (stringify (VObj (settings_fields (type f) (typed f) (old_settings f)))).
Proof.
  split; [|by apply settings_text, accepted_settings]. pose proof accepted_types as H. unfold type_issues in H. rewrite !app_nil, !invalid_nil, !negb_false_iff in H.
  apply setting_text; tauto.
Qed.

Lemma accepted_transport : printable f -> server_accepts_setting (stringify (VObj (stored_extra (extra f)))) = true.
Proof.
  intros Hp. pose proof (accepted_extra Hp) as He. unfold server_accepts_setting, stringify.
  rewrite parse_stringify; [|constructor|by apply plain_obj_wf, stored_extra_plain]. unfold stored_extra. cbn [app get lookup_field]. keys.
  destruct (is_http1 (extra f)); [|destruct (ngt (shards_of (extra f)) one) eqn:E]; cbn [get lookup_field]; keys; [done| |done].
  destruct (shards_range (extra f)) as (Hn & Hl & Hg). unfold ValidateHTTPTransport. cbn [PriceTables.TrimSpace map]. rewrite Hg.
  assert (nlt (shards_of (extra f)) zero = false) as ->.
  { destruct (nlt (shards_of (extra f)) zero) eqn:Ez; [|done]. exfalso. clear Hn Hg. destruct (shards_of (extra f)) as [[]|[]| |[] m x]; done. }
  assert (is_integer (shards_of (extra f)) = true) as ->; [|done].
  unfold shards_of. destruct (http2_connection_shards (extra f)) as [| | |x| | |] eqn:Ex; try done. destruct (ok_shards _ He) as [Hz _]. rewrite Ex in Hz.
  cbn in Hz. apply andb_true_iff in Hz as [Hz _]. repeat case_match; done.
Qed.

End Accepted.

(** C16: a form the schema accepts can be sent. Building the payload of a new channel and of
    an update does not raise, whatever the values that were read from stored JSON, and
    the transport settings that are stored pass the check of the server. *)
Theorem accepted_form_sent (newURL : jsstr -> option URL) (f : ChannelFormValues) (channelId : Z) :
  channelFormSchema newURL f = Some [] ->
  (exists p, transformFormDataToUpdatePayload f channelId = Some p) /\ (exists q, transformFormDataToCreatePayload f = Some q)
  /\ (printable f -> exists st, buildSettingJSON f = Some st /\ server_accepts_setting st = true).
Proof.
  intros Hok. destruct (accepted_texts newURL f Hok) as [H1 H2]. split_and!.
  - eexists. by apply update_payload.
  - unfold transformFormDataToCreatePayload. rewrite H1, H2. by eexists.
  - intros Hp. eexists. split; [done|]. by eapply accepted_transport.
Qed.

(** ** Saving and opening again *)

(** A column that has the value of the payload where the payload has one. *)
Definition text_stored (o : option jsstr) (v : val) : Prop := match v with VStr s => o = Some s | _ => True end.
Definition num_stored (o : option num) (v : val) : Prop := match v with VNum x => o = Some x | _ => True end.

Definition type_stored (z : Z) (v : val) : Prop := match v with VNum x => num_of_Z z = x /\ 0 <= z < 256 | _ => True end.

(** Channel types are small integers, which their numbers tell apart. *)
Definition int_part (x : num) : Z := match x with S754_finite _ m e => Z.shiftr (Zpos m) (- e) | _ => 0 end.

Lemma int_part_small z : 0 <= z < 256 -> int_part (num_of_Z z) = z.
Proof.
  intros Hz. assert (forallb (fun z => int_part (num_of_Z z) =? z) (seqZ 0 256) = true) as H by (vm_compute; reflexivity).
  rewrite forallb_forall in H. apply Z.eqb_eq, H, list_elem_of_In, elem_of_seqZ. lia.
Qed.

(** A channel on which the payload was stored. Nothing is assumed of the columns the
    payload leaves out or has [null] for. *)
Definition stored (p : list (jsstr * val)) (c : Channel) : Prop :=
  type_stored (c_type c) (get "type" (VObj p))
  /\ text_stored (c_name c) (get "name" (VObj p)) /\ text_stored (c_base_url c) (get "base_url" (VObj p))
  /\ text_stored (c_openai_organization c) (get "openai_organization" (VObj p)) /\ text_stored (c_models c) (get "models" (VObj p))
  /\ text_stored (c_group c) (get "group" (VObj p)) /\ text_stored (c_model_mapping c) (get "model_mapping" (VObj p))
  /\ num_stored (c_priority c) (get "priority" (VObj p)) /\ num_stored (c_weight c) (get "weight" (VObj p))
  /\ num_stored (c_rate_limit_rpm c) (get "rate_limit_rpm" (VObj p)) /\ num_stored (c_rate_limit_tpm c) (get "rate_limit_tpm" (VObj p))
  /\ text_stored (c_test_model c) (get "test_model" (VObj p)) /\ num_stored (c_auto_ban c) (get "auto_ban" (VObj p))
  /\ text_stored (c_status_code_mapping c) (get "status_code_mapping" (VObj p)) /\ text_stored (c_tag c) (get "tag" (VObj p))
  /\ text_stored (c_remark c) (get "remark" (VObj p)) /\ text_stored (c_setting c) (get "setting" (VObj p))
  /\ text_stored (c_param_override c) (get "param_override" (VObj p)) /\ text_stored (c_header_override c) (get "header_override" (VObj p))
  /\ text_stored (c_settings c) (get "settings" (VObj p)) /\ text_stored (c_other c) (get "other" (VObj p)).

(** The settings in JSON as a channel of the type shows them: those of other types have
    their defaults. *)
Definition own_typed (t : Z) (s : TypeSettings) : TypeSettings :=
  mkTypeSettings
    (if t =? 41 then or_val (vertex_key_type s) (VStr (js "json")) else VStr (js "json"))
    (if t =? 3 then or_val (azure_responses_version s) (VStr []) else VStr [])
    (if t =? 61 then or_val (system_one_path s) (VStr []) else VStr [])
    ((t =? 20) && is_enterprise_account s)
    (if t =? 33 then or_val (aws_key_type s) (VStr (js "ak_sk")) else VStr (js "ak_sk"))
    (type_in t [1; 14; 57] && allow_service_tier s) (type_in t [1; 57] && disable_store s) (type_in t [1; 57] && allow_safety_identifier s)
    (type_in t [1; 57] && allow_include_obfuscation s) (type_in t [1; 14; 57] && allow_inference_geo s) ((t =? 14) && allow_speed s)
    ((t =? 14) && claude_beta_query s) (disable_task_polling_sleep s)
    (check_enabled s) (check_enabled s && auto_sync_enabled s) (join (js ",") (ignored_list (ignored_models s)))
    (if t =? CHANNEL_TYPE_ADVANCED_CUSTOM then default [] (stringify2 <$> parseAdvancedCustomConfig (advanced_custom s)) else []).

(** The form that was saved, as it is shown: nothing in it depends on what was stored
    before, but the status and the mode of the keys, which an update does not send. *)
Definition reopened (f : ChannelFormValues) (stored_status : Z) (key_type setting_text settings_text : jsstr) : ChannelFormValues :=
  mkForm (name f) (type f) (normalizeBaseUrl (base_url f)) [] (openai_organization f) (models f) (group f)
    (model_mapping f) (Some (or_zero (priority f))) (Some (or_zero (weight f))) (Some (or_zero (rate_limit_rpm f))) (Some (or_zero (rate_limit_tpm f)))
    (test_model f) (Some (default one (auto_ban f))) stored_status (status_code_mapping f) (tag f) (remark f)
    setting_text (param_override f) (header_override f) settings_text (other f) (js "single") key_type false (js "append")
    (settled_extra (extra f)) (own_typed (type f) (typed f)).

(** Groups that are names: not empty, without commas, without white space around. *)
Definition plain_groups (l : list jsstr) : Prop := l <> [] /\ Forall (fun g => g <> [] /\ trim g = g /\ 44 ∉ g) l.

Lemma groups_reread l : plain_groups l -> truthy_str (formatGroups l) = true /\ parseGroups (formatGroups l) = l.
Proof.
  intros [Hne Hf]. assert (truthy_str (formatGroups l) = true) as Ht.
  { destruct l as [|g l]; [done|]. apply Forall_cons in Hf as [[Hg _] _]. unfold formatGroups. destruct g; [done|]. cbn [join]. by destruct l. }
  split; [done|]. unfold parseGroups. rewrite Ht. unfold formatGroups. change (js ",") with [44].
  rewrite split_on_join by (done || (eapply Forall_impl; [exact Hf|]; by intros g (_ & _ & ?))). clear Hne Ht.
  induction Hf as [|g l (Hg & Htr & _) _ IH]; [done|]. cbn [map List.filter]. rewrite Htr, IH. by destruct g.
Qed.

(** What the form holds of the upstream check is what is stored: it is written for the
    types whose models can be fetched, and for the others it is what was stored. *)
Definition updates_current (f : ChannelFormValues) : Prop :=
  type_in (type f) MODEL_FETCHABLE_TYPES = true
  \/ (check_enabled (typed f) = on_at "upstream_model_update_check_enabled" (VObj (old_settings f))
      /\ check_enabled (typed f) && auto_sync_enabled (typed f) = on_at "upstream_model_update_auto_sync_enabled" (VObj (old_settings f))
      /\ join (js ",") (ignored_list (ignored_models (typed f)))
         = match get "upstream_model_update_ignored_models" (VObj (old_settings f)) with VArr l => default [] (to_string (VArr l)) | _ => [] end).

Lemma typed_current f : updates_current f -> settled_typed (type f) (typed f) (old_settings f) = own_typed (type f) (typed f).
Proof. unfold settled_typed, own_typed. intros [->|(H1 & H2 & H3)]; [done|]. rewrite <- H1, <- H2, <- H3. by destruct (type_in (type f) MODEL_FETCHABLE_TYPES). Qed.

Lemma or_zero_default o : or_zero (Some (default zero o)) = or_zero o.
Proof. by destruct o. Qed.

Lemma text_stored_clean o s : text_stored o (clean_val (VStr s)) -> truthy_str s = true -> o = Some s.
Proof. by destruct s. Qed.

Lemma payload_texts f channelId st ss :
  truthy_str st = true -> truthy_str ss = true ->
  get "setting" (VObj (payload_fields f channelId st ss)) = VStr st /\ get "settings" (VObj (payload_fields f channelId st ss)) = VStr ss.
Proof. intros H1 H2. unfold payload_fields. cbn [app get lookup_field]. keys. by destruct st, ss. Qed.

Lemma stored_payload f channelId st ss c :
  0 <= type f < 256 -> stored (payload_fields f channelId st ss) c ->
  c_type c = type f /\ (truthy_str (name f) = true -> c_name c = Some (name f)) /\ c_base_url c = Some (normalizeBaseUrl (base_url f))
  /\ c_openai_organization c = Some (openai_organization f) /\ (truthy_str (models f) = true -> c_models c = Some (models f))
  /\ (truthy_str (formatGroups (group f)) = true -> c_group c = Some (formatGroups (group f))) /\ c_model_mapping c = Some (model_mapping f)
  /\ c_priority c = Some (default zero (priority f)) /\ c_weight c = Some (default zero (weight f))
  /\ c_rate_limit_rpm c = Some (default zero (rate_limit_rpm f)) /\ c_rate_limit_tpm c = Some (default zero (rate_limit_tpm f))
  /\ c_test_model c = Some (test_model f) /\ c_auto_ban c = Some (default one (auto_ban f))
  /\ c_status_code_mapping c = Some (status_code_mapping f) /\ c_tag c = Some (tag f) /\ c_remark c = Some (remark f)
  /\ (truthy_str st = true -> c_setting c = Some st) /\ c_param_override c = Some (param_override f) /\ c_header_override c = Some (header_override f)
  /\ (truthy_str ss = true -> c_settings c = Some ss) /\ (truthy_str (other f) = true -> c_other c = Some (other f)).
Proof.
  intros Ht (H1 & H2 & H3 & H4 & H5 & H6 & H7 & H8 & H9 & H10 & H11 & H12 & H13 & H14 & H15 & H16 & H17 & H18 & H19 & H20 & H21).
  assert (c_type c = type f) as Hc.
  { destruct H1 as [H1 Hz]. rewrite <- (int_part_small (c_type c) Hz), <- (int_part_small (type f) Ht). by rewrite H1. }
  exact (conj Hc (conj (text_stored_clean _ _ H2) (conj H3 (conj H4 (conj (text_stored_clean _ _ H5) (conj (text_stored_clean _ _ H6)
    (conj H7 (conj H8 (conj H9 (conj H10 (conj H11 (conj H12 (conj H13 (conj H14 (conj H15 (conj H16 (conj (text_stored_clean _ _ H17)
    (conj H18 (conj H19 (conj (text_stored_clean _ _ H20) (text_stored_clean _ _ H21))))))))))))))))))))).
Qed.

(** C14: what was saved is shown again. For an accepted form with groups that are names,
    whose settings of the upstream check are written or are those stored, and with a text
    in [other] unless none is stored, opening a channel that holds the payload of the
    update shows the form that was saved: every text and number, rate limits of 0
    included, with the base URL without its final slashes, the extra settings as they are
    normalised, and of the settings in JSON those of the type of the channel; the two
    texts of the settings are those of the payload. The key is never shown; the status
    and the mode of the keys, which are not sent, are those of the channel. Clearing
    [other] is not covered: the payload has [null] for it and the old text may be shown
    again ([cleared_other_back]). *)
Theorem reopen_shows_saved (newURL : jsstr -> option URL) (f : ChannelFormValues) (channelId : Z) (p : list (jsstr * val)) (c : Channel) :
  channelFormSchema newURL f = Some [] -> printable f -> plain_groups (group f) -> updates_current f ->
  truthy_str (other f) = true \/ text (c_other c) = [] ->
  transformFormDataToUpdatePayload f channelId = Some p -> stored p c ->
  exists setting_text settings_text, get "setting" (VObj p) = VStr setting_text /\ get "settings" (VObj p) = VStr settings_text
  /\ transformChannelToFormDefaults c = reopened f (c_status c) (or_str (text (c_multi_key_mode c)) (js "random")) setting_text settings_text.
Proof.
  intros Hok Hp [Hg Hgr]%groups_reread Hup Hother Hu Hs. destruct (accepted_texts newURL f Hok) as [H1 H2]. rewrite (update_payload f channelId _ _ H1 H2) in Hu.
  apply (inj Some) in Hu as <-.
  pose proof (accepted_extra newURL f Hok Hp) as He. pose proof (accepted_typed newURL f Hok Hp) as Ht.
  destruct (accepted_parts newURL f Hok) as [Hf _]. unfold field_issues in Hf. rewrite !app_nil, !problem_nil, !negb_false_iff in Hf.
  destruct Hf as (Hname & Htype & Hmodels & _). assert (0 <= type f < 256) as Hr by (pose proof (pr_type f Hp); lia).
  destruct (stored_payload _ _ _ _ _ Hr Hs) as (E1 & E2 & E3 & E4 & E5 & E6 & E7 & E8 & E9 & E10 & E11 & E12 & E13 & E14 & E15 & E16 & E17 & E18 & E19 & E20 & E21).
  exists (stringify (VObj (stored_extra (extra f)))), (stringify (VObj (settings_fields (type f) (typed f) (old_settings f)))).
  destruct (payload_texts f channelId _ _ (stringify_truthy (stored_extra (extra f))) (stringify_truthy (settings_fields (type f) (typed f) (old_settings f)))) as [G1 G2].
  split; [exact G1|]. split; [exact G2|]. unfold transformChannelToFormDefaults, reopened.
  rewrite E1, E2, E3, E4, E5, E6, E7, E8, E9, E10, E11, E12, E13, E14, E15, E16, E17, E18, E19, E20 by (done || apply stringify_truthy).
  cbn [text default from_option id]. unfold or_str at 1 2. rewrite Hg, Hgr, stringify_truthy, !or_zero_default, extra_reread, typed_reread, (typed_current f Hup) by (done || apply Hp).
  assert (text (c_other c) = other f) as ->; [|done]. destruct (truthy_str (other f)) eqn:Eo; [by rewrite E21|].
  destruct Hother as [|Hother]; [done|]. rewrite Hother. by destruct (other f).
Qed.

(** A channel of type Anthropic that was opened with a setting the form does not know. *)
Definition sample_form : ChannelFormValues :=
  mkForm (js "acme") 14 (js " https://api.example// ") (js "sk-1") [] (js "opus") [js "default"; js "vip"] [] (Some zero) None (Some (num_of_Z 60)) (Some zero)
    [] (Some one) 1 [] [] [] [] [] [] (jq "{'region':'eu','vertex_key_type':'json'}") [] (js "single") (js "random") false (js "append")
    (mkExtra (VBool true) (VBool false) (VStr []) HTTP_PROTOCOL_AUTO (VNum (num_of_Z 3)) (VBool false) (VStr (js "hi")) (VBool false))
    (mkTypeSettings (VStr (js "json")) (VStr []) (VStr []) false (VStr (js "ak_sk")) true false false false true true false false true false (js " a, b,a") []).

Lemma sample_printable : printable sample_form.
Proof.
  split.
  - reflexivity.
  - repeat (apply Forall_cons; split); try apply units_js; constructor.
  - apply units_js.
  - reflexivity.
  - change (old_settings sample_form) with [(js "region", VStr (js "eu")); (js "vertex_key_type", VStr (js "json"))].
    split; [apply (bool_decide_unpack _); vm_compute; reflexivity|]. repeat constructor; apply units_js.
  - intros c H. discriminate H.
Qed.

Lemma accepted_form_sent_witness :
  exists p, transformFormDataToUpdatePayload sample_form 7 = Some p.
Proof. refine (proj1 (accepted_form_sent (fun _ => None) sample_form 7 _)). vm_compute. reflexivity. Defined.

Definition sample_channel : Channel :=
  mkChannel (Some (js "acme")) 14 (Some (js "https://api.example")) (Some []) (Some (js "opus")) (Some (js "default,vip")) (Some []) (Some zero) (Some zero)
    (Some (num_of_Z 60)) (Some zero) (Some []) (Some one) 2 (Some []) (Some []) (Some []) (buildSettingJSON sample_form) (Some []) (Some [])
    (buildSettingsJSON sample_form) None None.

Lemma reopen_shows_saved_witness :
  settings (transformChannelToFormDefaults sample_channel)
  = jq "{'region':'eu','allow_service_tier':true,'allow_inference_geo':true,'allow_speed':true,'claude_beta_query':false,'disable_task_polling_sleep':false,'upstream_model_update_check_enabled':true,'upstream_model_update_auto_sync_enabled':false,'upstream_model_update_ignored_models':['a','b'],'upstream_model_update_last_detected_models':[],'upstream_model_update_last_check_time':0}"
  /\ rate_limit_tpm (transformChannelToFormDefaults sample_channel) = Some zero /\ group (transformChannelToFormDefaults sample_channel) = group sample_form.
Proof.
  destruct (reopen_shows_saved (fun _ => None) sample_form 7
    (payload_fields sample_form 7 (default [] (buildSettingJSON sample_form)) (default [] (buildSettingsJSON sample_form))) sample_channel) as (st & ss & _ & Hss & ->).
  - vm_compute. reflexivity.
  - apply sample_printable.
  - split; [discriminate|]. repeat (apply Forall_cons; split; [split_and!; [discriminate|vm_compute; reflexivity|listed]|]). apply Forall_nil_2.
  - left. reflexivity.
  - right. reflexivity.
  - apply update_payload; vm_compute; reflexivity.
  - split; [vm_compute; split_and!; congruence|vm_compute; split_and!; reflexivity || exact I].
  - cbn [reopened settings rate_limit_tpm group]. split; [|split; reflexivity].
    assert (VStr ss = VStr (default [] (buildSettingsJSON sample_form))) as Hx by (rewrite <- Hss; vm_compute; reflexivity). injection Hx as ->. vm_compute. reflexivity.
Defined.

(** A cleared [other] is [null] in the payload, so a channel that still has the old text
    holds the payload, and shows the old text. *)
Example cleared_other_back :
  let p := payload_fields sample_form 7 (default [] (buildSettingJSON sample_form)) (default [] (buildSettingsJSON sample_form)) in
  let c := mkChannel (c_name sample_channel) 14 (c_base_url sample_channel) (Some []) (c_models sample_channel) (c_group sample_channel) (Some []) (Some zero) (Some zero)
    (Some (num_of_Z 60)) (Some zero) (Some []) (Some one) 2 (Some []) (Some []) (Some []) (c_setting sample_channel) (Some []) (Some [])
    (c_settings sample_channel) (Some (js "v1")) None in
  other sample_form = [] /\ get "other" (VObj p) = VNull /\ other (transformChannelToFormDefaults c) = js "v1".
Proof. split_and!; vm_compute; reflexivity. Qed.

(** ** Settings of other types and settings of others *)

(** The types each setting belongs to. *)
Definition setting_owners : list (string * list Z) :=
  [("vertex_key_type", [41]); ("azure_responses_version", [3]); ("system_one_path", [61]); ("openrouter_enterprise", [20]); ("aws_key_type", [33]);
   ("allow_service_tier", [1; 14; 57]); ("disable_store", [1; 57]); ("allow_safety_identifier", [1; 57]); ("allow_include_obfuscation", [1; 57]);
   ("allow_inference_geo", [1; 14; 57]); ("allow_speed", [14]); ("claude_beta_query", [14]); ("advanced_custom", [58])]%string.

Lemma foreign_absent t s old k ts :
  (t = CHANNEL_TYPE_ADVANCED_CUSTOM -> is_Some (parseAdvancedCustomConfig (advanced_custom s))) ->
  (k, ts) ∈ setting_owners -> type_in t ts = false -> get k (VObj (settings_fields t s old)) = VUndef.
Proof.
  intros Hr Hin Hf. destruct (type_key_values t s old) as (V1 & V2 & V3 & V4 & V5).
  destruct (passthrough_values t s old) as (P1 & P2 & P3 & P4 & P5 & P6 & P7 & _).
  assert (t <> CHANNEL_TYPE_ADVANCED_CUSTOM -> get "advanced_custom" (VObj (settings_fields t s old)) = VUndef) as R.
  { intros Ht. rewrite (routes_value t s old VUndef) by done. by rewrite (proj2 (Z.eqb_neq _ _) Ht). }
  unfold setting_owners in Hin.
  repeat (apply elem_of_cons in Hin as [[= -> ->]|Hin];
    [first [rewrite V1|rewrite V2|rewrite V3|rewrite V4|rewrite V5|rewrite P1|rewrite P2|rewrite P3|rewrite P4|rewrite P5|rewrite P6|rewrite P7|apply R];
     rewrite ?Hf; try done; unfold type_in in Hf; cbn [existsb] in Hf; rewrite orb_false_r in Hf; rewrite ?Hf; try done; by apply Z.eqb_neq|]).
  by apply elem_of_nil in Hin.
Qed.

(** The settings of the upstream check, for a type without a model list. *)
Lemma updates_kept t s old k : type_in t MODEL_FETCHABLE_TYPES = false -> k ∈ update_keys -> get k (VObj (settings_fields t s old)) = get k (VObj old).
Proof. intros Hf Hk. rewrite settings_update_key by done. unfold upstream_updates. rewrite Hf. by apply before_updates. Qed.

(** C17: saving a channel changes no setting the form does not know, and leaves no setting
    of another channel type but for the five of the upstream check: in the settings text
    of an accepted form every key that the form does not manage has its old value, and
    the keys that belong to other types are gone. The keys upstream_model_update_* are
    written for the types whose models can be fetched; for any other type they are not
    removed but keep their old values ([update_check_stays]). *)
Theorem settings_scoped (newURL : jsstr -> option URL) (f : ChannelFormValues) :
  channelFormSchema newURL f = Some [] -> printable f ->
  exists text fs, buildSettingsJSON f = Some text /\ json_parse text = Some (VObj fs)
  /\ (forall k, k ∉ map js managed_keys -> lookup_field k fs = lookup_field k (old_settings f))
  /\ (forall k ts, (k, ts) ∈ setting_owners -> type_in (type f) ts = false -> get k (VObj fs) = VUndef)
  /\ forall k, k ∈ update_keys -> type_in (type f) MODEL_FETCHABLE_TYPES = false -> get k (VObj fs) = get k (VObj (old_settings f)).
Proof.
  intros Hok Hp. destruct (accepted_texts newURL f Hok) as [_ H2]. eexists. eexists. split; [done|]. split_and!.
  - unfold stringify. apply parse_stringify; [constructor|]. apply plain_obj_wf, plain_settings; [by eapply accepted_typed|apply Hp].
  - intros k Hk. by apply other_settings_kept.
  - intros k ts. apply foreign_absent. intros Ht. destruct (accepted_routes newURL f Hok Ht) as [c ->]. by eexists.
  - intros k Hk Ht. by apply updates_kept.
Qed.

Lemma settings_scoped_witness :
  exists text fs, buildSettingsJSON sample_form = Some text /\ json_parse text = Some (VObj fs)
  /\ lookup_field (js "region") fs = VStr (js "eu") /\ get "vertex_key_type" (VObj fs) = VUndef.
Proof.
  refine (match settings_scoped (fun _ => None) sample_form _ sample_printable with
          | ex_intro _ text (ex_intro _ fs (conj H1 (conj H2 (conj H3 (conj H4 _))))) =>
            ex_intro _ text (ex_intro _ fs (conj H1 (conj H2 (conj (eq_trans (H3 (js "region") _) _) (H4 "vertex_key_type"%string [41] _ _)))))
          end).
  - vm_compute. reflexivity.
  - apply (bool_decide_unpack _). vm_compute. reflexivity.
  - vm_compute. reflexivity.
  - left.
  - reflexivity.
Defined.

(** The settings of the upstream check are the exception: they stay when the channel becomes
    one of a type without a model list, whose form neither shows nor writes them. *)
Example update_check_stays :
  let f := mkForm (js "acme") 41 [] [] [] (js "opus") [js "default"] [] None None None None [] None 1 [] [] [] [] [] []
             (jq "{'upstream_model_update_check_enabled':true}") (js "us") (js "single") (js "random") false (js "append") default_extra default_typed in
  channelFormSchema (fun _ => None) f = Some []
  /\ buildSettingsJSON f = Some (jq "{'upstream_model_update_check_enabled':true,'vertex_key_type':'json','disable_task_polling_sleep':false}").
Proof. split; vm_compute; reflexivity. Qed.

(** ** Permissions *)

Lemma drop_all_keys ks p k : k ∈ map fst (fold_left (fun p k => drop k p) ks p) <-> k ∈ map fst p /\ k ∉ map js ks.
Proof.
  revert p. induction ks as [|k0 ks IH]; intros p; cbn [fold_left map]; [set_solver|].
  rewrite IH. unfold drop. rewrite drop_field_keys, not_elem_of_cons. tauto.
Qed.

Lemma drop_all_lookup ks p k : k ∉ map js ks -> lookup_field k (fold_left (fun p k => drop k p) ks p) = lookup_field k p.
Proof.
  revert p. induction ks as [|k0 ks IH]; intros p Hn; [done|]. cbn [fold_left map] in *. apply not_elem_of_cons in Hn as [H1 H2]. rewrite IH by done.
  rewrite lookup_drop. by rewrite (proj2 (streq_false _ _) H1).
Qed.

Lemma payload_shape f channelId p :
  transformFormDataToUpdatePayload f channelId = Some p -> exists st ss, p = payload_fields f channelId st ss.
Proof.
  intros Hp. pose proof Hp as H. unfold transformFormDataToUpdatePayload in H. apply bind_Some in H as (st & H1 & (ss & H2 & _)%bind_Some).
  rewrite (update_payload f channelId st ss H1 H2) in Hp. injection Hp as <-. by exists st, ss.
Qed.

Lemma payload_key f channelId st ss : get "key" (VObj (payload_fields f channelId st ss)) = if truthy_str (trim (key f)) then VStr (key f) else VUndef.
Proof. destruct (truthy_str (trim (key f))) eqn:E; unfold payload_fields; rewrite E; [|by rewrite andb_false_r]. by destruct (key f). Qed.

Lemma payload_key_mode f channelId st ss : js "key_mode" ∉ map fst (payload_fields f channelId st ss).
Proof. unfold payload_fields. destruct (_ && _); apply (bool_decide_unpack _); vm_compute; reflexivity. Qed.

(** The request made of any payload with these two properties. *)
Lemma request_of_payload user isMultiKeyChannel f channelId payload req :
  transformFormDataToUpdatePayload f channelId = Some payload -> update_request user isMultiKeyChannel f channelId = Some req ->
  get "key" (VObj payload) = (if truthy_str (trim (key f)) then VStr (key f) else VUndef) -> js "key_mode" ∉ map fst payload ->
  if hasPermission user "channel" "sensitive_write"
  then get "key" (VObj req) = (if truthy_str (trim (key f)) then VStr (key f) else VUndef)
  else (forall k, k ∈ SENSITIVE_UPDATE_FIELDS -> js k ∉ map fst req) /\ js "key_mode" ∉ map fst req
       /\ forall k, k ∉ map js SENSITIVE_UPDATE_FIELDS -> lookup_field k req = lookup_field k payload.
Proof.
  intros Hp Hr Hkey Hmode. unfold update_request in Hr. rewrite Hp in Hr. clear Hp. cbn [mbind option_bind] in Hr. revert Hr.
  set (kept := if truthy_str (trim (key f)) then _ else _).
  assert (forall k, k <> js "key" -> lookup_field k kept = lookup_field k payload) as Hk.
  { intros k Hne. unfold kept. case_match; [done|]. rewrite lookup_drop. by rewrite (proj2 (streq_false _ _) Hne). }
  assert (get "key" (VObj kept) = if truthy_str (trim (key f)) then VStr (key f) else VUndef) as Hkey'.
  { unfold kept. destruct (truthy_str (trim (key f))) eqn:E; [done|]. cbn [get]. rewrite lookup_drop. by keys. }
  assert (js "key_mode" ∉ map fst kept) as Hmode'.
  { unfold kept. case_match; [done|]. unfold drop. rewrite drop_field_keys. tauto. }
  clearbody kept. remember SENSITIVE_UPDATE_FIELDS as ks eqn:Eks. destruct (hasPermission user _ _); cbn [andb]; intros [= <-].
  - match goal with |- get _ (VObj (if ?b then _ else _)) = _ => destruct b end; [|done]. cbn [get] in *. rewrite lookup_put by reflexivity. by keys.
  - split_and!.
    + intros k Hin. rewrite drop_all_keys. intros [_ H]. apply H. by apply (list_elem_of_fmap_2 js).
    + rewrite drop_all_keys. tauto.
    + intros k Hn. rewrite drop_all_lookup by done. apply Hk. intros ->. apply Hn. rewrite Eks. apply (list_elem_of_fmap_2 js). listed.
Qed.

(** A request has no field the payload does not have, but for the mode of the key. *)
Lemma request_fields user isMultiKeyChannel f channelId payload req k :
  transformFormDataToUpdatePayload f channelId = Some payload -> update_request user isMultiKeyChannel f channelId = Some req ->
  hasPermission user "channel" "sensitive_write" = false -> k ∈ map fst req -> k ∈ map fst payload.
Proof.
  intros Hp Hr Hh. unfold update_request in Hr. rewrite Hp, Hh in Hr. cbn [mbind option_bind andb] in Hr. apply (inj Some) in Hr as <-.
  rewrite drop_all_keys. intros [Hk _]. destruct (truthy_str (trim (key f))); [done|]. unfold drop in Hk. rewrite drop_field_keys in Hk. tauto.
Qed.

(** The fields of a payload are classified by the server. *)
Lemma payload_classified f channelId st ss k :
  k ∈ map fst (payload_fields f channelId st ss) -> k ∈ map js (channelSensitiveFields ++ channelNonSensitiveFields).
Proof.
  assert (forall l, forallb (fun k => bool_decide (k ∈ map js (channelSensitiveFields ++ channelNonSensitiveFields))) l = true ->
            k ∈ l -> k ∈ map js (channelSensitiveFields ++ channelNonSensitiveFields)) as H.
  { intros l Hl Hk. rewrite forallb_forall in Hl. apply (bool_decide_eq_true_1 (k ∈ _)), Hl, list_elem_of_In, Hk. }
  apply H. unfold payload_fields. destruct (_ && _); vm_compute; reflexivity.
Qed.

(** A request of classified fields without a sensitive one passes the check. *)
Lemma not_sensitive channel origin keyMode req :
  (forall k, k ∈ channelSensitiveFields -> js k ∉ map fst req) -> (forall k, k ∈ map fst req -> k ∈ map js (channelSensitiveFields ++ channelNonSensitiveFields)) ->
  channelHasSensitiveChanges channel origin keyMode req = false.
Proof.
  intros Hs Hc. unfold channelHasSensitiveChanges.
  assert (forall k, k ∈ channelSensitiveFields -> has_field k req = false) as Hb by (intros k Hk; by apply bool_decide_eq_false_2, Hs).
  rewrite !Hb by listed. cbn [andb orb]. apply not_true_iff_false. intros (e & He & Hn)%existsb_exists.
  apply negb_true_iff, bool_decide_eq_false in Hn. apply Hn. rewrite app_assoc, map_app, elem_of_app. left. apply Hc, (list_elem_of_fmap_2 fst), list_elem_of_In, He.
Qed.

(** C15: sensitive fields are only sent with the permission for them, where the server says
    which fields are sensitive (the update of a channel; creating one needs the
    permission anyway). Without it the request of an update has no field of the server's
    list, whatever the form holds; the check of the server finds no sensitive change in
    it, whatever is decoded of it and whatever is stored, so the update is not refused;
    and every field the server does not class as sensitive is the one of the payload.
    With the permission the key is sent exactly when the form has one. *)
Theorem sensitive_fields_withheld (user : option val) (isMultiKeyChannel : bool) (f : ChannelFormValues) (channelId : Z) (payload req : list (jsstr * val)) :
  transformFormDataToUpdatePayload f channelId = Some payload -> update_request user isMultiKeyChannel f channelId = Some req ->
  if hasPermission user "channel" "sensitive_write"
  then get "key" (VObj req) = (if truthy_str (trim (key f)) then VStr (key f) else VUndef)
  else (forall k, k ∈ channelSensitiveFields -> js k ∉ map fst req)
       /\ (forall channel origin keyMode, channelHasSensitiveChanges channel origin keyMode req = false)
       /\ forall k, k ∈ channelNonSensitiveFields -> lookup_field (js k) req = lookup_field (js k) payload.
Proof.
  intros Hp Hr. destruct (payload_shape f channelId payload Hp) as (st & ss & ->).
  pose proof (request_of_payload user isMultiKeyChannel f channelId _ req Hp Hr (payload_key f channelId st ss) (payload_key_mode f channelId st ss)) as H.
  destruct (hasPermission user _ _) eqn:Eh; [done|]. destruct H as (H1 & H2 & H3).
  assert (forall k, k ∈ channelSensitiveFields -> js k ∉ map fst req) as Hs.
  { intros k Hk. unfold channelSensitiveFields in Hk. repeat (apply elem_of_cons in Hk as [->|Hk]; [first [exact H2|apply H1; listed]|]). by apply elem_of_nil in Hk. }
  split_and!; [done| |].
  - intros channel origin keyMode. apply not_sensitive; [done|]. intros k Hk. apply (payload_classified f channelId st ss).
    by eapply request_fields.
  - intros k Hk. apply H3. revert Hk. unfold channelNonSensitiveFields. intros Hk. repeat (apply elem_of_cons in Hk as [->|Hk]; [listed|]). by apply elem_of_nil in Hk.
Qed.

Definition operator : val := VObj [(js "role", VNum (num_of_Z 10)); (js "permissions", VObj [(js "admin_permissions", VObj [(js "channel", VObj [(js "write", VBool true)])])])].

Lemma sensitive_fields_withheld_witness :
  exists req, update_request (Some operator) true sample_form 7 = Some req /\ js "key" ∉ map fst req /\ lookup_field (js "models") req = VStr (js "opus")
    /\ channelHasSensitiveChanges (mkSensitive 0 [] None None None None None [] []) (mkSensitive 14 (js "sk-0") None None None None None [] []) None req = false.
Proof.
  refine (let payload := payload_fields sample_form 7 (default [] (buildSettingJSON sample_form)) (default [] (buildSettingsJSON sample_form)) in
          let req := fold_left (fun p k => drop k p) SENSITIVE_UPDATE_FIELDS payload in _).
  assert (transformFormDataToUpdatePayload sample_form 7 = Some payload) as Hp by (vm_compute; reflexivity).
  assert (update_request (Some operator) true sample_form 7 = Some req) as Hr by (vm_compute; reflexivity).
  refine (let H : (forall k, k ∈ channelSensitiveFields -> js k ∉ map fst req) /\ _ /\ _ := sensitive_fields_withheld (Some operator) true sample_form 7 payload req Hp Hr in _).
  exists req. split; [exact Hr|]. split; [apply (proj1 H); listed|]. split; [|apply (proj1 (proj2 H))].
  rewrite (proj2 (proj2 H) "models"%string); [vm_compute; reflexivity|listed].
Defined.

End ChannelFormLaws.
