(* ===== verification/ChannelSubmit.v ===== *)
(** The drawer of a channel: the checks of the model mapping
    (src/web/src/features/channels/lib/model-mapping-validation.ts) and of the redirected
    status codes (lib/status-code-risk-guard.ts), the connection text of the clipboard
    (src/web/src/lib/channel-connection-info.ts), the groups (lib/channel-groups.ts), and the
    state and the submission of the drawer (components/drawers/channel-mutate-drawer.tsx).

    [None] stands for an exception where a definition returns an option of its result. What
    the user answers to a dialog is a parameter, a function of the entries the dialog
    shows; so are the fields that the form library reports as changed. *)

From S2P Require Import Prelude JsValue NumText JsonString Json AdvancedCustom PriceTables Channels ChannelForm.
Import ChannelForm.

Module ChannelSubmit.

(** ** The model mapping *)

(** The object of a text that is not blank, when it is one. *)
Definition mapping_object (text : jsstr) : option (list (jsstr * val)) :=
  match json_parse text with Some (VObj fs) => Some fs | _ => None end.

Definition extractMappingSourceModels (modelMapping : jsstr) : list jsstr :=
  let trimmed := trim modelMapping in
  if negb (truthy_str trimmed) then [] else
  match mapping_object trimmed with
  | Some fs => dedup (List.filter truthy_str (map (fun f => trim f.1) fs))
  | None => []
  end.

Definition extractRedirectModels (modelMapping : jsstr) : list jsstr :=
  let trimmed := trim modelMapping in
  if negb (truthy_str trimmed) then [] else
  match mapping_object trimmed with
  | Some fs => dedup (List.filter truthy_str (map (fun f => match f.2 with VStr s => trim s | _ => [] end) fs))
  | None => []
  end.

Definition findMissingModelsInMapping (modelMapping : jsstr) (currentModels : list jsstr) : list jsstr :=
  if negb (truthy_str (trim modelMapping)) then [] else
  match mapping_object modelMapping with
  | Some fs =>
    dedup (List.filter (fun k => truthy_str k && negb (bool_decide (k ∈ map Channels.normalizeModelName currentModels)))
             (map (fun f => Channels.normalizeModelName f.1) fs))
  | None => []
  end.

(** The error, [None] for a valid text. *)
Definition validateModelMappingJson (modelMapping : jsstr) : option jsstr :=
  if negb (truthy_str (trim modelMapping)) then None else
  match json_parse modelMapping with
  | Some (VObj fs) => if existsb (fun f => negb (typeof_string f.2)) fs then Some (js "Model mapping values must be strings") else None
  | Some _ => Some (js "Model mapping must be a valid JSON object")
  | None => Some (js "Model mapping must be valid JSON format")
  end.

Definition findExposedTargetModels (modelMapping : jsstr) (currentModels : list jsstr) : list jsstr :=
  List.filter (fun m => bool_decide (Channels.normalizeModelName m ∈ map Channels.normalizeModelName currentModels)) (extractRedirectModels modelMapping).

(** ** Redirected status codes *)

Definition NON_REDIRECTABLE_STATUS_CODES : list num := [num_of_Z 504; num_of_Z 524].

(** [/^[1-5]\d{2}$/] *)
Definition three_digits (s : jsstr) : bool := match s with [a; b; c] => (49 <=? a) && (a <=? 53) && is_digit b && is_digit c | _ => false end.

Definition parseStatusCodeKey (rawKey : jsstr) : option num :=
  let normalized := trim rawKey in if three_digits normalized then Some (num_of_Z (digits_value normalized)) else None.

Definition parseStatusCodeMappingTarget (rawValue : val) : option num :=
  match rawValue with
  | VNum x => if is_integer x then (if nge x (num_of_Z 100) && nle x (num_of_Z 599) then Some x else None) else None
  | VStr s =>
    if three_digits (trim s) then
      let code := num_of_Z (digits_value (trim s)) in if nge code (num_of_Z 100) && nle code (num_of_Z 599) then Some code else None
    else None
  | _ => None
  end.

(** The entries of a text that parses to an object. *)
Definition status_entries (text : jsstr) : list (jsstr * val) := if truthy_str (trim text) then default [] (mapping_object text) else [].

Definition valid_entry (f : jsstr * val) : bool :=
  match parseStatusCodeKey f.1, parseStatusCodeMappingTarget f.2 with Some _, Some _ => true | _, _ => false end.

Fixpoint collect_invalid (fs : list (jsstr * val)) : option (list jsstr) :=
  match fs with
  | [] => Some []
  | f :: fs' =>
    if valid_entry f then collect_invalid fs'
    else shown ← to_string f.2; rest ← collect_invalid fs'; Some ((f.1 ++ [32; 8594; 32] ++ shown) :: rest)
  end.

Definition collectInvalidStatusCodeEntries (text : jsstr) : option (list jsstr) := collect_invalid (status_entries text).

Definition redirect_text (from to : num) : jsstr := num_text from ++ js " -> " ++ num_text to.

Definition risky (f : jsstr * val) : list jsstr :=
  match parseStatusCodeKey f.1, parseStatusCodeMappingTarget f.2 with
  | Some fromCode, Some toCode =>
    if negb (existsb (neq fromCode) NON_REDIRECTABLE_STATUS_CODES) then [] else if neq fromCode toCode then [] else [redirect_text fromCode toCode]
  | _, _ => []
  end.

Definition collectDisallowedStatusCodeRedirects (text : jsstr) : list jsstr :=
  isort PriceTables.unit_le (dedup (concat (map risky (status_entries text)))).

Definition collectNewDisallowedStatusCodeRedirects (originalStr currentStr : jsstr) : list jsstr :=
  let originalRiskySet := collectDisallowedStatusCodeRedirects originalStr in
  List.filter (fun m => negb (bool_decide (m ∈ originalRiskySet))) (collectDisallowedStatusCodeRedirects currentStr).

(** ** The text of a connection *)

Record ChannelConnectionInfo := mkConnection { conn_key : jsstr; conn_url : jsstr }.
Definition CHANNEL_CONNECTION_INFO_TYPE : jsstr := js "newapi_channel_conn".

Definition encodeChannelConnectionInfo (k url : jsstr) : jsstr :=
  stringify (VObj [(js "_type", VStr CHANNEL_CONNECTION_INFO_TYPE); (js "key", VStr k); (js "url", VStr url)]).

(** An array has none of the properties. *)
Definition parseChannelConnectionInfo (text : jsstr) : option ChannelConnectionInfo :=
  if negb (truthy_str text) then None else
  match json_parse (trim text) with
  | Some (VObj fs) =>
    match lookup_field (js "_type") fs, lookup_field (js "key") fs, lookup_field (js "url") fs with
    | VStr t, VStr k, VStr u => if streq t CHANNEL_CONNECTION_INFO_TYPE then Some (mkConnection k u) else None
    | _, _, _ => None
    end
  | _ => None
  end.

(** ** Groups *)

Section Groups.
Context (locale_le : jsstr -> jsstr -> bool).

Record ChannelGroupSplit := mkSplit { own : list jsstr; inherited : list jsstr }.

Definition splitChannelGroups (explicit pricingGroups : list jsstr) : ChannelGroupSplit :=
  let own := dedup (List.filter truthy_str (map trim explicit)) in
  mkSplit own (isort locale_le (List.filter (fun g => truthy_str g && negb (bool_decide (g ∈ own))) (dedup (map trim pricingGroups)))).

Definition effectiveChannelGroups (explicit pricingGroups : list jsstr) : list jsstr :=
  let s := splitChannelGroups explicit pricingGroups in own s ++ inherited s.

End Groups.

(** ** The fields of the form *)

Definition set_models (ms : jsstr) (f : ChannelFormValues) : ChannelFormValues :=
  mkForm (name f) (type f) (base_url f) (key f) (openai_organization f) ms (group f) (model_mapping f) (priority f) (weight f) (rate_limit_rpm f)
    (rate_limit_tpm f) (test_model f) (auto_ban f) (status f) (status_code_mapping f) (tag f) (remark f) (setting f) (param_override f) (header_override f)
    (settings f) (other f) (multi_key_mode f) (multi_key_type f) (batch_add_set_key_prefix_2_name f) (key_mode f) (extra f) (typed f).

(** [key], [base_url], [other] and [multi_key_mode]. *)
Definition set_connection (k url o mode : jsstr) (f : ChannelFormValues) : ChannelFormValues :=
  mkForm (name f) (type f) url k (openai_organization f) (models f) (group f) (model_mapping f) (priority f) (weight f) (rate_limit_rpm f)
    (rate_limit_tpm f) (test_model f) (auto_ban f) (status f) (status_code_mapping f) (tag f) (remark f) (setting f) (param_override f) (header_override f)
    (settings f) o mode (multi_key_type f) (batch_add_set_key_prefix_2_name f) (key_mode f) (extra f) (typed f).

Definition applyConnectionInfo (info : ChannelConnectionInfo) (f : ChannelFormValues) : ChannelFormValues :=
  set_connection (conn_key info) (conn_url info) (other f) (multi_key_mode f) f.

(** The effects on a change of the type: of a new channel, of the address of a plan, of the way to add keys. *)
Definition VOLC_URL : jsstr := js "https://ark.cn-beijing.volces.com".
Definition type_defaults (isEditing : bool) (f : ChannelFormValues) : ChannelFormValues :=
  if isEditing then f else
  let f := if (type f =? 45) && negb (truthy_str (base_url f)) then set_connection (key f) VOLC_URL (other f) (multi_key_mode f) f else f in
  if (type f =? 18) && negb (truthy_str (other f)) then set_connection (key f) (base_url f) (js "v2.1") (multi_key_mode f) f else f.
Definition plan_address (f : ChannelFormValues) : ChannelFormValues :=
  if (type f =? 45) && streq (base_url f) (js "doubao-coding-plan") then set_connection (key f) VOLC_URL (other f) (multi_key_mode f) f else f.
Definition supportsMultiKeyAddMode (f : ChannelFormValues) : bool :=
  negb (type f =? 57) && negb ((type f =? 41) && match vertex_key_type (typed f) with VStr s => streq s (js "api_key") | _ => false end).
Definition single_key_mode (isEditing : bool) (f : ChannelFormValues) : ChannelFormValues :=
  if isEditing || supportsMultiKeyAddMode f then f
  else if truthy_str (multi_key_mode f) && negb (streq (multi_key_mode f) (js "single"))
  then set_connection (key f) (base_url f) (other f) (js "single") f else f.

(** The text and whether keys were removed; [None] when there is no key. *)
Definition handleDeduplicateKeys (f : ChannelFormValues) : option (ChannelFormValues * bool) :=
  if negb (truthy_str (trim (key f))) then None else
  let result := Channels.deduplicateKeys (key f) in
  if Channels.removedCount result =? 0 then Some (f, false)
  else Some (set_connection (Channels.deduplicatedText result) (base_url f) (other f) (multi_key_mode f) f, true).

(** *** Models *)

Definition currentModelsArray (f : ChannelFormValues) : list jsstr := Channels.parseModelsString (models f).

Definition basicModels (allModelsList : list jsstr) (f : ChannelFormValues) : list jsstr :=
  if type f =? 1 then List.filter (fun m => starts_with (js "gpt-") m || starts_with (js "text-") m) allModelsList else allModelsList.

Definition updateModels (newModels : list jsstr) (merge : bool) (f : ChannelFormValues) : ChannelFormValues :=
  set_models (Channels.formatModelsArray (if merge then currentModelsArray f ++ newModels else newModels)) f.

Definition handleFillRelatedModels (allModelsList : list jsstr) (f : ChannelFormValues) : ChannelFormValues :=
  match basicModels allModelsList f with [] => f | l => updateModels l false f end.
Definition handleFillAllModels (allModelsList : list jsstr) (f : ChannelFormValues) : ChannelFormValues :=
  match allModelsList with [] => f | l => updateModels l false f end.
Definition handleClearModels (f : ChannelFormValues) : ChannelFormValues := set_models [] f.
Definition handleModelsChange (selected : list jsstr) (f : ChannelFormValues) : ChannelFormValues := set_models (join (js ",") selected) f.

(** The names of a group, as a list or as a JSON text; [None] for the message that they do not
    parse. The entries are names: others than texts are outside the model. *)
Fixpoint all_texts (l : list val) : option (list jsstr) :=
  match l with [] => Some [] | VStr s :: l' => rest ← all_texts l'; Some (s :: rest) | _ => None end.
Definition handleAddPrefillGroup (items : val) (f : ChannelFormValues) : option ChannelFormValues :=
  parsed ← match items with VArr l => Some (VArr l) | VStr s => json_parse s | _ => None end;
  match parsed with VArr l => names ← all_texts l; Some (updateModels names true f) | _ => None end.

(** What happens on the request to fetch models. *)
Inductive FetchModels := unsupported_type | no_permission_to_fetch | enter_key_first | open_dialog.
Definition handleFetchModels (isEditing canEditSensitive : bool) (f : ChannelFormValues) : FetchModels :=
  if negb (type_in (type f) MODEL_FETCHABLE_TYPES) then unsupported_type
  else if negb isEditing && negb canEditSensitive then no_permission_to_fetch
  else if negb isEditing && negb (type f =? CHANNEL_TYPE_ADVANCED_CUSTOM) && negb (truthy_str (trim (key f))) then enter_key_first
  else open_dialog.

(** *** The mapping shown beside the form *)

Record ModelMappingGuardrail := mkGuardrail {
  invalidJson : bool; entries : list (jsstr * jsstr); missingSourceModels : list jsstr; exposedTargetModels : list jsstr }.
Definition createEmptyModelMappingGuardrail : ModelMappingGuardrail := mkGuardrail false [] [] [].

Fixpoint guardrail_entries (fs : list (jsstr * val)) : option (list (jsstr * jsstr)) :=
  match fs with
  | [] => Some []
  | (rawSource, rawTarget) :: fs' =>
    target ← (if nullish rawTarget then Some [] else to_string rawTarget);
    rest ← guardrail_entries fs';
    Some (if truthy_str (trim rawSource) && truthy_str (trim target) then (trim rawSource, trim target) :: rest else rest)
  end.

Definition modelMappingGuardrail (mapping : jsstr) (models : list jsstr) : ModelMappingGuardrail :=
  if negb (truthy_str (trim mapping)) then createEmptyModelMappingGuardrail else
  match mapping_object mapping ≫= guardrail_entries with
  | None => mkGuardrail true [] [] []
  | Some entries =>
    mkGuardrail false entries
      (dedup (map fst (List.filter (fun e => negb (bool_decide (e.1 ∈ models))) entries)))
      (dedup (map snd (List.filter (fun e => bool_decide (e.2 ∈ models)) entries)))
  end.

(** *** Configured sections *)

Definition hasConfiguredOverrideValue (value : jsstr) : bool :=
  let trimmed := trim value in
  if negb (truthy_str trimmed) || streq trimmed (js "null") then false else
  match json_parse trimmed with
  | Some VNull => false
  | Some (VArr l) => match l with [] => false | _ => true end
  | Some (VObj fs) => match fs with [] => false | _ => true end
  | _ => true
  end.

Definition set_number (o : option num) : bool := match o with Some x => truthy_num x | None => false end.
(** [v?.trim()] on the texts read from a stored setting. *)
Definition filled (v : val) : option bool := if nullish v then Some false else truthy_str <$> trim_val v.
Definition several_shards (v : val) : option bool := if nullish v then Some false else x ← to_number v; Some (ngt x one).
Definition other_protocol (e : ExtraSettings) : bool := truthy_str (http_protocol e) && negb (streq (http_protocol e) HTTP_PROTOCOL_AUTO).

Fixpoint any_of (l : list (option bool)) : option bool :=
  match l with [] => Some false | o :: l' => b ← o; if (b : bool) then Some true else any_of l' end.

Definition hasAdvancedSettingsValues (f : ChannelFormValues) : option bool :=
  let e := extra f in let s := typed f in
  any_of [Some (hasConfiguredOverrideValue (param_override f)); Some (hasConfiguredOverrideValue (header_override f)); Some (truthy_str (trim (advanced_custom s)));
          Some (hasConfiguredOverrideValue (status_code_mapping f)); Some (truthy_str (trim (tag f))); Some (truthy_str (trim (remark f)));
          Some (set_number (priority f)); Some (set_number (weight f)); filled (proxy e); filled (system_prompt e); Some (truthy (force_format e));
          Some (truthy (thinking_to_content e)); Some (truthy (pass_through_body_enabled e)); Some (truthy (system_prompt_override e));
          Some (other_protocol e); several_shards (http2_connection_shards e); Some (claude_beta_query s); Some (check_enabled s); Some (auto_sync_enabled s);
          Some (truthy_str (trim (ignored_models s)))].

Definition routingStrategyConfigured (f : ChannelFormValues) : bool :=
  set_number (priority f) || set_number (weight f) || truthy_str (trim (test_model f)) || negb (neq (default one (auto_ban f)) one).
Definition internalNotesConfigured (f : ChannelFormValues) : bool := truthy_str (trim (tag f)) || truthy_str (trim (remark f)).
Definition overrideRulesConfigured (f : ChannelFormValues) : bool :=
  hasConfiguredOverrideValue (status_code_mapping f) || hasConfiguredOverrideValue (param_override f) || hasConfiguredOverrideValue (header_override f).
Definition extraSettingsConfigured (f : ChannelFormValues) : option bool :=
  let e := extra f in
  any_of [Some (truthy (force_format e)); Some (truthy (thinking_to_content e)); Some (truthy (pass_through_body_enabled e));
          Some (disable_task_polling_sleep (typed f)); filled (proxy e); filled (system_prompt e); Some (truthy (system_prompt_override e)); Some (other_protocol e);
          several_shards (http2_connection_shards e)].
Definition fieldPassthroughConfigured (f : ChannelFormValues) : bool :=
  let s := typed f in
  if (type f =? 1) || (type f =? 57) then
    allow_service_tier s || disable_store s || allow_safety_identifier s || allow_include_obfuscation s || allow_inference_geo s
  else if type f =? 14 then allow_service_tier s || allow_inference_geo s || allow_speed s || claude_beta_query s
  else false.
Definition upstreamModelDetectionConfigured (f : ChannelFormValues) : bool :=
  check_enabled (typed f) || auto_sync_enabled (typed f) || truthy_str (trim (ignored_models (typed f))).
Definition advancedConfigured (f : ChannelFormValues) : option bool :=
  extraSettings ← extraSettingsConfigured f;
  Some (routingStrategyConfigured f || internalNotesConfigured f || overrideRulesConfigured f || extraSettings || fieldPassthroughConfigured f
        || upstreamModelDetectionConfigured f).

(** What is complete of the form. *)
Definition identityComplete (f : ChannelFormValues) : bool := truthy_str (trim (name f)) && (0 <? type f).
Definition credentialsComplete (isEditing : bool) (f : ChannelFormValues) : bool :=
  (isEditing || truthy_str (trim (key f)))
  && (negb (type_in (type f) [3; 8; 36; 45]) || truthy_str (trim (base_url f)))
  && (negb (type_in (type f) [3; 18; 21; 39; 41; 49]) || truthy_str (trim (other f))).
Definition modelsComplete (f : ChannelFormValues) : bool :=
  match currentModelsArray f, group f with [], _ | _, [] => false | _, _ => true end.
Definition requiredCompletedCount (isEditing : bool) (f : ChannelFormValues) : nat :=
  length (List.filter (fun b : bool => b) [identityComplete f; credentialsComplete isEditing f; modelsComplete f]).

Inductive ChannelEditorSectionStatus := complete | configured | error | idle.
Definition getCompletionStatus (hasErrors isComplete : bool) : ChannelEditorSectionStatus := if hasErrors then error else if isComplete then complete else idle.
Definition getSectionStatusLabel (s : ChannelEditorSectionStatus) (t : jsstr -> jsstr) : jsstr :=
  match s with error => t (js "Error") | complete | configured => t (js "Ready") | idle => t (js "Incomplete") end.

(** *** Models the server detected *)

Definition parseSettingsRecord (text : jsstr) : list (jsstr * val) := if truthy_str (trim text) then default [] (mapping_object text) else [].

Fixpoint detected_names (l : list val) : option (list jsstr) :=
  match l with
  | [] => Some []
  | v :: l' => s ← (if truthy v then to_string v else Some []); rest ← detected_names l'; Some (if truthy_str (trim s) then trim s :: rest else rest)
  end.
Definition upstreamUpdateMeta (f : ChannelFormValues) : option (val * list jsstr) :=
  let record := parseSettingsRecord (settings f) in
  detected ← match lookup_field (js "upstream_model_update_last_detected_models") record with VArr l => detected_names l | _ => Some [] end;
  Some (lookup_field (js "upstream_model_update_last_check_time") record, dedup detected).

(** ** The submission *)

(** What the drawer keeps of the channel as it was loaded. *)
Record Initial := mkInitial { initialModels : list jsstr; initialModelMapping : jsstr; initialStatusCodeMapping : jsstr }.

(** The effect that fills the form, for a channel or for a new one: the form, whether the
    advanced settings open, and what is kept. *)
Definition load_form (preference : bool) (channel : option Channel) : option (ChannelFormValues * bool * Initial) :=
  match channel with
  | Some c =>
    let defaults := transformChannelToFormDefaults c in
    open ← (if preference then Some true else hasAdvancedSettingsValues defaults);
    Some (defaults, open, mkInitial (Channels.parseModelsString (text (c_models c))) (text (c_model_mapping c)) (text (c_status_code_mapping c)))
  | None => Some (CHANNEL_FORM_DEFAULT_VALUES, false, mkInitial [] [] [])
  end.

Definition SENSITIVE_FORM_FIELDS : list string :=
  ["type"; "base_url"; "key"; "openai_organization"; "other"; "key_mode"; "param_override"; "header_override"; "settings"; "setting"; "advanced_custom";
   "is_enterprise_account"; "vertex_key_type"; "aws_key_type"; "azure_responses_version"; "force_format"; "thinking_to_content"; "proxy"; "http_protocol";
   "http2_connection_shards"; "pass_through_body_enabled"; "system_prompt"; "system_prompt_override"; "allow_service_tier"; "disable_store";
   "allow_safety_identifier"; "allow_include_obfuscation"; "allow_inference_geo"; "allow_speed"; "claude_beta_query"; "disable_task_polling_sleep";
   "upstream_model_update_check_enabled"; "upstream_model_update_auto_sync_enabled"; "upstream_model_update_ignored_models"; "system_one_path"]%string.

Inductive MissingModelsAction := cancel | submit | add.

Inductive Outcome :=
| key_required
| no_permission
| invalid_codes (shown : list jsstr)
| risk_refused
| invalid_mapping (message : jsstr)
| missing_cancelled
| sent (data : ChannelFormValues).

Section Submit.
Context (isEditing canEditSensitive : bool) (dirty : string -> bool).
Context (confirmStatusCodeRisk : list jsstr -> bool) (confirmMissingModelMappings : list jsstr -> MissingModelsAction).

Definition sensitiveLocked : bool := isEditing && negb canEditSensitive.

(** The check of the redirected codes: what stops the submission. *)
Definition status_guard (initial : Initial) (data : ChannelFormValues) : option (option Outcome) :=
  if truthy_str (trim (status_code_mapping data)) then
    invalid ← collectInvalidStatusCodeEntries (status_code_mapping data);
    match invalid with
    | [] =>
      Some (match collectNewDisallowedStatusCodeRedirects (initialStatusCodeMapping initial) (status_code_mapping data) with
            | [] => None
            | redirects => if confirmStatusCodeRisk redirects then None else Some risk_refused
            end)
    | _ => Some (Some (invalid_codes invalid))
    end
  else Some None.

(** The checks of the model mapping, and what is sent. *)
Definition mapping_guard (initial : Initial) (data : ChannelFormValues) : Outcome :=
  if truthy_str (trim (model_mapping data)) then
    match validateModelMappingJson (model_mapping data) with
    | Some message => invalid_mapping message
    | None =>
      let normalizedModels := Channels.parseModelsString (models data) in
      match findMissingModelsInMapping (model_mapping data) normalizedModels with
      | [] => sent data
      | missing =>
        if Channels.hasModelConfigChanged normalizedModels (model_mapping data) (initialModels initial) (initialModelMapping initial) then
          match confirmMissingModelMappings missing with
          | cancel => missing_cancelled
          | submit => sent data
          | add => sent (set_models (Channels.formatModelsArray (dedup (normalizedModels ++ missing))) data)
          end
        else sent data
      end
    end
  else sent data.

Definition onSubmit (initial : Initial) (data : ChannelFormValues) : option Outcome :=
  if negb isEditing && negb (truthy_str (trim (key data))) then Some key_required
  else if sensitiveLocked && existsb dirty SENSITIVE_FORM_FIELDS then Some no_permission
  else
    stopped ← status_guard initial data;
    Some (match stopped with Some o => o | None => mapping_guard initial data end).

End Submit.

(** The request that follows. *)
Inductive Request := no_request | create (payload : CreatePayload) | update (channelId : Z) (body : list (jsstr * val)).

Definition channel_request (user : option val) (isMultiKeyChannel : bool) (currentRow : option Z) (o : Outcome) : option Request :=
  match o with
  | sent data =>
    match currentRow with
    | Some channelId => update channelId <$> update_request user isMultiKeyChannel data channelId
    | None => create <$> transformFormDataToCreatePayload data
    end
  | _ => Some no_request
  end.

End ChannelSubmit.
