(* ===== verification/ChannelSubmitLaws.v ===== *)
(** A submission of the channel drawer sends only what every check let through; the models
    that the user adds make the mapping complete; an unchanged channel is saved without a
    question; what is shown beside the form is what the submission checks. *)

From S2P Require Import Prelude JsValue NumText JsonString Json AdvancedCustom PriceTables ModelPricing ModelPricingLaws Channels ChannelForm ChannelSubmit.
Import ChannelForm ChannelSubmit.

Module ChannelSubmitLaws.

(** ** Lists of models *)

(** Names as they are after splitting a text of models. *)
Definition model_name (m : jsstr) : Prop := trim m = m /\ m <> [] /\ 44 ∉ m.

Lemma parsed_names ms : Forall model_name (Channels.parseModelsString ms).
Proof.
  unfold Channels.parseModelsString. destruct (truthy_str ms); [|done]. apply Forall_forall.
  intros m [Hm Ht]%elem_lfilter. apply list_elem_of_fmap in Hm as (p & -> & Hp). apply truthy_str_spec in Ht. split_and!; [apply trim_idem|done|].
  pose proof (split_on_parts_fresh 44 ms) as Hf. rewrite Forall_forall in Hf. intros Hc%trim_elem. by apply (Hf p Hp).
Qed.

Lemma map_trim l : Forall (fun m => trim m = m) l -> map trim l = l.
Proof. induction 1 as [|x l Hx Hl IH]; [done|]. cbn [map]. by rewrite Hx, IH. Qed.

Lemma parse_names l : Forall model_name l -> Channels.parseModelsString (join (js ",") l) = l.
Proof.
  intros H. destruct l as [|m l]; [done|]. remember (m :: l) as ms eqn:E.
  unfold Channels.parseModelsString. assert (truthy_str (join (js ",") ms) = true) as ->.
  { subst. apply Forall_cons in H as [(_ & Hm & _) _]. rewrite join_cons. by destruct m. }
  change (js ",") with [44]. rewrite split_on_join; [|by subst|by eapply Forall_impl; [exact H|intros x (_ & _ & ?)]].
  rewrite map_trim by (eapply Forall_impl; [exact H|by intros x (? & _)]). apply filter_every. rewrite Forall_forall in H.
  intros x Hx. apply truthy_str_spec. by apply H.
Qed.

Lemma missing_name mapping ms k :
  (forall fs f, mapping_object mapping = Some fs -> f ∈ fs -> 44 ∉ f.1) -> k ∈ findMissingModelsInMapping mapping ms -> model_name k.
Proof.
  intros Hc. unfold findMissingModelsInMapping. destruct (negb _); [by rewrite elem_of_nil|]. destruct (mapping_object mapping) as [fs|] eqn:E; [|by rewrite elem_of_nil].
  rewrite elem_of_dedup, elem_lfilter. intros [(f & -> & Hf)%list_elem_of_fmap [Ht _]%andb_true_iff]. split_and!; [apply trim_idem|by apply truthy_str_spec|].
  intros Hin%trim_elem. by apply (Hc fs f).
Qed.

(** The models with the missing ones leave nothing missing. *)
Lemma nothing_missing mapping ms all :
  Forall model_name all -> (forall m, m ∈ findMissingModelsInMapping mapping ms -> m ∈ all) -> (forall m, m ∈ map trim ms -> m ∈ all) ->
  findMissingModelsInMapping mapping all = [].
Proof.
  intros Hall Hm Hms. unfold findMissingModelsInMapping in *. destruct (negb _); [done|]. destruct (mapping_object mapping) as [fs|]; [|done].
  rewrite filter_none; [done|]. intros k (f & -> & Hf)%list_elem_of_fmap. unfold Channels.normalizeModelName in *. destruct (truthy_str (trim f.1)) eqn:Et; [|done]. cbn [andb].
  apply negb_false_iff, bool_decide_eq_true. rewrite map_trim by (eapply Forall_impl; [exact Hall|by intros x (? & _)]).
  destruct (decide (trim f.1 ∈ map trim ms)) as [Hin|Hn]; [by apply Hms|]. apply Hm. apply elem_of_dedup, elem_lfilter. split; [by apply (list_elem_of_fmap_2 (fun f => trim f.1) fs f)|].
  rewrite Et, bool_decide_eq_false_2 by done. done.
Qed.

(** ** The checks *)

Section Submit.
Context (isEditing canEditSensitive : bool) (dirty : string -> bool).
Context (risk : list jsstr -> bool) (missing : list jsstr -> MissingModelsAction).

Lemma invalid_none fs : collect_invalid fs = Some [] -> forall f, f ∈ fs -> valid_entry f = true.
Proof.
  induction fs as [|f fs IH]; cbn [collect_invalid]; intros H g Hg; [by apply elem_of_nil in Hg|]. destruct (valid_entry f) eqn:E.
  - apply elem_of_cons in Hg as [->|Hg]; [done|by apply IH].
  - apply bind_Some in H as (x & _ & H). by apply bind_Some in H as (y & _ & H).
Qed.

Lemma disallowed_elem text r : r ∈ collectDisallowedStatusCodeRedirects text <-> exists f, f ∈ status_entries text /\ r ∈ risky f.
Proof.
  unfold collectDisallowedStatusCodeRedirects. rewrite isort_perm, elem_of_dedup, <- flat_map_concat_map, list_elem_of_In, in_flat_map.
  by setoid_rewrite list_elem_of_In.
Qed.

(** What the checks of the redirected codes say when they do not stop. *)
Definition codes_checked (initial : Initial) (data : ChannelFormValues) : Prop :=
  forall f, f ∈ status_entries (status_code_mapping data) ->
    valid_entry f = true
    /\ forall r, r ∈ risky f ->
       r ∈ collectDisallowedStatusCodeRedirects (initialStatusCodeMapping initial) \/ exists shown, r ∈ shown /\ risk shown = true.

Lemma status_passed initial data : status_guard risk initial data = Some None -> codes_checked initial data.
Proof.
  unfold status_guard, codes_checked. destruct (truthy_str (trim (status_code_mapping data))) eqn:Et.
  - intros (invalid & Hi & H)%bind_Some f Hf. destruct invalid as [|? ?]; [|done]. split; [by eapply invalid_none|]. intros r Hr.
    destruct (decide (r ∈ collectDisallowedStatusCodeRedirects (initialStatusCodeMapping initial))) as [|Hn]; [by left|right].
    assert (r ∈ collectNewDisallowedStatusCodeRedirects (initialStatusCodeMapping initial) (status_code_mapping data)) as Hnew.
    { unfold collectNewDisallowedStatusCodeRedirects. apply elem_lfilter. split; [apply disallowed_elem; by exists f|]. by rewrite bool_decide_eq_false_2. }
    destruct (collectNewDisallowedStatusCodeRedirects _ _) as [|x l]; [by apply elem_of_nil in Hnew|]. destruct (risk (x :: l)) eqn:E; [|done]. by exists (x :: l).
  - intros _ f Hf. unfold status_entries in Hf. rewrite Et in Hf. by apply elem_of_nil in Hf.
Qed.

(** What is sent differs from the form in its models at most. *)
Lemma mapping_passed initial data data' :
  mapping_guard missing initial data = sent data' ->
  (truthy_str (trim (model_mapping data)) = true -> exists fs, mapping_object (model_mapping data) = Some fs /\ Forall (fun f => exists s, f.2 = VStr s) fs)
  /\ (data' = data
      \/ let ms := Channels.parseModelsString (models data) in
         let lacking := findMissingModelsInMapping (model_mapping data) ms in
         lacking <> [] /\ missing lacking = add /\ data' = set_models (Channels.formatModelsArray (dedup (ms ++ lacking))) data).
Proof.
  unfold mapping_guard. cbn zeta. destruct (truthy_str (trim (model_mapping data))) eqn:Et; [|intros [= <-]; split; [done|by left]].
  destruct (validateModelMappingJson (model_mapping data)) eqn:Ev; [done|]. intros H. split.
  - intros _. unfold validateModelMappingJson in Ev. rewrite Et in Ev. cbn [negb] in Ev. unfold mapping_object. destruct (json_parse (model_mapping data)) as [[]|]; try done.
    exists fields. split; [done|]. destruct (existsb _ fields) eqn:Ee; [done|]. apply Forall_forall. intros f Hf.
    destruct (f.2) eqn:Ef; try (by eexists); exfalso; apply not_true_iff_false in Ee; apply Ee, existsb_exists; exists f; (split; [by apply list_elem_of_In|by rewrite Ef]).
  - destruct (findMissingModelsInMapping _ _) as [|x l] eqn:Em; [injection H as <-; by left|]. destruct (Channels.hasModelConfigChanged _ _ _ _); [|injection H as <-; by left].
    destruct (missing (x :: l)) eqn:Ea; [done|injection H as <-; by left|]. injection H as <-. by right.
Qed.

Lemma submit_passed initial data data' :
  onSubmit isEditing canEditSensitive dirty risk missing initial data = Some (sent data') ->
  (isEditing = false -> trim (key data) <> [])
  /\ (sensitiveLocked isEditing canEditSensitive = true -> forall k, k ∈ SENSITIVE_FORM_FIELDS -> dirty k = false)
  /\ status_guard risk initial data = Some None /\ mapping_guard missing initial data = sent data'.
Proof.
  unfold onSubmit. destruct (negb isEditing && _) eqn:Ek; [done|]. destruct (sensitiveLocked _ _ && _) eqn:Ed; [done|].
  intros (stopped & Hs & H)%bind_Some. destruct stopped as [o|]; injection H as H.
  { exfalso. subst o. revert Hs. unfold status_guard. destruct (truthy_str (trim (status_code_mapping data))); [|by intros [=]]. intros ([|] & _ & Hs)%bind_Some; [|done].
    destruct (collectNewDisallowedStatusCodeRedirects _ _) as [|y l]; [done|]. by destruct (risk (y :: l)). }
  split_and!; try done.
  - intros ->. cbn [negb andb] in Ek. apply negb_false_iff, truthy_str_spec in Ek. done.
  - intros Hl k Hk. rewrite Hl in Ed. cbn [andb] in Ed. apply not_true_iff_false in Ed. apply not_true_iff_false. intros Hd. apply Ed, existsb_exists.
    exists k. split; [by apply list_elem_of_In|done].
Qed.

(** C10: a submission sends only what every check let through. When the drawer sends a form,
    a new channel has a key; a user without the permission for sensitive settings has
    changed none of them; every redirected status code is valid, and a redirect of a gateway
    timeout (504, 524) that the channel did not have before was shown to the user and
    confirmed; the model mapping, when there is one, is an object of texts; and the form is
    the one that was filled in but for the models, which change only when the user asked to
    add the missing ones. *)
Theorem submit_guarded (initial : Initial) (data data' : ChannelFormValues) :
  onSubmit isEditing canEditSensitive dirty risk missing initial data = Some (sent data') ->
  (isEditing = false -> trim (key data) <> [])
  /\ (isEditing = true -> canEditSensitive = false -> forall k, k ∈ SENSITIVE_FORM_FIELDS -> dirty k = false)
  /\ codes_checked initial data
  /\ (truthy_str (trim (model_mapping data)) = true -> exists fs, mapping_object (model_mapping data) = Some fs /\ Forall (fun f => exists s, f.2 = VStr s) fs)
  /\ exists ms, data' = set_models ms data
     /\ (ms = models data \/ exists lacking, missing lacking = add /\ ms = Channels.formatModelsArray (dedup (Channels.parseModelsString (models data) ++ lacking))).
Proof.
  intros (Hk & Hd & Hs & Hm)%submit_passed. split_and!; [done| |by apply status_passed| |].
  - intros -> ->. by apply Hd.
  - by apply (mapping_passed _ _ _ Hm).
  - destruct (proj2 (mapping_passed _ _ _ Hm)) as [-> |(_ & Ha & ->)]; [exists (models data); split; [by destruct data|by left]|].
    eexists. split; [done|]. right. by eexists.
Qed.

End Submit.

(** ** Adding the missing models *)

Lemma added_names data :
  (forall fs f, mapping_object (model_mapping data) = Some fs -> f ∈ fs -> 44 ∉ f.1) ->
  let ms := Channels.parseModelsString (models data) in
  let lacking := findMissingModelsInMapping (model_mapping data) ms in
  let all := dedup (ms ++ lacking) in
  Channels.parseModelsString (Channels.formatModelsArray all) = all /\ findMissingModelsInMapping (model_mapping data) all = [].
Proof.
  intros Hc ms lacking all. assert (Forall model_name all) as Hall.
  { apply Forall_forall. intros m. unfold all. rewrite elem_of_dedup, elem_of_app. pose proof (parsed_names (models data)) as Hp. rewrite Forall_forall in Hp.
    intros [Hm|Hm]; [by apply Hp|by eapply missing_name]. }
  assert (dedup all = all) as Hda by apply dedup_idem. split; [unfold Channels.formatModelsArray; rewrite Hda; by apply parse_names|]. apply (nothing_missing _ ms); [done| |].
  - intros m Hm. unfold all. rewrite elem_of_dedup, elem_of_app. by right.
  - intros m Hm. rewrite map_trim in Hm by (eapply Forall_impl; [apply parsed_names|by intros x (? & _)]). unfold all. rewrite elem_of_dedup, elem_of_app. by left.
Qed.

(** the models that the user lets add make the mapping complete. When a submission with
    the answer "add" sends another form than the one filled in, its models are the old ones
    in their order followed by the missing ones, each once; no model of the mapping is
    missing from them; and submitting the form that results goes through without the question,
    whatever the answer would be. The names in the mapping contain no comma. *)
Theorem missing_models_added (isEditing canEditSensitive : bool) (dirty : string -> bool) (risk : list jsstr -> bool)
    (missing : list jsstr -> MissingModelsAction) (initial : Initial) (data data' : ChannelFormValues) :
  (forall fs f, mapping_object (model_mapping data) = Some fs -> f ∈ fs -> 44 ∉ f.1) ->
  onSubmit isEditing canEditSensitive dirty risk missing initial data = Some (sent data') -> data' <> data ->
  Channels.parseModelsString (models data')
  = dedup (Channels.parseModelsString (models data) ++ findMissingModelsInMapping (model_mapping data) (Channels.parseModelsString (models data)))
  /\ findMissingModelsInMapping (model_mapping data') (Channels.parseModelsString (models data')) = []
  /\ forall missing', onSubmit isEditing canEditSensitive dirty risk missing' initial data' = Some (sent data').
Proof.
  intros Hc Hsub Hne. destruct (submit_passed _ _ _ _ _ _ _ _ Hsub) as (Hk & Hd & Hs & Hm). destruct (mapping_passed _ _ _ _ Hm) as [_ [->|(Hl & Ha & ->)]]; [done|].
  destruct (added_names data Hc) as [Hp Hn]. cbn [set_models models model_mapping]. split; [exact Hp|]. rewrite Hp. split; [exact Hn|]. intros missing'.
  revert Hsub. unfold onSubmit. cbn [set_models key]. destruct (negb isEditing && _); [done|]. destruct (sensitiveLocked _ _ && _); [done|]. intros _.
  change (status_guard risk initial (set_models _ data)) with (status_guard risk initial data). rewrite Hs. cbn [mbind option_bind]. f_equal.
  unfold mapping_guard. cbn [set_models models model_mapping]. rewrite Hp. revert Hm. unfold mapping_guard.
  destruct (truthy_str (trim (model_mapping data))); [|done]. destruct (validateModelMappingJson (model_mapping data)); [done|]. intros _.
  by rewrite Hn.
Qed.

(** ** An unchanged channel *)

Lemma no_new_redirects s : collectNewDisallowedStatusCodeRedirects s s = [].
Proof. unfold collectNewDisallowedStatusCodeRedirects. apply filter_none. intros x Hx. by rewrite bool_decide_eq_true_2. Qed.

(** a channel that is opened and saved as it is asks nothing. For the form that the
    drawer fills in from a channel, the outcome of the submission is the same for all
    answers to the two dialogs: what is risky or missing in the stored channel was accepted
    before. *)
Theorem unchanged_never_asks (preference opened canEditSensitive : bool) (dirty : string -> bool) (c : Channel) (f : ChannelFormValues) (initial : Initial)
    (risk risk' : list jsstr -> bool) (missing missing' : list jsstr -> MissingModelsAction) :
  load_form preference (Some c) = Some (f, opened, initial) ->
  onSubmit true canEditSensitive dirty risk missing initial f = onSubmit true canEditSensitive dirty risk' missing' initial f.
Proof.
  unfold load_form. intros (o & _ & [= <- <- <-])%bind_Some. unfold onSubmit. cbn [negb andb].
  destruct (sensitiveLocked _ _ && _); [done|]. unfold status_guard, mapping_guard. cbn [initialModels initialModelMapping initialStatusCodeMapping].
  change (status_code_mapping (transformChannelToFormDefaults c)) with (text (c_status_code_mapping c)).
  change (models (transformChannelToFormDefaults c)) with (text (c_models c)). change (model_mapping (transformChannelToFormDefaults c)) with (text (c_model_mapping c)).
  rewrite no_new_redirects. destruct (if truthy_str (trim (text (c_status_code_mapping c))) then _ else _) as [[|]|]; [done| |done]. cbn [mbind option_bind]. f_equal.
  destruct (truthy_str (trim (text (c_model_mapping c)))) eqn:Et; [|done]. destruct (validateModelMappingJson _); [done|]. destruct (findMissingModelsInMapping _ _); [done|].
  assert (Channels.hasModelConfigChanged (Channels.parseModelsString (text (c_models c))) (text (c_model_mapping c)) (Channels.parseModelsString (text (c_models c)))
    (text (c_model_mapping c)) = false) as ->; [|done].
  unfold Channels.hasModelConfigChanged. destruct (text (c_model_mapping c)) as [|ch rest]; [done|]. cbn [truthy_str negb]. rewrite andb_false_r.
  rewrite (bool_decide_eq_true_2 (Channels.parseModelsString _ = _)) by done. cbn [negb]. by rewrite streq_refl.
Qed.

(** ** The mapping beside the form *)

(** A mapping without blank names. *)
Definition plain_mapping (fs : list (jsstr * val)) : Prop := Forall (fun f => trim f.1 <> [] /\ exists s, f.2 = VStr s /\ trim s <> []) fs.
Definition target_of (f : jsstr * val) : jsstr := match f.2 with VStr s => trim s | _ => [] end.

Lemma plain_entries fs : plain_mapping fs -> guardrail_entries fs = Some (map (fun f => (trim f.1, target_of f)) fs).
Proof.
  induction 1 as [|[k v] fs (Hk & s & Hs & Ht) Hf IH]; [done|]. cbn [fst snd] in *. subst v. cbn [guardrail_entries nullish to_string mbind option_bind map fst snd target_of].
  rewrite IH. cbn [mbind option_bind]. unfold target_of at 2. cbn [snd]. by rewrite (proj2 (truthy_str_spec _) Hk), (proj2 (truthy_str_spec _) Ht).
Qed.

Lemma map_filter_fst {A B} (p : A -> bool) (l : list (A * B)) : map fst (List.filter (fun e => p e.1) l) = List.filter p (map fst l).
Proof. induction l as [|e l IH]; [done|]. cbn [List.filter map]. destruct (p e.1); cbn [map]; by rewrite IH. Qed.
Lemma map_filter_snd {A B} (p : B -> bool) (l : list (A * B)) : map snd (List.filter (fun e => p e.2) l) = List.filter p (map snd l).
Proof. induction l as [|e l IH]; [done|]. cbn [List.filter map]. destruct (p e.2); cbn [map]; by rewrite IH. Qed.

(** What is shown beside the form is what the submission checks. For a mapping that
    parses, with no blank name in it, and the models of any text, the panel beside the
    form lists exactly the missing models about which the submission asks, in the same
    order, and exactly the redirected models that are also offered. *)
Theorem guardrail_matches_submit (mapping modelsText : jsstr) (fs : list (jsstr * val)) :
  truthy_str (trim mapping) = true -> trim mapping = mapping -> mapping_object mapping = Some fs -> plain_mapping fs ->
  let current := Channels.parseModelsString modelsText in
  let shown := modelMappingGuardrail mapping current in
  invalidJson shown = false
  /\ missingSourceModels shown = findMissingModelsInMapping mapping current
  /\ exposedTargetModels shown = findExposedTargetModels mapping current.
Proof.
  intros Ht Htrim Hm Hp current shown. unfold shown, modelMappingGuardrail. rewrite Ht, Hm. cbn [negb mbind option_bind]. rewrite plain_entries by done.
  cbn [invalidJson missingSourceModels exposedTargetModels]. assert (map trim current = current) as Hcur.
  { apply map_trim. eapply Forall_impl; [apply parsed_names|]. by intros x (? & _). }
  split_and!; [done| |].
  - unfold findMissingModelsInMapping, Channels.normalizeModelName. rewrite Ht, Hm. cbn [negb]. pose proof (map_filter_fst (fun k => negb (bool_decide (k ∈ current))) (map (fun f => (trim f.1, target_of f)) fs)) as Hf.
    cbv beta in Hf. setoid_rewrite Hf. clear Hf. rewrite map_map. cbn [fst].
    change (map (fun m : jsstr => trim m) current) with (map trim current). rewrite Hcur. f_equal. unfold plain_mapping in Hp. clear -Hp. induction Hp as [|f fs (Hk & _) Hf IH]; [done|].
    cbn [map List.filter]. rewrite (proj2 (truthy_str_spec _) Hk). cbn [andb]. by rewrite IH.
  - unfold findExposedTargetModels, extractRedirectModels, Channels.normalizeModelName. rewrite Htrim. rewrite Htrim in Ht. rewrite Ht, Hm. cbn [negb].
    change (map (fun m : jsstr => trim m) current) with (map trim current). rewrite Hcur.
    pose proof (map_filter_snd (fun k => bool_decide (k ∈ current)) (map (fun f => (trim f.1, target_of f)) fs)) as Hf.
    cbv beta in Hf. setoid_rewrite Hf. clear Hf. rewrite map_map. cbn [snd].
    rewrite dedup_filter. fold target_of. assert (List.filter truthy_str (map target_of fs) = map target_of fs) as Hall.
    { apply filter_every. intros x (f & -> & Hf)%list_elem_of_fmap. unfold plain_mapping in Hp. rewrite Forall_forall in Hp. destruct (Hp f Hf) as (_ & s & Hs & Hx). unfold target_of.
      rewrite Hs. by apply truthy_str_spec. }
    change (map (fun f : jsstr * val => match f.2 with VStr s => trim s | _ => [] end) fs) with (map target_of fs). rewrite Hall.
    assert (forall x, x ∈ dedup (map target_of fs) -> trim x = x) as Hx.
    { intros x. rewrite elem_of_dedup. intros (f & -> & _)%list_elem_of_fmap. unfold target_of. destruct f.2; try done. apply trim_idem. }
    clear -Hx. induction (dedup (map target_of fs)) as [|x l IH]; [done|]. cbn [List.filter]. rewrite (Hx x) by left. rewrite IH; [done|]. intros y Hy. apply Hx. by right.
Qed.

(** ** The text of a connection *)

Lemma connection_back k url : units k -> units url -> parseChannelConnectionInfo (encodeChannelConnectionInfo k url) = Some (mkConnection k url).
Proof.
  intros Hk Hu. unfold parseChannelConnectionInfo, encodeChannelConnectionInfo, stringify. set (fs := [_; _; _]).
  destruct (ModelPricingLaws.object_text_solid [] fs) as [-> ->]. cbn [negb]. rewrite parse_stringify; [done|constructor|]. apply plain_obj_wf. split; [apply (bool_decide_unpack _); vm_compute; exact I|].
  unfold fs. repeat (apply Forall_cons; split; [split; [vm_compute; reflexivity|]; split; [apply units_js|constructor; first [done|apply units_js]]|]). by apply Forall_nil.
Qed.

(** ** A submission *)

Definition sample_mapping : jsstr := jq "{'gpt-4o':'gpt-4'}".
Definition sample_channel : Channel :=
  mkChannel (Some (js "c")) 1 None None (Some (js "gpt-4")) None (Some sample_mapping) None None None None None None 1 (Some (jq "{'504':503}"))
    None None None None None None None None.
Definition sample_data : ChannelFormValues := transformChannelToFormDefaults sample_channel.
Definition sample_sent : ChannelFormValues := set_models (js "gpt-4,gpt-4o") sample_data.
Definition unknown_channel : Initial := mkInitial [] [] [].

Lemma submit_guarded_witness :
  onSubmit true true (fun _ => false) (fun _ => true) (fun _ => add) unknown_channel sample_data = Some (sent sample_sent)
  /\ codes_checked (fun _ => true) unknown_channel sample_data
  /\ onSubmit true true (fun _ => false) (fun _ => false) (fun _ => add) unknown_channel sample_data = Some risk_refused.
Proof.
  split; [vm_compute; reflexivity|]. split; [|vm_compute; reflexivity].
  refine (proj1 (proj2 (proj2 (submit_guarded true true (fun _ => false) (fun _ => true) (fun _ => add) unknown_channel sample_data sample_sent _)))). vm_compute. reflexivity.
Defined.

Lemma missing_models_added_witness :
  Channels.parseModelsString (models sample_sent) = [js "gpt-4"; js "gpt-4o"]
  /\ findMissingModelsInMapping (model_mapping sample_sent) (Channels.parseModelsString (models sample_sent)) = [].
Proof.
  split; [vm_compute; reflexivity|].
  refine (proj1 (proj2 (missing_models_added true true (fun _ => false) (fun _ => true) (fun _ => add) unknown_channel sample_data sample_sent _ _ _))).
  - intros fs f Hfs Hf. vm_compute in Hfs. injection Hfs as <-. apply list_elem_of_singleton in Hf as ->. apply (bool_decide_unpack _). vm_compute. exact I.
  - vm_compute. reflexivity.
  - intros E. apply (f_equal models) in E. vm_compute in E. discriminate E.
Defined.

Lemma unchanged_never_asks_witness :
  exists f opened initial, load_form false (Some sample_channel) = Some (f, opened, initial)
    /\ onSubmit true true (fun _ => false) (fun _ => false) (fun _ => cancel) initial f = Some (sent f)
    /\ onSubmit true true (fun _ => false) (fun _ => true) (fun _ => add) initial f = onSubmit true true (fun _ => false) (fun _ => false) (fun _ => cancel) initial f.
Proof.
  eexists _, _, _. split; [reflexivity|]. split; [vm_compute; reflexivity|].
  apply (unchanged_never_asks false true true (fun _ => false) sample_channel). vm_compute. reflexivity.
Defined.

Lemma guardrail_matches_submit_witness :
  missingSourceModels (modelMappingGuardrail sample_mapping (Channels.parseModelsString (js "gpt-4"))) = [js "gpt-4o"]
  /\ exposedTargetModels (modelMappingGuardrail sample_mapping (Channels.parseModelsString (js "gpt-4")))
     = findExposedTargetModels sample_mapping (Channels.parseModelsString (js "gpt-4")).
Proof.
  split; [vm_compute; reflexivity|].
  refine (proj2 (proj2 (guardrail_matches_submit sample_mapping (js "gpt-4") [(js "gpt-4o", VStr (js "gpt-4"))] _ _ _ _))); try (vm_compute; reflexivity).
  apply Forall_singleton. split; [intros H; vm_compute in H; discriminate H|]. exists (js "gpt-4"). split; [reflexivity|intros H; vm_compute in H; discriminate H].
Defined.

End ChannelSubmitLaws.
