(* ===== verification/ParamOverride.v ===== *)
(** The parameter override editor: its operations and conditions, the loose values,
    the drafts of [return_error] and [prune_objects], validation, and the text that is
    stored (src/web/src/features/channels/components/dialogs/param-override-editor-dialog.tsx,
    up to the component itself, which is in [ParamOverrideEditor]). *)

From S2P Require Import Prelude JsValue NumText JsonString Json.

Module ParamOverride.

(** ** Effects *)

(** Code that draws local identifiers (the counter) and may raise ([None]). *)
Definition M (A : Type) : Type := Z -> option A * Z.
Definition ret {A} (a : A) : M A := fun s => (Some a, s).
Definition bind {A B} (m : M A) (f : A -> M B) : M B :=
  fun s => match m s with (Some a, s') => f a s' | (None, s') => (None, s') end.
Definition lift {A} (o : option A) : M A := fun s => (o, s).
(** [try { m } catch { a }] *)
Definition catch {A} (m : M A) (a : A) : M A := fun s => match m s with (Some b, s') => (Some b, s') | (None, s') => (Some a, s') end.

Declare Scope po_scope.
Delimit Scope po_scope with po.
Notation "'let*' x ':=' m 'in' k" := (bind m (fun x => k))
  (at level 200, x pattern, right associativity) : po_scope.
Open Scope po_scope.

(** [l.map(f)] *)
Fixpoint traverse {A B} (f : A -> M B) (l : list A) : M (list B) :=
  match l with
  | [] => ret []
  | a :: l' => let* b := f a in let* bs := traverse f l' in ret (b :: bs)
  end.

(** [o.k]: raises on [null] and [undefined]. *)
Definition prop (o : val) (k : string) : option val :=
  match o with VNull | VUndef => None | _ => Some (get k o) end.

(** ** Data *)

Record ParamOverrideCondition := mkCondition {
  c_id : jsstr;
  c_path : jsstr;
  c_mode : jsstr;
  c_value_text : jsstr;
  invert : bool;
  pass_missing_key : bool
}.

Record ParamOverrideOperation := mkOperation {
  id : jsstr;
  description : jsstr;
  path : jsstr;
  mode : jsstr;
  from : jsstr;
  to : jsstr;
  value_text : jsstr;
  keep_origin : bool;
  logic : jsstr;
  conditions : list ParamOverrideCondition
}.

(** Values and labels. *)
Definition OPERATION_MODE_OPTIONS : list (jsstr * jsstr) :=
  map (fun o => (js o.1, js o.2))
  [("set", "Set Field"); ("delete", "Delete Field"); ("append", "Append to End"); ("prepend", "Prepend to Start");
   ("copy", "Copy Field"); ("move", "Move Field"); ("replace", "String Replace"); ("regex_replace", "Regex Replace");
   ("trim_prefix", "Trim Prefix"); ("trim_suffix", "Trim Suffix"); ("ensure_prefix", "Ensure Prefix");
   ("ensure_suffix", "Ensure Suffix"); ("trim_space", "Trim Space"); ("to_lower", "To Lowercase");
   ("to_upper", "To Uppercase"); ("return_error", "Return Custom Error"); ("prune_objects", "Prune Object Items");
   ("pass_headers", "Pass Through Headers"); ("sync_fields", "Sync Fields"); ("set_header", "Set Request Header");
   ("delete_header", "Delete Request Header"); ("copy_header", "Copy Request Header");
   ("move_header", "Move Request Header")]%string.

Definition OPERATION_MODE_VALUES : list jsstr := map fst OPERATION_MODE_OPTIONS.

Definition CONDITION_MODE_OPTIONS : list (jsstr * jsstr) :=
  map (fun o => (js o.1, js o.2))
  [("full", "Exact Match"); ("prefix", "Prefix"); ("suffix", "Suffix"); ("contains", "Contains");
   ("gt", "Greater Than"); ("gte", "Greater Than or Equal"); ("lt", "Less Than"); ("lte", "Less Than or Equal")]%string.

Definition CONDITION_MODE_VALUES : list jsstr := map fst CONDITION_MODE_OPTIONS.

Record Meta := mkMeta {
  m_path : bool; m_pathOptional : bool; m_value : bool; m_from : bool; m_to : bool;
  m_keepOrigin : bool; m_pathAlias : bool
}.

(** The entries of [MODE_META]; a missing flag is false. *)
Definition MODE_META_entries : list (jsstr * Meta) :=
  let row n p po v f t k a := (js n, mkMeta p po v f t k a) in
  [row "delete" true false false false false false false;
   row "set" true false true false false true false;
   row "append" true false true false false true false;
   row "prepend" true false true false false true false;
   row "copy" false false false true true false false;
   row "move" false false false true true false false;
   row "replace" true false false true false false false;
   row "regex_replace" true false false true false false false;
   row "trim_prefix" true false true false false false false;
   row "trim_suffix" true false true false false false false;
   row "ensure_prefix" true false true false false false false;
   row "ensure_suffix" true false true false false false false;
   row "trim_space" true false false false false false false;
   row "to_lower" true false false false false false false;
   row "to_upper" true false false false false false false;
   row "return_error" false false true false false false false;
   row "prune_objects" false true true false false false false;
   row "pass_headers" false false true false false true false;
   row "sync_fields" false false false true true false false;
   row "set_header" true false true false false true false;
   row "delete_header" true false false false false false false;
   row "copy_header" false false false true true true true;
   row "move_header" false false false true true true true]%string.

Definition set_meta : Meta := mkMeta true false true false false true false.

(** [MODE_META[mode] || MODE_META.set] *)
Definition MODE_META (mode : jsstr) : Meta :=
  match list_find (fun e : jsstr * Meta => e.1 = mode) MODE_META_entries with
  | Some (_, (_, meta)) => meta
  | None => set_meta
  end.

Definition VALUE_REQUIRED_MODES : list jsstr :=
  map js ["trim_prefix"; "trim_suffix"; "ensure_prefix"; "ensure_suffix"; "set_header"; "return_error";
          "prune_objects"; "pass_headers"]%string.
Definition FROM_REQUIRED_MODES : list jsstr :=
  map js ["copy"; "move"; "replace"; "regex_replace"; "copy_header"; "move_header"; "sync_fields"]%string.
Definition TO_REQUIRED_MODES : list jsstr :=
  map js ["copy"; "move"; "copy_header"; "move_header"; "sync_fields"]%string.

Definition has (l : list jsstr) (s : jsstr) : bool := bool_decide (s ∈ l).

(** ** Values *)

(** [a.toUpperCase()] compared with an upper case ASCII word; no other code unit has
    one of the letters compared with as its upper case. *)
Definition upper (c : Z) : Z := if (97 <=? c) && (c <=? 122) then c - 32 else c.
Definition lower (c : Z) : Z := if (65 <=? c) && (c <=? 90) then c + 32 else c.

Definition toValueText (value : val) : jsstr :=
  match value with
  | VUndef => []
  | VStr s => s
  | v => stringify v
  end.

Definition parseLooseValue (valueText : jsstr) : val :=
  let raw := trim valueText in
  match raw with
  | [] => VStr []
  | _ => match json_parse raw with Some v => v | None => VStr raw end
  end.

Definition verifyJSON (text : jsstr) : bool := match json_parse text with Some _ => true | None => false end.

Definition str_or_empty (v : val) : jsstr := match v with VStr s => s | _ => [] end.
Definition is_true (v : val) : bool := match v with VBool true => true | _ => false end.

(** [X.has(v) ? v : d] *)
Definition mode_or (values : list jsstr) (d : string) (v : val) : jsstr :=
  match v with VStr s => if has values s then s else js d | _ => js d end.

Section Clock.
(** The reading of [Date.now()] when the identifier with this number is drawn. *)
Context (now : Z -> Z).

Definition nextLocalId : M jsstr := fun seed => (Some (js "po_" ++ dec (now seed) ++ js "_" ++ dec seed), seed + 1).

Definition normalizeCondition (condition : val) : M ParamOverrideCondition :=
  let* i := nextLocalId in
  let* p := lift (prop condition "path") in
  let* m := lift (prop condition "mode") in
  let* v := lift (prop condition "value") in
  let* inv := lift (prop condition "invert") in
  let* pass := lift (prop condition "pass_missing_key") in
  ret (mkCondition i (str_or_empty p) (mode_or CONDITION_MODE_VALUES "full" m) (toValueText v) (is_true inv) (is_true pass)).

Definition createDefaultCondition : M ParamOverrideCondition := normalizeCondition (VObj []).

(** [String(logic || d).toUpperCase() === word] *)
Definition logic_is (d word : string) (v : val) : option bool :=
  s ← (if truthy v then to_string v else Some (js d)); Some (streq (map upper s) (js word)).

Definition normalizeOperation (operation : val) : M ParamOverrideOperation :=
  let* i := nextLocalId in
  let* d := lift (prop operation "description") in
  let* p := lift (prop operation "path") in
  let* m := lift (prop operation "mode") in
  let* v := lift (prop operation "value") in
  let* k := lift (prop operation "keep_origin") in
  let* f := lift (prop operation "from") in
  let* t := lift (prop operation "to") in
  let* l := lift (prop operation "logic") in
  let* is_and := lift (logic_is "OR" "AND" l) in
  let* cs := lift (prop operation "conditions") in
  let* conds := match cs with VArr items => traverse normalizeCondition items | _ => ret [] end in
  ret (mkOperation i (str_or_empty d) (str_or_empty p) (mode_or OPERATION_MODE_VALUES "set" m)
         (str_or_empty f) (str_or_empty t) (toValueText v) (is_true k)
         (if is_and : bool then js "AND" else js "OR") conds).

Definition createDefaultOperation : M ParamOverrideOperation :=
  normalizeOperation (VObj [(js "mode", VStr (js "set"))]).

(** ** Lists of operations *)

Inductive Position := before | after.

(** [ops.findIndex((o) => o.id === i)] *)
Definition find_op (i : jsstr) (ops : list ParamOverrideOperation) : option nat :=
  fst <$> list_find (fun o => o.(id) = i) ops.

(** [next.splice(k, 0, x)] *)
Definition splice_in {A} (k : nat) (x : A) (l : list A) : list A := take k l ++ x :: drop k l.

Definition reorderOperations (ops : list ParamOverrideOperation) (sourceId targetId : jsstr) (position : Position)
    : list ParamOverrideOperation :=
  if negb (truthy_str sourceId) || negb (truthy_str targetId) || streq sourceId targetId then ops
  else
    match find_op sourceId ops with
    | None => ops
    | Some srcIdx =>
        match ops !! srcIdx with
        | None => ops
        | Some moved =>
            let next := delete srcIdx ops in
            match find_op targetId next with
            | None => ops
            | Some insertIdx =>
                splice_in (match position with after => S insertIdx | before => insertIdx end) moved next
            end
        end
    end.

Definition blank (s : jsstr) : bool := negb (truthy_str (trim s)).

Definition isOperationBlank (operation : ParamOverrideOperation) : bool :=
  let hasCondition :=
    existsb (fun c => negb (blank c.(c_path)) || negb (blank c.(c_value_text)) || negb (streq c.(c_mode) (js "full"))
                      || c.(invert) || c.(pass_missing_key)) operation.(conditions) in
  streq operation.(mode) (js "set") && blank operation.(path) && blank operation.(from) && blank operation.(to)
  && streq (trim operation.(value_text)) [] && negb operation.(keep_origin) && negb hasCondition.

(** [mode || 'set'] *)
Definition op_mode (o : ParamOverrideOperation) : jsstr := or_str o.(mode) (js "set").

Definition OPERATION_MODE_LABEL_MAP (m : jsstr) : option jsstr :=
  snd ∘ snd <$> list_find (fun e : jsstr * jsstr => e.1 = m) OPERATION_MODE_OPTIONS.

Definition getOperationSummary (o : ParamOverrideOperation) (index : Z) : jsstr :=
  let m := op_mode o in
  let modeLabel := or_str (default [] (OPERATION_MODE_LABEL_MAP m)) m in
  let head := dec (index + 1) ++ js ". " ++ modeLabel ++ [32; 183; 32] in
  let f := trim o.(from) in
  let t := trim o.(to) in
  if streq m (js "sync_fields") then head ++ or_str f (or_str t (js "-"))
  else head ++ or_str (trim o.(path)) (or_str f (or_str t (js "-"))).

(** ** Sync targets *)

Record SyncTarget := mkTarget { s_type : jsstr; s_key : jsstr }.

Definition parseSyncTargetSpec (spec : jsstr) : SyncTarget :=
  let raw := trim spec in
  if negb (truthy_str raw) then mkTarget (js "json") []
  else
    match split_on 58 raw with
    | [] | [_] => mkTarget (js "json") raw
    | prefix :: rest =>
        let k := trim (join [58] rest) in
        if streq (map lower (trim prefix)) (js "header") then mkTarget (js "header") k else mkTarget (js "json") k
    end.

Definition buildSyncTargetSpec (type key : jsstr) : jsstr :=
  let normalizedType := if streq type (js "header") then js "header" else js "json" in
  let normalizedKey := trim key in
  if negb (truthy_str normalizedKey) then [] else normalizedType ++ js ":" ++ normalizedKey.

(** ** Drafts of [return_error] *)

Record ReturnErrorDraft := mkErrorDraft {
  e_message : jsstr; statusCode : num; e_code : jsstr; e_type : jsstr; skipRetry : bool; e_simpleMode : bool
}.

(** [Number.isInteger(x) && x >= 100 && x <= 599 ? x : 400] *)
Definition status_or_400 (x : num) : num :=
  if is_integer x && nge x (num_of_Z 100) && nle x (num_of_Z 599) then x else num_of_Z 400.

Definition error_defaults : ReturnErrorDraft := mkErrorDraft [] (num_of_Z 400) [] [] true true.

(** [String(v || '').trim()] *)
Definition text_of (v : val) : option jsstr := if truthy v then trim <$> to_string v else Some [].

(** [a || b] on values. *)
Definition or_val (a b : val) : val := if truthy a then a else b.

Definition is_plain_object (v : val) : bool := match v with VObj _ => true | _ => false end.

(** The branch of an object; [None] when a conversion raises. *)
Definition error_draft_of (parsed : val) : option ReturnErrorDraft :=
  let statusRaw := match get "status_code" parsed with VUndef => get "status" parsed | v => v end in
  statusValue ← to_number statusRaw;
  message ← text_of (or_val (get "message" parsed) (get "msg" parsed));
  code ← text_of (get "code" parsed);
  type ← text_of (get "type" parsed);
  Some (mkErrorDraft message (status_or_400 statusValue) code type
          (match get "skip_retry" parsed with VBool false => false | _ => true end) false).

Definition parseReturnErrorDraft (valueText : jsstr) : ReturnErrorDraft :=
  let raw := trim valueText in
  if negb (truthy_str raw) then error_defaults
  else
    let plain := mkErrorDraft raw (num_of_Z 400) [] [] true true in
    match json_parse raw with
    | Some parsed => if is_plain_object parsed then default plain (error_draft_of parsed) else plain
    | None => plain
    end.

(** [if (c) o.k = v] *)
Definition add_if (c : bool) (k : string) (v : val) (o : list (jsstr * val)) : list (jsstr * val) :=
  if c then set_field (js k) v o else o.

Definition buildReturnErrorValueText (draft : ReturnErrorDraft) : jsstr :=
  let message := trim draft.(e_message) in
  if draft.(e_simpleMode) then message
  else
    let payload := [(js "message", VStr message); (js "status_code", VNum (status_or_400 draft.(statusCode)))] in
    let code := trim draft.(e_code) in
    let type := trim draft.(e_type) in
    let payload := add_if (truthy_str code) "code" (VStr code) payload in
    let payload := add_if (truthy_str type) "type" (VStr type) payload in
    let payload := add_if (negb draft.(skipRetry)) "skip_retry" (VBool false) payload in
    stringify (VObj payload).

(** ** Drafts of [prune_objects] *)

(** A [PruneRule] has the fields of a condition, and [normalizePruneRule] is
    [normalizeCondition]. *)
Definition normalizePruneRule : val -> M ParamOverrideCondition := normalizeCondition.

Record PruneObjectsDraft := mkPruneDraft {
  p_simpleMode : bool; typeText : jsstr; p_logic : jsstr; recursive : bool; rules : list ParamOverrideCondition
}.

Definition prune_defaults : PruneObjectsDraft := mkPruneDraft true [] (js "AND") true [].

(** The rules of an object read as path and value pairs. *)
Definition entry_rules (fields : list (jsstr * val)) : M (list ParamOverrideCondition) :=
  traverse (fun f => normalizePruneRule (VObj [(js "path", VStr f.1); (js "mode", VStr (js "full")); (js "value", f.2)])) fields.

(** [item && typeof item === 'object'] *)
Definition object_like (v : val) : bool := truthy v && typeof_object v.

Definition where_rules (w : val) : M (list ParamOverrideCondition) :=
  match w with VObj fields => entry_rules fields | _ => ret [] end.

Definition condition_rules (c : val) : M (list ParamOverrideCondition) :=
  match c with
  | VArr items => traverse normalizePruneRule (List.filter object_like items)
  | VObj fields => entry_rules fields
  | _ => ret []
  end.

Definition prune_draft_of (parsed : val) : M PruneObjectsDraft :=
  match parsed with
  | VStr s => ret (mkPruneDraft true (trim s) (js "AND") true [])
  | VObj _ =>
      let* r1 := where_rules (get "where" parsed) in
      let* r2 := condition_rules (get "conditions" parsed) in
      let* tyText := lift (match get "type" parsed with VUndef => Some [] | v => trim <$> to_string v end) in
      let* is_or := lift (logic_is "AND" "OR" (get "logic" parsed)) in
      let advanced := defined (get "logic" parsed) || defined (get "recursive" parsed)
                      || defined (get "where" parsed) || defined (get "conditions" parsed) in
      ret (mkPruneDraft (negb advanced) tyText (if is_or : bool then js "OR" else js "AND")
             (match get "recursive" parsed with VBool false => false | _ => true end) (r1 ++ r2))
  | v => let* s := lift (to_string (match v with VNull => VStr [] | _ => v end)) in
         ret (mkPruneDraft true (trim s) (js "AND") true [])
  end.

(** A raised error falls back to the plain text; identifiers drawn stay drawn. *)
Definition parsePruneObjectsDraft (valueText : jsstr) : M PruneObjectsDraft :=
  let raw := trim valueText in
  if negb (truthy_str raw) then ret prune_defaults
  else
    let plain := mkPruneDraft true raw (js "AND") true [] in
    match json_parse raw with
    | None => ret plain
    | Some parsed => catch (prune_draft_of parsed) plain
    end.

Definition prune_condition (rule : ParamOverrideCondition) : val :=
  let o := [(js "path", VStr (trim rule.(c_path)));
            (js "mode", VStr (if has CONDITION_MODE_VALUES rule.(c_mode) then rule.(c_mode) else js "full"))] in
  let valueRaw := trim rule.(c_value_text) in
  let o := add_if (truthy_str valueRaw) "value" (parseLooseValue valueRaw) o in
  let o := add_if rule.(invert) "invert" (VBool true) o in
  VObj (add_if rule.(pass_missing_key) "pass_missing_key" (VBool true) o).

Definition buildPruneObjectsValueText (draft : PruneObjectsDraft) : jsstr :=
  let tyText := trim draft.(typeText) in
  if draft.(p_simpleMode) then tyText
  else
    let o := add_if (truthy_str tyText) "type" (VStr tyText) [] in
    let o := add_if (streq (map upper (or_str draft.(p_logic) (js "AND"))) (js "OR")) "logic" (VStr (js "OR")) o in
    let o := add_if (negb draft.(recursive)) "recursive" (VBool false) o in
    let conds := map prune_condition (List.filter (fun r => negb (blank r.(c_path))) draft.(rules)) in
    let o := add_if (negb (bool_decide (length conds = 0%nat))) "conditions" (VArr conds) o in
    if negb (truthy_str tyText) && bool_decide (length conds = 0%nat)
    then stringify (VObj [(js "logic", VStr (js "AND"))])
    else stringify (VObj o).

(** ** Header names *)

(** [items.map((i) => String(i ?? '').trim()).filter(Boolean)] *)
Definition header_list (items : list val) : option (list jsstr) :=
  texts ← mapM (fun i => match i with VUndef | VNull => Some [] | _ => trim <$> to_string i end) items;
  Some (List.filter truthy_str texts).

Definition parsePassHeaderNames (rawValue : val) : option (list jsstr) :=
  match rawValue with
  | VArr items => header_list items
  | VObj _ =>
      match get "headers" rawValue with
      | VArr items => header_list items
      | _ => match get "header" rawValue with
             | VUndef => Some []
             | h => header_list [h]
             end
      end
  | VStr s => Some (List.filter truthy_str (map trim (split_on 44 s)))
  | _ => Some []
  end.

(** ** What is stored *)

Definition buildConditionPayload (condition : ParamOverrideCondition) : option val :=
  let p := trim condition.(c_path) in
  if negb (truthy_str p) then None
  else
    let o := [(js "path", VStr p); (js "mode", VStr (or_str condition.(c_mode) (js "full")));
              (js "value", parseLooseValue condition.(c_value_text))] in
    let o := add_if condition.(invert) "invert" (VBool true) o in
    Some (VObj (add_if condition.(pass_missing_key) "pass_missing_key" (VBool true) o)).

(** [!o.k] *)
Definition lacks (k : string) (o : list (jsstr * val)) : bool := negb (truthy (lookup_field (js k) o)).

Definition operation_payload (o : ParamOverrideOperation) : list (jsstr * val) :=
  let m := op_mode o in
  let meta := MODE_META m in
  let descriptionValue := trim o.(description) in
  let pathValue := trim o.(path) in
  let fromValue := trim o.(from) in
  let toValue := trim o.(to) in
  let payload := [(js "mode", VStr m)] in
  let payload := add_if (truthy_str descriptionValue) "description" (VStr descriptionValue) payload in
  let payload := add_if meta.(m_path) "path" (VStr pathValue) payload in
  let payload := add_if (meta.(m_pathOptional) && truthy_str pathValue) "path" (VStr pathValue) payload in
  let payload := add_if meta.(m_value) "value" (parseLooseValue o.(value_text)) payload in
  let payload := add_if (meta.(m_keepOrigin) && o.(keep_origin)) "keep_origin" (VBool true) payload in
  let payload := add_if meta.(m_from) "from" (VStr fromValue) payload in
  let payload := add_if (negb meta.(m_to) && truthy_str toValue) "to" (VStr toValue) payload in
  let payload := add_if meta.(m_to) "to" (VStr toValue) payload in
  let payload := add_if (meta.(m_pathAlias) && lacks "from" payload && truthy_str pathValue) "from" (VStr pathValue) payload in
  let payload := add_if (meta.(m_pathAlias) && lacks "to" payload && truthy_str pathValue) "to" (VStr pathValue) payload in
  match omap buildConditionPayload o.(conditions) with
  | [] => payload
  | cs => set_field (js "logic") (VStr (if streq o.(logic) (js "AND") then js "AND" else js "OR"))
            (set_field (js "conditions") (VArr cs) payload)
  end.

Section Validation.
(** Translation of a message that names a line. *)
Context (t : jsstr -> Z -> jsstr).

(** The message for one operation, [None] when there is nothing to say. *)
Definition operation_error (line : Z) (op : ParamOverrideOperation) : option (option jsstr) :=
  let m := op_mode op in
  let meta := MODE_META m in
  let pathValue := trim op.(path) in
  let raw := trim op.(value_text) in
  let missing (s : string) := Some (Some (t (js s) line)) in
  let alias_path := meta.(m_pathAlias) && truthy_str pathValue in
  if meta.(m_path) && negb (truthy_str pathValue) then missing "Rule {{line}} is missing target path"%string
  else if has FROM_REQUIRED_MODES m && negb (truthy_str (trim op.(from))) && negb alias_path
  then missing "Rule {{line}} is missing source field"%string
  else if has TO_REQUIRED_MODES m && negb (truthy_str (trim op.(to))) && negb alias_path
  then missing "Rule {{line}} is missing target field"%string
  else if has VALUE_REQUIRED_MODES m && streq raw [] then missing "Rule {{line}} is missing value"%string
  else if streq m (js "return_error") && negb (truthy_str raw) then missing "Rule {{line}} is missing value"%string
  else if streq m (js "return_error")
          && match json_parse raw with
             | Some (VObj fields) =>
                 match text_of (lookup_field (js "message") fields) with Some [] => true | _ => false end
             | _ => false
             end
  then missing "Rule {{line}} return_error requires a message field"%string
  else if streq m (js "prune_objects") && negb (truthy_str raw)
  then missing "Rule {{line}} prune_objects is missing conditions"%string
  else if streq m (js "pass_headers") then
    if negb (truthy_str raw) then missing "Rule {{line}} pass_headers is missing header names"%string
    else match parsePassHeaderNames (parseLooseValue raw) with
         | None => None
         | Some [] => missing "Rule {{line}} pass_headers format is invalid"%string
         | Some _ => Some None
         end
  else Some None.

(** The first message, or the empty text; the outer [None] when a conversion raises. *)
Fixpoint validate_from (line : Z) (ops : list ParamOverrideOperation) : option jsstr :=
  match ops with
  | [] => Some []
  | op :: ops' =>
      match operation_error line op with
      | None => None
      | Some (Some message) => Some message
      | Some None => validate_from (line + 1) ops'
      end
  end.

Definition validateOperations (ops : list ParamOverrideOperation) : option jsstr := validate_from 1 ops.

(** Text, the message of the error thrown, or another error. *)
Inductive Built := Text (s : jsstr) | Rejected (message : jsstr) | Raised.

Definition operations_json (ops : list ParamOverrideOperation) : jsstr :=
  stringify2 (VObj [(js "operations", VArr (map (fun o => VObj (operation_payload o)) ops))]).

Definition buildOperationsJson (sourceOperations : list ParamOverrideOperation) (validate : bool) : Built :=
  match List.filter (fun o => negb (isOperationBlank o)) sourceOperations with
  | [] => Text []
  | filteredOps =>
      if validate then
        match validateOperations filteredOps with
        | None => Raised
        | Some [] => Text (operations_json filteredOps)
        | Some message => Rejected message
        end
      else Text (operations_json filteredOps)
  end.
End Validation.

(** ** Opening the editor *)

Inductive EditMode := visual | json.
Inductive VisualMode := operations_mode | legacy.

Record EditorState := mkEditorState {
  editMode : EditMode; visualMode : VisualMode; legacyValue : jsstr;
  operations : list ParamOverrideOperation; jsonText : jsstr; jsonError : jsstr
}.

(** [items.length > 0 ? items.map(normalizeOperation) : [createDefaultOperation()]] *)
Definition operations_of (items : list val) : M (list ParamOverrideOperation) :=
  match items with
  | [] => let* o := createDefaultOperation in ret [o]
  | _ => traverse normalizeOperation items
  end.

Definition parseInitialState (text : jsstr) : M EditorState :=
  let trimmed := trim text in
  if negb (truthy_str trimmed) then
    let* o := createDefaultOperation in ret (mkEditorState visual operations_mode [] [o] [] [])
  else
    match json_parse trimmed with
    | None => let* o := createDefaultOperation in
              ret (mkEditorState json operations_mode [] [o] text (js "Invalid JSON format"))
    | Some parsed =>
        let pretty := stringify2 parsed in
        match parsed, get "operations" parsed with
        | VObj _, VArr items =>
            let* ops := operations_of items in
            ret (mkEditorState visual operations_mode [] ops pretty [])
        | VObj _, _ =>
            let* o := createDefaultOperation in ret (mkEditorState visual legacy pretty [o] pretty [])
        | _, _ =>
            let* o := createDefaultOperation in ret (mkEditorState json operations_mode [] [o] pretty [])
        end
    end.
End Clock.
End ParamOverride.
