(* ===== verification/ParamOverrideEditor.v ===== *)
(** The state machine of the parameter override editor: the handlers of
    [ParamOverrideEditorDialog]
    (src/web/src/features/channels/components/dialogs/param-override-editor-dialog.tsx),
    the templates they fill in, and the invariant of the reachable states. *)

From stdpp Require Import gmap.
From S2P Require Import Prelude JsValue NumText JsonString Json ParamOverride ParamOverrideSave.
Import ParamOverride.
Local Open Scope po_scope.

Module ParamOverrideEditor.

(** ** Templates *)

Definition vstr (s : string) : val := VStr (js s).
Definition obj (fields : list (string * val)) : val := VObj (map (fun f => (js f.1, f.2)) fields).

Definition LEGACY_TEMPLATE : val :=
  obj [("temperature", VNum (num_of_Z 0)); ("max_tokens", VNum (num_of_Z 1000))]%string.

Definition OPERATION_TEMPLATE : val :=
  obj [("operations", VArr
    [obj [("description", vstr "Set default temperature for openai/* models.");
          ("path", vstr "temperature"); ("mode", vstr "set"); ("value", VNum (num_of_decimal 7 1));
          ("conditions", VArr [obj [("path", vstr "model"); ("mode", vstr "prefix"); ("value", vstr "openai/")]]);
          ("logic", vstr "AND")]])]%string.

Definition HEADER_PASSTHROUGH_TEMPLATE : val :=
  obj [("operations", VArr
    [obj [("description", vstr "Pass through X-Request-Id header to upstream."); ("mode", vstr "pass_headers");
          ("value", VArr [vstr "X-Request-Id"]); ("keep_origin", VBool true)]])]%string.

Definition GEMINI_IMAGE_4K_TEMPLATE : val :=
  let cond (m v : string) := obj [("path", vstr "original_model"); ("mode", vstr m); ("value", vstr v)]%string in
  obj [("operations", VArr
    [obj [("description", vstr "Set imageSize to 4K when model contains gemini/image and ends with 4k.");
          ("mode", vstr "set"); ("path", vstr "generationConfig.imageConfig.imageSize"); ("value", vstr "4K");
          ("conditions", VArr [cond "contains" "gemini"; cond "contains" "image"; cond "suffix" "4k"]);
          ("logic", vstr "AND")]])]%string.

Definition CODEX_CLI_HEADER_PASSTHROUGH_HEADERS : list string :=
  ["Originator"; "Session_id"; "Thread_id"; "Session-Id"; "Thread-Id"; "X-Client-Request-Id"; "User-Agent";
   "X-Codex-Beta-Features"; "X-Codex-Turn-State"; "X-Codex-Turn-Metadata"; "X-Codex-Window-Id";
   "X-Codex-Parent-Thread-Id"; "X-OpenAI-Subagent"; "X-OpenAI-Memgen-Request";
   "X-ResponsesAPI-Include-Timing-Metrics"; "X-OpenAI-Internal-Codex-Responses-Lite"]%string.

Definition CLAUDE_CLI_HEADER_PASSTHROUGH_HEADERS : list string :=
  ["X-Stainless-Arch"; "X-Stainless-Lang"; "X-Stainless-Os"; "X-Stainless-Package-Version";
   "X-Stainless-Retry-Count"; "X-Stainless-Runtime"; "X-Stainless-Runtime-Version"; "X-Stainless-Timeout";
   "User-Agent"; "X-App"; "Anthropic-Beta"; "Anthropic-Dangerous-Direct-Browser-Access"; "Anthropic-Version"]%string.

Definition buildPassHeadersTemplate (headers : list string) : val :=
  obj [("operations", VArr
    [obj [("mode", vstr "pass_headers"); ("value", VArr (map vstr headers)); ("keep_origin", VBool true)]])]%string.

Definition CODEX_CLI_HEADER_PASSTHROUGH_TEMPLATE : val :=
  obj [("operations", VArr
    [obj [("mode", vstr "pass_headers"); ("value", VArr (map vstr CODEX_CLI_HEADER_PASSTHROUGH_HEADERS));
          ("keep_origin", VBool true)]])]%string.

Definition CLAUDE_CLI_HEADER_PASSTHROUGH_TEMPLATE : val :=
  buildPassHeadersTemplate CLAUDE_CLI_HEADER_PASSTHROUGH_HEADERS.

Definition AWS_BEDROCK_ANTHROPIC_COMPAT_TEMPLATE : val :=
  obj [("operations", VArr
    [obj [("description", vstr "Normalize anthropic-beta header tokens for Bedrock compatibility.");
          ("mode", vstr "set_header"); ("path", vstr "anthropic-beta");
          ("value", obj
            [("advanced-tool-use-2025-11-20", vstr "tool-search-tool-2025-10-19");
             ("bash_20241022", VNull); ("bash_20250124", VNull); ("code-execution-2025-08-25", VNull);
             ("compact-2026-01-12", vstr "compact-2026-01-12");
             ("computer-use-2025-01-24", vstr "computer-use-2025-01-24");
             ("computer-use-2025-11-24", vstr "computer-use-2025-11-24");
             ("context-1m-2025-08-07", vstr "context-1m-2025-08-07");
             ("context-management-2025-06-27", vstr "context-management-2025-06-27");
             ("effort-2025-11-24", VNull); ("fast-mode-2026-02-01", VNull); ("files-api-2025-04-14", VNull);
             ("fine-grained-tool-streaming-2025-05-14", VNull);
             ("interleaved-thinking-2025-05-14", vstr "interleaved-thinking-2025-05-14");
             ("mcp-client-2025-11-20", VNull); ("mcp-client-2025-04-04", VNull); ("mcp-servers-2025-12-04", VNull);
             ("output-128k-2025-02-19", VNull); ("structured-output-2024-03-01", VNull);
             ("prompt-caching-scope-2026-01-05", VNull); ("skills-2025-10-02", VNull);
             ("structured-outputs-2025-11-13", VNull); ("text_editor_20241022", VNull);
             ("text_editor_20250124", VNull); ("token-efficient-tools-2025-02-19", VNull);
             ("tool-search-tool-2025-10-19", vstr "tool-search-tool-2025-10-19");
             ("web-fetch-2025-09-10", VNull); ("web-search-2025-03-05", VNull); ("oauth-2025-04-20", VNull)])];
     obj [("description", vstr "Remove all tools[*].custom.input_examples before upstream relay.");
          ("mode", vstr "delete"); ("path", vstr "tools.*.custom.input_examples")]])]%string.

Inductive PresetKind := k_operations | k_legacy.
Record TemplatePresetConfig := mkPreset { label : jsstr; kind : PresetKind; payload : val }.

Definition operations_default : TemplatePresetConfig :=
  mkPreset (js "New Format Template") k_operations OPERATION_TEMPLATE.

Definition TEMPLATE_PRESET_CONFIG : list (jsstr * TemplatePresetConfig) :=
  [(js "operations_default", operations_default);
   (js "legacy_default", mkPreset (js "Legacy Format Template") k_legacy LEGACY_TEMPLATE);
   (js "pass_headers_auth", mkPreset (js "Header Passthrough (X-Request-Id)") k_operations HEADER_PASSTHROUGH_TEMPLATE);
   (js "gemini_image_4k", mkPreset (js "Gemini Image 4K") k_operations GEMINI_IMAGE_4K_TEMPLATE);
   (js "claude_cli_headers_passthrough",
    mkPreset (js "Claude CLI Header Passthrough") k_operations CLAUDE_CLI_HEADER_PASSTHROUGH_TEMPLATE);
   (js "codex_cli_headers_passthrough",
    mkPreset (js "Codex CLI Header Passthrough") k_operations CODEX_CLI_HEADER_PASSTHROUGH_TEMPLATE);
   (js "aws_bedrock_anthropic_beta_override",
    mkPreset (js "AWS Bedrock Claude Compat") k_operations AWS_BEDROCK_ANTHROPIC_COMPAT_TEMPLATE)].

(** [TEMPLATE_PRESET_CONFIG[key] || TEMPLATE_PRESET_CONFIG.operations_default] *)
Definition preset_of (key : jsstr) : TemplatePresetConfig :=
  match list_find (fun e : jsstr * TemplatePresetConfig => e.1 = key) TEMPLATE_PRESET_CONFIG with
  | Some (_, (_, preset)) => preset
  | None => operations_default
  end.

(** ** State *)

(** The state hooks of the dialog, the messages shown and the text last handed to
    [onSave]. *)
Record Editor := mkEditor {
  hooks : EditorState;
  operationSearch : jsstr;
  selectedOperationId : jsstr;
  expandedConditions : gmap jsstr bool;
  draggedOperationId : jsstr;
  dragOverOperationId : jsstr;
  dragOverPosition : Position;
  templatePresetKey : jsstr;
  toasts : list jsstr;
  saved : option jsstr
}.

Definition ops (ed : Editor) : list ParamOverrideOperation := ed.(hooks).(operations).

Definition set_hooks (h : EditorState) (ed : Editor) : Editor :=
  mkEditor h ed.(operationSearch) ed.(selectedOperationId) ed.(expandedConditions) ed.(draggedOperationId)
    ed.(dragOverOperationId) ed.(dragOverPosition) ed.(templatePresetKey) ed.(toasts) ed.(saved).
Definition setOperations (l : list ParamOverrideOperation) (ed : Editor) : Editor :=
  let h := ed.(hooks) in
  set_hooks (mkEditorState h.(editMode) h.(visualMode) h.(legacyValue) l h.(jsonText) h.(jsonError)) ed.
Definition setSelectedOperationId (i : jsstr) (ed : Editor) : Editor :=
  mkEditor ed.(hooks) ed.(operationSearch) i ed.(expandedConditions) ed.(draggedOperationId)
    ed.(dragOverOperationId) ed.(dragOverPosition) ed.(templatePresetKey) ed.(toasts) ed.(saved).
Definition setExpandedConditions (m : gmap jsstr bool) (ed : Editor) : Editor :=
  mkEditor ed.(hooks) ed.(operationSearch) ed.(selectedOperationId) m ed.(draggedOperationId)
    ed.(dragOverOperationId) ed.(dragOverPosition) ed.(templatePresetKey) ed.(toasts) ed.(saved).
Definition set_drag (dragged over : jsstr) (pos : Position) (ed : Editor) : Editor :=
  mkEditor ed.(hooks) ed.(operationSearch) ed.(selectedOperationId) ed.(expandedConditions) dragged
    over pos ed.(templatePresetKey) ed.(toasts) ed.(saved).
Definition setTemplatePresetKey (key : jsstr) (ed : Editor) : Editor :=
  mkEditor ed.(hooks) ed.(operationSearch) ed.(selectedOperationId) ed.(expandedConditions) ed.(draggedOperationId)
    ed.(dragOverOperationId) ed.(dragOverPosition) key ed.(toasts) ed.(saved).
Definition toast_error (m : jsstr) (ed : Editor) : Editor :=
  mkEditor ed.(hooks) ed.(operationSearch) ed.(selectedOperationId) ed.(expandedConditions) ed.(draggedOperationId)
    ed.(dragOverOperationId) ed.(dragOverPosition) ed.(templatePresetKey) (ed.(toasts) ++ [m]) ed.(saved).
Definition onSave (text : jsstr) (ed : Editor) : Editor :=
  mkEditor ed.(hooks) ed.(operationSearch) ed.(selectedOperationId) ed.(expandedConditions) ed.(draggedOperationId)
    ed.(dragOverOperationId) ed.(dragOverPosition) ed.(templatePresetKey) ed.(toasts) (Some text).
Definition setOperationSearch (s : jsstr) (ed : Editor) : Editor :=
  mkEditor ed.(hooks) s ed.(selectedOperationId) ed.(expandedConditions) ed.(draggedOperationId)
    ed.(dragOverOperationId) ed.(dragOverPosition) ed.(templatePresetKey) ed.(toasts) ed.(saved).
Definition set_json (m : EditMode) (text error : jsstr) (ed : Editor) : Editor :=
  let h := ed.(hooks) in set_hooks (mkEditorState m h.(visualMode) h.(legacyValue) h.(operations) text error) ed.
Definition setLegacyValue (text : jsstr) (ed : Editor) : Editor :=
  let h := ed.(hooks) in
  set_hooks (mkEditorState h.(editMode) h.(visualMode) text h.(operations) h.(jsonText) h.(jsonError)) ed.

(** ** Patches: [{ ...o, ...patch }]. The rule editor patches neither [id] nor
    [conditions]. *)

Record OperationPatch := mkPatch {
  u_description : option jsstr; u_path : option jsstr; u_mode : option jsstr; u_from : option jsstr;
  u_to : option jsstr; u_value_text : option jsstr; u_keep_origin : option bool; u_logic : option jsstr
}.

Definition patch_operation (u : OperationPatch) (o : ParamOverrideOperation) : ParamOverrideOperation :=
  mkOperation o.(id) (default o.(description) u.(u_description)) (default o.(path) u.(u_path))
    (default o.(mode) u.(u_mode)) (default o.(from) u.(u_from)) (default o.(to) u.(u_to))
    (default o.(value_text) u.(u_value_text)) (default o.(keep_origin) u.(u_keep_origin))
    (default o.(logic) u.(u_logic)) o.(conditions).

Record ConditionPatch := mkConditionPatch {
  uc_path : option jsstr; uc_mode : option jsstr; uc_value_text : option jsstr; uc_invert : option bool;
  uc_pass_missing_key : option bool
}.

Definition patch_condition (u : ConditionPatch) (c : ParamOverrideCondition) : ParamOverrideCondition :=
  mkCondition c.(c_id) (default c.(c_path) u.(uc_path)) (default c.(c_mode) u.(uc_mode))
    (default c.(c_value_text) u.(uc_value_text)) (default c.(invert) u.(uc_invert))
    (default c.(pass_missing_key) u.(uc_pass_missing_key)).

Record ErrorPatch := mkErrorPatch {
  ue_message : option jsstr; ue_statusCode : option num; ue_code : option jsstr; ue_type : option jsstr;
  ue_skipRetry : option bool; ue_simpleMode : option bool
}.

Definition patch_error (u : ErrorPatch) (d : ReturnErrorDraft) : ReturnErrorDraft :=
  mkErrorDraft (default d.(e_message) u.(ue_message)) (default d.(statusCode) u.(ue_statusCode))
    (default d.(e_code) u.(ue_code)) (default d.(e_type) u.(ue_type)) (default d.(skipRetry) u.(ue_skipRetry))
    (default d.(e_simpleMode) u.(ue_simpleMode)).

Record PrunePatch := mkPrunePatch {
  up_simpleMode : option bool; up_typeText : option jsstr; up_logic : option jsstr; up_recursive : option bool
}.

Definition patch_prune (u : PrunePatch) (d : PruneObjectsDraft) : PruneObjectsDraft :=
  mkPruneDraft (default d.(p_simpleMode) u.(up_simpleMode)) (default d.(typeText) u.(up_typeText))
    (default d.(p_logic) u.(up_logic)) (default d.(recursive) u.(up_recursive)) d.(rules).

Definition set_conditions (cs : list ParamOverrideCondition) (o : ParamOverrideOperation) : ParamOverrideOperation :=
  mkOperation o.(id) o.(description) o.(path) o.(mode) o.(from) o.(to) o.(value_text) o.(keep_origin) o.(logic) cs.
Definition set_value_text (s : jsstr) (o : ParamOverrideOperation) : ParamOverrideOperation :=
  mkOperation o.(id) o.(description) o.(path) o.(mode) o.(from) o.(to) s o.(keep_origin) o.(logic) o.(conditions).
Definition set_rules (simple : bool) (rs : list ParamOverrideCondition) (d : PruneObjectsDraft) : PruneObjectsDraft :=
  mkPruneDraft simple d.(typeText) d.(p_logic) d.(recursive) rs.

(** [prev.map((o) => o.id === i ? f(o) : o)] *)
Definition map_op (i : jsstr) (f : ParamOverrideOperation -> ParamOverrideOperation)
    (l : list ParamOverrideOperation) : list ParamOverrideOperation :=
  map (fun o => if streq o.(id) i then f o else o) l.

Section Handlers.
Context (now : Z -> Z).
(** Translation of a message that names a line, and of one that does not; the text of
    an error raised by the engine. *)
Context (t : jsstr -> Z -> jsstr) (tr : jsstr -> jsstr) (engine_error : jsstr).
(** Whether an updater passed to a setter runs before the setter returns. *)
Context (eager : bool).

(** ** Opening, and the effect that keeps the selection valid *)

(** [l[0]?.id || ''] *)
Definition first_id (l : list ParamOverrideOperation) : jsstr := match l with [] => [] | o :: _ => o.(id) end.

Definition open_dialog (value : jsstr) (toasts : list jsstr) : M Editor :=
  let* state := parseInitialState now value in
  ret (mkEditor state [] (first_id state.(operations)) ∅ [] [] before
         (match state.(visualMode) with legacy => js "legacy_default" | _ => js "operations_default" end) toasts None).

Definition keep_selection (ed : Editor) : Editor :=
  match ops ed with
  | [] => setSelectedOperationId [] ed
  | o :: _ => if existsb (fun o => streq o.(id) ed.(selectedOperationId)) (ops ed) then ed
              else setSelectedOperationId o.(id) ed
  end.

(** ** Operations *)

Definition updateOperation (operationId : jsstr) (patch : OperationPatch) (ed : Editor) : M Editor :=
  ret (setOperations (map_op operationId (patch_operation patch) (ops ed)) ed).

Definition addOperation (ed : Editor) : M Editor :=
  let* created := createDefaultOperation now in
  ret (setSelectedOperationId created.(id) (setOperations (ops ed ++ [created]) ed)).

(** The object that [duplicateOperation] normalizes. *)
Definition clone_source (source : ParamOverrideOperation) : val :=
  obj [("description", VStr source.(description)); ("path", VStr source.(path)); ("mode", VStr source.(mode));
       ("value", parseLooseValue source.(value_text)); ("keep_origin", VBool source.(keep_origin));
       ("from", VStr source.(from)); ("to", VStr source.(to)); ("logic", VStr source.(logic));
       ("conditions", VArr (map (fun c =>
          obj [("path", VStr c.(c_path)); ("mode", VStr c.(c_mode)); ("value", parseLooseValue c.(c_value_text));
               ("invert", VBool c.(invert)); ("pass_missing_key", VBool c.(pass_missing_key))])
          source.(conditions)))]%string.

Definition duplicateOperation (operationId : jsstr) (ed : Editor) : M Editor :=
  match find_op operationId (ops ed) with
  | None => ret ed
  | Some idx =>
      match ops ed !! idx with
      | None => ret ed
      | Some source =>
          let* cloned := normalizeOperation now (clone_source source) in
          let ed' := setOperations (splice_in (S idx) cloned (ops ed)) ed in
          ret (if eager && truthy_str cloned.(id) then setSelectedOperationId cloned.(id) ed' else ed')
      end
  end.

Definition removeOperation (operationId : jsstr) (ed : Editor) : M Editor :=
  if (length (ops ed) <=? 1)%nat then
    let* o := createDefaultOperation now in ret (setOperations [o] ed)
  else ret (setOperations (List.filter (fun o => negb (streq o.(id) operationId)) (ops ed)) ed).

(** ** Conditions *)

Definition addCondition (operationId : jsstr) (ed : Editor) : M Editor :=
  let* created := createDefaultCondition now in
  ret (setExpandedConditions (<[created.(c_id) := true]> ed.(expandedConditions))
    (setOperations (map_op operationId (fun op => set_conditions (op.(conditions) ++ [created]) op) (ops ed)) ed)).

Definition updateCondition (operationId conditionId : jsstr) (patch : ConditionPatch) (ed : Editor) : M Editor :=
  ret (setOperations
    (map_op operationId (fun op =>
       set_conditions (map (fun c => if streq c.(c_id) conditionId then patch_condition patch c else c) op.(conditions)) op)
       (ops ed)) ed).

Definition removeCondition (operationId conditionId : jsstr) (ed : Editor) : M Editor :=
  ret (setOperations
    (map_op operationId (fun op =>
       set_conditions (List.filter (fun c => negb (streq c.(c_id) conditionId)) op.(conditions)) op) (ops ed)) ed).

(** [{ ...prev, ...map }] where [map] gives [flag] to every condition of the selection. *)
Definition set_expanded (flag : bool) (ed : Editor) : M Editor :=
  match List.find (fun o => streq o.(id) ed.(selectedOperationId)) (ops ed) with
  | None => ret ed
  | Some o =>
      ret (setExpandedConditions (fold_left (fun m c => <[c.(c_id) := flag]> m) o.(conditions) ed.(expandedConditions)) ed)
  end.
Definition expandAllConditions : Editor -> M Editor := set_expanded true.
Definition collapseAllConditions : Editor -> M Editor := set_expanded false.

(** ** Drafts *)

Definition updateReturnErrorDraft (operationId : jsstr) (draftPatch : ErrorPatch) (ed : Editor) : M Editor :=
  ret (setOperations
    (map_op operationId (fun op =>
       set_value_text (buildReturnErrorValueText (patch_error draftPatch (parseReturnErrorDraft op.(value_text)))) op)
       (ops ed)) ed).

Definition update_draft (operationId : jsstr) (updater : PruneObjectsDraft -> M PruneObjectsDraft)
    (op : ParamOverrideOperation) : M ParamOverrideOperation :=
  if streq op.(id) operationId then
    let* draft := parsePruneObjectsDraft now op.(value_text) in
    let* nextDraft := updater draft in
    ret (set_value_text (buildPruneObjectsValueText nextDraft) op)
  else ret op.

Definition updatePruneObjectsDraft (operationId : jsstr) (updater : PruneObjectsDraft -> M PruneObjectsDraft)
    (ed : Editor) : M Editor :=
  let* l := traverse (update_draft operationId updater) (ops ed) in
  ret (setOperations l ed).

Definition addPruneRule (operationId : jsstr) : Editor -> M Editor :=
  updatePruneObjectsDraft operationId (fun draft =>
    let* r := normalizePruneRule now (VObj []) in ret (set_rules false (draft.(rules) ++ [r]) draft)).

Definition updatePruneRule (operationId ruleId : jsstr) (patch : ConditionPatch) : Editor -> M Editor :=
  updatePruneObjectsDraft operationId (fun draft =>
    ret (set_rules draft.(p_simpleMode)
           (map (fun r => if streq r.(c_id) ruleId then patch_condition patch r else r) draft.(rules)) draft)).

Definition removePruneRule (operationId ruleId : jsstr) : Editor -> M Editor :=
  updatePruneObjectsDraft operationId (fun draft =>
    ret (set_rules draft.(p_simpleMode)
           (List.filter (fun r => negb (streq r.(c_id) ruleId)) draft.(rules)) draft)).

(** The draft that is shown, parsed when the selected operation changes. *)
Definition selectedOperation (ed : Editor) : option ParamOverrideOperation :=
  List.find (fun o => streq o.(id) ed.(selectedOperationId)) (ops ed).

Definition returnErrorDraft (ed : Editor) : option ReturnErrorDraft :=
  match selectedOperation ed with
  | Some o => if streq o.(mode) (js "return_error") then Some (parseReturnErrorDraft o.(value_text)) else None
  | None => None
  end.

Definition pruneObjectsDraft (ed : Editor) : M (option PruneObjectsDraft) :=
  match selectedOperation ed with
  | Some o => if streq o.(mode) (js "prune_objects")
              then let* d := parsePruneObjectsDraft now o.(value_text) in ret (Some d) else ret None
  | None => ret None
  end.

(** ** Drag and drop *)

Definition resetDragState (ed : Editor) : Editor := set_drag [] [] before ed.

Definition handleDragStart (operationId : jsstr) (ed : Editor) : M Editor :=
  ret (setSelectedOperationId operationId (set_drag operationId ed.(dragOverOperationId) ed.(dragOverPosition) ed)).

Definition handleDragOver (clientY top height : num) (operationId : jsstr) (ed : Editor) : M Editor :=
  if negb (truthy_str ed.(draggedOperationId)) || streq ed.(draggedOperationId) operationId then ret ed
  else
    let position := if ngt (nsub clientY top) (ndiv height (num_of_Z 2)) then after else before in
    ret (set_drag ed.(draggedOperationId) operationId position ed).

Definition handleDrop (data operationId : jsstr) (ed : Editor) : M Editor :=
  let sourceId := or_str ed.(draggedOperationId) data in
  let position := if streq ed.(dragOverOperationId) operationId then ed.(dragOverPosition) else before in
  let ed' :=
    if truthy_str sourceId && truthy_str operationId && negb (streq sourceId operationId)
    then setSelectedOperationId sourceId (setOperations (reorderOperations (ops ed) sourceId operationId position) ed)
    else ed in
  ret (resetDragState ed').

(** ** Switching modes *)

Definition buildVisualJson (ed : Editor) : Built :=
  match ed.(hooks).(visualMode) with
  | legacy =>
      let trimmed := trim ed.(hooks).(legacyValue) in
      if negb (truthy_str trimmed) then Text []
      else match json_parse trimmed with
           | None => Rejected (tr (js "Parameter override must be valid JSON format"))
           | Some (VObj fields) => Text (stringify2 (VObj fields))
           | Some _ => Rejected (tr (js "Legacy format must be a JSON object"))
           end
  | operations_mode => buildOperationsJson t (ops ed) true
  end.

(** [(error as Error).message], the text otherwise. *)
Definition error_of (b : Built) : option jsstr :=
  match b with Text _ => None | Rejected m => Some m | Raised => Some engine_error end.
Definition text_or_empty (b : Built) : jsstr := match b with Text s => s | _ => [] end.

Definition switchToJsonMode (ed : Editor) : M Editor :=
  match ed.(hooks).(editMode) with
  | json => ret ed
  | visual =>
      match error_of (buildVisualJson ed) with
      | None => ret (set_json json (text_or_empty (buildVisualJson ed)) [] ed)
      | Some message =>
          let text := match ed.(hooks).(visualMode) with
                      | legacy => ed.(hooks).(legacyValue)
                      | operations_mode => text_or_empty (buildOperationsJson t (ops ed) false)
                      end in
          ret (set_json json text (or_str message (tr (js "Parameter configuration error"))) (toast_error message ed))
      end
  end.

(** The six setters that every change of representation calls. *)
Definition show_operations (l : list ParamOverrideOperation) (ed : Editor) : Editor :=
  setSelectedOperationId (first_id l)
    (set_hooks (mkEditorState visual operations_mode [] l ed.(hooks).(jsonText) []) ed).

Definition switchToVisualMode (ed : Editor) : M Editor :=
  match ed.(hooks).(editMode) with
  | visual => ret ed
  | json =>
      let trimmed := trim ed.(hooks).(jsonText) in
      if negb (truthy_str trimmed) then
        let* fallback := createDefaultOperation now in ret (show_operations [fallback] ed)
      else
        match json_parse trimmed with
        | None => ret (toast_error (tr (js "Parameter override must be valid JSON format")) ed)
        | Some parsed =>
            match parsed, get "operations" parsed with
            | VObj _, VArr items =>
                let* nextOps := operations_of now items in
                ret (setTemplatePresetKey (js "operations_default") (show_operations nextOps ed))
            | VObj _, _ =>
                let* fallback := createDefaultOperation now in
                ret (setTemplatePresetKey (js "legacy_default")
                  (setSelectedOperationId fallback.(id)
                    (set_hooks (mkEditorState visual legacy (stringify2 parsed) [fallback] ed.(hooks).(jsonText) []) ed)))
            | _, _ => ret (toast_error (tr (js "Parameter override must be a valid JSON object")) ed)
            end
        end
  end.

(** ** Templates and the rest *)

(** The own fields that spreading a value copies. *)
Definition spread_fields (v : val) : list (jsstr * val) :=
  match v with
  | VObj fields => fields
  | VArr l => imap (fun i x => (dec (Z.of_nat i), x)) l
  | VStr s => imap (fun i c => (dec (Z.of_nat i), VStr [c])) s
  | _ => []
  end.

(** [{ ...a, ...b }] *)
Definition spread (a b : val) : val := VObj (mk_fields (spread_fields a ++ spread_fields b)).

Inductive FillMode := fill | append.

Definition fill_legacy (text : jsstr) (ed : Editor) : M Editor :=
  let* o := createDefaultOperation now in
  ret (set_hooks (mkEditorState visual legacy text [o] text []) ed).

(** [payload.operations || []] *)
Definition operationsPayload (p : val) : list val := match get "operations" p with VArr items => items | _ => [] end.

Definition fillTemplate (mode : FillMode) (ed : Editor) : M Editor :=
  let preset := preset_of ed.(templatePresetKey) in
  match preset.(kind) with
  | k_legacy =>
      match mode, ed.(hooks).(visualMode) with
      | append, legacy =>
          let trimmed := trim ed.(hooks).(legacyValue) in
          if negb (truthy_str trimmed) then fill_legacy (stringify2 (spread preset.(payload) (VObj []))) ed
          else match json_parse trimmed with
               | None => ret (toast_error (tr (js "Current legacy JSON is invalid, cannot append")) ed)
               | Some parsedCurrent => fill_legacy (stringify2 (spread preset.(payload) parsedCurrent)) ed
               end
      | _, _ => fill_legacy (stringify2 preset.(payload)) ed
      end
  | k_operations =>
      let items := operationsPayload preset.(payload) in
      match mode with
      | append =>
          let* appended := traverse (normalizeOperation now) items in
          let existing := match ed.(hooks).(visualMode) with
                          | operations_mode => List.filter (fun o => negb (isOperationBlank o)) (ops ed)
                          | legacy => []
                          end in
          let nextOps := existing ++ appended in
          ret (set_json visual [] [] (show_operations nextOps ed))
      | fill =>
          let* finalOps := operations_of now items in
          let h := ed.(hooks) in
          ret (setSelectedOperationId (first_id finalOps)
            (set_hooks (mkEditorState visual operations_mode h.(legacyValue) finalOps
                          (stringify2 (obj [("operations", VArr items)]%string)) []) ed))
      end
  end.

Definition resetEditorState (ed : Editor) : M Editor :=
  let* fallback := createDefaultOperation now in
  ret (setTemplatePresetKey (js "operations_default")
    (setSelectedOperationId fallback.(id)
      (set_hooks (mkEditorState visual operations_mode [] [fallback] [] []) ed))).

Definition handleJsonChange (nextValue : jsstr) (ed : Editor) : M Editor :=
  let trimmed := trim nextValue in
  let error := if negb (truthy_str trimmed) then []
               else if verifyJSON trimmed then [] else tr (js "JSON format error") in
  ret (set_json ed.(hooks).(editMode) nextValue error ed).

Definition visualValidationError (ed : Editor) : jsstr :=
  match ed.(hooks).(editMode) with
  | json => []
  | visual =>
      match error_of (buildVisualJson ed) with
      | None => []
      | Some message => or_str message (tr (js "Parameter configuration error"))
      end
  end.

Definition handleSave (ed : Editor) : M Editor :=
  let result :=
    match ed.(hooks).(editMode) with
    | json =>
        let trimmed := trim ed.(hooks).(jsonText) in
        if negb (truthy_str trimmed) then Text []
        else match json_parse trimmed with
             | None => Rejected (tr (js "Parameter override must be valid JSON format"))
             | Some parsed => Text (stringify2 parsed)
             end
    | visual => buildVisualJson ed
    end in
  match result with
  | Text text => ret (onSave text ed)
  | Rejected m => ret (toast_error m ed)
  | Raised => ret (toast_error engine_error ed)
  end.
End Handlers.

(** ** Events and reachable states *)

Inductive Event :=
| EUpdateOperation (i : jsstr) (u : OperationPatch)
| EAddOperation
| EDuplicateOperation (i : jsstr)
| ERemoveOperation (i : jsstr)
| EAddCondition (i : jsstr)
| EUpdateCondition (i c : jsstr) (u : ConditionPatch)
| ERemoveCondition (i c : jsstr)
| EExpandAll | ECollapseAll
| EUpdateError (i : jsstr) (u : ErrorPatch)
| EUpdatePrune (i : jsstr) (u : PrunePatch)
| EAddPruneRule (i : jsstr)
| EUpdatePruneRule (i r : jsstr) (u : ConditionPatch)
| ERemovePruneRule (i r : jsstr)
| EDragStart (i : jsstr)
| EDragOver (y top height : num) (i : jsstr)
| EDrop (data i : jsstr)
| EDragEnd
| EJsonMode | EVisualMode
| EFill (m : FillMode)
| EReset
| EJson (text : jsstr)
| ELegacy (text : jsstr)
| ESelect (i : jsstr)
| ESearch (text : jsstr)
| EPreset (key : jsstr)
| ESave.

Section Steps.
Context (now : Z -> Z) (t : jsstr -> Z -> jsstr) (tr : jsstr -> jsstr) (engine_error : jsstr) (eager : bool).

Definition handle (e : Event) : Editor -> M Editor :=
  match e with
  | EUpdateOperation i u => updateOperation i u
  | EAddOperation => addOperation now
  | EDuplicateOperation i => duplicateOperation now eager i
  | ERemoveOperation i => removeOperation now i
  | EAddCondition i => addCondition now i
  | EUpdateCondition i c u => updateCondition i c u
  | ERemoveCondition i c => removeCondition i c
  | EExpandAll => expandAllConditions
  | ECollapseAll => collapseAllConditions
  | EUpdateError i u => updateReturnErrorDraft i u
  | EUpdatePrune i u => updatePruneObjectsDraft now i (fun d => ret (patch_prune u d))
  | EAddPruneRule i => addPruneRule now i
  | EUpdatePruneRule i r u => updatePruneRule now i r u
  | ERemovePruneRule i r => removePruneRule now i r
  | EDragStart i => handleDragStart i
  | EDragOver y top height i => handleDragOver y top height i
  | EDrop data i => handleDrop data i
  | EDragEnd => fun ed => ret (resetDragState ed)
  | EJsonMode => switchToJsonMode t tr engine_error
  | EVisualMode => switchToVisualMode now tr
  | EFill m => fillTemplate now tr m
  | EReset => resetEditorState now
  | EJson text => handleJsonChange tr text
  | ELegacy text => fun ed => ret (setLegacyValue text ed)
  | ESelect i => fun ed => ret (setSelectedOperationId i ed)
  | ESearch text => fun ed => ret (setOperationSearch text ed)
  | EPreset key => fun ed => ret (setTemplatePresetKey (or_str key (js "operations_default")) ed)
  | ESave => handleSave t tr engine_error
  end.

(** The values of the two mode selectors are those of the option lists. *)
Definition valid_event (e : Event) : Prop :=
  match e with
  | EUpdateOperation _ u => match u.(u_mode) with Some m => has OPERATION_MODE_VALUES m = true | None => True end
  | EUpdateCondition _ _ u | EUpdatePruneRule _ _ u =>
      match u.(uc_mode) with Some m => has CONDITION_MODE_VALUES m = true | None => True end
  | _ => True
  end.

(** One event: the handler, then the effect on the selection; a handler that raises
    leaves the state as it was. *)
Definition step (e : Event) (ed : Editor) (s : Z) : Editor * Z :=
  match handle e ed s with
  | (Some ed', s') => (keep_selection ed', s')
  | (None, s') => (ed, s')
  end.

Inductive reachable : Editor -> Z -> Prop :=
| reach_open value seen s ed s' :
    0 <= s -> open_dialog now value seen s = (Some ed, s') -> reachable (keep_selection ed) s'
| reach_step e ed s :
    reachable ed s -> valid_event e -> reachable (step e ed s).1 (step e ed s).2
| reach_render ed s : reachable ed s -> reachable ed (pruneObjectsDraft now ed s).2.
End Steps.

(** ** Identifiers *)

(** Local rules for code that draws identifiers: the counter never goes back, and what
    is returned satisfies [Q]; nothing is claimed of a raised error. *)
Definition wp {A} (m : M A) (Q : A -> Z -> Prop) (s : Z) : Prop :=
  s <= (m s).2 /\ match (m s).1 with Some a => Q a (m s).2 | None => True end.

Lemma wp_ret {A} (a : A) Q s : Q a s -> wp (ret a) Q s.
Proof. split; [done|done]. Qed.

Lemma wp_lift {A} (o : option A) Q s : (forall a, o = Some a -> Q a s) -> wp (lift o) Q s.
Proof. intros H. split; [done|]. destruct o; cbn; auto. Qed.

Lemma wp_bind {A B} (m : M A) (f : A -> M B) Q s : wp m (fun a s' => wp (f a) Q s') s -> wp (bind m f) Q s.
Proof.
  unfold wp, bind. intros [Hs H]. destruct (m s) as [[a|] s1]; cbn [fst snd] in *; [|done].
  destruct H as [H1 H2]. split; [lia|done].
Qed.

Lemma wp_impl {A} (m : M A) (Q Q' : A -> Z -> Prop) s :
  wp m Q s -> (forall a s', s <= s' -> Q a s' -> Q' a s') -> wp m Q' s.
Proof. unfold wp. intros [Hs H] Hi. split; [done|]. destruct (m s) as [[a|] s1]; cbn in *; auto. Qed.

Lemma wp_traverse {A B} (f : A -> M B) (P : Z -> Z -> B -> Prop) l s :
  (forall a s, a ∈ l -> wp (f a) (fun b s' => P s s' b) s) ->
  (forall b lo hi lo' hi', lo' <= lo -> hi <= hi' -> P lo hi b -> P lo' hi' b) ->
  wp (traverse f l) (fun bs s' => Forall (P s s') bs) s.
Proof.
  intros Hf Hm. revert s. induction l as [|a l IH]; intros s; [by apply wp_ret|]. cbn [traverse].
  apply wp_bind. eapply wp_impl; [apply Hf, list_elem_of_here|]. intros b s1 Hs1 Hb.
  apply wp_bind. eapply wp_impl; [apply IH; intros; apply Hf; by apply list_elem_of_further|].
  intros bs s2 Hs2 Hbs. apply wp_ret. constructor.
  - by eapply (Hm _ s s1).
  - eapply Forall_impl; [exact Hbs|]. intros x Hx. by eapply (Hm _ s1 s2).
Qed.

Lemma wp_catch {A} (m : M A) a Q s : wp m Q s -> (forall s', s <= s' -> Q a s') -> wp (catch m a) Q s.
Proof. unfold wp, catch. intros [Hs H] Ha. destruct (m s) as [[b|] s1]; cbn [fst snd] in *; auto. Qed.

(** [l.map(f)] related item by item. *)
Lemma wp_traverse2 {A B} (f : A -> M B) (R : A -> B -> Prop) l s :
  0 <= s -> (forall a s, 0 <= s -> wp (f a) (fun b _ => R a b) s) -> wp (traverse f l) (fun bs _ => Forall2 R l bs) s.
Proof.
  intros Hs Hf. revert s Hs. induction l as [|a l IH]; intros s Hs; [by apply wp_ret|]. cbn [traverse].
  apply wp_bind. eapply wp_impl; [by apply Hf|]. intros b s1 Hs1 Hb.
  apply wp_bind. eapply wp_impl; [apply IH; lia|]. intros bs s2 _ Hbs. apply wp_ret. by constructor.
Qed.

Section Ids.
Context (now : Z -> Z).

(** The identifier with number [k]. *)
Definition id_of (k : Z) : jsstr := js "po_" ++ dec (now k) ++ js "_" ++ dec k.

Definition issued (lo hi : Z) (i : jsstr) : Prop := exists k, lo <= k < hi /\ i = id_of k.

Lemma wp_next Q s : Q (id_of s) (s + 1) -> wp (nextLocalId now) Q s.
Proof. intros H. split; cbn; [lia|done]. Qed.

Lemma issued_mono lo hi lo' hi' i : lo' <= lo -> hi <= hi' -> issued lo hi i -> issued lo' hi' i.
Proof. intros ?? (k & Hk & ->). exists k. split; [lia|done]. Qed.

Lemma id_of_inj j k : 0 <= j -> 0 <= k -> id_of j = id_of k -> j = k.
Proof.
  intros Hj Hk H. apply (f_equal reverse) in H. unfold id_of in H. rewrite !app_assoc, !reverse_app in H.
  change (reverse (js "_")) with [95] in H.
  assert (forall n, 0 <= n -> 95 ∉ reverse (dec n)) as Hn.
  { intros n Hn Hin. rewrite elem_of_reverse in Hin. pose proof (dec_digits n Hn) as Hd.
    rewrite Forall_forall in Hd. by specialize (Hd _ Hin). }
  apply (f_equal (split_on 95)) in H. cbn [app] in H.
  rewrite !split_on_app in H by auto. injection H as H _. apply (inj reverse) in H.
  by rewrite <- (dec_value j Hj), <- (dec_value k Hk), H.
Qed.

Lemma issued_disjoint lo hi lo' hi' i :
  0 <= lo -> hi <= lo' -> issued lo hi i -> issued lo' hi' i -> False.
Proof. intros ?? (k & Hk & ->) (k' & Hk' & H%id_of_inj); lia. Qed.

(** ** Well-formed operations *)

(** Made between two readings of the counter. *)
Record condition_inv (lo hi : Z) (c : ParamOverrideCondition) : Prop := {
  ci_id : issued lo hi c.(c_id);
  ci_mode : has CONDITION_MODE_VALUES c.(c_mode) = true
}.

Record operation_inv (lo hi : Z) (o : ParamOverrideOperation) : Prop := {
  oi_id : issued lo hi o.(id);
  oi_mode : has OPERATION_MODE_VALUES o.(mode) = true;
  oi_conditions : Forall (condition_inv lo hi) o.(conditions);
  oi_nodup : NoDup (map c_id o.(conditions))
}.

Definition operations_inv (lo hi : Z) (l : list ParamOverrideOperation) : Prop :=
  Forall (operation_inv lo hi) l /\ NoDup (map id l).

Lemma condition_inv_mono c lo hi lo' hi' :
  lo' <= lo -> hi <= hi' -> condition_inv lo hi c -> condition_inv lo' hi' c.
Proof. intros ?? [H1 H2]. constructor; [by eapply issued_mono|done]. Qed.

Lemma operation_inv_mono o lo hi lo' hi' :
  lo' <= lo -> hi <= hi' -> operation_inv lo hi o -> operation_inv lo' hi' o.
Proof.
  intros ?? [H1 H2 H3 H4]. constructor; [by eapply issued_mono|done| |done].
  eapply Forall_impl; [exact H3|]. intros c. by apply condition_inv_mono.
Qed.

(** Lists made one after the other have no identifier in common. *)
Lemma nodup_later {A} (f : A -> jsstr) lo mid hi l l' :
  0 <= lo -> Forall (fun a => issued lo mid (f a)) l -> Forall (fun a => issued mid hi (f a)) l' ->
  NoDup (map f l) -> NoDup (map f l') -> NoDup (map f (l ++ l')).
Proof.
  intros Hlo Hl Hl' Hn Hn'. rewrite map_app. apply NoDup_app. split_and!; [done| |done].
  intros i (a & -> & Ha)%list_elem_of_fmap (b & Hb & Hb')%list_elem_of_fmap.
  rewrite Forall_forall in Hl, Hl'. specialize (Hl _ Ha). specialize (Hl' _ Hb'). rewrite <- Hb in Hl'.
  by eapply (issued_disjoint lo mid mid hi).
Qed.

Lemma operations_inv_app lo mid hi l l' :
  0 <= lo <= mid -> mid <= hi -> operations_inv lo mid l -> operations_inv mid hi l' -> operations_inv lo hi (l ++ l').
Proof.
  intros Hlo Hmid [H1 H2] [H3 H4]. split.
  - apply Forall_app. split; (eapply Forall_impl; [eassumption|]); intros o; apply operation_inv_mono; lia.
  - apply (nodup_later id lo mid hi); try done; try lia; (eapply Forall_impl; [eassumption|]); by intros o [].
Qed.

Lemma mode_or_valid values d v : has values (js d) = true -> has values (mode_or values d v) = true.
Proof. intros Hd. unfold mode_or. destruct v; try done. by case_match. Qed.

Lemma wp_normalizeCondition v s : wp (normalizeCondition now v) (fun c s' => s' = s + 1 /\ condition_inv s s' c) s.
Proof.
  unfold normalizeCondition. apply wp_bind, wp_next. do 5 (apply wp_bind, wp_lift; intros ? _). apply wp_ret.
  split; [done|]. constructor; cbn [c_id c_mode]; [|by apply mode_or_valid].
  exists s. split; [lia|done].
Qed.

(** Items made in turn have distinct identifiers. *)
Lemma wp_traverse_nodup {A B} (f : A -> M B) (key : B -> jsstr) (P : Z -> Z -> B -> Prop) l s :
  0 <= s ->
  (forall a s, 0 <= s -> wp (f a) (fun b s' => P s s' b) s) ->
  (forall b lo hi lo' hi', lo' <= lo -> hi <= hi' -> P lo hi b -> P lo' hi' b) ->
  (forall b lo hi, P lo hi b -> issued lo hi (key b)) ->
  wp (traverse f l) (fun bs s' => Forall (P s s') bs /\ NoDup (map key bs) /\ length bs = length l) s.
Proof.
  intros Hs Hf Hm Hk. revert s Hs. induction l as [|a l IH]; intros s Hs; [apply wp_ret; split_and!; constructor|].
  cbn [traverse]. apply wp_bind. eapply wp_impl; [by apply Hf|]. intros b s1 Hs1 Hb.
  apply wp_bind. eapply wp_impl; [apply IH; lia|]. intros bs s2 Hs2 (Hbs & Hn & Hl). apply wp_ret.
  split_and!; [| |cbn [length]; by f_equal].
  - constructor; [by eapply (Hm _ s s1)|]. eapply Forall_impl; [exact Hbs|]. intros x. by apply Hm.
  - apply (nodup_later key s s1 s2 [b] bs); [done|by repeat constructor; eauto| |apply NoDup_singleton|done].
    eapply Forall_impl; [exact Hbs|]. eauto.
Qed.

Lemma wp_normalizeOperation v s : 0 <= s -> wp (normalizeOperation now v) (fun o s' => operation_inv s s' o) s.
Proof.
  intros Hs. unfold normalizeOperation. apply wp_bind, wp_next. do 10 (apply wp_bind, wp_lift; intros ? _).
  apply wp_bind. eapply wp_impl with (Q := fun cs s' => Forall (condition_inv (s + 1) s') cs /\ NoDup (map c_id cs)).
  - destruct a8; try (apply wp_ret; split; constructor).
    eapply wp_impl; [apply (wp_traverse_nodup _ c_id condition_inv); [lia| |apply condition_inv_mono|by intros ??? []]|].
    + intros v' s' _. eapply wp_impl; [apply wp_normalizeCondition|]. by intros c s'' _ [_ H].
    + intros cs s' _ (H1 & H2 & _). done.
  - intros cs s' Hs' [Hcs Hn]. apply wp_ret. constructor; cbn [id mode conditions].
    + exists s. split; [lia|done].
    + by apply mode_or_valid.
    + eapply Forall_impl; [exact Hcs|]. intros c. apply condition_inv_mono; lia.
    + done.
Qed.

Lemma wp_operations items s :
  0 <= s -> wp (traverse (normalizeOperation now) items) (fun l s' => operations_inv s s' l /\ length l = length items) s.
Proof.
  intros Hs. eapply wp_impl; [apply (wp_traverse_nodup _ id operation_inv); try done|].
  - intros v s' Hs'. by apply wp_normalizeOperation.
  - apply operation_inv_mono.
  - by intros ??? [].
  - intros l s' _ (H1 & H2 & H3). by split.
Qed.

Lemma operations_inv_one lo hi o : operation_inv lo hi o -> operations_inv lo hi [o].
Proof. intros H. split; [by constructor|apply NoDup_singleton]. Qed.

Lemma wp_createDefault s : 0 <= s -> wp (createDefaultOperation now) (fun o s' => operation_inv s s' o) s.
Proof. apply wp_normalizeOperation. Qed.

(** What every list of operations in the editor satisfies. *)
Definition shown (s : Z) (l : list ParamOverrideOperation) : Prop := l <> [] /\ operations_inv 0 s l.

Lemma shown_new s s' l : 0 <= s <= s' -> l <> [] -> operations_inv s s' l -> shown s' l.
Proof.
  intros Hs Hl [H1 H2]. split; [done|]. split; [|done]. eapply Forall_impl; [exact H1|].
  intros o. apply operation_inv_mono; lia.
Qed.

Lemma shown_mono s s' l : s <= s' -> shown s l -> shown s' l.
Proof.
  intros Hs [Hl [H1 H2]]. split; [done|]. split; [|done]. eapply Forall_impl; [exact H1|].
  intros o. apply operation_inv_mono; lia.
Qed.

Lemma wp_operations_of items s : 0 <= s -> wp (operations_of now items) (fun l s' => shown s' l) s.
Proof.
  intros Hs. destruct items as [|v items].
  - apply wp_bind. eapply wp_impl; [by apply wp_createDefault|]. intros o s' Hs' Ho. apply wp_ret.
    apply (shown_new s); [lia|done|by apply operations_inv_one].
  - eapply wp_impl; [by apply wp_operations|]. intros l s' Hs' [Hi Hl].
    apply (shown_new s); [lia| |exact Hi]. by intros ->.
Qed.

Lemma wp_default_list {A} (k : ParamOverrideOperation -> A) (Q : A -> Z -> Prop) s :
  0 <= s -> (forall o s', s <= s' -> shown s' [o] -> Q (k o) s') ->
  wp (let* o := createDefaultOperation now in ret (k o)) Q s.
Proof.
  intros Hs HQ. apply wp_bind. eapply wp_impl; [by apply wp_createDefault|]. intros o s' Hs' Ho.
  apply wp_ret, HQ; [done|]. apply (shown_new s); [lia|done|by apply operations_inv_one].
Qed.

Lemma wp_parseInitialState value s :
  0 <= s -> wp (parseInitialState now value) (fun st s' => shown s' st.(operations)) s.
Proof.
  intros Hs. unfold parseInitialState.
  repeat (case_match; try by (apply wp_default_list; [done|]; intros o s' _ Ho)).
  apply wp_bind. eapply wp_impl; [by apply wp_operations_of|]. intros l' s' _ Hl. by apply wp_ret.
Qed.

(** ** What the updates of a list preserve *)

(** [b] is [a] with other texts. *)
Definition same_frame (a b : ParamOverrideOperation) : Prop :=
  b.(id) = a.(id) /\ b.(mode) = a.(mode) /\ b.(conditions) = a.(conditions).

Lemma shown_Forall2 s s' (R : ParamOverrideOperation -> ParamOverrideOperation -> Prop) l l' :
  (forall a b, R a b -> b.(id) = a.(id)) ->
  (forall a b, R a b -> operation_inv 0 s a -> operation_inv 0 s' b) ->
  Forall2 R l l' -> shown s l -> shown s' l'.
Proof.
  intros Hid HR HF [Hl [H1 H2]].
  assert (map id l' = map id l) as Heq by (clear H1 H2 Hl; induction HF; cbn [map]; f_equal; auto).
  split; [by intros ->; inversion HF; subst|]. split; [|by rewrite Heq].
  clear Hl H2 Heq. induction HF; [done|]. apply Forall_cons in H1 as [? ?]. constructor; eauto.
Qed.

Lemma same_frame_inv lo hi a b : same_frame a b -> operation_inv lo hi a -> operation_inv lo hi b.
Proof. intros (Hi & Hm & Hc) [H1 H2 H3 H4]. constructor; rewrite ?Hi, ?Hm, ?Hc; done. Qed.

Lemma shown_map_op s s' i f l :
  s <= s' -> (forall o, (f o).(id) = o.(id)) -> (forall o, operation_inv 0 s o -> operation_inv 0 s' (f o)) ->
  shown s l -> shown s' (map_op i f l).
Proof.
  intros Hs Hid Hf. apply (shown_Forall2 s s' (fun a b => b = f a \/ b = a)).
  - by intros a b [-> | ->].
  - intros a b [-> | ->]; [apply Hf|]. apply operation_inv_mono; lia.
  - unfold map_op. clear. induction l as [|a l IH]; cbn [map]; constructor; [destruct (streq _ _); auto|exact IH].
Qed.

Lemma filter_Forall {A} (P : A -> Prop) p l : Forall P l -> Forall P (List.filter p l).
Proof. intros H. induction H; cbn [List.filter]; [done|]. destruct (p x); [by constructor|done]. Qed.

Lemma operations_inv_filter lo hi p l : operations_inv lo hi l -> operations_inv lo hi (List.filter p l).
Proof. intros [H1 H2]. split; [by apply filter_Forall|by apply filter_nodup]. Qed.

(** Of two operations or more, removing one identifier leaves one. *)
Lemma remove_leaves i l :
  (2 <= length l)%nat -> NoDup (map id l) -> List.filter (fun o => negb (streq o.(id) i)) l <> [].
Proof.
  destruct l as [|a [|b l]]; cbn [length map]; intros Hl Hn; try lia. cbn [List.filter].
  apply NoDup_cons in Hn as [Hab _].
  destruct (streq (id a) i) eqn:Ea; [|done]. destruct (streq (id b) i) eqn:Eb; [|done]. exfalso.
  apply streq_true in Ea, Eb. apply Hab. rewrite Ea, Eb. apply list_elem_of_here.
Qed.

Lemma shown_perm s l l' : Permutation l l' -> shown s l -> shown s l'.
Proof.
  intros Hp [Hl [H1 H2]]. split; [|split].
  - intros ->. by apply Permutation_nil_r in Hp.
  - by rewrite <- Hp.
  - eapply NoDup_Permutation_proper; [|exact H2]. by apply Permutation_map.
Qed.

Lemma splice_in_perm {A} k (x : A) l : Permutation (splice_in k x l) (x :: l).
Proof. unfold splice_in. rewrite <- Permutation_middle. by rewrite take_drop. Qed.

Lemma reorder_perm l src tgt pos : Permutation l (reorderOperations l src tgt pos).
Proof.
  unfold reorderOperations. repeat case_match; try done;
    (symmetry; etrans; [apply splice_in_perm|]; symmetry; by apply delete_Permutation).
Qed.

(** ** The handlers keep the list of operations well formed *)

Definition preserves (h : Editor -> M Editor) : Prop :=
  forall ed s, 0 <= s -> shown s (ops ed) -> wp (h ed) (fun ed' s' => shown s' (ops ed')) s.

Lemma preserves_ret (f : Editor -> Editor) : (forall ed s, shown s (ops ed) -> shown s (ops (f ed))) -> preserves (fun ed => ret (f ed)).
Proof. intros Hf ed s Hs Hed. apply wp_ret. by apply Hf. Qed.

Lemma preserves_updateOperation i u :
  match u.(u_mode) with Some m => has OPERATION_MODE_VALUES m = true | None => True end ->
  preserves (updateOperation i u).
Proof.
  intros Hu. apply preserves_ret. intros ed s Hed. apply (shown_map_op s s); try done.
  intros o [H1 H2 H3 H4]. constructor; cbn; try done. destruct (u_mode u); done.
Qed.

Lemma preserves_addOperation : preserves (addOperation now).
Proof.
  intros ed s Hs [Hl Hi]. apply wp_bind. eapply wp_impl; [by apply wp_createDefault|].
  intros o s' Hs' Ho. apply wp_ret. split; [|apply (operations_inv_app 0 s); try done; by apply operations_inv_one].
  cbn. intros [_ [=]]%app_nil.
Qed.

Lemma preserves_duplicateOperation eager i : preserves (duplicateOperation now eager i).
Proof.
  intros ed s Hs [Hl Hi]. unfold duplicateOperation.
  destruct (find_op i (ops ed)) as [idx|]; [|by apply wp_ret]. destruct (ops ed !! idx) as [src|]; [|by apply wp_ret].
  apply wp_bind. eapply wp_impl; [by apply wp_normalizeOperation|]. intros o s' Hs' Ho. apply wp_ret.
  assert (shown s' (splice_in (S idx) o (ops ed))) as H; [|by destruct (_ && _)].
  eapply shown_perm; [symmetry; etrans; [apply splice_in_perm|apply Permutation_cons_append]|].
  split; [by intros [_ [=]]%app_nil|]. apply (operations_inv_app 0 s); try done. by apply operations_inv_one.
Qed.

Lemma preserves_removeOperation i : preserves (removeOperation now i).
Proof.
  intros ed s Hs [Hl Hi]. unfold removeOperation. destruct (length (ops ed) <=? 1)%nat eqn:E.
  - by apply wp_default_list.
  - apply wp_ret. apply Nat.leb_gt in E. split; [|by apply operations_inv_filter].
    apply remove_leaves; [lia|apply Hi].
Qed.

Lemma preserves_addCondition i : preserves (addCondition now i).
Proof.
  intros ed s Hs Hed. apply wp_bind. eapply wp_impl; [apply wp_normalizeCondition|].
  intros c s' Hs' [_ Hc]. apply wp_ret. apply (shown_map_op s s'); try done.
  intros o [H1 H2 H3 H4]. constructor; cbn; [by eapply issued_mono; [| |exact H1]|done| |].
  - apply Forall_app. split; [|constructor; [|done]].
    + eapply Forall_impl; [exact H3|]. intros c'. by apply condition_inv_mono.
    + eapply condition_inv_mono; [| |exact Hc]; lia.
  - apply (nodup_later c_id 0 s s'); [lia| | |done|apply NoDup_singleton].
    + eapply Forall_impl; [exact H3|]. by intros ? [].
    + constructor; [|done]. apply Hc.
Qed.

Lemma preserves_updateCondition i c u :
  match u.(uc_mode) with Some m => has CONDITION_MODE_VALUES m = true | None => True end ->
  preserves (updateCondition i c u).
Proof.
  intros Hu. apply preserves_ret. intros ed s Hed. apply (shown_map_op s s); try done.
  intros o [H1 H2 H3 H4]. constructor; cbn; try done.
  - apply Forall_fmap. eapply Forall_impl; [exact H3|]. intros x [Hx1 Hx2]. cbn.
    destruct (streq _ _); constructor; cbn; try done. destruct (uc_mode u); done.
  - rewrite map_map. erewrite map_ext; [exact H4|]. intros x. by destruct (streq _ _).
Qed.

Lemma preserves_removeCondition i c : preserves (removeCondition i c).
Proof.
  apply preserves_ret. intros ed s Hed. apply (shown_map_op s s); try done.
  intros o [H1 H2 H3 H4]. constructor; cbn; try done; [by apply filter_Forall|by apply filter_nodup].
Qed.

Lemma preserves_set_expanded b : preserves (set_expanded b).
Proof. intros ed s Hs Hed. unfold set_expanded. case_match; by apply wp_ret. Qed.

Lemma preserves_updateReturnErrorDraft i u : preserves (updateReturnErrorDraft i u).
Proof.
  apply preserves_ret. intros ed s Hed. apply (shown_map_op s s); try done.
  intros o. by apply same_frame_inv.
Qed.

Lemma wp_rules {A} (f : A -> val) l s :
  wp (traverse (fun a => normalizePruneRule now (f a)) l) (fun rs s' => Forall (condition_inv s s') rs) s.
Proof.
  apply wp_traverse; [|apply condition_inv_mono]. intros a s' _.
  eapply wp_impl; [apply wp_normalizeCondition|]. by intros c s'' _ [_ H].
Qed.

(** The rules of a draft have identifiers drawn while it was parsed. *)
Lemma wp_prune_draft_of v s :
  wp (prune_draft_of now v) (fun d s' => Forall (condition_inv s s') d.(rules)) s.
Proof.
  assert (forall w s, wp (where_rules now w) (fun rs s' => Forall (condition_inv s s') rs) s) as Hwhere.
  { intros w s1. destruct w; try (by apply wp_ret). apply (wp_rules (fun f => VObj _)). }
  assert (forall w s, wp (condition_rules now w) (fun rs s' => Forall (condition_inv s s') rs) s) as Hconds.
  { intros w s1. destruct w; try (by apply wp_ret); [apply (wp_rules (fun x => x))|apply (wp_rules (fun f => VObj _))]. }
  unfold prune_draft_of. destruct v; try (by apply wp_ret); try (by apply wp_bind, wp_lift; intros; apply wp_ret).
  apply wp_bind. eapply wp_impl; [apply Hwhere|]. intros r1 s1 Hs1 H1.
  apply wp_bind. eapply wp_impl; [apply Hconds|]. intros r2 s2 Hs2 H2.
  do 2 (apply wp_bind, wp_lift; intros ? _). apply wp_ret. cbn [rules]. apply Forall_app.
  split; [eapply Forall_impl; [exact H1|]|eapply Forall_impl; [exact H2|]]; intros c; apply condition_inv_mono; lia.
Qed.

Lemma wp_parsePruneObjectsDraft text s :
  wp (parsePruneObjectsDraft now text) (fun d s' => Forall (condition_inv s s') d.(rules)) s.
Proof.
  unfold parsePruneObjectsDraft. repeat case_match; try (by apply wp_ret).
  apply wp_catch; [apply wp_prune_draft_of|by constructor].
Qed.

Lemma preserves_updatePrune i up :
  (forall d s, 0 <= s -> wp (up d) (fun _ _ => True) s) -> preserves (updatePruneObjectsDraft now i up).
Proof.
  intros Hup ed s Hs Hed. apply wp_bind.
  eapply wp_impl; [apply (wp_traverse2 _ same_frame); [done|]|].
  - intros o s1 Hs1. unfold update_draft. destruct (streq _ _); [|by apply wp_ret].
    apply wp_bind. eapply wp_impl; [apply wp_parsePruneObjectsDraft|]. intros d s2 Hs2 _.
    apply wp_bind. eapply wp_impl; [apply Hup; lia|]. intros d' s3 _ _. by apply wp_ret.
  - intros l s' Hs' HF. apply wp_ret. eapply shown_mono; [exact Hs'|].
    eapply shown_Forall2; [| |exact HF|exact Hed]; [by intros ?? []|]. intros a b. apply same_frame_inv.
Qed.

Lemma preserves_addPruneRule i : preserves (addPruneRule now i).
Proof.
  apply preserves_updatePrune. intros d s _. apply wp_bind. eapply wp_impl; [apply wp_normalizeCondition|].
  intros c s' _ _. by apply wp_ret.
Qed.

Lemma preserves_handleDrop data i : preserves (handleDrop data i).
Proof.
  apply preserves_ret. intros ed s Hed. case_match; [|done]. eapply shown_perm; [apply reorder_perm|exact Hed].
Qed.

Lemma preserves_switchToVisualMode tr : preserves (switchToVisualMode now tr).
Proof.
  intros ed s Hs Hed. unfold switchToVisualMode.
  repeat (case_match; try by (apply wp_default_list; [done|]; intros o s' _ Ho)); try by apply wp_ret.
  apply wp_bind. eapply wp_impl; [by apply wp_operations_of|]. intros l' s' _ Hl. by apply wp_ret.
Qed.

Lemma preserves_switchToJsonMode t tr e : preserves (switchToJsonMode t tr e).
Proof. intros ed s Hs Hed. unfold switchToJsonMode. repeat case_match; by apply wp_ret. Qed.

(** The templates of the new format have operations. *)
Lemma preset_operations key :
  (preset_of key).(kind) = k_operations -> operationsPayload (preset_of key).(payload) <> [].
Proof.
  unfold preset_of. destruct (list_find _ _) as [[n [k p]]|] eqn:E; [|by vm_compute].
  apply list_find_Some in E as (E & _ & _). apply list_elem_of_lookup_2 in E.
  assert (Forall (fun e => match e.2.(kind) with k_operations => operationsPayload e.2.(payload) <> [] | _ => True end)
    TEMPLATE_PRESET_CONFIG) as Hall.
  { unfold TEMPLATE_PRESET_CONFIG. repeat (apply Forall_cons; split; [by vm_compute|]). by apply Forall_nil. }
  rewrite Forall_forall in Hall. specialize (Hall _ E). cbn in Hall. intros Hk. by rewrite Hk in Hall.
Qed.

Lemma preserves_fillTemplate tr m : preserves (fillTemplate now tr m).
Proof.
  intros ed s Hs Hed. unfold fillTemplate. pose proof (preset_operations (templatePresetKey ed)) as Hne.
  destruct (kind (preset_of (templatePresetKey ed))) eqn:Ek.
  - destruct m; apply wp_bind.
    + eapply wp_impl; [by apply wp_operations_of|]. intros l s' _ Hl. by apply wp_ret.
    + eapply wp_impl; [by apply wp_operations|]. intros l s' Hs' [Hi Hl]. apply wp_ret.
      destruct Hed as [_ Hed]. split.
      * cbn. intros [_ ->]%app_nil. apply (Hne eq_refl). destruct (operationsPayload _); [done|discriminate].
      * apply (operations_inv_app 0 s); try done. case_match; [by apply operations_inv_filter|].
        split; [done|apply NoDup_nil_2].
  - unfold fill_legacy. repeat case_match; try (by apply wp_default_list; [done|]; intros o s' _ Ho); by apply wp_ret.
Qed.

Lemma preserves_handle t tr e eager ev : valid_event ev -> preserves (handle now t tr e eager ev).
Proof.
  intros Hv. destruct ev; cbn [handle valid_event] in *;
    eauto using preserves_updateOperation, preserves_addOperation, preserves_duplicateOperation,
      preserves_removeOperation, preserves_addCondition, preserves_updateCondition, preserves_removeCondition,
      preserves_set_expanded, preserves_updateReturnErrorDraft, preserves_addPruneRule, preserves_handleDrop,
      preserves_switchToVisualMode, preserves_switchToJsonMode, preserves_fillTemplate;
    try (apply preserves_ret; by intros ed s Hed);
    try (apply preserves_updatePrune; intros; by apply wp_ret).
  - intros ed s Hs Hed. unfold handleDragOver. case_match; by apply wp_ret.
  - intros ed s Hs Hed. by apply wp_default_list.
  - intros ed s Hs Hed. unfold handleSave. repeat case_match; by apply wp_ret.
Qed.

Lemma keep_selection_ops ed : ops (keep_selection ed) = ops ed.
Proof. unfold keep_selection. destruct (ops ed) eqn:E; [done|]. by case_match. Qed.

Lemma keep_selection_valid ed : ops ed <> [] -> (keep_selection ed).(selectedOperationId) ∈ map id (ops ed).
Proof.
  intros Hne. unfold keep_selection. destruct (ops ed) as [|o l] eqn:E; [done|].
  destruct (existsb _ _) eqn:Ex; [|apply list_elem_of_here].
  apply existsb_exists in Ex as (x & Hx & <-%streq_true). apply (list_elem_of_fmap_2 id). by apply list_elem_of_In.
Qed.

Lemma reachable_shown t tr e eager ed s :
  reachable now t tr e eager ed s -> 0 <= s /\ shown s (ops ed) /\ ed.(selectedOperationId) ∈ map id (ops ed).
Proof.
  induction 1 as [value seen s ed s' Hs Ho|ev ed s Hr IH Hv|ed s Hr IH].
  - assert (wp (open_dialog now value seen) (fun ed s' => shown s' (ops ed)) s) as Hw.
    { apply wp_bind. eapply wp_impl; [by apply wp_parseInitialState|]. intros st s1 _ Hst. by apply wp_ret. }
    unfold wp in Hw. rewrite Ho in Hw. destruct Hw as [Hle Hsh]. cbn [fst snd] in *. rewrite keep_selection_ops.
    split_and!; [lia|done|]. by apply keep_selection_valid, Hsh.
  - destruct IH as (Hs & Hsh & Hsel). pose proof (preserves_handle t tr e eager ev Hv ed s Hs Hsh) as [Hle Hw].
    unfold step. destruct (handle now t tr e eager ev ed s) as [[ed'|] s']; cbn [fst snd] in *.
    + rewrite keep_selection_ops. split_and!; [lia|done|]. by apply keep_selection_valid, Hw.
    + split_and!; [lia|by eapply shown_mono|done].
  - destruct IH as (Hs & Hsh & Hsel).
    assert (wp (pruneObjectsDraft now ed) (fun _ _ => True) s) as [Hle _].
    { unfold pruneObjectsDraft. repeat case_match; try by apply wp_ret.
      apply wp_bind. eapply wp_impl; [apply wp_parsePruneObjectsDraft|]. intros; by apply wp_ret. }
    split_and!; [lia|by eapply shown_mono|done].
Qed.
End Ids.

(** C26: in every state the editor can reach there is at least one rule, the
    identifiers of the rules are distinct, every rule and condition has one of the known
    modes, the conditions of a rule have distinct identifiers, and the selected rule
    exists: no sequence of edits, drags, templates, mode switches or reopened texts
    breaks it, whatever the clock reads and also when a handler raises. *)
Theorem editor_invariant now t tr engine_error eager ed s :
  reachable now t tr engine_error eager ed s ->
  ops ed <> []
  /\ NoDup (map id (ops ed))
  /\ ed.(selectedOperationId) ∈ map id (ops ed)
  /\ Forall (fun o => has OPERATION_MODE_VALUES o.(mode) = true
                /\ NoDup (map c_id o.(conditions))
                /\ Forall (fun c => has CONDITION_MODE_VALUES c.(c_mode) = true) o.(conditions)) (ops ed).
Proof.
  intros (Hs & (Hne & Hi & Hn) & Hsel)%reachable_shown. split_and!; try done.
  eapply Forall_impl; [exact Hi|]. intros o [_ H1 H2 H3]. split_and!; try done.
  eapply Forall_impl; [exact H2|]. by intros c [].
Qed.

(** An editor opened on an empty text. *)
Definition opened_blank : Editor :=
  keep_selection (mkEditor (mkEditorState visual operations_mode []
    [mkOperation (js "po_0_0") [] [] (js "set") [] [] [] false (js "OR") []] [] [])
    [] (js "po_0_0") ∅ [] [] before (js "operations_default") [] None).

Lemma editor_invariant_witness :
  let state := step (fun _ => 0) (fun m _ => m) (fun m => m) [] true EAddOperation opened_blank 1 in
  ops state.1 <> [] /\ length (ops state.1) = 2%nat.
Proof.
  cbv zeta. split; [|vm_compute; reflexivity].
  apply (editor_invariant (fun _ => 0) (fun m _ => m) (fun m => m) [] true _
    (step (fun _ => 0) (fun m _ => m) (fun m => m) [] true EAddOperation opened_blank 1).2).
  apply reach_step; [|exact I]. apply (reach_open _ _ _ _ _ [] [] 0); [lia|vm_compute; reflexivity].
Defined.

(** ** Reordering *)

Lemma find_op_Some i l n :
  find_op i l = Some n -> exists o, l !! n = Some o /\ o.(id) = i.
Proof.
  unfold find_op. intros ((k & o) & (H1 & H2 & _)%list_find_Some & Hk)%fmap_Some. cbn in Hk. subst. eauto.
Qed.

Lemma find_op_present i l o : o ∈ l -> o.(id) = i -> exists n, find_op i l = Some n.
Proof.
  intros Ho Hi. unfold find_op. destruct (list_find _ l) as [[n x]|] eqn:E; [by exists n|].
  apply list_find_None in E. rewrite Forall_forall in E. exfalso. by apply (E o).
Qed.

Lemma nodup_id_eq l o o' : NoDup (map id l) -> o ∈ l -> o' ∈ l -> o.(id) = o'.(id) -> o = o'.
Proof.
  induction l as [|x l IH]; cbn [map]; intros Hn Ho Ho' He; [by apply elem_of_nil in Ho|].
  apply NoDup_cons in Hn as [Hx Hn]. apply elem_of_cons in Ho as [->|Ho]; apply elem_of_cons in Ho' as [->|Ho']; try done.
  - exfalso. apply Hx. rewrite He. by apply (list_elem_of_fmap_2 id).
  - exfalso. apply Hx. rewrite <- He. by apply (list_elem_of_fmap_2 id).
  - by apply IH.
Qed.

(** The rules other than one, in their order. *)
Definition others (i : jsstr) (l : list ParamOverrideOperation) : list ParamOverrideOperation :=
  List.filter (fun o => negb (streq o.(id) i)) l.

Lemma others_id i l : i ∉ map id l -> others i l = l.
Proof.
  induction l as [|o l IH]; intros H; [done|]. cbn [map] in H. unfold others. cbn [List.filter].
  apply not_elem_of_cons in H as [H1 H2]. destruct (streq (id o) i) eqn:E; [apply streq_true in E; congruence|].
  cbn [negb]. f_equal. by apply IH.
Qed.

Lemma others_app i l l' : others i (l ++ l') = others i l ++ others i l'.
Proof. apply List.filter_app. Qed.

Lemma others_delete l n o : NoDup (map id l) -> l !! n = Some o -> delete n l = others o.(id) l.
Proof.
  intros Hn Hl. apply list_elem_of_split_length in Hl as (l1 & l2 & -> & ->).
  rewrite delete_middle, others_app. rewrite map_app in Hn. cbn [map] in Hn.
  apply NoDup_app in Hn as (_ & H1 & [H2 _]%NoDup_cons).
  change (others (id o) (o :: l2)) with (if negb (streq (id o) (id o)) then o :: others (id o) l2 else others (id o) l2).
  rewrite streq_refl. cbn [negb]. rewrite (others_id _ l2) by done. rewrite others_id; [done|].
  intros Hin. by apply (H1 _ Hin), list_elem_of_here.
Qed.

Lemma splice_at {A} k (x y : A) l :
  l !! k = Some y ->
  splice_in k x l = take k l ++ [x; y] ++ drop (S k) l /\ splice_in (S k) x l = take k l ++ [y; x] ++ drop (S k) l.
Proof.
  intros H. unfold splice_in. rewrite (drop_S _ _ _ H). split; [done|].
  rewrite (take_S_r _ _ _ H), <- app_assoc. done.
Qed.

Lemma others_not_in i l : i ∉ map id (others i l).
Proof.
  intros (o & -> & Ho)%list_elem_of_fmap. apply list_elem_of_In, filter_In in Ho as [_ Ho].
  by rewrite streq_refl in Ho.
Qed.

Lemma others_splice k x l : x.(id) ∉ map id l -> others x.(id) (splice_in k x l) = l.
Proof.
  intros H. rewrite <- (take_drop k l), map_app, not_elem_of_app in H. destruct H as [H1 H2].
  unfold splice_in. rewrite others_app.
  change (others (id x) (x :: drop k l)) with
    (if negb (streq (id x) (id x)) then x :: others (id x) (drop k l) else others (id x) (drop k l)).
  rewrite streq_refl. cbn [negb]. rewrite !others_id by done. apply take_drop.
Qed.

(** dropping a rule on another puts it immediately before (or after) that rule and
    leaves every other rule where it was relative to the rest; nothing is lost or
    duplicated. *)
Theorem reorder_spec l src tgt pos :
  NoDup (map id l) -> src ∈ l -> tgt ∈ l -> src.(id) <> tgt.(id) -> src.(id) <> [] -> tgt.(id) <> [] ->
  Permutation (reorderOperations l src.(id) tgt.(id) pos) l
  /\ others src.(id) (reorderOperations l src.(id) tgt.(id) pos) = others src.(id) l
  /\ exists pre post, reorderOperations l src.(id) tgt.(id) pos
       = pre ++ (match pos with before => [src; tgt] | after => [tgt; src] end) ++ post.
Proof.
  intros Hn Hs Ht Hne Hse Hte. split; [symmetry; apply reorder_perm|]. unfold reorderOperations.
  rewrite (proj2 (streq_false _ _) Hne). rewrite !(proj2 (truthy_str_spec _)) by done. cbn [negb orb].
  destruct (find_op_present _ l src Hs eq_refl) as [i Hi]. rewrite Hi.
  destruct (find_op_Some _ _ _ Hi) as (src' & Hl & Hid). rewrite Hl.
  assert (src' = src) as -> by (apply (nodup_id_eq l); eauto using list_elem_of_lookup_2).
  rewrite (others_delete l i src Hn Hl).
  assert (tgt ∈ others src.(id) l) as Ht'.
  { apply list_elem_of_In, filter_In. split; [by apply list_elem_of_In|]. by rewrite (proj2 (streq_false _ _)). }
  assert (NoDup (map id (others src.(id) l))) as Hn' by (by apply filter_nodup).
  destruct (find_op_present _ _ tgt Ht' eq_refl) as [j Hj]. rewrite Hj.
  destruct (find_op_Some _ _ _ Hj) as (tgt' & Hl' & Hid').
  assert (tgt' = tgt) as -> by (apply (nodup_id_eq (others src.(id) l)); eauto using list_elem_of_lookup_2).
  destruct (splice_at j src tgt _ Hl') as [Hb Ha].
  split; [apply others_splice, others_not_in|].
  exists (take j (others src.(id) l)), (drop (S j) (others src.(id) l)). by destruct pos.
Qed.

Definition named (i : string) : ParamOverrideOperation :=
  mkOperation (js i) [] [] (js "set") [] [] [] false (js "OR") [].

Lemma reorder_spec_witness :
  map id (reorderOperations [named "a"; named "b"; named "c"] (js "a") (js "c") after) = [js "b"; js "c"; js "a"]
  /\ others (js "a") (reorderOperations [named "a"; named "b"; named "c"] (js "a") (js "c") after) = [named "b"; named "c"].
Proof.
  split; [vm_compute; reflexivity|].
  apply (reorder_spec [named "a"; named "b"; named "c"] (named "a") (named "c") after); try done.
  - apply (bool_decide_unpack _). vm_compute. exact I.
  - apply list_elem_of_here.
  - apply list_elem_of_further, list_elem_of_further, list_elem_of_here.
Defined.

(** ** Rules of [prune_objects] *)

(** A rule that was shown has an identifier that no later parse draws. *)
Lemma stale_rule now k s s' c : 0 <= k < s -> condition_inv now s s' c -> streq c.(c_id) (id_of now k) = false.
Proof.
  intros Hk [(j & Hj & ->) _]. apply streq_false. intros H%id_of_inj; lia.
Qed.

(** Updaters that give drafts with the same text, on the drafts parsed from now on, make
    the same change. *)
Lemma updatePrune_agree now i up up' ed s :
  0 <= s ->
  (forall d s1 s2, s <= s1 -> Forall (condition_inv now s1 s2) d.(rules) ->
     exists d1 d2 s3, up d s2 = (Some d1, s3) /\ up' d s2 = (Some d2, s3) /\ s2 <= s3
       /\ buildPruneObjectsValueText d1 = buildPruneObjectsValueText d2) ->
  updatePruneObjectsDraft now i up ed s = updatePruneObjectsDraft now i up' ed s.
Proof.
  intros Hs Hup.
  assert (forall o s1, s <= s1 -> update_draft now i up o s1 = update_draft now i up' o s1
            /\ s1 <= (update_draft now i up o s1).2) as Hop.
  { intros o s1 Hs1. unfold update_draft. destruct (streq _ _); [|done]. unfold bind.
    pose proof (wp_parsePruneObjectsDraft now (value_text o) s1) as [Hle Hr].
    destruct (parsePruneObjectsDraft now (value_text o) s1) as [[d|] s2]; cbn [fst snd] in *; [|done].
    destruct (Hup d s1 s2 Hs1 Hr) as (d1 & d2 & s3 & -> & -> & Hle' & Ht). unfold ret. rewrite Ht. cbn [snd]. split; [done|lia]. }
  assert (forall l s1, s <= s1 -> traverse (update_draft now i up) l s1 = traverse (update_draft now i up') l s1) as Hl.
  { induction l as [|o l IH]; intros s1 Hs1; [done|]. cbn [traverse]. unfold bind.
    destruct (Hop o s1 Hs1) as [Heq Hle]. rewrite <- Heq.
    destruct (update_draft now i up o s1) as [[o'|] s2]; cbn [snd] in *; [|done]. by rewrite IH by lia. }
  unfold updatePruneObjectsDraft, bind. by rewrite Hl.
Qed.

(** the rules of a [prune_objects] draft cannot be edited one by one. The rules
    shown carry identifiers drawn when the draft was shown ([id_of now k] with [k] below the
    counter), but every edit parses the text again and draws new ones: changing or
    removing the rule with a shown identifier changes nothing beyond rewriting the text
    of the draft, and adding a rule only leaves the simple mode, since a rule with an
    empty path is not written. *)
Theorem prune_rules_not_editable now i k u ed s :
  0 <= k < s ->
  updatePruneRule now i (id_of now k) u ed s = updatePruneObjectsDraft now i ret ed s
  /\ removePruneRule now i (id_of now k) ed s = updatePruneObjectsDraft now i ret ed s
  /\ (addPruneRule now i ed s).1
     = (updatePruneObjectsDraft now i (fun d => let* _ := nextLocalId now in ret (set_rules false d.(rules) d)) ed s).1.
Proof.
  intros Hk.
  assert (forall d, set_rules (p_simpleMode d) (rules d) d = d) as Hsame by (by intros []).
  split_and!.
  - apply updatePrune_agree; [lia|]. intros d s1 s2 Hs1 Hr. exists d, d, s2.
    replace (map _ (rules d)) with (rules d); [by rewrite Hsame|].
    symmetry. rewrite <- (map_id (rules d)) at 2. apply map_ext_in. intros c Hc%list_elem_of_In.
    rewrite Forall_forall in Hr. by rewrite (stale_rule now k s1 s2) by (auto; lia).
  - apply updatePrune_agree; [lia|]. intros d s1 s2 Hs1 Hr. exists d, d, s2.
    replace (List.filter _ (rules d)) with (rules d); [by rewrite Hsame|].
    symmetry. induction Hr as [|c rs Hc _ IH]; [done|]. cbn [List.filter].
    rewrite (stale_rule now k s1 s2) by (done || lia). by rewrite IH.
  - f_equal. apply updatePrune_agree; [lia|]. intros d s1 s2 Hs1 Hr. do 3 eexists.
    split; [reflexivity|]. split; [reflexivity|]. split; [lia|].
    unfold buildPruneObjectsValueText. cbn [set_rules p_simpleMode typeText p_logic recursive rules].
    rewrite List.filter_app. cbn [List.filter c_path str_or_empty]. by rewrite app_nil_r.
Qed.

(** One rule is shown as the rule with number 1; removing it leaves the text. *)
Definition prune_text : jsstr := jq "{'conditions':[{'path':'type','mode':'full','value':'draft'}]}".
Definition pruning : Editor :=
  setOperations [mkOperation (js "po_0_0") [] [] (js "prune_objects") [] [] prune_text false (js "OR") []] opened_blank.

Lemma prune_rules_not_editable_witness :
  match pruneObjectsDraft (fun _ => 0) pruning 1 with
  | (Some (Some d), s) => map c_id d.(rules) = [id_of (fun _ => 0) 1] /\ s = 2
  | _ => False
  end
  /\ match removePruneRule (fun _ => 0) (js "po_0_0") (id_of (fun _ => 0) 1) pruning 2 with
     | (Some ed, _) => map value_text (ops ed) = [prune_text]
     | _ => False
     end.
Proof.
  split; [vm_compute; done|].
  rewrite (proj1 (proj2 (prune_rules_not_editable (fun _ => 0) (js "po_0_0") 1
    (mkConditionPatch None None None None None) pruning 2 ltac:(lia)))).
  vm_compute. reflexivity.
Defined.

(** ** Templates *)

(** The text that filling in a template and saving hands over, when nothing is
    reported. *)
Definition filled (key : jsstr) : option jsstr :=
  let run :=
    let* ed := fillTemplate (fun _ => 0) (fun m => m) fill (setTemplatePresetKey key opened_blank) in
    handleSave (fun m _ => m) (fun m => m) [] ed in
  match run 1 with
  | (Some ed, _) => if bool_decide (ed.(toasts) = []) then ed.(saved) else None
  | _ => None
  end.

(** The payload with the keys of each rule in the order they are written in. *)
Definition rule_keys : list jsstr := map js ["mode"; "description"; "path"; "value"; "keep_origin"; "conditions"; "logic"]%string.
Definition in_written_order (v : val) : val :=
  match v with
  | VObj [(k, VArr items)] =>
      VObj [(k, VArr (map (fun item => match item with
        | VObj fields => VObj (omap (fun key => match lookup_field key fields with VUndef => None | w => Some (key, w) end) rule_keys)
        | _ => item end) items))]
  | _ => v
  end.

(** every template of the editor is accepted and kept: filling it in and saving
    reports nothing, and the text saved is the JSON of the template's payload, only the keys of a rule
    being written in the editor's order. *)
Theorem templates_saved :
  Forall (fun e => filled e.1 = Some (stringify2 (in_written_order e.2.(payload)))) TEMPLATE_PRESET_CONFIG.
Proof.
  assert (forallb (fun e => bool_decide (filled e.1 = Some (stringify2 (in_written_order e.2.(payload)))))
    TEMPLATE_PRESET_CONFIG = true) as H by (vm_compute; reflexivity).
  rewrite List.forallb_forall in H. apply List.Forall_forall. intros e He. specialize (H e He). by apply bool_decide_eq_true in H.
Qed.
End ParamOverrideEditor.
