(* ===== verification/Navigation.v ===== *)
(** What of the navigation a user sees: the modules of the header
    (src/web/src/lib/nav-modules.ts), the sidebar with the settings of the administrator
    and of the user (src/web/src/hooks/use-sidebar-config.ts, use-sidebar-view.ts,
    use-sidebar-data.ts), and the matrix of permissions (src/web/src/lib/admin-permissions.ts).

    [None] stands for an exception where a definition returns an option of its result. *)

From stdpp Require Import gmap.
From S2P Require Import Prelude JsValue NumText JsonString Json.

Module Navigation.

(** [o[k]] on a parsed value. *)
Definition at_key (k : jsstr) (v : val) : val := match v with VObj fields => lookup_field k fields | _ => VUndef end.
Definition is_false (v : val) : bool := match v with VBool b => negb b | _ => false end.
Definition is_on (v : val) : bool := match v with VBool b => b | _ => false end.

(** ** Modules of the header *)

Record ModuleAccess := mkAccess { enabled : bool; requireAuth : bool }.
Inductive NavValue := NBool (b : bool) | NAccess (a : ModuleAccess).

Definition open_access : ModuleAccess := mkAccess true false.

Definition DEFAULT_HEADER_NAV_MODULES : gmap jsstr NavValue :=
  list_to_map [(js "home", NBool true); (js "console", NBool true); (js "pricing", NAccess open_access); (js "rankings", NAccess open_access);
               (js "docs", NBool true); (js "about", NBool true)].

(** No other character than an ASCII letter has a letter of these words as its lower case. *)
Definition parseHeaderNavBoolean (raw : val) (fallback : bool) : bool :=
  match raw with
  | VBool b => b
  | VNum x => if neq x (num_of_Z 1) then true else if neq x (num_of_Z 0) then false else fallback
  | VStr s =>
    let normalized := map ascii_lower (trim s) in
    if streq normalized (js "true") || streq normalized (js "1") then true
    else if streq normalized (js "false") || streq normalized (js "0") then false
    else fallback
  | _ => fallback
  end.

Definition parseAccess (raw : val) (fallback : ModuleAccess) : ModuleAccess :=
  match raw with
  | VBool _ | VNum _ | VStr _ => mkAccess (parseHeaderNavBoolean raw (enabled fallback)) (requireAuth fallback)
  | VArr _ | VObj _ =>
    mkAccess (parseHeaderNavBoolean (get "enabled" raw) (enabled fallback)) (parseHeaderNavBoolean (get "requireAuth" raw) (requireAuth fallback))
  | VUndef | VNull => fallback
  end.

(** The value, or [VNull]. *)
Definition parseHeaderNavRecord (raw : val) : option val :=
  if negb (truthy raw) then Some VNull else
  text ← to_string raw;
  if negb (truthy_str (trim text)) then Some VNull
  else if typeof_object raw then Some raw
  else Some (default VNull (json_parse text)).

Definition access_at (key : jsstr) (result : gmap jsstr NavValue) : ModuleAccess :=
  match result !! key with Some (NAccess a) => a | _ => open_access end.

(** A key [__proto__] is not a property of the result. *)
Definition header_entry (result : gmap jsstr NavValue) (entry : jsstr * val) : gmap jsstr NavValue :=
  let '(key, value) := entry in
  if streq key (js "pricing") || streq key (js "rankings") then <[key := NAccess (parseAccess value (access_at key result))]> result
  else if streq key (js "__proto__") then result
  else
    match result !! key with
    | Some (NBool fallback) => <[key := NBool (parseHeaderNavBoolean value fallback)]> result
    | _ =>
      match value with
      | VBool _ | VNum _ | VStr _ => <[key := NBool (parseHeaderNavBoolean value true)]> result
      | _ => result
      end
    end.

Definition parseHeaderNavModules (raw : val) : option (gmap jsstr NavValue) :=
  parsed ← parseHeaderNavRecord raw;
  Some (if truthy parsed then fold_left header_entry (own_fields parsed) DEFAULT_HEADER_NAV_MODULES else DEFAULT_HEADER_NAV_MODULES).

(** [null] is [VNull]. *)
Definition parseHeaderNavModulesFromStatus (status : val) : option (gmap jsstr NavValue) := parseHeaderNavModules (get "HeaderNavModules" status).

(** The status kept in the local store. *)
Definition getCachedStatus (stored : option jsstr) : val :=
  match stored with Some raw => if truthy_str raw then default VNull (json_parse raw) else VNull | None => VNull end.

Definition cacheStatus (status : val) (stored : option jsstr) : option jsstr := if truthy status then Some (stringify status) else stored.

Definition getModuleAccessFromStatus (status : val) (module : jsstr) : option ModuleAccess :=
  access_at module <$> parseHeaderNavModulesFromStatus status.

Definition getModuleAccess (stored : option jsstr) (module : jsstr) : option ModuleAccess := getModuleAccessFromStatus (getCachedStatus stored) module.

(** The answer of the status request, [None] when it failed, gives the access and the
    store. *)
Definition getFreshModuleAccess (answer : option val) (module : jsstr) (stored : option jsstr) : ModuleAccess * option jsstr :=
  match answer with
  | Some status => (default (mkAccess false true) (getModuleAccessFromStatus status module), cacheStatus status stored)
  | None => (mkAccess false true, stored)
  end.

(** Where the guard of a module's route leads. *)
Inductive Guard := enter | to_home | to_sign_in.
Definition route_guard (access : ModuleAccess) (signedIn : bool) : Guard :=
  if negb (enabled access) then to_home else if requireAuth access && negb signedIn then to_sign_in else enter.

(** [JSON.parse] of the text and what is read of it raise into the same handler. *)
Definition isSidebarModuleEnabled (stored : option jsstr) (section module : jsstr) : option bool :=
  let status := getCachedStatus stored in
  if negb (truthy status) then Some true else
  let raw := get "SidebarModulesAdmin" status in
  if negb (truthy raw) then Some true else
  text ← to_string raw;
  if negb (truthy_str (trim text)) then Some true else
  Some (match json_parse text with
        | Some parsed =>
          let sectionConfig := at_key section parsed in
          if negb (truthy sectionConfig) then true
          else if is_false (get "enabled" sectionConfig) then false
          else negb (is_false (at_key module sectionConfig))
        | None => true
        end).

(** ** The sidebar *)

Definition section (name : string) (modules : list string) : jsstr * list (jsstr * val) :=
  (js name, map (fun m => (js m, VBool true)) ("enabled"%string :: modules)).

Definition DEFAULT_SIDEBAR_MODULES : list (jsstr * list (jsstr * val)) :=
  [section "chat" ["playground"; "chat"]; section "console" ["detail"; "token"; "log"; "midjourney"; "task"];
   section "personal" ["topup"; "personal"]; section "admin" ["channel"; "models"; "redemption"; "user"; "setting"; "subscription"]]%string.

Definition default_config : val := VObj (map (fun s => (s.1, VObj s.2)) DEFAULT_SIDEBAR_MODULES).

Definition fill_missing (defaultSection fs : list (jsstr * val)) : list (jsstr * val) :=
  fold_left (fun fs d => match lookup_field d.1 fs with VUndef => set_field d.1 d.2 fs | _ => fs end) defaultSection fs.

Definition merge_section (merged : list (jsstr * val)) (s : jsstr * list (jsstr * val)) : list (jsstr * val) :=
  let existing := lookup_field s.1 merged in
  set_field s.1 (if truthy existing then VObj (fill_missing s.2 (spread_over s.2 (own_fields existing))) else VObj s.2) merged.

Definition mergeWithDefaultSidebarModules (config : val) : val :=
  VObj (fold_left merge_section DEFAULT_SIDEBAR_MODULES (spread_over [] (own_fields config))).

Definition URL_TO_CONFIG_MAP : list (jsstr * (jsstr * jsstr)) :=
  map (fun e => (js e.1, (js e.2.1, js e.2.2)))
  [("/playground", ("chat", "playground")); ("/dashboard", ("console", "detail")); ("/dashboard/overview", ("console", "detail"));
   ("/dashboard/models", ("console", "detail")); ("/dashboard/users", ("console", "detail")); ("/keys", ("console", "token"));
   ("/usage-logs", ("console", "log")); ("/usage-logs/common", ("console", "log")); ("/usage-logs/drawing", ("console", "midjourney"));
   ("/usage-logs/task", ("console", "task")); ("/wallet", ("personal", "topup")); ("/profile", ("personal", "personal"));
   ("/channels", ("admin", "channel")); ("/models", ("admin", "models")); ("/models/metadata", ("admin", "models"));
   ("/models/deployments", ("admin", "models")); ("/users", ("admin", "user")); ("/redemption-codes", ("admin", "redemption"));
   ("/subscriptions", ("admin", "subscription")); ("/system-settings", ("admin", "setting")); ("/system-settings/site", ("admin", "setting"))]%string.

Definition mapping_of (url : jsstr) : option (jsstr * jsstr) :=
  match list_find (fun e : jsstr * (jsstr * jsstr) => e.1 = url) URL_TO_CONFIG_MAP with Some (_, (_, m)) => Some m | None => None end.

(** [None] for the exception of [trim] on a value that is not a text. *)
Definition parseSidebarConfig (value : val) : option val :=
  if negb (truthy value) then Some default_config else
  match value with
  | VStr s =>
    Some (if negb (truthy_str (trim s)) then default_config
          else match json_parse s with Some parsed => mergeWithDefaultSidebarModules parsed | None => default_config end)
  | _ => None
  end.

(** The outer [None] is the exception, the inner one [null]. *)
Definition parseUserSidebarConfig (value : val) : option (option val) :=
  if negb (truthy value) then Some None else
  match value with
  | VStr s =>
    Some (if negb (truthy_str (trim s)) then None
          else match json_parse s with Some (VObj fs) => Some (VObj fs) | Some (VArr l) => Some (VArr l) | _ => None end)
  | _ => None
  end.

Definition module_on (sec module : jsstr) (adminConfig : val) (userConfig : option val) : bool :=
  let adminSection := at_key sec adminConfig in
  if negb (truthy adminSection && truthy (get "enabled" adminSection) && is_on (at_key module adminSection)) then false else
  match userConfig with
  | None => true
  | Some user =>
    let userSection := at_key sec user in
    if negb (truthy userSection) then true
    else if is_false (get "enabled" userSection) then false
    else negb (is_false (at_key module userSection))
  end.

Definition isModuleEnabled (url : jsstr) (adminConfig : val) (userConfig : option val) : bool :=
  match mapping_of url with None => true | Some (sec, module) => module_on sec module adminConfig userConfig end.

Record SubItem := mkSub { s_title : jsstr; s_url : jsstr }.
Inductive NavKind := NavLink (url : jsstr) | NavCollapsible (items : list SubItem) | NavChatPresets.
Record NavItem := mkItem { title : jsstr; configUrls : option (list jsstr); requiredRole : option Z; kind : NavKind }.
Record NavGroup := mkGroup { g_id : jsstr; g_title : jsstr; items : list NavItem }.

Definition isNavItemVisible (item : NavItem) (adminConfig : val) (userConfig : option val) : bool :=
  match kind item with
  | NavChatPresets => module_on (js "chat") (js "chat") adminConfig userConfig
  | NavLink url =>
    if truthy_str url then existsb (fun u => isModuleEnabled u adminConfig userConfig) (default [url] (configUrls item)) else true
  | NavCollapsible subs => existsb (fun s => isModuleEnabled (s_url s) adminConfig userConfig) subs
  end.

Definition filter_sub_items (adminConfig : val) (userConfig : option val) (item : NavItem) : NavItem :=
  match kind item with
  | NavCollapsible subs =>
    mkItem (title item) (configUrls item) (requiredRole item) (NavCollapsible (List.filter (fun s => isModuleEnabled (s_url s) adminConfig userConfig) subs))
  | _ => item
  end.

Definition filterNavItems (l : list NavItem) (adminConfig : val) (userConfig : option val) : list NavItem :=
  List.filter (fun item => isNavItemVisible item adminConfig userConfig) (map (filter_sub_items adminConfig userConfig) l).

Definition user_overlay (user : val) : option (option val) :=
  if is_false (get "sidebar_settings" (get "permissions" user)) then Some None else parseUserSidebarConfig (get "sidebar_modules" user).

Definition useSidebarConfig (status user : val) (navGroups : list NavGroup) : option (list NavGroup) :=
  adminConfig ← parseSidebarConfig (get "SidebarModulesAdmin" status);
  userConfig ← user_overlay user;
  Some (List.filter (fun g => match items g with [] => false | _ => true end)
          (map (fun g => mkGroup (g_id g) (g_title g) (filterNavItems (items g) adminConfig userConfig)) navGroups)).

Definition useIsSidebarModuleVisible (status user : val) (url : jsstr) : option bool :=
  adminConfig ← parseSidebarConfig (get "SidebarModulesAdmin" status);
  userConfig ← user_overlay user;
  Some (isModuleEnabled url adminConfig userConfig).

Definition ADMIN : Z := 10.
Definition SUPER_ADMIN : Z := 100.

(** The root navigation for a role; without one the user is a guest, role 0. *)
Definition rootNavGroups (role : option Z) (groups : list NavGroup) : list NavGroup :=
  let r := default 0 role in
  map (fun g => mkGroup (g_id g) (g_title g)
                  (List.filter (fun item => match requiredRole item with Some needed => needed <=? r | None => true end) (items g)))
    (List.filter (fun g => if streq (g_id g) (js "admin") then ADMIN <=? r else true) groups).

Definition link (t url : string) : NavItem := mkItem (js t) None None (NavLink (js url)).

(** The groups of the root sidebar; titles are the keys of their translations. *)
Definition useSidebarData : list NavGroup :=
  [mkGroup (js "chat") (js "Chat") [link "Playground" "/playground"; mkItem (js "Chat") None None NavChatPresets];
   mkGroup (js "general") (js "General")
     [link "Overview" "/dashboard/overview"; link "Dashboard" "/dashboard/models"; link "API Keys" "/keys"; link "Usage Logs" "/usage-logs/common";
      mkItem (js "Task Logs") (Some [js "/usage-logs/drawing"; js "/usage-logs/task"]) None (NavLink (js "/usage-logs/task"))];
   mkGroup (js "personal") (js "Personal")
     [link "Wallet" "/wallet"; link "Credit Supply" "/credit-supply"; link "Support" "/support"; link "Profile" "/profile"];
   mkGroup (js "admin") (js "Admin")
     [link "Channels" "/channels"; link "Models" "/models/metadata"; link "Users" "/users"; link "Redemption Codes" "/redemption-codes";
      link "Subscriptions" "/subscriptions"; mkItem (js "System Info") None (Some SUPER_ADMIN) (NavLink (js "/system-info"));
      mkItem (js "Platform Log") None (Some SUPER_ADMIN) (NavLink (js "/platform-log")); link "System Settings" "/system-settings/site"]].

(** ** Permissions *)

Definition Matrix : Type := gmap jsstr (gmap jsstr bool).
Record PermissionResourceDef := mkResource { resource : jsstr; actions : list jsstr }.
Record PermissionRoleDef := mkRole { role_key : jsstr; grants : Matrix }.
Record PermissionCatalog := mkCatalog { resources : list PermissionResourceDef; roles : list PermissionRoleDef }.

Definition ADMIN_ROLE_KEY : jsstr := js "admin".

Definition roleGrants (catalog : PermissionCatalog) (roleKey : jsstr) : Matrix :=
  match list_find (fun r => role_key r = roleKey) (roles catalog) with Some (_, r) => grants r | None => ∅ end.

Definition matrix_at (m : Matrix) (res act : jsstr) : option bool := m !! res ≫= (fun acts => acts !! act).

Definition granted (value baseline : Matrix) (res act : jsstr) : bool :=
  match matrix_at value res act with Some b => b | None => default false (matrix_at baseline res act) end.

Definition normalizeAdminPermissions (value : option Matrix) (catalog : PermissionCatalog) : Matrix :=
  let baseline := roleGrants catalog ADMIN_ROLE_KEY in
  fold_left (fun normalized r =>
    <[resource r := fold_left (fun acts act => <[act := granted (default ∅ value) baseline (resource r) act]> acts) (actions r) ∅]> normalized)
    (resources catalog) ∅.

End Navigation.
