(* ===== verification/NavigationLaws.v ===== *)
(** The navigation shows nothing the administrator or the role does not allow; the guard of
    a route agrees with the sidebar; the header keeps its modules whatever the status says;
    the permission matrix is complete and stable. *)

From stdpp Require Import gmap.
From S2P Require Import Prelude Scan JsValue NumText JsonString Json Navigation.
Import Navigation.

Module NavigationLaws.

(** ** What is switched off *)





(** What the guard of a route reads of the parsed settings. *)
Definition guard_reads (sec module : jsstr) (parsed : val) : bool :=
  let s := at_key sec parsed in
  if negb (truthy s) then true else if is_false (get "enabled" s) then false else negb (is_false (at_key module s)).



(** ** Settings completed with the defaults *)

Lemma insert_field_perm k v fs : map fst (insert_field k v fs) ≡ₚ k :: map fst fs.
Proof. induction fs as [|[k1 v1] fs IH]; [done|]. cbn [insert_field]. destruct (is_index k && _); [done|]. cbn [map fst]. rewrite IH. apply Permutation_swap. Qed.

Lemma mk_fields_nodup ms : NoDup (map fst (mk_fields ms)).
Proof.
  unfold mk_fields. assert (forall fs, NoDup (map fst fs) -> NoDup (map fst (fold_left (fun fs m => set_field m.1 m.2 fs) ms fs))) as H; [|apply H, NoDup_nil_2].
  induction ms as [|[k v] ms IH]; intros fs Hd; [done|]. cbn [fold_left]. apply IH. unfold set_field. cbn [fst snd].
  destruct (replace_field k v fs) as [fs'|] eqn:E; [by apply replace_field_Some in E as (-> & _)|].
  rewrite insert_field_perm. apply NoDup_cons. split; [by eapply replace_field_absent|done].
Qed.

Lemma fill_keeps k d fs : lookup_field k fs <> VUndef -> lookup_field k (fill_missing d fs) = lookup_field k fs.
Proof.
  unfold fill_missing. revert fs. induction d as [|[k1 v1] d IH]; intros fs Hk; [done|]. cbn [fold_left fst snd].
  destruct (lookup_field k1 fs) eqn:E; try (by apply IH).
  assert (lookup_field k (set_field k1 v1 fs) = lookup_field k fs) as E2.
  { rewrite lookup_set_any. destruct (streq k k1) eqn:Es; [|done]. apply streq_true in Es as ->. congruence. }
  rewrite IH; [done|]. by rewrite E2.
Qed.

Definition section_value (s : jsstr * list (jsstr * val)) (existing : val) : val :=
  if truthy existing then VObj (fill_missing s.2 (spread_over s.2 (own_fields existing))) else VObj s.2.

Lemma merged_section l m s :
  NoDup (map fst l) -> s ∈ l -> lookup_field s.1 (fold_left merge_section l m) = section_value s (lookup_field s.1 m).
Proof.
  assert (forall l m k, k ∉ map fst l -> lookup_field k (fold_left merge_section l m) = lookup_field k m) as Hother.
  { clear. induction l as [|s l IH]; intros m k Hn; [done|]. cbn [fold_left map] in *. apply not_elem_of_cons in Hn as [H1 H2]. rewrite IH by done.
    unfold merge_section. rewrite lookup_set_any. by rewrite (proj2 (streq_false _ _) H1). }
  revert m. induction l as [|s1 l IH]; intros m Hd Hin; [by apply elem_of_nil in Hin|]. cbn [fold_left map] in *. apply NoDup_cons in Hd as [Hn Hd].
  apply elem_of_cons in Hin as [->|Hin].
  - rewrite Hother by done. unfold merge_section. by rewrite lookup_set_any, streq_refl.
  - rewrite IH by done. unfold merge_section. rewrite lookup_set_any.
    assert (streq s.1 s1.1 = false) as ->; [|done]. apply streq_false. intros E. apply Hn. rewrite <- E. by apply list_elem_of_fmap_2.
Qed.

(** Settings of the declared type: sections of flags. *)
Definition section_ok (v : val) : Prop := truthy v = false \/ exists ms, v = VObj ms /\ NoDup (map fst ms) /\ Forall (fun f => exists b, f.2 = VBool b) ms.
Definition config_ok (parsed : val) : Prop :=
  exists fs, parsed = VObj fs /\ NoDup (map fst fs) /\ Forall (fun s => section_ok (lookup_field s.1 fs)) DEFAULT_SIDEBAR_MODULES.

Lemma flag_of ms k : Forall (fun f : jsstr * val => exists b, f.2 = VBool b) ms -> if bool_decide (k ∈ map fst ms) then exists b, lookup_field k ms = VBool b else lookup_field k ms = VUndef.
Proof.
  induction 1 as [|[k1 v1] ms [b Hb] Hf IH]; [done|]. cbn [map fst snd lookup_field] in *. subst v1. destruct (streq k k1) eqn:E.
  - apply streq_true in E as ->. rewrite bool_decide_eq_true_2 by left. by exists b.
  - apply streq_false in E. rewrite (bool_decide_ext (k ∈ k1 :: map fst ms) (k ∈ map fst ms)); [done|]. rewrite elem_of_cons. naive_solver.
Qed.

(** The flag of a module after merging: the one that is set, or else on. *)
Lemma merged_flag s ms k :
  NoDup (map fst ms) -> Forall (fun f => exists b, f.2 = VBool b) ms -> lookup_field k s = VBool true ->
  lookup_field k (fill_missing s (spread_over s ms)) = VBool (negb (is_false (lookup_field k ms))).
Proof.
  intros Hd Hf Hs. pose proof (flag_of ms k Hf) as Hk. pose proof (lookup_spread k ms s Hd) as Hl.
  destruct (bool_decide (k ∈ map fst ms)).
  - destruct Hk as [b Hb]. rewrite fill_keeps; rewrite Hl, Hb; [by destruct b|done].
  - rewrite fill_keeps; rewrite Hl, Hs; [by rewrite Hk|done].
Qed.

(** The modules of the defaults are on, with their section. *)
Definition default_on (sec module : jsstr) : Prop :=
  exists ds, (sec, ds) ∈ DEFAULT_SIDEBAR_MODULES /\ lookup_field (js "enabled") ds = VBool true /\ lookup_field module ds = VBool true.

Definition default_onb (sec module : jsstr) : bool :=
  existsb (fun s => streq s.1 sec && is_on (lookup_field (js "enabled") s.2) && is_on (lookup_field module s.2)) DEFAULT_SIDEBAR_MODULES.

Lemma default_onb_on sec module : default_onb sec module = true -> default_on sec module.
Proof.
  intros ([k ds] & Hin & [[H1%streq_true H2]%andb_true_iff H3]%andb_true_iff)%existsb_exists. cbn [fst snd] in *. subst k. exists ds.
  assert (forall v, is_on v = true -> v = VBool true) as Hon by (intros [] Hv; try done; cbn in Hv; by subst).
  split; [by apply list_elem_of_In|split; by apply Hon].
Qed.

Lemma mapped_section url sec module : mapping_of url = Some (sec, module) -> default_on sec module.
Proof.
  unfold mapping_of. destruct (list_find _ URL_TO_CONFIG_MAP) as [[i [u m]]|] eqn:E; [|done]. intros [= ->]. apply list_find_Some in E as (E & _ & _).
  apply list_elem_of_lookup_2 in E. apply default_onb_on.
  assert (forallb (fun e : jsstr * (jsstr * jsstr) => default_onb e.2.1 e.2.2) URL_TO_CONFIG_MAP = true) as H by (vm_compute; reflexivity).
  rewrite forallb_forall in H. apply (H _ (proj1 (list_elem_of_In _ _) E)).
Qed.

Lemma default_module sec ds module :
  (sec, ds) ∈ DEFAULT_SIDEBAR_MODULES -> lookup_field (js "enabled") ds = VBool true -> lookup_field module ds = VBool true ->
  module_on sec module default_config None = true.
Proof.
  intros Hin He Hm.
  assert (at_key sec default_config = VObj ds) as Hat.
  { clear He Hm. unfold DEFAULT_SIDEBAR_MODULES in Hin. rewrite !elem_of_cons, elem_of_nil in Hin. unfold section in Hin.
    destruct_or! Hin; try done; apply pair_eq in Hin as [-> ->]; vm_compute; reflexivity. }
  unfold module_on. rewrite Hat. cbn [at_key get]. unfold get. by rewrite He, Hm.
Qed.

Lemma merged_module parsed sec ds module :
  config_ok parsed -> (sec, ds) ∈ DEFAULT_SIDEBAR_MODULES -> lookup_field (js "enabled") ds = VBool true -> lookup_field module ds = VBool true ->
  module_on sec module (mergeWithDefaultSidebarModules parsed) None = guard_reads sec module parsed.
Proof.
  intros (fs & -> & Hd & Hok) Hin He Hm. rewrite Forall_forall in Hok. specialize (Hok _ Hin). cbn [fst] in Hok.
  unfold mergeWithDefaultSidebarModules, module_on, guard_reads, get. cbn [at_key own_fields].
  change sec with ((sec, ds).1) at 1 2 3. rewrite merged_section by (done || apply (bool_decide_unpack _); vm_compute; exact I).
  cbn [fst]. rewrite lookup_spread_nil by done. unfold section_value. cbn [snd].
  destruct Hok as [Hf|(ms & Hms & Hdm & Hfm)].
  - rewrite Hf. cbn [truthy negb andb at_key]. by rewrite He, Hm.
  - rewrite Hms. cbn [truthy own_fields at_key negb andb]. rewrite !merged_flag by done. cbn [truthy is_on].
    by destruct (is_false (lookup_field (js "enabled") ms)), (is_false (lookup_field module ms)).
Qed.

(** ** The entries of the sidebar *)




(** The entries of the root sidebar with the switches of the settings page that govern
    each: an entry with several of them needs one, an entry without any is always shown. *)
Record Entry := mkEntry { e_title : jsstr; switches : list (jsstr * jsstr); e_role : option Z }.

Definition entry (t : string) (l : list (string * string)) (needed : option Z) : Entry := mkEntry (js t) (map (fun s => (js s.1, js s.2)) l) needed.

















(** ** The guard of a route and the sidebar *)

(** the guard of a route and the sidebar agree. When the administrator's settings
    are a text that does not parse, or one whose sections are flags, the guard of a route
    reads from the stored status, without filling in anything, exactly the decision that
    the sidebar takes on the settings completed with the defaults: for every link the
    sidebar knows, the route is open if and only if the link is shown to a user without
    settings of their own. *)
Theorem guard_matches_sidebar (stored : option jsstr) (s url sec module : jsstr) :
  truthy (getCachedStatus stored) = true -> get "SidebarModulesAdmin" (getCachedStatus stored) = VStr s ->
  (forall parsed, json_parse s = Some parsed -> config_ok parsed) -> mapping_of url = Some (sec, module) ->
  exists admin, parseSidebarConfig (get "SidebarModulesAdmin" (getCachedStatus stored)) = Some admin
    /\ isSidebarModuleEnabled stored sec module = Some (isModuleEnabled url admin None).
Proof.
  intros Ht Hs Hok Hmap. destruct (mapped_section _ _ _ Hmap) as (ds & Hin & He & Hm). pose proof (default_module _ _ _ Hin He Hm) as Hdef.
  unfold parseSidebarConfig, isSidebarModuleEnabled, isModuleEnabled. rewrite Ht, Hs, Hmap. cbn [negb to_string mbind option_bind].
  destruct (truthy (VStr s)); cbn [negb]; [|by eexists; rewrite Hdef]. destruct (truthy_str (trim s)); cbn [negb]; [|by eexists; rewrite Hdef].
  destruct (json_parse s) as [parsed|]; [|by eexists; rewrite Hdef]. eexists. split; [done|]. by rewrite (merged_module _ _ ds) by auto.
Qed.

Definition guarded_store : option jsstr := Some (jq "{'SidebarModulesAdmin':'{\'console\':{\'log\':false},\'admin\':{\'enabled\':false}}'}").

Lemma guard_matches_sidebar_witness :
  exists admin, parseSidebarConfig (get "SidebarModulesAdmin" (getCachedStatus guarded_store)) = Some admin
    /\ isSidebarModuleEnabled guarded_store (js "console") (js "log") = Some (isModuleEnabled (js "/usage-logs") admin None).
Proof.
  apply (guard_matches_sidebar guarded_store (jq "{'console':{'log':false},'admin':{'enabled':false}}")); try (vm_compute; reflexivity).
  intros parsed Hp. vm_compute in Hp. injection Hp as <-. eexists. split; [reflexivity|]. split; [apply (bool_decide_unpack _); vm_compute; exact I|].
  unfold section_ok. repeat (apply Forall_cons; split; [vm_compute; first [by left | right; eexists; split; [reflexivity|]; split;
    [apply (bool_decide_unpack _); vm_compute; exact I | repeat (apply Forall_cons; split; [by eexists|]); apply Forall_nil; exact I]]|]). apply Forall_nil. exact I.
Defined.

(** Outside that shape they differ: the sidebar shows a module only for the value [true],
    the guard closes it only for [false]. *)
Example guard_of_text_flag :
  let stored := Some (jq "{'SidebarModulesAdmin':'{\'console\':{\'log\':\'true\'}}'}") in
  isSidebarModuleEnabled stored (js "console") (js "log") = Some true
  /\ useIsSidebarModuleVisible (getCachedStatus stored) VNull (js "/usage-logs") = Some false.
Proof. split; vm_compute; reflexivity. Qed.

(** ** The header *)

(** A module of the defaults keeps its kind. *)
Definition kind_ok (m : gmap jsstr NavValue) : Prop :=
  (forall k, k ∈ [js "pricing"; js "rankings"] -> exists a, m !! k = Some (NAccess a))
  /\ (forall k, k ∈ [js "home"; js "console"; js "docs"; js "about"] -> exists b, m !! k = Some (NBool b)).

Lemma header_entry_kind m entry : kind_ok m -> kind_ok (header_entry m entry).
Proof.
  destruct entry as [key value]. intros [Ha Hb]. unfold header_entry.
  assert (forall v, ~ (exists b, v = NAccess b) -> key ∉ [js "pricing"; js "rankings"] -> kind_ok (<[key := v]> m)) as Hset.
  { intros v Hv Hn. split; intros k Hk.
    - rewrite lookup_insert_ne by (intros ->; done). by apply Ha.
    - destruct (decide (key = k)) as [->|Hne]; [|rewrite lookup_insert_ne by done; by apply Hb]. rewrite lookup_insert_eq. destruct v; [by eexists|]. exfalso. eauto. }
  destruct (streq key (js "pricing") || streq key (js "rankings")) eqn:E.
  - split; intros k Hk.
    + destruct (decide (key = k)) as [->|Hne]; [rewrite lookup_insert_eq; by eexists|]. rewrite lookup_insert_ne by done. by apply Ha.
    + rewrite lookup_insert_ne; [by apply Hb|]. intros ->. rewrite orb_true_iff, !streq_true in E. rewrite !elem_of_cons, elem_of_nil in Hk.
      by destruct E as [->| ->]; destruct_or! Hk.
  - assert (key ∉ [js "pricing"; js "rankings"]) as Hn.
    { apply orb_false_iff in E as [E1%streq_false E2%streq_false]. rewrite !elem_of_cons, elem_of_nil. tauto. }
    assert (forall b, ~ (exists a, NBool b = NAccess a)) as Hno by (by intros b [a Hx]).
    destruct (streq key (js "__proto__")); [by split|]. destruct (m !! key) as [[]|]; [by apply Hset| |]; destruct value; try (by split); by apply Hset.
Qed.

(** Whatever the status holds, the modules with an access stay modules with an access and
    the others stay switches. *)
Lemma header_modules_kind raw m : parseHeaderNavModules raw = Some m -> kind_ok m.
Proof.
  unfold parseHeaderNavModules. intros (parsed & _ & [= <-])%bind_Some.
  assert (kind_ok DEFAULT_HEADER_NAV_MODULES) as H0.
  { split; intros k Hk; rewrite !elem_of_cons, elem_of_nil in Hk; destruct_or! Hk; try done; subst k; vm_compute; by eexists. }
  destruct (truthy parsed); [|done]. generalize (own_fields parsed). intros l. revert H0. generalize DEFAULT_HEADER_NAV_MODULES.
  induction l as [|e l IH]; intros m Hm; [done|]. by apply IH, header_entry_kind.
Qed.

(** ** The permission matrix *)

Lemma actions_lookup f acts m act :
  fold_left (fun acc a => <[a := f a]> acc) acts m !! act = if bool_decide (act ∈ acts) then Some (f act : bool) else (m : gmap jsstr bool) !! act.
Proof.
  revert m. induction acts as [|a acts IH]; intros m; [done|]. cbn [fold_left]. rewrite IH. case_bool_decide as H1; [by rewrite bool_decide_eq_true_2 by (by right)|].
  case_bool_decide as H2; rewrite elem_of_cons in H2.
  - destruct H2 as [->|]; [|done]. apply lookup_insert_eq.
  - apply lookup_insert_ne. naive_solver.
Qed.

Lemma resources_lookup (g : jsstr -> list jsstr -> gmap jsstr bool) rs (m : Matrix) r :
  NoDup (map resource rs) -> r ∈ rs -> fold_left (fun acc x => <[resource x := g (resource x) (actions x)]> acc) rs m !! resource r = Some (g (resource r) (actions r)).
Proof.
  assert (forall rs m k, k ∉ map resource rs -> fold_left (fun acc x => <[resource x := g (resource x) (actions x)]> acc) rs m !! k = (m : Matrix) !! k) as Hother.
  { clear. induction rs as [|x rs IH]; intros m k Hn; [done|]. cbn [fold_left map] in *. apply not_elem_of_cons in Hn as [H1 H2]. rewrite IH by done. by apply lookup_insert_ne. }
  revert m. induction rs as [|x rs IH]; intros m Hd Hin; [by apply elem_of_nil in Hin|]. cbn [fold_left map] in *. apply NoDup_cons in Hd as [Hn Hd].
  apply elem_of_cons in Hin as [->|Hin]; [|by apply IH]. rewrite Hother by done. apply lookup_insert_eq.
Qed.

(** The matrix has an entry for every action of the catalogue: the stored one, or else what
    the role grants. *)
Lemma normalized_at value catalog r act :
  NoDup (map resource (resources catalog)) -> r ∈ resources catalog -> act ∈ actions r ->
  matrix_at (normalizeAdminPermissions value catalog) (resource r) act
  = Some (granted (default ∅ value) (roleGrants catalog ADMIN_ROLE_KEY) (resource r) act).
Proof.
  intros Hd Hr Ha. unfold matrix_at, normalizeAdminPermissions.
  rewrite (resources_lookup (fun res acts => fold_left (fun acc a => <[a := granted (default ∅ value) (roleGrants catalog ADMIN_ROLE_KEY) res a]> acc) acts ∅)) by done.
  cbn [mbind option_bind]. by rewrite actions_lookup, bool_decide_eq_true_2 by done.
Qed.

(** What is complete is kept: normalising once more changes no entry. *)
Lemma normalized_stable value catalog r act :
  NoDup (map resource (resources catalog)) -> r ∈ resources catalog -> act ∈ actions r ->
  matrix_at (normalizeAdminPermissions (Some (normalizeAdminPermissions value catalog)) catalog) (resource r) act
  = matrix_at (normalizeAdminPermissions value catalog) (resource r) act.
Proof.
  intros Hd Hr Ha. rewrite (normalized_at (Some _)) by done. unfold granted at 1.
  change (default ∅ (Some (normalizeAdminPermissions value catalog))) with (normalizeAdminPermissions value catalog). by rewrite normalized_at by done.
Qed.

End NavigationLaws.
