(* ===== verification/UpstreamSync.v ===== *)
(** The synchronisation of prices with other services: the helpers of the table
    (src/web/src/features/system-settings/models/upstream-ratio-sync-helpers.ts), the page
    with its choices and its save (upstream-ratio-sync.tsx), the rows and the columns
    (upstream-ratio-sync-table.tsx, upstream-ratio-sync-columns.tsx).

    A record by model name is the list of its entries in the order of an object, a [Map] and
    a record by field the list of its entries in the order of insertion. The names of models
    and of sources are other than those of [Object.prototype]. [None] stands for an exception
    where a definition returns an option of its result. *)

From S2P Require Import Prelude JsValue NumText JsonString Json.

Module UpstreamSync.

Definition fields : Type := list (jsstr * val).

(** ** Maps *)

Section Maps.
Context {K A : Type} `{EqDecision K}.

Fixpoint mget (k : K) (l : list (K * A)) : option A :=
  match l with [] => None | (k1, a) :: l' => if decide (k = k1) then Some a else mget k l' end.
Definition mreplace (k : K) (a : A) (l : list (K * A)) : list (K * A) := map (fun e => if decide (e.1 = k) then (e.1, a) else e) l.
Definition has (k : K) (l : list (K * A)) : bool := bool_decide (k ∈ map fst l).
(** [map.set(k, a)], and [o[k] = a] for a name that is not an index. *)
Definition mset (k : K) (a : A) (l : list (K * A)) : list (K * A) := if has k l then mreplace k a l else l ++ [(k, a)].
(** [delete o[k]] *)
Definition mdel (k : K) (l : list (K * A)) : list (K * A) := List.filter (fun e => negb (bool_decide (e.1 = k))) l.

End Maps.

(** [o[k] = a] *)
Fixpoint oinsert {A} (k : jsstr) (a : A) (l : list (jsstr * A)) : list (jsstr * A) :=
  match l with
  | [] => [(k, a)]
  | (k1, a1) :: l' =>
    if is_index k && (negb (is_index k1) || (digits_value k <? digits_value k1)) then (k, a) :: l else (k1, a1) :: oinsert k a l'
  end.
Definition oset {A} (k : jsstr) (a : A) (l : list (jsstr * A)) : list (jsstr * A) := if has k l then mreplace k a l else oinsert k a l.

(** [a === b]; two objects are never the same one here. *)
Definition strict_equals (a b : val) : bool :=
  match a, b with
  | VUndef, VUndef | VNull, VNull => true
  | VBool x, VBool y => Bool.eqb x y
  | VNum x, VNum y => neq x y
  | VStr x, VStr y => streq x y
  | _, _ => false
  end.

(** ** Fields *)

Inductive RatioType :=
  model_ratio | completion_ratio | cache_ratio | create_cache_ratio | image_ratio | audio_ratio | audio_completion_ratio
| model_price | billing_mode | billing_expr.
#[export] Instance RatioType_eq_dec : EqDecision RatioType.
Proof. solve_decision. Defined.

Definition field_name (r : RatioType) : jsstr :=
  js match r with
     | model_ratio => "model_ratio" | completion_ratio => "completion_ratio" | cache_ratio => "cache_ratio"
     | create_cache_ratio => "create_cache_ratio" | image_ratio => "image_ratio" | audio_ratio => "audio_ratio"
     | audio_completion_ratio => "audio_completion_ratio" | model_price => "model_price" | billing_mode => "billing_mode"
     | billing_expr => "billing_expr"
     end.

Record RatioDifferenceEntry := mkEntry { current : val; upstreams : fields; confidence : list (jsstr * bool) }.
Definition ModelDiffs : Type := list (RatioType * RatioDifferenceEntry).
Definition DifferencesMap : Type := list (jsstr * ModelDiffs).
Definition Resolution : Type := list (RatioType * val).
Definition ResolutionsMap : Type := list (jsstr * Resolution).
Record ResolutionSelection := mkSelection { model : jsstr; ratioType : RatioType; value : val; sourceName : jsstr }.
Record ResolutionRemoval := mkRemoval { r_model : jsstr; r_type : RatioType }.
Definition ResolutionRemovalPlan : Type := list (jsstr * list RatioType).

Definition RATIO_SYNC_FIELDS : list RatioType :=
  [model_ratio; completion_ratio; cache_ratio; create_cache_ratio; image_ratio; audio_ratio; audio_completion_ratio].
Definition SYNC_FIELD_ORDER : list RatioType := RATIO_SYNC_FIELDS ++ [model_price; billing_mode; billing_expr].
Definition NUMERIC_SYNC_FIELDS : list RatioType := RATIO_SYNC_FIELDS ++ [model_price].
Definition is_numeric (r : RatioType) : bool := bool_decide (r ∈ NUMERIC_SYNC_FIELDS).

Definition RATIO_TYPE_OPTIONS : list (jsstr * jsstr) :=
  map (fun o => (js o.1, js o.2))
  [("Model ratio", "model_ratio"); ("Completion ratio", "completion_ratio"); ("Cache ratio", "cache_ratio");
   ("Create cache ratio", "create_cache_ratio"); ("Image ratio", "image_ratio"); ("Audio ratio", "audio_ratio");
   ("Audio completion ratio", "audio_completion_ratio"); ("Fixed price", "model_price"); ("Expression billing", "billing_expr")]%string.

Definition getSyncFieldLabel (r : jsstr) (t : jsstr -> jsstr) : jsstr :=
  match List.find (fun o => streq o.2 r) RATIO_TYPE_OPTIONS with Some o => t o.1 | None => r end.

Definition getOrderedRatioTypes (ratioTypes : ModelDiffs) (filter : jsstr) : list RatioType :=
  let keys := map fst ratioTypes in
  let ordered := List.filter (fun f => bool_decide (f ∈ keys)) SYNC_FIELD_ORDER ++ List.filter (fun f => negb (bool_decide (f ∈ SYNC_FIELD_ORDER))) keys in
  if negb (truthy_str filter) || streq filter (js "__all__") then ordered else List.filter (fun f => streq (field_name f) filter) ordered.

(** [ratioTypes[type]?.upstreams?.[source]] *)
Definition upstream_value (ratioTypes : ModelDiffs) (r : RatioType) (source : jsstr) : val :=
  match mget r ratioTypes with Some e => lookup_field source (upstreams e) | None => VUndef end.

Definition isSelectableUpstreamValue (v : val) : bool :=
  match v with VNull | VUndef => false | VStr s => negb (streq s (js "same")) | _ => true end.

Definition getPreferredSyncField (ratioTypes : ModelDiffs) (r : RatioType) (source : jsstr) : RatioType :=
  if negb (bool_decide (r = billing_expr)) && isSelectableUpstreamValue (upstream_value ratioTypes billing_expr source) then billing_expr else r.

Definition getVisibleRatioTypesForSource (ratioTypes : ModelDiffs) (source filter : jsstr) : list RatioType :=
  List.filter (fun r => bool_decide (getPreferredSyncField ratioTypes r source = r)) (getOrderedRatioTypes ratioTypes filter).

Definition getAlignedRatioTypes (ratioTypes : ModelDiffs) (sourceNames : list jsstr) (filter : jsstr) : list RatioType :=
  let ordered := getOrderedRatioTypes ratioTypes filter in
  match sourceNames with
  | [] => ordered
  | _ => List.filter (fun r => bool_decide (r ∈ concat (map (fun s => getVisibleRatioTypesForSource ratioTypes s filter) sourceNames))) ordered
  end.

Inductive Category := price | ratio | tiered.
#[export] Instance Category_eq_dec : EqDecision Category.
Proof. solve_decision. Defined.

Definition getBillingCategory (r : RatioType) : Category :=
  match r with model_price => price | billing_mode | billing_expr => tiered | _ => ratio end.

Definition OFFICIAL_CHANNEL_ID : Z := -100.
Definition OFFICIAL_CHANNEL_NAME : jsstr := [23448; 26041; 20493; 29575; 39044; 35774].
Definition MODELS_DEV_PRESET_ID : Z := -101.
Definition MODELS_DEV_PRESET_NAME : jsstr := js "models.dev " ++ [20215; 26684; 39044; 35774].

Definition getUpstreamDisplayName (source : jsstr) : jsstr :=
  if streq source (OFFICIAL_CHANNEL_NAME ++ js "(-100)") then OFFICIAL_CHANNEL_NAME
  else if streq source (MODELS_DEV_PRESET_NAME ++ js "(-101)") then MODELS_DEV_PRESET_NAME
  else source.

(** ** Choices *)

(** [Number(v)] of a number or a text. *)
Definition number_of (v : val) : num := default S754_nan (to_number v).

Definition isSelectedResolutionValue (resolutions : ResolutionsMap) (m : jsstr) (r : RatioType) (upstreamValue : val) : bool :=
  if negb (isSelectableUpstreamValue upstreamValue) then false else
  match mget m resolutions ≫= mget r with
  | None => false
  | Some selectedValue =>
    if is_numeric r then
      is_finite (number_of selectedValue) && is_finite (number_of upstreamValue) && neq (number_of selectedValue) (number_of upstreamValue)
    else strict_equals selectedValue upstreamValue
  end.

Definition preferred (differences : DifferencesMap) (s : ResolutionSelection) : RatioType * val :=
  let modelDiffs := default [] (mget (model s) differences) in
  let preferredType := getPreferredSyncField modelDiffs (ratioType s) (sourceName s) in
  (preferredType,
   if bool_decide (preferredType = ratioType s) then value s
   else match upstream_value modelDiffs preferredType (sourceName s) with VUndef | VNull => value s | v => v end).

Definition getDraftModelResolution (drafts : list (jsstr * Resolution)) (resolutions : ResolutionsMap) (m : jsstr) : Resolution :=
  match mget m drafts with Some draft => draft | None => default [] (mget m resolutions) end.

(** Fields of the other way of billing go. *)
Definition drop_other (category : Category) (res : Resolution) : Resolution :=
  List.filter (fun e => negb (negb (bool_decide (category = tiered)) && negb (bool_decide (getBillingCategory e.1 = tiered))
                              && negb (bool_decide (getBillingCategory e.1 = category)))) res.

(** The mode and the expression of the source come together. *)
Definition tiered_pair (modelDiffs : ModelDiffs) (source : jsstr) (finalType : RatioType) (res : Resolution) : Resolution :=
  let modeVal := upstream_value modelDiffs billing_mode source in
  let exprVal := upstream_value modelDiffs billing_expr source in
  let res := if isSelectableUpstreamValue modeVal then mset billing_mode modeVal res
             else if bool_decide (finalType = billing_expr) then mset billing_mode (VStr (js "tiered_expr")) res else res in
  if isSelectableUpstreamValue exprVal then mset billing_expr exprVal res else res.

Definition choose (differences : DifferencesMap) (s : ResolutionSelection) (res : Resolution) : Resolution :=
  let '(finalType, finalValue) := preferred differences s in
  let category := getBillingCategory finalType in
  let res := mset finalType finalValue (drop_other category res) in
  match mget (model s) differences with
  | Some modelDiffs => if bool_decide (category = tiered) then tiered_pair modelDiffs (sourceName s) finalType res else res
  | None => res
  end.

Definition applyResolutionSelectionToDraft (resolutions : ResolutionsMap) (differences : DifferencesMap) (drafts : list (jsstr * Resolution))
    (s : ResolutionSelection) : list (jsstr * Resolution) :=
  mset (model s) (choose differences s (getDraftModelResolution drafts resolutions (model s))) drafts.

Definition resolveResolutionSelection (differences : DifferencesMap) (s : ResolutionSelection) : ResolutionSelection :=
  mkSelection (model s) (preferred differences s).1 (preferred differences s).2 (sourceName s).

Definition effective_key (s : ResolutionSelection) : jsstr := model s ++ [0] ++ field_name (ratioType s).

Definition effective_step (differences : DifferencesMap) (effectiveByKey : list (jsstr * ResolutionSelection)) (s : ResolutionSelection)
    : list (jsstr * ResolutionSelection) :=
  let resolved := resolveResolutionSelection differences s in
  let category := getBillingCategory (ratioType resolved) in
  let kept :=
    if bool_decide (category = tiered) then effectiveByKey
    else List.filter (fun e => negb (streq (model e.2) (model resolved) && negb (bool_decide (getBillingCategory (ratioType e.2) = tiered))
                                     && negb (bool_decide (getBillingCategory (ratioType e.2) = category)))) effectiveByKey in
  mset (effective_key resolved) resolved kept.

Definition getEffectiveResolutionSelections (differences : DifferencesMap) (selections : list ResolutionSelection) : list ResolutionSelection :=
  map snd (fold_left (effective_step differences) selections []).

(** [next[model] = draft], or without an entry when the draft is empty. *)
Definition put_draft (next : ResolutionsMap) (e : jsstr * Resolution) : ResolutionsMap :=
  match e.2 with [] => mdel e.1 next | draft => oset e.1 draft next end.

Definition applyResolutionSelections (resolutions : ResolutionsMap) (differences : DifferencesMap) (selections : list ResolutionSelection)
    : ResolutionsMap :=
  match selections with
  | [] => resolutions
  | _ => fold_left put_draft (fold_left (applyResolutionSelectionToDraft resolutions differences) selections []) resolutions
  end.

Definition applyResolutionSelection (resolutions : ResolutionsMap) (differences : DifferencesMap) (s : ResolutionSelection) : ResolutionsMap :=
  applyResolutionSelections resolutions differences [s].

Definition remove_type (draft : Resolution) (r : RatioType) : Resolution :=
  let draft := mdel r draft in
  match r with billing_expr => mdel billing_mode draft | billing_mode => mdel billing_expr draft | _ => draft end.

Definition applyResolutionRemovalPlan (resolutions : ResolutionsMap) (plan : ResolutionRemovalPlan) : ResolutionsMap :=
  fold_left (fun next e =>
    match mget e.1 resolutions with None => next | Some cur => put_draft next (e.1, fold_left remove_type e.2 cur) end) plan resolutions.

(** A set keeps the order in which its members came. *)
Definition plan_add (m : jsstr) (r : RatioType) (plan : ResolutionRemovalPlan) : ResolutionRemovalPlan :=
  match mget m plan with
  | Some types => mset m (if bool_decide (r ∈ types) then types else types ++ [r]) plan
  | None => mset m [r] plan
  end.

Definition applyResolutionRemovals (resolutions : ResolutionsMap) (removals : list ResolutionRemoval) : ResolutionsMap :=
  applyResolutionRemovalPlan resolutions (fold_left (fun plan x => plan_add (r_model x) (r_type x) plan) removals []).

Definition deleteResolutionField (resolutions : ResolutionsMap) (m : jsstr) (r : RatioType) : ResolutionsMap :=
  applyResolutionRemovals resolutions [mkRemoval m r].

(** ** The page *)

Definition DEFAULT_ENDPOINT : jsstr := js "/api/pricing".
Definition OFFICIAL_CHANNEL_ENDPOINT : jsstr := js "/llm-metadata/api/newapi/ratio_config-v1-base.json".
Definition MODELS_DEV_PRESET_ENDPOINT : jsstr := js "https://models.dev/api.json".
Definition OPENROUTER_ENDPOINT : jsstr := js "openrouter".
Definition OPENROUTER_CHANNEL_TYPE : Z := 20.

Record UpstreamChannel := mkChannel { ch_id : Z; ch_name : jsstr; base_url : jsstr; ch_type : option Z }.
Record UpstreamConfig := mkConfig { u_id : Z; u_name : jsstr; u_base_url : jsstr; endpoint : jsstr }.

Definition getDefaultEndpointForChannel (channel : UpstreamChannel) : jsstr :=
  if ch_id channel =? MODELS_DEV_PRESET_ID then MODELS_DEV_PRESET_ENDPOINT
  else if ch_id channel =? OFFICIAL_CHANNEL_ID then OFFICIAL_CHANNEL_ENDPOINT
  else if bool_decide (ch_type channel = Some OPENROUTER_CHANNEL_TYPE) then OPENROUTER_ENDPOINT
  else DEFAULT_ENDPOINT.

(** The effect that gives every channel an endpoint; by number, in no order. *)
Definition fill_endpoints (channels : list UpstreamChannel) (prev : list (Z * jsstr)) : list (Z * jsstr) :=
  fold_left (fun next c => if truthy_str (default [] (mget (ch_id c) next)) then next else mset (ch_id c) (getDefaultEndpointForChannel c) next) channels prev.

(** The channels to ask, [None] for the warning that none is selected. *)
Definition handleConfirmChannelSelection (channels : list UpstreamChannel) (channelEndpoints : list (Z * jsstr)) (selectedIds : list Z)
    : option (list UpstreamConfig) :=
  match List.filter (fun c => bool_decide (ch_id c ∈ selectedIds)) channels with
  | [] => None
  | selected => Some (map (fun c => mkConfig (ch_id c) (ch_name c) (base_url c) (or_str (default [] (mget (ch_id c) channelEndpoints)) DEFAULT_ENDPOINT)) selected)
  end.

(** [toUpperCase] of a character of a field name. *)
Definition ascii_upper (c : Z) : Z := if (97 <=? c) && (c <=? 122) then c - 32 else c.
Definition capitalize (word : jsstr) : jsstr := match word with [] => [] | c :: t => ascii_upper c :: t end.

Definition optionKeyBySyncField (r : jsstr) : jsstr :=
  if streq r (js "billing_mode") then js "billing_setting.billing_mode"
  else if streq r (js "billing_expr") then js "billing_setting.billing_expr"
  else concat (map capitalize (split_on 95 r)).

Definition parseJsonRecord (raw : jsstr) : val := default (VObj []) (json_parse (or_str raw (js "{}"))).

Definition option_keys : list jsstr :=
  map js ["ModelRatio"; "CompletionRatio"; "CacheRatio"; "CreateCacheRatio"; "ImageRatio"; "AudioRatio"; "AudioCompletionRatio"; "ModelPrice";
          "billing_setting.billing_mode"; "billing_setting.billing_expr"]%string.

(** The options are the texts of [modelRatios] by key. *)
Definition parsedRatios (modelRatios : jsstr -> jsstr) : list (jsstr * val) := map (fun k => (k, parseJsonRecord (modelRatios k))) option_keys.

(** [currentRatios.key[model]] *)
Definition prop_at (v : val) (m : jsstr) : option val := match v with VUndef | VNull => None | _ => Some (lookup_field m (own_fields v)) end.
Definition local_value (currentRatios : list (jsstr * val)) (key : string) (m : jsstr) : option val := prop_at (default VUndef (mget (js key) currentRatios)) m.

(** [a !== undefined || ...], left to right. *)
Fixpoint some_defined (currentRatios : list (jsstr * val)) (keys : list string) (m : jsstr) : option bool :=
  match keys with
  | [] => Some false
  | k :: keys' => v ← local_value currentRatios k m; if defined v then Some true else some_defined currentRatios keys' m
  end.

Definition getLocalBillingCategory (m : jsstr) (currentRatios : list (jsstr * val)) : option (option Category) :=
  p ← local_value currentRatios "ModelPrice" m;
  if defined p then Some (Some price) else
  r ← some_defined currentRatios ["ModelRatio"; "CompletionRatio"; "CacheRatio"; "CreateCacheRatio"; "ImageRatio"; "AudioRatio"; "AudioCompletionRatio"]%string m;
  Some (if (r : bool) then Some ratio else None).

(** ** The save *)

Definition delete_at (key : string) (m : jsstr) (final : list (jsstr * fields)) : list (jsstr * fields) :=
  match mget (js key) final with Some fs => mset (js key) (drop_field m fs) final | None => final end.

Definition has_price (res : Resolution) : bool := has model_price res.
Definition has_ratio (res : Resolution) : bool := existsb (fun r => bool_decide (r ∈ RATIO_SYNC_FIELDS)) (map fst res).

(** [finalRatios[optionKey][model] = value] *)
Definition write_value (m : jsstr) (final : list (jsstr * fields)) (e : RatioType * val) : option (list (jsstr * fields)) :=
  let key := optionKeyBySyncField (field_name e.1) in
  fs ← mget key final;
  Some (mset key (set_field m (if is_numeric e.1 then VNum (number_of e.2) else e.2) fs) final).

Fixpoint fold_option {A B} (f : B -> A -> option B) (l : list A) (b : B) : option B :=
  match l with [] => Some b | a :: l' => b' ← f b a; fold_option f l' b' end.

Definition sync_model (final : list (jsstr * fields)) (e : jsstr * Resolution) : option (list (jsstr * fields)) :=
  let '(m, ratios) := e in
  let final := if has_price ratios then
                 fold_left (fun f k => delete_at k m f)
                   ["ModelRatio"; "CompletionRatio"; "CacheRatio"; "CreateCacheRatio"; "ImageRatio"; "AudioRatio"; "AudioCompletionRatio"]%string final
               else final in
  let final := if has_ratio ratios then delete_at "ModelPrice" m final else final in
  fold_option (write_value m) ratios final.

Definition final_ratios (resolutions : ResolutionsMap) (currentRatios : list (jsstr * val)) : option (list (jsstr * fields)) :=
  fold_option sync_model resolutions (map (fun e => (e.1, spread_over [] (own_fields e.2))) currentRatios).

(** The updates that are sent. *)
Definition performSync (resolutions : ResolutionsMap) (currentRatios : list (jsstr * val)) : option (list (jsstr * jsstr)) :=
  final ← final_ratios resolutions currentRatios;
  Some (map (fun e => (e.1, stringify2 (VObj e.2))) final).

(** The requests go out one after the other until one fails; [ok] says how the server answers. *)
Fixpoint syncMutate (ok : jsstr * jsstr -> bool) (updates : list (jsstr * jsstr)) (store : jsstr -> jsstr) : (jsstr -> jsstr) * bool :=
  match updates with
  | [] => (store, true)
  | u :: rest => if ok u then syncMutate ok rest (fun k => if streq k u.1 then u.2 else store k) else (store, false)
  end.

Definition findSourceChannel (differences : DifferencesMap) (m : jsstr) (r : RatioType) (v : val) : jsstr :=
  match mget m differences ≫= mget r with
  | None => js "Unknown"
  | Some e => match List.find (fun u => strict_equals u.2 v) (upstreams e) with Some u => u.1 | None => js "Unknown" end
  end.

Record ConflictItem := mkConflict { c_channel : jsstr; c_model : jsstr; c_current : jsstr; newVal : jsstr }.

(** [${v}], and [${v ?? '-'}]. *)
Definition or_dash (v : val) : option jsstr := match v with VUndef | VNull => Some (js "-") | v => to_string v end.
Definition chosen (res : Resolution) (r : RatioType) : val := default VUndef (mget r res).

Definition describe_price (t : jsstr -> jsstr) (v : val) : option jsstr := s ← to_string v; Some (t (js "Fixed price") ++ js ": " ++ s).
Definition describe_ratios (t : jsstr -> jsstr) (r c : val) : option jsstr :=
  rs ← or_dash r; cs ← or_dash c; Some (t (js "Model ratio") ++ js ": " ++ rs ++ [10] ++ t (js "Completion ratio") ++ js ": " ++ cs).

Definition new_category (res : Resolution) : Category := if has_price res then price else if has_ratio res then ratio else tiered.

Definition conflict_of (t : jsstr -> jsstr) (differences : DifferencesMap) (currentRatios : list (jsstr * val)) (e : jsstr * Resolution)
    : option (list ConflictItem) :=
  let '(m, ratios) := e in
  localCat ← getLocalBillingCategory m currentRatios;
  match localCat with
  | Some cat =>
    if bool_decide (new_category ratios <> tiered) && bool_decide (cat <> new_category ratios) then
      currentDesc ← match cat with
                    | price => v ← local_value currentRatios "ModelPrice" m; describe_price t v
                    | _ => r ← local_value currentRatios "ModelRatio" m; c ← local_value currentRatios "CompletionRatio" m; describe_ratios t r c
                    end;
      newDesc ← match new_category ratios with
                | price => describe_price t (chosen ratios model_price)
                | _ => describe_ratios t (chosen ratios model_ratio) (chosen ratios completion_ratio)
                end;
      let channelNames := join (js ", ") (dedup (map (fun x => findSourceChannel differences m x.1 x.2) ratios)) in
      Some [mkConflict channelNames m currentDesc newDesc]
    else Some []
  | None => Some []
  end.

Definition conflicts_of (t : jsstr -> jsstr) (differences : DifferencesMap) (currentRatios : list (jsstr * val)) (resolutions : ResolutionsMap)
    : option (list ConflictItem) :=
  fold_option (fun acc e => c ← conflict_of t differences currentRatios e; Some (acc ++ c)) resolutions [].

(** ** State *)

Record Sync := mkSync { differences : DifferencesMap; resolutions : ResolutionsMap; conflictItems : list ConflictItem; conflictDialogOpen : bool }.

Definition set_resolutions (r : ResolutionsMap) (st : Sync) : Sync := mkSync (differences st) r (conflictItems st) (conflictDialogOpen st).

(** The answer of the comparison, [None] when the server reports a failure. *)
Definition fetch_onSuccess (diffs : option DifferencesMap) (st : Sync) : Sync :=
  match diffs with None => st | Some d => mkSync d [] (conflictItems st) (conflictDialogOpen st) end.

Definition handleSelectValue (m : jsstr) (r : RatioType) (v : val) (source : jsstr) (st : Sync) : Sync :=
  set_resolutions (applyResolutionSelection (resolutions st) (differences st) (mkSelection m r v source)) st.
Definition handleSelectValues (selections : list ResolutionSelection) (st : Sync) : Sync :=
  set_resolutions (applyResolutionSelections (resolutions st) (differences st) selections) st.
Definition handleUnselectValue (m : jsstr) (r : RatioType) (st : Sync) : Sync := set_resolutions (deleteResolutionField (resolutions st) m r) st.
Definition handleUnselectValues (plan : ResolutionRemovalPlan) (st : Sync) : Sync := set_resolutions (applyResolutionRemovalPlan (resolutions st) plan) st.

Definition clear_field (m : jsstr) (diffs : DifferencesMap) (r : RatioType) : DifferencesMap :=
  match mget m diffs with
  | Some e => if has r e then match mdel r e with [] => mdel m diffs | e' => oset m e' diffs end else diffs
  | None => diffs
  end.

Definition sync_onSuccess (st : Sync) : Sync :=
  mkSync (fold_left (fun d e => fold_left (clear_field e.1) (map fst e.2) d) (resolutions st) (differences st)) [] (conflictItems st) (conflictDialogOpen st).

(** The state, and the updates that are sent at once when nothing conflicts. *)
Definition handleApplySync (t : jsstr -> jsstr) (currentRatios : list (jsstr * val)) (st : Sync) : option (Sync * option (list (jsstr * jsstr))) :=
  conflicts ← conflicts_of t (differences st) currentRatios (resolutions st);
  match conflicts with
  | [] => updates ← performSync (resolutions st) currentRatios; Some (st, Some updates)
  | _ => Some (mkSync (differences st) (resolutions st) conflicts true, None)
  end.

(** After the confirmation: the store, the state, and whether the dialog closes. *)
Definition handleConfirmConflict (ok : jsstr * jsstr -> bool) (modelRatios : jsstr -> jsstr) (st : Sync) : option ((jsstr -> jsstr) * Sync) :=
  updates ← performSync (resolutions st) (parsedRatios modelRatios);
  let '(store, success) := syncMutate ok updates modelRatios in
  Some (store, if success then let s := sync_onSuccess st in mkSync (differences s) (resolutions s) (conflictItems s) false else st).

(** ** The table *)

Record ModelRow := mkModelRow { row_model : jsstr; ratioTypes : ModelDiffs; billingConflict : bool }.

Definition dataSource (diffs : DifferencesMap) : list ModelRow :=
  map (fun e => mkModelRow e.1 e.2 (has model_price e.2 && existsb (fun r => has r e.2) RATIO_SYNC_FIELDS)) diffs.

Section Table.
Context (toLowerCase : jsstr -> jsstr).

Definition filteredData (diffs : DifferencesMap) (search ratioTypeFilter : jsstr) : list ModelRow :=
  let data := if truthy_str (trim search) then List.filter (fun row => includes (toLowerCase search) (toLowerCase (row_model row))) (dataSource diffs)
              else dataSource diffs in
  if truthy_str ratioTypeFilter && negb (streq ratioTypeFilter (js "__all__"))
  then List.filter (fun row => existsb (fun r => streq (field_name r) ratioTypeFilter) (map fst (ratioTypes row))) data
  else data.

Definition upstreamNames (rows : list ModelRow) (ratioTypeFilter : jsstr) : list jsstr :=
  dedup (concat (map (fun row => concat (map (fun r => match mget r (ratioTypes row) with Some e => map fst (upstreams e) | None => [] end)
                                           (getOrderedRatioTypes (ratioTypes row) ratioTypeFilter))) rows)).

(** What a source offers of the rows shown. *)
Definition row_selections (upstreamName ratioTypeFilter : jsstr) (row : ModelRow) : list ResolutionSelection :=
  concat (map (fun r => let v := upstream_value (ratioTypes row) r upstreamName in
                        if isSelectableUpstreamValue v then [mkSelection (row_model row) r v upstreamName] else [])
            (getAlignedRatioTypes (ratioTypes row) [upstreamName] ratioTypeFilter)).
Definition bulk_offers (rows : list ModelRow) (upstreamName ratioTypeFilter : jsstr) : list ResolutionSelection :=
  concat (map (row_selections upstreamName ratioTypeFilter) rows).

Record UpstreamBulkSelectState := mkBulk {
  displayName : jsstr; selections : list ResolutionSelection; removalPlan : ResolutionRemovalPlan; selectableCount : nat; selectedCount : nat }.

Definition bulkSelectState (st : Sync) (search ratioTypeFilter upstreamName : jsstr) : UpstreamBulkSelectState :=
  let offers := bulk_offers (filteredData (differences st) search ratioTypeFilter) upstreamName ratioTypeFilter in
  let effective := getEffectiveResolutionSelections (differences st) offers in
  mkBulk (getUpstreamDisplayName upstreamName) effective (fold_left (fun plan s => plan_add (model s) (ratioType s) plan) offers [])
    (length effective) (length (List.filter (fun s => isSelectedResolutionValue (resolutions st) (model s) (ratioType s) (value s)) effective)).

Definition bulkSelectStateByUpstream (st : Sync) (search ratioTypeFilter upstreamName : jsstr) : option UpstreamBulkSelectState :=
  if bool_decide (upstreamName ∈ upstreamNames (filteredData (differences st) search ratioTypeFilter) ratioTypeFilter)
  then Some (bulkSelectState st search ratioTypeFilter upstreamName) else None.

Definition handleBulkSelect (search ratioTypeFilter upstreamName : jsstr) (st : Sync) : Sync :=
  match bulkSelectStateByUpstream st search ratioTypeFilter upstreamName with Some b => handleSelectValues (selections b) st | None => st end.
Definition handleBulkUnselect (search ratioTypeFilter upstreamName : jsstr) (st : Sync) : Sync :=
  match bulkSelectStateByUpstream st search ratioTypeFilter upstreamName with Some b => handleUnselectValues (removalPlan b) st | None => st end.

End Table.

(** The checkbox of a column, and of a cell. *)
Inductive BulkBox := no_box | box (checked indeterminate : bool).
Definition bulk_box (b : option UpstreamBulkSelectState) : BulkBox :=
  let selectable := default 0%nat (selectableCount <$> b) in
  let selected := default 0%nat (selectedCount <$> b) in
  if Nat.ltb 0 selectable then box (Nat.eqb selected selectable) (Nat.ltb 0 selected && Nat.ltb selected selectable) else no_box.

Inductive Cell := unavailable | not_set | same_as_local | choice (text : option jsstr) (selected confident : bool).
Definition cell (resolutions : ResolutionsMap) (row : ModelRow) (r : RatioType) (upstreamName : jsstr) : Cell :=
  let upstreamVal := upstream_value (ratioTypes row) r upstreamName in
  if negb (bool_decide (getPreferredSyncField (ratioTypes row) r upstreamName = r)) then unavailable else
  match upstreamVal with
  | VUndef | VNull => not_set
  | v => if isSelectableUpstreamValue v
         then choice (to_string v) (isSelectedResolutionValue resolutions (row_model row) r v)
                (match mget r (ratioTypes row) ≫= (fun e => mget upstreamName (confidence e)) with Some b => b | None => true end)
         else same_as_local
  end.

End UpstreamSync.
