(* ===== verification/UpstreamSyncLaws.v ===== *)
(** The choices of the synchronisation are consistent in every state the page reaches; the
    save stores exactly them and clears the other way of billing; the box of a column
    chooses everything it counts. *)

From stdpp Require Import relations.
From S2P Require Import Prelude JsValue NumText JsonString Json UpstreamSync.
Import UpstreamSync.

Module UpstreamSyncLaws.

(** ** Maps *)

Section Maps.
Context {K A : Type} `{EqDecision K}.
Implicit Types l : list (K * A).

Lemma has_spec k l : has k l = true <-> is_Some (mget k l).
Proof.
  unfold has. rewrite bool_decide_eq_true. induction l as [|[k1 a] l IH]; cbn [map fst mget]; [rewrite elem_of_nil; split; [done|by intros [? ?]]|].
  rewrite elem_of_cons, IH. destruct (decide (k = k1)); naive_solver.
Qed.

Lemma mget_elem k a l : mget k l = Some a -> (k, a) ∈ l.
Proof. induction l as [|[k1 b] l IH]; cbn [mget]; [done|]. destruct (decide (k = k1)) as [->|]; [intros [= ->]; left|intros; right; auto]. Qed.

Lemma mget_None k l : mget k l = None <-> k ∉ map fst l.
Proof.
  rewrite <- (bool_decide_eq_false (k ∈ map fst l)). change (bool_decide _) with (has k l). pose proof (has_spec k l) as Hs.
  rewrite is_Some_alt in Hs. destruct (has k l), (mget k l); naive_solver.
Qed.

Lemma mget_app k l l' : mget k (l ++ l') = match mget k l with Some a => Some a | None => mget k l' end.
Proof. induction l as [|[k1 b] l IH]; cbn [mget app]; [done|]. by destruct (decide (k = k1)). Qed.

Lemma mget_mreplace k k' a l : mget k (mreplace k' a l) = if decide (k = k') then (if has k l then Some a else None) else mget k l.
Proof.
  induction l as [|[k1 b] l IH]; [by destruct (decide _)|]. unfold mreplace in *. cbn [map fst mget]. destruct (decide (k1 = k')) as [->|]; cbn [mget].
  - destruct (decide (k = k')) as [->|]; [|done]. by rewrite (proj2 (has_spec k' ((k', b) :: l))) by (cbn; rewrite decide_True by done; by eexists).
  - destruct (decide (k = k1)) as [->|Hne]; [by rewrite decide_False by done|]. rewrite IH. destruct (decide (k = k')); [|done].
    unfold has. cbn [map fst]. rewrite (bool_decide_ext (k ∈ k1 :: map fst l) (k ∈ map fst l)); [done|]. rewrite elem_of_cons. naive_solver.
Qed.

Lemma mget_mset k k' a l : mget k (mset k' a l) = if decide (k = k') then Some a else mget k l.
Proof.
  unfold mset. destruct (has k' l) eqn:E; [rewrite mget_mreplace|rewrite mget_app; cbn [mget]].
  - destruct (decide (k = k')) as [->|]; [by rewrite E|done].
  - destruct (decide (k = k')) as [->|]; [|by destruct (mget k l)]. assert (mget k' l = None) as ->; [|done].
    apply mget_None. unfold has in E. by apply bool_decide_eq_false in E.
Qed.

Lemma mget_filter (p : K -> bool) k l : mget k (List.filter (fun e => p e.1) l) = if p k then mget k l else None.
Proof.
  induction l as [|[k1 b] l IH]; [by destruct (p k)|]. cbn [List.filter fst mget]. destruct (p k1) eqn:E; cbn [mget]; rewrite IH;
    destruct (decide (k = k1)) as [->|]; try done; by rewrite E.
Qed.

Lemma mget_mdel k k' l : mget k (mdel k' l) = if decide (k = k') then None else mget k l.
Proof. etransitivity; [exact (mget_filter (fun k1 => negb (bool_decide (k1 = k'))) k l)|]. case_bool_decide; by destruct (decide (k = k')). Qed.

Lemma keys_mreplace k a l : map fst (mreplace k a l) = map fst l.
Proof. unfold mreplace. rewrite map_map. apply map_ext. intros e. by destruct (decide (e.1 = k)). Qed.

Lemma mset_nodup k a l : NoDup (map fst l) -> NoDup (map fst (mset k a l)).
Proof.
  intros Hd. unfold mset. destruct (has k l) eqn:E; [by rewrite keys_mreplace|]. rewrite map_app. apply NoDup_app. split_and!; [done| |apply NoDup_singleton].
  intros k1 Hk ->%list_elem_of_singleton. unfold has in E. by apply bool_decide_eq_false in E.
Qed.

Lemma mget_nodup k a l : NoDup (map fst l) -> (k, a) ∈ l -> mget k l = Some a.
Proof.
  induction l as [|[k1 b] l IH]; cbn [map fst mget]; [by rewrite elem_of_nil|]. intros [Hn Hd]%NoDup_cons. rewrite elem_of_cons.
  intros [[= -> ->]|Hin]; [by rewrite decide_True|]. rewrite decide_False; [by apply IH|]. intros ->. apply Hn. by apply (list_elem_of_fmap_2 fst l (k1, a)).
Qed.

End Maps.

Lemma oinsert_perm {A} k (a : A) l : oinsert k a l ≡ₚ (k, a) :: l.
Proof. induction l as [|[k1 b] l IH]; [done|]. cbn [oinsert]. destruct (_ && _); [done|]. rewrite IH. apply Permutation_swap. Qed.

Lemma mget_oset {A} k k' (a : A) l : mget k (oset k' a l) = if decide (k = k') then Some a else mget k l.
Proof.
  unfold oset. destruct (has k' l) eqn:E; [rewrite mget_mreplace; destruct (decide (k = k')) as [->|]; [by rewrite E|done]|].
  unfold has in E. apply bool_decide_eq_false in E. induction l as [|[k1 b] l IH]; [done|]. cbn [oinsert map fst] in *.
  apply not_elem_of_cons in E as [E1 E2]. destruct (_ && _); [done|]. cbn [mget]. rewrite IH by done.
  destruct (decide (k = k1)) as [->|]; [by rewrite decide_False by done|done].
Qed.

Lemma oset_nodup {A} k (a : A) l : NoDup (map fst l) -> NoDup (map fst (oset k a l)).
Proof.
  intros Hd. unfold oset. destruct (has k l) eqn:E; [by rewrite keys_mreplace|]. rewrite oinsert_perm. cbn [map fst]. apply NoDup_cons.
  split; [|done]. unfold has in E. by apply bool_decide_eq_false in E.
Qed.

(** ** Choices *)

(** A fixed price excludes ratios; an expression comes with its mode. *)
Definition consistent (res : Resolution) : Prop :=
  NoDup (map fst res)
  /\ (mget model_price res = None \/ forall r, getBillingCategory r = ratio -> mget r res = None)
  /\ (mget billing_mode res = None -> mget billing_expr res = None).

Definition consistent_map (rs : ResolutionsMap) : Prop := NoDup (map fst rs) /\ forall m res, mget m rs = Some res -> res <> [] /\ consistent res.

Lemma consistent_nil : consistent [].
Proof. split_and!; [apply NoDup_nil_2|by left|done]. Qed.

Lemma drop_other_get c r res :
  mget r (drop_other c res)
  = if bool_decide (c = tiered) || bool_decide (getBillingCategory r = tiered) || bool_decide (getBillingCategory r = c) then mget r res else None.
Proof.
  etransitivity; [refine (mget_filter (fun r => negb (negb (bool_decide (c = tiered)) && negb (bool_decide (getBillingCategory r = tiered))
    && negb (bool_decide (getBillingCategory r = c)))) r res)|]. by repeat case_bool_decide.
Qed.

Lemma tiered_pair_get d src ft res r : getBillingCategory r <> tiered -> mget r (tiered_pair d src ft res) = mget r res.
Proof.
  intros Hr. unfold tiered_pair. destruct (isSelectableUpstreamValue (upstream_value d billing_mode src)), (isSelectableUpstreamValue (upstream_value d billing_expr src));
    repeat case_bool_decide; rewrite ?mget_mset; by destruct r.
Qed.

Lemma choose_plain d s res r :
  getBillingCategory r <> tiered ->
  mget r (choose d s res)
  = if decide (r = (preferred d s).1) then Some (preferred d s).2
    else if bool_decide (getBillingCategory (preferred d s).1 = tiered) || bool_decide (getBillingCategory r = getBillingCategory (preferred d s).1)
    then mget r res else None.
Proof.
  intros Hr. unfold choose. destruct (preferred d s) as [ft fv]. cbn [fst snd].
  transitivity (mget r (mset ft fv (drop_other (getBillingCategory ft) res))).
  - destruct (mget (model s) d) as [diffs|]; [|done]. case_bool_decide; [by apply tiered_pair_get|done].
  - rewrite mget_mset, drop_other_get. by rewrite (bool_decide_eq_false_2 (getBillingCategory r = tiered)), orb_false_r.
Qed.

Lemma tiered_pair_nodup d src ft res : NoDup (map fst res) -> NoDup (map fst (tiered_pair d src ft res)).
Proof.
  intros Hd. unfold tiered_pair. destruct (isSelectableUpstreamValue (upstream_value d billing_mode src)), (isSelectableUpstreamValue (upstream_value d billing_expr src));
    repeat case_bool_decide; auto using mset_nodup.
Qed.

Lemma choose_nodup d s res : NoDup (map fst res) -> NoDup (map fst (choose d s res)).
Proof.
  intros Hd. unfold choose. destruct (preferred d s) as [ft fv].
  assert (NoDup (map fst (mset ft fv (drop_other (getBillingCategory ft) res)))) as H by (by apply mset_nodup, filter_nodup).
  destruct (mget (model s) d); [|done]. case_bool_decide; [by apply tiered_pair_nodup|done].
Qed.

(** A choice of an expression sets a mode, and no choice takes one away. *)
Lemma choose_mode d s res :
  is_Some (mget (model s) d) -> mget billing_mode (choose d s res) = None ->
  getBillingCategory (preferred d s).1 <> tiered /\ mget billing_mode res = None.
Proof.
  intros [diffs Hd]. unfold choose. destruct (preferred d s) as [ft fv]. cbn [fst]. rewrite Hd. case_bool_decide as Hc.
  - intros H. exfalso. revert H. unfold tiered_pair.
    destruct (isSelectableUpstreamValue (upstream_value diffs billing_mode (sourceName s))), (isSelectableUpstreamValue (upstream_value diffs billing_expr (sourceName s)));
      repeat case_bool_decide; rewrite ?mget_mset; repeat (destruct (decide _); try done); by destruct ft.
  - rewrite mget_mset, drop_other_get. destruct (decide _) as [<-|]; [done|]. rewrite (bool_decide_eq_true_2 (getBillingCategory billing_mode = tiered)) by done.
    by rewrite orb_true_r.
Qed.

Lemma choose_consistent d s res : is_Some (mget (model s) d) -> consistent res -> consistent (choose d s res).
Proof.
  intros Hm (Hd & Hx & Hp). split_and!; [by apply choose_nodup| |].
  - rewrite choose_plain by done. destruct (getBillingCategory (preferred d s).1) eqn:Ec.
    + right. intros r Hr. rewrite choose_plain, Ec, Hr by (by rewrite Hr). change (bool_decide (price = tiered) || bool_decide (ratio = price)) with false. by destruct (decide _) as [->|]; [rewrite Ec in Hr|].
    + left. by destruct (decide _) as [E|]; [rewrite <- E in Ec|].
    + destruct Hx as [Hx|Hx].
      * left. rewrite Hx. by destruct (decide _) as [E|]; [rewrite <- E in Ec|].
      * right. intros r Hr. rewrite choose_plain, Ec by (by rewrite Hr). change (bool_decide (tiered = tiered)) with true. cbn [orb]. destruct (decide _) as [->|]; [by rewrite Ec in Hr|]. by apply Hx.
  - intros Hmode. destruct (choose_mode d s res Hm Hmode) as [Hc Hn]. unfold choose in *. destruct (preferred d s) as [ft fv]. cbn [fst] in *.
    destruct Hm as [diffs ->]. rewrite bool_decide_eq_false_2 by done. rewrite mget_mset, drop_other_get.
    destruct (decide _) as [<-|]; [done|]. change (bool_decide (getBillingCategory billing_expr = tiered)) with true. rewrite orb_true_r. by apply Hp.
Qed.

Lemma choose_not_nil d s res : choose d s res <> [].
Proof.
  assert (is_Some (mget (preferred d s).1 (choose d s res))) as H; [|intros E; rewrite E in H; by destruct H].
  unfold choose. destruct (preferred d s) as [ft fv]. cbn [fst].
  assert (is_Some (mget ft (mset ft fv (drop_other (getBillingCategory ft) res)))) as H by (rewrite mget_mset, decide_True by done; by eexists).
  destruct (mget (model s) d) as [diffs|]; [|done]. case_bool_decide; [|done]. unfold tiered_pair.
  destruct (isSelectableUpstreamValue (upstream_value diffs billing_mode (sourceName s))), (isSelectableUpstreamValue (upstream_value diffs billing_expr (sourceName s)));
    repeat case_bool_decide; rewrite ?mget_mset; repeat (destruct (decide _)); by rewrite ?decide_True by done.
Qed.

Lemma put_draft_consistent rs e : consistent_map rs -> consistent e.2 -> consistent_map (put_draft rs e).
Proof.
  destruct e as [k draft]. intros [Hd Hr] Hc. unfold put_draft. cbn [fst snd] in *. destruct draft as [|x draft].
  - split; [by apply filter_nodup|]. intros m res. rewrite mget_mdel. destruct (decide _); [done|apply Hr].
  - split; [by apply oset_nodup|]. intros m res. rewrite mget_oset. destruct (decide _); [|apply Hr]. by intros [= <-].
Qed.

Lemma put_drafts_consistent l rs : consistent_map rs -> Forall (fun e => consistent e.2) l -> consistent_map (fold_left put_draft l rs).
Proof. revert rs. induction l as [|e l IH]; intros rs Hr Hl; [done|]. apply Forall_cons in Hl as [He Hl]. cbn [fold_left]. by apply IH; [apply put_draft_consistent|]. Qed.

Lemma Forall_mset {K A} `{EqDecision K} (P : A -> Prop) k a (l : list (K * A)) : Forall (fun e => P e.2) l -> P a -> Forall (fun e => P e.2) (mset k a l).
Proof.
  intros Hl Ha. unfold mset. destruct (has k l); [|by apply Forall_app; split; [|apply Forall_singleton]].
  unfold mreplace. apply Forall_map. eapply Forall_impl; [exact Hl|]. intros e He. by destruct (decide _).
Qed.

Lemma draft_consistent drafts rs m : Forall (fun e => consistent e.2) drafts -> consistent_map rs -> consistent (getDraftModelResolution drafts rs m).
Proof.
  intros Hf [_ Hr]. unfold getDraftModelResolution. destruct (mget m drafts) as [x|] eqn:E.
  - apply mget_elem in E. rewrite Forall_forall in Hf. by apply (Hf (m, x)).
  - destruct (mget m rs) as [res|] eqn:E2; [by apply (Hr m)|apply consistent_nil].
Qed.

Lemma selections_consistent rs d l :
  consistent_map rs -> Forall (fun s => is_Some (mget (model s) d)) l -> consistent_map (applyResolutionSelections rs d l).
Proof.
  intros Hr Hl. unfold applyResolutionSelections. destruct l as [|s0 l0] eqn:El; [done|]. rewrite <- El in *. clear El s0 l0.
  apply put_drafts_consistent; [done|]. assert (Forall (fun e : jsstr * Resolution => consistent e.2) []) as H by done. revert H.
  generalize (@nil (jsstr * Resolution)). induction Hl as [|s l Hs Hl IH]; intros drafts Hf; [done|]. cbn [fold_left]. apply IH.
  unfold applyResolutionSelectionToDraft. apply Forall_mset; [done|]. apply choose_consistent; [done|]. by apply draft_consistent.
Qed.

Lemma remove_type_consistent res r : consistent res -> consistent (remove_type res r).
Proof.
  intros (Hd & Hx & Hp).
  assert (forall k (l : Resolution), NoDup (map fst l) -> NoDup (map fst (mdel k l))) as Hdel by (intros; by apply filter_nodup).
  split_and!.
  - destruct r; cbn [remove_type]; auto.
  - destruct Hx as [Hx|Hx]; [left|right; intros r' Hr'; specialize (Hx r' Hr')]; destruct r; cbn [remove_type]; rewrite ?mget_mdel; repeat (destruct (decide _); try done).
  - destruct r; cbn [remove_type]; rewrite ?mget_mdel; repeat (rewrite ?decide_True by done; rewrite ?decide_False by done); try done.
Qed.

Lemma removals_consistent rs plan : consistent_map rs -> consistent_map (applyResolutionRemovalPlan rs plan).
Proof.
  intros Hr. unfold applyResolutionRemovalPlan.
  assert (forall next, consistent_map next -> consistent_map (fold_left (fun next (e : jsstr * list RatioType) =>
    match mget e.1 rs with None => next | Some cur => put_draft next (e.1, fold_left remove_type e.2 cur) end) plan next)) as H; [|by apply H].
  induction plan as [|[m types] plan IH]; intros next Hn; [done|]. cbn [fold_left fst snd]. apply IH. destruct (mget m rs) as [cur|] eqn:E; [|done].
  apply put_draft_consistent; [done|]. cbn [snd]. destruct (proj2 Hr _ _ E) as [_ Hc]. clear E. revert cur Hc.
  induction types as [|r types IHt]; intros cur Hc; [done|]. cbn [fold_left]. by apply IHt, remove_type_consistent.
Qed.

(** ** What a column offers *)

Lemma elem_concat_map {A B} (f : A -> list B) l y : y ∈ concat (map f l) <-> exists x, x ∈ l /\ y ∈ f x.
Proof. rewrite <- flat_map_concat_map, list_elem_of_In, in_flat_map. by setoid_rewrite list_elem_of_In. Qed.

Lemma row_entry d row : row ∈ dataSource d -> (row_model row, ratioTypes row) ∈ d.
Proof. unfold dataSource. intros ([m e] & -> & Hin)%list_elem_of_fmap. done. Qed.

Lemma row_known d row : row ∈ dataSource d -> is_Some (mget (row_model row) d).
Proof. intros H%row_entry. apply has_spec, bool_decide_eq_true. by apply (list_elem_of_fmap_2 fst d (row_model row, ratioTypes row)). Qed.

Lemma filtered_row low d search f row : row ∈ filteredData low d search f -> row ∈ dataSource d.
Proof. unfold filteredData. destruct (truthy_str (trim search)), (truthy_str f && _); rewrite ?elem_lfilter; tauto. Qed.

Lemma mset_elem {K A} `{EqDecision K} (k : K) (a : A) l e : e ∈ mset k a l -> e ∈ l \/ e = (k, a).
Proof.
  unfold mset. destruct (has k l); [|rewrite elem_of_app, list_elem_of_singleton; tauto].
  intros (x & -> & Hx)%list_elem_of_fmap. destruct (decide _) as [<-|]; [by right|by left].
Qed.

Lemma effective_from d l s : s ∈ getEffectiveResolutionSelections d l -> exists s0, s0 ∈ l /\ s = resolveResolutionSelection d s0.
Proof.
  unfold getEffectiveResolutionSelections. intros ([k x] & -> & Hx)%list_elem_of_fmap. cbn [snd].
  assert (forall acc, (k, x) ∈ fold_left (effective_step d) l acc -> (k, x) ∈ acc \/ exists s0, s0 ∈ l /\ x = resolveResolutionSelection d s0) as H;
    [|destruct (H [] Hx) as [Hn%elem_of_nil|?]; done].
  clear Hx. induction l as [|s l IH]; intros acc Hx; [by left|]. cbn [fold_left] in Hx. destruct (IH _ Hx) as [Hin|(s0 & Hs0 & ->)]; [|right; exists s0; split; [by right|done]].
  unfold effective_step in Hin. apply mset_elem in Hin as [Hin|[= -> ->]]; [|right; exists s; split; [left|done]].
  left. case_bool_decide; [done|]. by apply elem_lfilter in Hin as [? _].
Qed.

Lemma offered rows up f s : s ∈ bulk_offers rows up f ->
  exists row, row ∈ rows /\ model s = row_model row /\ sourceName s = up /\ value s = upstream_value (ratioTypes row) (ratioType s) up
    /\ isSelectableUpstreamValue (value s) = true /\ getPreferredSyncField (ratioTypes row) (ratioType s) up = ratioType s.
Proof.
  unfold bulk_offers. intros (row & Hrow & Hs)%elem_concat_map. exists row. split; [done|]. unfold row_selections in Hs. apply elem_concat_map in Hs as (r & Hr & Hs).
  destruct (isSelectableUpstreamValue _) eqn:E; [|by apply elem_of_nil in Hs]. apply list_elem_of_singleton in Hs as ->. cbn [model sourceName value ratioType].
  split_and!; try done. unfold getAlignedRatioTypes in Hr. apply elem_lfilter in Hr as [_ Hr%bool_decide_eq_true]. apply elem_concat_map in Hr as (x & Hx & Hr).
  apply list_elem_of_singleton in Hx as ->. unfold getVisibleRatioTypesForSource in Hr. by apply elem_lfilter in Hr as [_ Hr%bool_decide_eq_true].
Qed.

Lemma bulk_known low st search f up :
  Forall (fun s => is_Some (mget (model s) (differences st))) (selections (bulkSelectState low st search f up)).
Proof.
  apply Forall_forall. cbn [selections bulkSelectState]. intros s (s0 & Hs0 & ->)%effective_from. cbn [model resolveResolutionSelection].
  destruct (offered _ _ _ _ Hs0) as (row & Hrow & -> & _). by eapply row_known, filtered_row.
Qed.

(** ** The page *)

Section Page.
Context (t toLowerCase : jsstr -> jsstr).

(** What the administrator and the server do: an answer of the comparison, a box of a cell
    or of a column, the save, its confirmation, and its end. *)
Inductive sync_step : Sync -> Sync -> Prop :=
| on_fetch st d : sync_step st (fetch_onSuccess d st)
| on_select st row r source text confident :
    row ∈ dataSource (differences st) -> cell (resolutions st) row r source = choice text false confident ->
    sync_step st (handleSelectValue (row_model row) r (upstream_value (ratioTypes row) r source) source st)
| on_unselect st row r source text confident :
    row ∈ dataSource (differences st) -> cell (resolutions st) row r source = choice text true confident ->
    sync_step st (handleUnselectValue (row_model row) r st)
| on_bulk_select st search f upstream : sync_step st (handleBulkSelect toLowerCase search f upstream st)
| on_bulk_unselect st search f upstream : sync_step st (handleBulkUnselect toLowerCase search f upstream st)
| on_apply st currentRatios st' updates : handleApplySync t currentRatios st = Some (st', updates) -> sync_step st st'
| on_confirm st ok modelRatios store st' : handleConfirmConflict ok modelRatios st = Some (store, st') -> sync_step st st'
| on_synced st : sync_step st (sync_onSuccess st).

Lemma consistent_empty : consistent_map [].
Proof. split; [apply NoDup_nil_2|done]. Qed.

Lemma step_consistent st st' : sync_step st st' -> consistent_map (resolutions st) -> consistent_map (resolutions st').
Proof.
  intros Hs Hc. destruct Hs as [st d|st row r src txt conf Hrow _|st row r src txt conf Hrow _|st search f up|st search f up|st cur st' u Ha|st ok opts store st' Ha|st].
  - destruct d; [apply consistent_empty|done].
  - apply selections_consistent; [done|]. apply Forall_singleton. by apply row_known.
  - by apply removals_consistent.
  - unfold handleBulkSelect, bulkSelectStateByUpstream. case_bool_decide; [|done]. by apply selections_consistent; [|apply bulk_known].
  - unfold handleBulkUnselect, bulkSelectStateByUpstream. case_bool_decide; [|done]. by apply removals_consistent.
  - unfold handleApplySync in Ha. apply bind_Some in Ha as ([|c cs] & _ & Ha); [|by injection Ha as <- <-]. by apply bind_Some in Ha as (u' & _ & [= <- <-]).
  - unfold handleConfirmConflict in Ha. apply bind_Some in Ha as (u' & _ & Ha). destruct (syncMutate ok u' opts) as [store' []]; injection Ha as <- <-; [apply consistent_empty|done].
  - apply consistent_empty.
Qed.

Definition opened : Sync := mkSync [] [] [] false.

Lemma reached_consistent st : rtc sync_step opened st -> consistent_map (resolutions st).
Proof.
  intros Hr. remember opened as st0 eqn:E. assert (consistent_map (resolutions st0)) as H0 by (subst; apply consistent_empty). clear E.
  induction Hr as [|a b c Hab Hbc IH]; [done|]. by apply IH, (step_consistent a).
Qed.

(** C7: in every state the page of the synchronisation reaches, by any order of answers,
    single choices, choices of whole columns, removals, saves and confirmations, the choices
    for a model are consistent: never a fixed price together with a ratio, never a
    billing expression without its billing mode, and no model is kept without a choice. *)
Theorem choices_consistent (st : Sync) (m : jsstr) (res : Resolution) :
  rtc sync_step opened st -> mget m (resolutions st) = Some res ->
  res <> []
  /\ (mget model_price res = None \/ forall r, getBillingCategory r = ratio -> mget r res = None)
  /\ (mget billing_mode res = None -> mget billing_expr res = None).
Proof. intros Hr Hm. destruct (proj2 (reached_consistent st Hr) m res Hm) as [Hn (_ & Hx & Hp)]. done. Qed.

End Page.

(** ** The save *)

Definition key (r : RatioType) : jsstr := optionKeyBySyncField (field_name r).

Lemma keys_are_options : map key SYNC_FIELD_ORDER = option_keys.
Proof. vm_compute. reflexivity. Qed.

Lemma all_fields r : r ∈ SYNC_FIELD_ORDER.
Proof. apply (bool_decide_unpack _). by destruct r. Qed.

Lemma key_inj r r' : key r = key r' -> r = r'.
Proof.
  assert (forallb (fun a => forallb (fun b => negb (streq (key a) (key b)) || bool_decide (a = b)) SYNC_FIELD_ORDER) SYNC_FIELD_ORDER = true) as H by (vm_compute; reflexivity).
  rewrite forallb_forall in H. specialize (H r (proj1 (list_elem_of_In _ _) (all_fields r))). rewrite forallb_forall in H.
  specialize (H r' (proj1 (list_elem_of_In _ _) (all_fields r'))). intros E. rewrite E, streq_refl in H. by apply bool_decide_eq_true in H.
Qed.

(** The value of a field of a model in the records of the options. *)
Definition entry (final : list (jsstr * fields)) (r : RatioType) (m : jsstr) : val := lookup_field m (default [] (mget (key r) final)).
Definition complete (final : list (jsstr * fields)) : Prop := map fst final = option_keys.

Lemma complete_get final r : complete final -> is_Some (mget (key r) final).
Proof.
  intros Hc. apply has_spec. unfold has. rewrite Hc, <- keys_are_options. apply bool_decide_eq_true, list_elem_of_fmap_2, all_fields.
Qed.

Lemma complete_mset final r fs : complete final -> complete (mset (key r) fs final).
Proof. intros Hc. unfold complete, mset. rewrite (proj2 (has_spec _ _)) by (by apply complete_get). by rewrite keys_mreplace. Qed.

Lemma entry_mset final r fs r' m : entry (mset (key r) fs final) r' m = if decide (r' = r) then lookup_field m fs else entry final r' m.
Proof.
  unfold entry. rewrite mget_mset. destruct (decide (r' = r)) as [->|Hne]; [by rewrite decide_True by done|]. rewrite decide_False; [done|]. by intros E%key_inj.
Qed.

(** [delete finalRatios[key][model]] by field. *)
Definition erase_entry (m : jsstr) (final : list (jsstr * fields)) (r : RatioType) : list (jsstr * fields) :=
  match mget (key r) final with Some fs => mset (key r) (drop_field m fs) final | None => final end.

Lemma erase_entry_spec m final r r' m' :
  complete final -> complete (erase_entry m final r) /\ entry (erase_entry m final r) r' m' = if decide (r' = r /\ m' = m) then VUndef else entry final r' m'.
Proof.
  intros Hc. unfold erase_entry. destruct (complete_get final r Hc) as [fs E]. rewrite E. split; [by apply complete_mset|]. rewrite entry_mset, lookup_drop_field.
  destruct (decide (r' = r)) as [->|]; [|by rewrite decide_False by naive_solver]. destruct (streq m' m) eqn:Em.
  - apply streq_true in Em. by rewrite decide_True.
  - apply streq_false in Em. rewrite decide_False by naive_solver. unfold entry. by rewrite E.
Qed.

Lemma erase_entries_spec m l final r' m' :
  complete final -> complete (fold_left (erase_entry m) l final)
    /\ entry (fold_left (erase_entry m) l final) r' m' = if decide (r' ∈ l /\ m' = m) then VUndef else entry final r' m'.
Proof.
  revert final. induction l as [|r l IH]; intros final Hc; [split; [done|]; rewrite decide_False; [done|]; by intros [?%elem_of_nil _]|].
  cbn [fold_left]. destruct (erase_entry_spec m final r r' m' Hc) as [Hc1 E1]. destruct (IH _ Hc1) as [Hc2 E2]. split; [done|]. rewrite E2, E1.
  repeat destruct (decide _); try done; exfalso; set_solver.
Qed.

Definition stored_form (r : RatioType) (v : val) : val := if is_numeric r then VNum (number_of v) else v.

Lemma write_value_entry m final r v :
  complete final -> exists final', write_value m final (r, v) = Some final' /\ complete final'
    /\ forall r' m', entry final' r' m' = if decide (r' = r /\ m' = m) then stored_form r v else entry final r' m'.
Proof.
  intros Hc. unfold write_value. cbn [fst snd]. change (optionKeyBySyncField (field_name r)) with (key r). destruct (complete_get final r Hc) as [fs E]. rewrite E.
  cbn [mbind option_bind]. eexists. split; [done|]. split; [by apply complete_mset|]. intros r' m'. rewrite entry_mset, lookup_set_any. fold (stored_form r v).
  destruct (decide (r' = r)) as [->|]; [|by rewrite decide_False by naive_solver]. destruct (streq m' m) eqn:Em.
  - apply streq_true in Em. by rewrite decide_True.
  - apply streq_false in Em. rewrite decide_False by naive_solver. unfold entry. by rewrite E.
Qed.

Lemma write_values_entry m res final :
  NoDup (map fst res) -> complete final -> exists final', fold_option (write_value m) res final = Some final' /\ complete final'
    /\ forall r' m', entry final' r' m' = if decide (m' = m) then match mget r' res with Some v => stored_form r' v | None => entry final r' m' end
                                          else entry final r' m'.
Proof.
  revert final. induction res as [|[r v] res IH]; intros final Hd Hc.
  { exists final. split_and!; try done. intros. by destruct (decide _). }
  cbn [map fst] in Hd. apply NoDup_cons in Hd as [Hn Hd]. destruct (write_value_entry m final r v Hc) as (f1 & E1 & Hc1 & H1).
  destruct (IH f1 Hd Hc1) as (f2 & E2 & Hc2 & H2). exists f2. cbn [fold_option]. rewrite E1. cbn [mbind option_bind]. split_and!; try done.
  intros r' m'. rewrite H2, H1. cbn [mget]. destruct (decide (m' = m)) as [->|]; [|by rewrite decide_False by naive_solver].
  destruct (decide (r' = r)) as [->|].
  - rewrite (proj2 (mget_None r res)) by done. by rewrite decide_True.
  - destruct (mget r' res); [done|]. by rewrite decide_False by naive_solver.
Qed.

(** What the save leaves of a field, given the choices for the model. *)
Definition saved (res : Resolution) (r : RatioType) (before : val) : val :=
  match mget r res with
  | Some v => stored_form r v
  | None =>
    if (has_price res && bool_decide (getBillingCategory r = ratio)) || (has_ratio res && bool_decide (r = model_price)) then VUndef else before
  end.

Lemma sync_model_entry m res final :
  NoDup (map fst res) -> complete final -> exists final', sync_model final (m, res) = Some final' /\ complete final'
    /\ forall r' m', entry final' r' m' = if decide (m' = m) then saved res r' (entry final r' m') else entry final r' m'.
Proof.
  intros Hd Hc. unfold sync_model.
  set (f1 := if has_price res then fold_left (erase_entry m) RATIO_SYNC_FIELDS final else final).
  set (f2 := if has_ratio res then fold_left (erase_entry m) [model_price] f1 else f1).
  assert (complete f1) as Hc1 by (unfold f1; destruct (has_price res); [by apply (erase_entries_spec m _ final model_ratio m)|done]).
  assert (complete f2) as Hc2 by (unfold f2; destruct (has_ratio res); [by apply (erase_entries_spec m _ f1 model_ratio m)|done]).
  destruct (write_values_entry m res f2 Hd Hc2) as (f3 & E3 & Hc3 & H3). exists f3. split; [exact E3|]. split; [done|]. intros r' m'. rewrite H3.
  assert (entry f2 r' m' = if decide (m' = m) then (if (has_price res && bool_decide (getBillingCategory r' = ratio)) || (has_ratio res && bool_decide (r' = model_price)) then VUndef
    else entry final r' m') else entry final r' m') as H2.
  { assert (entry f1 r' m' = if decide (m' = m) then (if has_price res && bool_decide (getBillingCategory r' = ratio) then VUndef else entry final r' m') else entry final r' m') as H1.
    { unfold f1. destruct (has_price res); [|by destruct (decide (m' = m))]. rewrite (proj2 (erase_entries_spec m RATIO_SYNC_FIELDS final r' m' Hc)).
      destruct (decide (m' = m)) as [->|]; [|by rewrite decide_False by naive_solver]. assert (r' ∈ RATIO_SYNC_FIELDS <-> getBillingCategory r' = ratio) as Hr.
      { rewrite <- (bool_decide_eq_true (r' ∈ _)), <- (bool_decide_eq_true (_ = ratio)). by destruct r'. }
      cbn [andb]. case_bool_decide as Hcat; [by rewrite decide_True by (split; [by apply Hr|done])|]. by rewrite decide_False by naive_solver. }
    unfold f2. destruct (has_ratio res); [|rewrite orb_false_r; exact H1]. rewrite (proj2 (erase_entries_spec m [model_price] f1 r' m' Hc1)), H1. cbn [andb].
    destruct (decide (m' = m)) as [->|]; [|by rewrite decide_False by naive_solver]. destruct (decide (r' = model_price)) as [->|Hp].
    - rewrite decide_True by (split; [left|done]). by rewrite (bool_decide_eq_true_2 (model_price = model_price)), orb_true_r.
    - rewrite decide_False by (rewrite list_elem_of_singleton; naive_solver). by rewrite (bool_decide_eq_false_2 (r' = model_price)), orb_false_r. }
  rewrite H2. unfold saved. destruct (decide (m' = m)); [|done]. by destruct (mget r' res).
Qed.

Lemma final_entry rs final :
  NoDup (map fst rs) -> (forall m res, mget m rs = Some res -> NoDup (map fst res)) -> complete final ->
  exists final', fold_option sync_model rs final = Some final' /\ complete final'
    /\ forall r m, entry final' r m = match mget m rs with Some res => saved res r (entry final r m) | None => entry final r m end.
Proof.
  revert final. induction rs as [|[m res] rs IH]; intros final Hd Hn Hc; [by exists final|]. cbn [map fst] in Hd. apply NoDup_cons in Hd as [Hm Hd].
  destruct (sync_model_entry m res final) as (f1 & E1 & Hc1 & H1); [|done|].
  { apply (Hn m). cbn [mget]. by rewrite decide_True. }
  destruct (IH f1) as (f2 & E2 & Hc2 & H2); [done| |done|].
  { intros m' res' E. apply (Hn m'). cbn [mget]. rewrite decide_False; [done|]. intros ->. by rewrite (proj2 (mget_None m rs)) in E. }
  exists f2. cbn [fold_option]. rewrite E1. cbn [mbind option_bind]. split_and!; try done. intros r m'. rewrite H2, H1. cbn [mget].
  destruct (decide (m' = m)) as [->|]; [|done]. by rewrite (proj2 (mget_None m rs)).
Qed.

(** *** Reading the options again *)

(** What is true of every record and survives its updates. *)
Lemma final_fields (P : fields -> Prop) rs final final' :
  (forall m fs, P fs -> P (drop_field m fs)) ->
  (forall m res r v fs, (m, res) ∈ rs -> (r, v) ∈ res -> P fs -> P (set_field m (stored_form r v) fs)) ->
  Forall (fun e => P e.2) final -> fold_option sync_model rs final = Some final' -> Forall (fun e => P e.2) final'.
Proof.
  intros Hdrop. revert final. induction rs as [|[m res] rs IH]; intros final Hset Hf E; [by injection E as <-|]. cbn [fold_option] in E.
  apply bind_Some in E as (f1 & E1 & E). eapply IH; [|clear E|exact E]; [intros m' res' r v fs Hin; apply Hset; by right|].
  assert (forall k m f, Forall (fun e => P e.2) f -> Forall (fun e => P e.2) (delete_at k m f)) as Hdel.
  { intros k m1 f Hf1. unfold delete_at. destruct (mget (js k) f) as [fs|] eqn:Ef; [|done]. apply mget_elem in Ef. apply Forall_mset; [done|].
    rewrite Forall_forall in Hf1. by apply Hdrop, (Hf1 (js k, fs)). }
  unfold sync_model in E1. set (f0 := if has_ratio res then _ else _) in E1.
  assert (Forall (fun e => P e.2) f0) as Hf0.
  { unfold f0. destruct (has_ratio res), (has_price res); cbn [fold_left]; auto 12. }
  assert (forall r v fs, (r, v) ∈ res -> P fs -> P (set_field m (stored_form r v) fs)) as Hset1 by (intros; eapply Hset; [left|done|done]).
  clear Hset. revert E1 Hset1 Hf0. generalize f0. clear. induction res as [|[r v] res IH]; intros f E Hset Hf; [by injection E as <-|]. cbn [fold_option] in E.
  apply bind_Some in E as (f2 & E2 & E). eapply IH; [exact E|intros; by apply Hset; [right|]|]. unfold write_value in E2. apply bind_Some in E2 as (fs & Eg & [= <-]).
  apply mget_elem in Eg. apply Forall_mset; [done|]. rewrite Forall_forall in Hf. apply (Hset r v); [left|exact (Hf _ Eg)].
Qed.

Lemma sent updates store :
  NoDup (map fst updates) ->
  exists store', syncMutate (fun _ => true) updates store = (store', true) /\ forall k, store' k = default (store k) (mget k updates).
Proof.
  revert store. induction updates as [|[k x] l IH]; intros store Hd; [by exists store|]. cbn [map fst] in Hd. apply NoDup_cons in Hd as [Hn Hd]. cbn [syncMutate].
  destruct (IH (fun k' => if streq k' (k, x).1 then (k, x).2 else store k') Hd) as (store' & E & H). exists store'. split; [done|]. intros k'. rewrite H.
  cbn [mget fst snd]. destruct (decide (k' = k)) as [->|Hne]; [rewrite (proj2 (mget_None k l)) by done; cbn; by rewrite streq_refl|].
  destruct (mget k' l); cbn; [done|]. by rewrite (proj2 (streq_false k' k)).
Qed.

Lemma mget_map {A B} (f : A -> B) k (l : list (jsstr * A)) : mget k (map (fun e => (e.1, f e.2)) l) = f <$> mget k l.
Proof. induction l as [|[k1 a] l IH]; [done|]. cbn [map mget fst snd]. by destruct (decide (k = k1)). Qed.

Lemma mget_keyed {B} (f : jsstr -> B) k l : k ∈ l -> mget k (map (fun k => (k, f k)) l) = Some (f k).
Proof. induction l as [|k1 l IH]; [by rewrite elem_of_nil|]. rewrite elem_of_cons. cbn [map mget]. destruct (decide (k = k1)) as [->|]; naive_solver. Qed.

Lemma key_option r : key r ∈ option_keys.
Proof. rewrite <- keys_are_options. apply list_elem_of_fmap_2, all_fields. Qed.

Lemma options_nodup : NoDup option_keys.
Proof. apply (bool_decide_unpack _). vm_compute. exact I. Qed.

(** The record of an option that holds an object. *)
Definition record_of (modelRatios : jsstr -> jsstr) (r : RatioType) (fs : fields) : Prop := parseJsonRecord (modelRatios (key r)) = VObj fs.

Lemma text_record fs : plain_obj fs -> parseJsonRecord (stringify2 (VObj fs)) = VObj fs.
Proof.
  intros Hp%plain_obj_wf. unfold parseJsonRecord. pose proof (parse_stringify [32; 32] (VObj fs)) as H. unfold or_str.
  assert (truthy_str (stringify2 (VObj fs)) = true) as ->.
  { unfold stringify2. cbn [json_text]. by destruct (flat_map _ fs). }
  unfold stringify2. rewrite H; [done| |done]. by repeat constructor.
Qed.

Lemma parsed_entry modelRatios r m fs :
  record_of modelRatios r fs -> NoDup (map fst fs) ->
  entry (map (fun e => (e.1, spread_over [] (own_fields e.2))) (parsedRatios modelRatios)) r m = lookup_field m fs.
Proof.
  intros Hr Hd. unfold entry. rewrite (mget_map (fun v => spread_over [] (own_fields v))). unfold parsedRatios. rewrite mget_keyed by apply key_option. rewrite Hr. cbn. by apply lookup_spread_nil.
Qed.

(** Options whose records are plain, and choices that can be written. *)
Definition plain_options (modelRatios : jsstr -> jsstr) : Prop := forall r, exists fs, record_of modelRatios r fs /\ plain_obj fs.
Definition writable (rs : ResolutionsMap) : Prop :=
  forall m res, mget m rs = Some res -> is_index m = false /\ units m /\ forall r v, mget r res = Some v -> wf_val (stored_form r v).

Definition local (modelRatios : jsstr -> jsstr) (r : RatioType) (m : jsstr) : val := default VUndef (prop_at (parseJsonRecord (modelRatios (key r))) m).

Lemma local_record modelRatios r m fs : record_of modelRatios r fs -> local modelRatios r m = lookup_field m fs.
Proof. unfold local, record_of. by intros ->. Qed.

Lemma spread_plain fs : plain_obj fs -> spread_over [] fs = fs.
Proof.
  intros [Hd Hf]. assert (Forall (fun f => is_index f.1 = false) fs) as Hi by (eapply Forall_impl; [exact Hf|]; by intros f (? & _)).
  exact (plain_fields_proper fs Hd Hi).
Qed.

(** The save of consistent choices, read again. *)
Lemma saved_options rs modelRatios :
  consistent_map rs -> plain_options modelRatios -> writable rs ->
  exists updates store, performSync rs (parsedRatios modelRatios) = Some updates /\ syncMutate (fun _ => true) updates modelRatios = (store, true)
    /\ plain_options store
    /\ forall r m, local store r m = match mget m rs with Some res => saved res r (local modelRatios r m) | None => local modelRatios r m end.
Proof.
  intros [Hd Hc] Hp Hw. set (start := map (fun e : jsstr * val => (e.1, spread_over [] (own_fields e.2))) (parsedRatios modelRatios)).
  assert (complete start) as Hs by (unfold complete, start, parsedRatios; rewrite !map_map; cbn [fst]; apply map_id).
  destruct (final_entry rs start Hd) as (final & E & Hf & H); [intros m res Hm; by apply (Hc m res Hm)|done|].
  assert (Forall (fun e => plain_obj e.2) final) as Hplain.
  { eapply (final_fields plain_obj rs start final); [intros; by apply plain_obj_drop| | |exact E].
    - intros m res r v fs Hm Hr Hfs. apply (mget_nodup m res rs Hd) in Hm. destruct (Hc m res Hm) as [_ (Hdr & _)]. destruct (Hw m res Hm) as (Hi & Hu & Hv).
      apply plain_obj_set; try done. apply Hv. by apply mget_nodup.
    - unfold start, parsedRatios. rewrite !Forall_map. apply Forall_forall. intros k Hk. rewrite <- keys_are_options in Hk.
      apply list_elem_of_fmap in Hk as (r & -> & _). destruct (Hp r) as (fs & Hr & Hfs). cbn [snd fst]. unfold record_of in Hr. rewrite Hr. cbn [own_fields].
      by rewrite spread_plain. }
  exists (map (fun e => (e.1, stringify2 (VObj e.2))) final).
  destruct (sent (map (fun e => (e.1, stringify2 (VObj e.2))) final) modelRatios) as (store & Es & Hst).
  { pose proof options_nodup as Hn. rewrite <- Hf in Hn. rewrite map_map. exact Hn. }
  assert (forall r, exists fs, mget (key r) final = Some fs /\ plain_obj fs /\ record_of store r fs) as Hrec.
  { intros r. destruct (complete_get final r Hf) as [fs Hfs]. exists fs. split; [done|]. apply mget_elem in Hfs as Hin. rewrite Forall_forall in Hplain.
    specialize (Hplain _ Hin). split; [done|]. unfold record_of. rewrite Hst, (mget_map (fun fs : fields => stringify2 (VObj fs))), Hfs. by apply text_record. }
  exists store. split_and!.
  - unfold performSync, final_ratios. fold start. by rewrite E.
  - done.
  - intros r. destruct (Hrec r) as (fs & _ & ? & ?). by exists fs.
  - intros r m. destruct (Hrec r) as (fs & Hfs & _ & Hr). rewrite (local_record _ _ _ _ Hr). destruct (Hp r) as (fs0 & Hr0 & Hp0).
    specialize (H r m). unfold start in H. rewrite (parsed_entry _ _ _ _ Hr0) in H by apply Hp0. rewrite (local_record _ _ _ _ Hr0).
    unfold entry in H. by rewrite Hfs in H.
Qed.

Lemma has_ratio_spec res : has_ratio res = true <-> exists r, getBillingCategory r = ratio /\ is_Some (mget r res).
Proof.
  unfold has_ratio. rewrite existsb_exists. split.
  - intros (r & Hr & Hm%bool_decide_eq_true). exists r. split; [|by apply has_spec, bool_decide_eq_true, list_elem_of_In].
    apply (bool_decide_eq_true_1 (getBillingCategory r = ratio)). apply (bool_decide_eq_true_2 (r ∈ RATIO_SYNC_FIELDS)) in Hm. by destruct r.
  - intros (r & Hr & Hm%has_spec). exists r. unfold has in Hm. apply bool_decide_eq_true in Hm. split; [by apply list_elem_of_In|]. by destruct r.
Qed.

Lemma local_value_key modelRatios r m (k : string) : js k = key r -> plain_options modelRatios -> local_value (parsedRatios modelRatios) k m = Some (local modelRatios r m).
Proof.
  intros Hk Hp. unfold local_value, parsedRatios, local. rewrite Hk, mget_keyed by apply key_option. destruct (Hp r) as (fs & Hr & _). unfold record_of in Hr.
  cbn [default from_option]. by rewrite Hr.
Qed.

Lemma local_category modelRatios m :
  plain_options modelRatios ->
  getLocalBillingCategory m (parsedRatios modelRatios)
  = Some (if defined (local modelRatios model_price m) then Some price
          else if existsb (fun r => defined (local modelRatios r m)) RATIO_SYNC_FIELDS then Some ratio else None).
Proof.
  intros Hp. unfold getLocalBillingCategory. cbn [some_defined].
  rewrite (local_value_key _ model_price _ "ModelPrice"), (local_value_key _ model_ratio _ "ModelRatio"), (local_value_key _ completion_ratio _ "CompletionRatio"), (local_value_key _ cache_ratio _ "CacheRatio"),
    (local_value_key _ create_cache_ratio _ "CreateCacheRatio"), (local_value_key _ image_ratio _ "ImageRatio"), (local_value_key _ audio_ratio _ "AudioRatio"), (local_value_key _ audio_completion_ratio _ "AudioCompletionRatio") by first [exact Hp | vm_compute; reflexivity].
  unfold RATIO_SYNC_FIELDS. cbn [mbind option_bind existsb]. destruct (defined (local modelRatios model_price m)); [done|].
  do 7 (match goal with |- context [defined ?x] => destruct (defined x); [done|cbn [orb mbind option_bind]] end). done.
Qed.

(** C8: the save stores the choices and nothing else. From every state the page reaches, the
    save succeeds when the server accepts its requests, and the options that it leaves, read
    again, hold for every model and every field: the chosen value, as a number where the
    field is numeric; nothing where the choices for the model are of the other way of billing
    (a fixed price removes all the ratios, a ratio removes the fixed price); else what was
    there. A model for which a price or a ratio was chosen is then billed that way, so that a
    second save finds no conflict. *)
Theorem sync_read_back (t low : jsstr -> jsstr) (st : Sync) (modelRatios : jsstr -> jsstr) :
  rtc (sync_step t low) opened st -> plain_options modelRatios -> writable (resolutions st) ->
  exists updates store, performSync (resolutions st) (parsedRatios modelRatios) = Some updates
    /\ syncMutate (fun _ => true) updates modelRatios = (store, true)
    /\ (forall r m, local store r m = match mget m (resolutions st) with Some res => saved res r (local modelRatios r m) | None => local modelRatios r m end)
    /\ (forall m res, mget m (resolutions st) = Some res -> new_category res <> tiered ->
        getLocalBillingCategory m (parsedRatios store) = Some (Some (new_category res))).
Proof.
  intros Hr Hp Hw. pose proof (reached_consistent t low st Hr) as Hc. destruct (saved_options _ _ Hc Hp Hw) as (updates & store & E1 & E2 & Hps & H).
  exists updates, store. split_and!; try done. intros m res Hm Hn. rewrite local_category by done. destruct (proj2 Hc m res Hm) as [_ (_ & Hx & _)].
  assert (forall r v, getBillingCategory r <> tiered -> mget r res = Some v -> defined (local store r m) = true) as Hdef.
  { intros r v Hcat Hv. rewrite H, Hm. unfold saved. rewrite Hv. by destruct r. }
  unfold new_category, has_price in *. destruct (has model_price res) eqn:Ep.
  - apply has_spec in Ep as [v Hv]. by rewrite (Hdef model_price v).
  - destruct (has_ratio res) eqn:Er; [|done]. assert (mget model_price res = None) as Hmp.
    { destruct (mget model_price res) eqn:E; [|done]. rewrite (proj2 (has_spec _ _)) in Ep by (rewrite E; by eexists). done. }
    rewrite H, Hm at 1. unfold saved, has_price. rewrite Hmp, Ep, Er. cbn [andb orb]. rewrite bool_decide_eq_true_2 by done. cbn [defined].
    apply has_ratio_spec in Er as (r & Hcat & [v Hv]). assert (existsb (fun r => defined (local store r m)) RATIO_SYNC_FIELDS = true) as ->; [|done].
    apply existsb_exists. exists r. split; [|by apply (Hdef r v); [rewrite Hcat|]]. apply list_elem_of_In, (bool_decide_unpack _). by destruct r.
Qed.

(** ** The box of a column *)

Section Column.
Context (d : DifferencesMap) (up : jsstr).

(** A choice that stands for what the source [up] has in the comparison. *)
Definition from_source (s : ResolutionSelection) : Prop :=
  exists diffs, mget (model s) d = Some diffs /\ sourceName s = up /\ value s = upstream_value diffs (ratioType s) up
    /\ isSelectableUpstreamValue (value s) = true /\ getPreferredSyncField diffs (ratioType s) up = ratioType s.

Lemma source_preferred s : from_source s -> preferred d s = (ratioType s, value s).
Proof. intros (diffs & Hm & Hsrc & _ & _ & Hp). unfold preferred. rewrite Hm. cbn [default from_option id]. rewrite Hsrc. change (default [] (Some diffs)) with diffs. by rewrite Hp, bool_decide_eq_true_2. Qed.

Lemma source_resolved s : from_source s -> resolveResolutionSelection d s = s.
Proof. intros H. unfold resolveResolutionSelection. rewrite source_preferred by done. by destruct s. Qed.

(** Where the source has an expression, only the expression is offered. *)
Lemma source_expression s s' : from_source s -> from_source s' -> model s = model s' -> ratioType s = billing_expr -> ratioType s' = billing_expr.
Proof.
  intros (diffs & Hm & _ & Hv & Hsel & _) (diffs' & Hm' & _ & _ & _ & Hp) E Et. rewrite E, Hm' in Hm. injection Hm as ->. rewrite Hv, Et in Hsel.
  unfold getPreferredSyncField in Hp. rewrite Hsel, andb_true_r in Hp. by case_bool_decide.
Qed.

Lemma choose_sets s res : from_source s -> mget (ratioType s) (choose d s res) = Some (value s).
Proof.
  intros H. pose proof (source_preferred s H) as Hp. destruct (decide (getBillingCategory (ratioType s) = tiered)) as [Ht|Ht].
  - destruct H as (diffs & Hm & Hsrc & Hv & Hsel & Hpref). unfold choose. rewrite Hp, Hm, bool_decide_eq_true_2 by done. unfold tiered_pair. rewrite Hsrc.
    destruct (ratioType s) eqn:Et; try done; rewrite Hv in Hsel.
    + assert (isSelectableUpstreamValue (upstream_value diffs billing_expr up) = false) as ->.
      { unfold getPreferredSyncField in Hpref. destruct (isSelectableUpstreamValue (upstream_value diffs billing_expr up)); [|done]. rewrite bool_decide_eq_false_2 in Hpref by done. discriminate Hpref. }
      rewrite Hsel, mget_mset, decide_True by done. by rewrite Hv.
    + rewrite Hsel. rewrite mget_mset, decide_True by done. by rewrite Hv.
  - rewrite choose_plain, Hp by done. cbn [fst snd]. by rewrite decide_True.
Qed.

Lemma choose_keeps s s' res :
  from_source s -> from_source s' -> model s = model s' ->
  (getBillingCategory (ratioType s) <> tiered -> getBillingCategory (ratioType s') <> tiered -> getBillingCategory (ratioType s) = getBillingCategory (ratioType s')) ->
  mget (ratioType s') res = Some (value s') -> mget (ratioType s') (choose d s res) = Some (value s').
Proof.
  intros H H' Hm Hcat Hr. pose proof (source_preferred s H) as Hp. destruct (decide (ratioType s = ratioType s')) as [E|Hne].
  { rewrite <- E, choose_sets by done. destruct H as (diffs & Hm1 & _ & -> & _), H' as (diffs' & Hm2 & _ & -> & _). rewrite Hm, Hm2 in Hm1. injection Hm1 as ->. by rewrite E. }
  destruct (decide (getBillingCategory (ratioType s') = tiered)) as [Ht'|Ht'].
  - destruct (decide (getBillingCategory (ratioType s) = tiered)) as [Ht|Ht].
    + exfalso. destruct (ratioType s) eqn:Es; try done; destruct (ratioType s') eqn:Es'; try done.
      * by rewrite (source_expression s' s) in Es by done.
      * by rewrite (source_expression s s') in Es' by done.
    + unfold choose. rewrite Hp. assert (mget (ratioType s') (mset (ratioType s) (value s) (drop_other (getBillingCategory (ratioType s)) res)) = Some (value s')) as Hx.
      { rewrite mget_mset, decide_False, drop_other_get by congruence. by rewrite (bool_decide_eq_true_2 (getBillingCategory (ratioType s') = tiered)), orb_true_r. }
      destruct (mget (model s) d); [|done]. by rewrite bool_decide_eq_false_2.
  - rewrite choose_plain, Hp by done. cbn [fst snd]. rewrite decide_False by congruence. case_bool_decide as Ht; [done|]. cbn [orb].
    by rewrite bool_decide_eq_true_2 by (symmetry; by apply Hcat).
Qed.

(** Of the two ways of billing, one is offered for a model. *)
Definition one_way (l : list ResolutionSelection) : Prop :=
  forall s s', s ∈ l -> s' ∈ l -> model s = model s' -> getBillingCategory (ratioType s) <> tiered -> getBillingCategory (ratioType s') <> tiered ->
    getBillingCategory (ratioType s) = getBillingCategory (ratioType s').

Lemma effective_one_way l : one_way (getEffectiveResolutionSelections d l).
Proof.
  unfold getEffectiveResolutionSelections. assert (forall acc, one_way (map snd acc) -> one_way (map snd (fold_left (effective_step d) l acc))) as H;
    [|apply H; intros s s' Hs; by apply elem_of_nil in Hs].
  induction l as [|x l IH]; intros acc Ha; [done|]. cbn [fold_left]. apply IH. unfold effective_step. set (y := resolveResolutionSelection d x).
  set (kept := if bool_decide _ then _ else _).
  assert (forall e, e ∈ kept -> e.2 ∈ map snd acc) as Hkept.
  { intros e He. apply list_elem_of_fmap_2. unfold kept in He. destruct (bool_decide _); [done|]. by apply elem_lfilter in He as [? _]. }
  assert (forall e, e ∈ kept -> model e.2 = model y -> getBillingCategory (ratioType e.2) <> tiered -> getBillingCategory (ratioType y) <> tiered ->
    getBillingCategory (ratioType e.2) = getBillingCategory (ratioType y)) as Hnew.
  { intros e He Hm H1 H2. unfold kept in He. rewrite bool_decide_eq_false_2 in He by done. apply elem_lfilter in He as [_ He]. rewrite Hm, streq_refl in He.
    rewrite (bool_decide_eq_false_2 (_ = tiered)) in He by done. cbn [negb andb] in He. apply negb_true_iff in He. by case_bool_decide. }
  intros s s' ([k1 a] & -> & H1)%list_elem_of_fmap ([k2 b] & -> & H2)%list_elem_of_fmap. cbn [snd].
  apply mset_elem in H1, H2. destruct H1 as [H1|[= -> ->]], H2 as [H2|[= -> ->]]; intros; try done.
  - apply Ha; try done; [exact (Hkept _ H1)|exact (Hkept _ H2)].
  - by apply (Hnew _ H1).
  - symmetry. by apply (Hnew _ H2).
Qed.

Lemma drafts_hold rs l :
  Forall from_source l -> one_way l ->
  let drafts := fold_left (applyResolutionSelectionToDraft rs d) l [] in
  NoDup (map fst drafts) /\ forall s, s ∈ l -> exists draft, mget (model s) drafts = Some draft /\ mget (ratioType s) draft = Some (value s).
Proof.
  induction l as [|x l IH] using rev_ind; intros Hs Hw; cbn zeta; [split; [apply NoDup_nil_2|intros s H; by apply elem_of_nil in H]|].
  apply Forall_app in Hs as [Hs Hx]. apply Forall_cons in Hx as [Hx _]. rewrite fold_left_app. cbn [fold_left].
  destruct IH as [Hd IH]; [done|intros s s' H H'; apply Hw; by apply elem_of_app; left|]. set (drafts := fold_left _ l []) in *.
  split; [by apply mset_nodup|]. intros s Hin. unfold applyResolutionSelectionToDraft. setoid_rewrite mget_mset. destruct (decide (model s = model x)) as [E|Hne].
  - eexists. split; [done|]. apply elem_of_app in Hin as [Hin| ->%list_elem_of_singleton]; [|by apply choose_sets].
    rewrite Forall_forall in Hs. apply choose_keeps; [done|by apply Hs|done| |].
    + intros. apply Hw; try done; apply elem_of_app; [right; by left|by left].
    + destruct (IH s Hin) as (draft & Hm & Hv). unfold getDraftModelResolution. by rewrite <- E, Hm.
  - apply elem_of_app in Hin as [Hin| ->%list_elem_of_singleton]; [by apply IH|done].
Qed.

Lemma put_drafts_get drafts rs m draft :
  NoDup (map fst drafts) -> mget m drafts = Some draft -> draft <> [] -> mget m (fold_left put_draft drafts rs) = Some draft.
Proof.
  assert (forall drafts rs m, m ∉ map fst drafts -> mget m (fold_left put_draft drafts rs) = mget m rs) as Hother.
  { clear. induction drafts as [|[k x] l IH]; intros rs m Hn; [done|]. cbn [fold_left map fst] in *. apply not_elem_of_cons in Hn as [H1 H2]. rewrite IH by done.
    unfold put_draft. cbn [fst snd]. destruct x; rewrite ?mget_mdel, ?mget_oset; by rewrite decide_False. }
  revert rs. induction drafts as [|[k x] l IH]; intros rs Hd Hm Hn; [done|]. cbn [fold_left map fst mget] in *. apply NoDup_cons in Hd as [Hk Hd].
  destruct (decide (m = k)) as [->|]; [|by apply IH]. injection Hm as ->. rewrite Hother by done. unfold put_draft. cbn [fst snd].
  destruct draft; [done|]. rewrite mget_oset. by rewrite decide_True.
Qed.

Lemma applied_hold rs l s :
  Forall from_source l -> one_way l -> s ∈ l -> mget (model s) (applyResolutionSelections rs d l) ≫= mget (ratioType s) = Some (value s).
Proof.
  intros Hs Hw Hin. unfold applyResolutionSelections. destruct l as [|s0 l0] eqn:El; [by apply elem_of_nil in Hin|]. rewrite <- El in *. clear El s0 l0.
  destruct (drafts_hold rs l Hs Hw) as [Hd H]. destruct (H s Hin) as (draft & Hm & Hv). rewrite (put_drafts_get _ rs (model s) draft); try done.
  intros ->. done.
Qed.

End Column.

(** Values that compare equal to themselves as the table compares them. *)
Definition comparable (d : DifferencesMap) : Prop :=
  forall m diffs r source, mget m d = Some diffs -> isSelectableUpstreamValue (upstream_value diffs r source) = true ->
    if is_numeric r then is_finite (number_of (upstream_value diffs r source)) = true else exists s, upstream_value diffs r source = VStr s.

Lemma neq_refl x : is_finite x = true -> neq x x = true.
Proof.
  unfold neq, SFeqb, SFcompare. destruct x as [s|s| |s m e]; try done. intros _. rewrite Z.compare_refl, Pos.compare_refl. by destruct s.
Qed.

Lemma bulk_box_full b : selectedCount b = selectableCount b -> selectedCount b = selectableCount b /\ (selectableCount b <> 0%nat -> bulk_box (Some b) = box true false).
Proof.
  destruct b as [n s p k c]. cbn [selectedCount selectableCount]. intros ->. split; [done|]. intros Hk. destruct k as [|k]; [done|].
  transitivity (box (Nat.eqb (S k) (S k)) (Nat.ltb 0 (S k) && Nat.ltb (S k) (S k))); [done|]. by rewrite Nat.eqb_refl, Nat.ltb_irrefl.
Qed.

(** the box of a column chooses everything it counts. After the box of a source is
    ticked, for any search and any filter and whatever was chosen before, every choice that
    the column offers is selected: the two counts shown are equal and the box is full, as
    soon as one value can be chosen. A model for which the source has a fixed price and ratios
    counts once, with the price. *)
Theorem bulk_select_checks_all (low : jsstr -> jsstr) (st : Sync) (search f up : jsstr) :
  NoDup (map fst (differences st)) -> comparable (differences st) ->
  up ∈ upstreamNames (filteredData low (differences st) search f) f ->
  exists b, bulkSelectStateByUpstream low (handleBulkSelect low search f up st) search f up = Some b
    /\ selectedCount b = selectableCount b
    /\ (selectableCount b <> 0%nat -> bulk_box (Some b) = box true false).
Proof.
  intros Hd Hc Hup. unfold handleBulkSelect, bulkSelectStateByUpstream. rewrite (bool_decide_eq_true_2 _ Hup). cbn [handleSelectValues set_resolutions differences].
  rewrite (bool_decide_eq_true_2 _ Hup). eexists. split; [done|]. apply bulk_box_full. cbn [bulkSelectState selectedCount selectableCount differences resolutions selections].
  set (offers := bulk_offers _ _ _). set (eff := getEffectiveResolutionSelections _ offers).
  assert (Forall (from_source (differences st) up) offers) as Hoff.
  { apply Forall_forall. intros s (row & Hrow & Hm & Hs & Hv & Hsel & Hp)%offered. exists (ratioTypes row). rewrite Hm. split_and!; try done.
    by apply mget_nodup, row_entry, (filtered_row low _ search f). }
  assert (Forall (from_source (differences st) up) eff) as Hsrc.
  { apply Forall_forall. intros s (s0 & Hs0 & ->)%effective_from. rewrite Forall_forall in Hoff. by rewrite (source_resolved _ up) by (by apply Hoff); apply Hoff. }
  assert (Forall (fun s => isSelectedResolutionValue (applyResolutionSelections (resolutions st) (differences st) eff) (model s) (ratioType s) (value s) = true) eff) as Hall.
  { apply Forall_forall. intros s Hs. pose proof (applied_hold _ up (resolutions st) eff s Hsrc (effective_one_way _ _) Hs) as Hv. unfold isSelectedResolutionValue. rewrite Hv.
    rewrite Forall_forall in Hsrc. destruct (Hsrc s Hs) as (diffs & Hm & _ & Hval & Hsel & _). rewrite Hsel. cbn [negb]. rewrite Hval in Hsel.
    pose proof (Hc _ _ _ _ Hm Hsel) as Hcmp. rewrite <- Hval in Hcmp. destruct (is_numeric (ratioType s)).
    - by rewrite Hcmp, neq_refl.
    - destruct Hcmp as [x ->]. apply streq_refl. }
  by rewrite (filter_every _ eff) by (apply Forall_forall; exact Hall).
Qed.

(** Neither a price nor a ratio takes the billing mode of a model away: a model that is
    billed by an expression keeps it, and the synchronised numbers have no effect. *)
Lemma unchosen_mode_stays res before : mget billing_mode res = None -> saved res billing_mode before = before.
Proof. intros H. unfold saved. rewrite H. by rewrite !andb_false_r. Qed.

(** ** A run of the page *)

Definition sample_number (z : Z) : val := VNum (num_of_Z z).
Definition sample_differences : DifferencesMap :=
  [(js "m", [(model_ratio, mkEntry (sample_number 5) [(js "a", sample_number 2)] []); (model_price, mkEntry VNull [(js "a", sample_number 3)] []);
             (billing_mode, mkEntry VNull [(js "b", VStr (js "tiered_expr"))] []); (billing_expr, mkEntry VNull [(js "b", VStr (js "p * 2"))] [])])].
Definition sample_fetched : Sync := fetch_onSuccess (Some sample_differences) opened.
Definition sample_ticked : Sync := handleBulkSelect (fun s => s) [] [] (js "a") sample_fetched.
Definition sample_chosen : Sync := handleSelectValue (js "m") billing_expr (VStr (js "p * 2")) (js "b") sample_ticked.
Definition sample_resolution : Resolution := default [] (mget (js "m") (resolutions sample_chosen)).
Definition sample_options (k : jsstr) : jsstr := if streq k (js "ModelRatio") then jq "{'m': 5, 'n': 1}" else [].

Lemma sample_choices_reached : rtc (sync_step (fun s => s) (fun s => s)) opened sample_chosen.
Proof.
  eapply rtc_l; [exact (on_fetch _ _ opened (Some sample_differences))|]. eapply rtc_l; [exact (on_bulk_select _ _ sample_fetched [] [] (js "a"))|].
  eapply rtc_l; [|apply rtc_refl]. eapply (on_select _ _ sample_ticked (mkModelRow (js "m") _ _) billing_expr (js "b")); [left|vm_compute; reflexivity].
Qed.

Lemma choices_consistent_witness :
  mget (js "m") (resolutions sample_chosen) = Some sample_resolution
  /\ map fst sample_resolution = [model_price; billing_expr; billing_mode]
  /\ (mget model_price sample_resolution = None \/ forall r, getBillingCategory r = ratio -> mget r sample_resolution = None).
Proof.
  split; [vm_compute; reflexivity|]. split; [vm_compute; reflexivity|].
  apply (choices_consistent (fun s => s) (fun s => s) sample_chosen (js "m") sample_resolution); [apply sample_choices_reached|vm_compute; reflexivity].
Defined.

Lemma sample_options_plain : plain_options sample_options.
Proof.
  intros r. assert (plain_obj []) as H0 by (split; [apply NoDup_nil_2|apply Forall_nil; exact I]).
  destruct r; eexists; (split; [vm_compute; reflexivity|]); try exact H0. split; [apply (bool_decide_unpack _); vm_compute; exact I|].
  repeat (apply Forall_cons; split; [split; [vm_compute; reflexivity|]; split; [apply (units_js "m") || apply (units_js "n")|constructor; vm_compute; reflexivity]|]). by apply Forall_nil.
Qed.

Lemma sample_choices_writable : writable (resolutions sample_chosen).
Proof.
  intros m res. assert (resolutions sample_chosen = [(js "m", [(model_price, sample_number 3); (billing_expr, VStr (js "p * 2")); (billing_mode, VStr (js "tiered_expr"))])]) as ->
    by (vm_compute; reflexivity).
  cbn [mget]. destruct (decide (m = js "m")) as [->|]; [|done]. intros [= <-]. split; [vm_compute; reflexivity|]. split; [apply units_js|].
  intros r v Hv. cbn [mget] in Hv. repeat (destruct (decide _) as [->|]; [injection Hv as <-; constructor; first [vm_compute; reflexivity | apply units_js]|]). done.
Qed.

Lemma sync_read_back_witness :
  exists updates store, performSync (resolutions sample_chosen) (parsedRatios sample_options) = Some updates
    /\ syncMutate (fun _ => true) updates sample_options = (store, true)
    /\ map (fun r => local store r (js "m")) [model_ratio; model_price; billing_expr] = [VUndef; sample_number 3; VStr (js "p * 2")]
    /\ local store model_ratio (js "n") = sample_number 1.
Proof.
  destruct (sync_read_back (fun s => s) (fun s => s) sample_chosen sample_options) as (updates & store & H1 & H2 & H & _);
    [apply sample_choices_reached|apply sample_options_plain|apply sample_choices_writable|].
  exists updates, store. split; [exact H1|]. split; [exact H2|]. cbn [map]. rewrite !H. split; vm_compute; reflexivity.
Defined.

Lemma bulk_select_checks_all_witness :
  exists b, bulkSelectStateByUpstream (fun s => s) (handleBulkSelect (fun s => s) [] [] (js "a") sample_fetched) [] [] (js "a") = Some b
    /\ selectedCount b = selectableCount b.
Proof.
  destruct (bulk_select_checks_all (fun s => s) sample_fetched [] [] (js "a")) as (b & H1 & H2 & _); [| | |exists b; split; [exact H1|exact H2]].
  - apply (bool_decide_unpack _). vm_compute. exact I.
  - intros m diffs r source Hm. change (mget m sample_differences = Some diffs) in Hm. unfold sample_differences in Hm. cbn [mget] in Hm.
    destruct (decide (m = js "m")); [|discriminate Hm]. injection Hm as <-. unfold upstream_value.
    destruct r; cbn [mget decide upstreams lookup_field]; try discriminate; repeat (case_decide; [discriminate|]);
      try (rewrite decide_True by reflexivity); cbn [upstreams lookup_field]; destruct (streq source _); try discriminate; intros _; try (vm_compute; reflexivity); eexists; reflexivity.
  - apply (bool_decide_unpack _). vm_compute. exact I.
Defined.

End UpstreamSyncLaws.
