(* ===== verification/Flow.v ===== *)
(** The flow diagram of the dashboard: the rows of usage, the path of nodes each row
    takes through the visible stages, the top-N limit, the node and link totals, the
    masks and highlights, the filter options, and the data handed to the chart
    (src/web/src/features/dashboard/lib/flow.ts, types of
    src/web/src/features/dashboard/types.ts).

    Quotas, token counts, request counts and identifiers are the integers the gateway
    stores, kept as [Z]; the program adds them as doubles, which is exact below 2^53. *)

From S2P Require Import Prelude JsValue NumText JsonString Json.

Module Flow.

(** ** Data *)

Inductive FlowMetric := quota_metric | tokens_metric | requests_metric.
Inductive FlowOverflowMode := aggregate | hide.
Inductive FlowRole := role_user | role_admin | role_root.
Inductive FlowNodeKind := user | node | token | group | model | channel.

#[export] Instance FlowNodeKind_eq_dec : EqDecision FlowNodeKind.
Proof. solve_decision. Defined.

Record FlowQuotaDataItem := mkRow {
  user_id : option Z; username : option jsstr; node_name : option jsstr; use_group : option jsstr;
  token_id : option Z; token_name : option jsstr; channel_id : option Z; channel_name : option jsstr;
  model_name : option jsstr; token_used : option Z; count : option Z; quota : option Z
}.

Record FlowNodeFilter := mkFilter { f_kind : FlowNodeKind; f_id : jsstr }.
Record FlowLinkSelection := mkSelection { sel_source : jsstr; sel_target : jsstr }.

Record DashboardFlowNode := mkNode {
  n_id : jsstr; n_label : jsstr; n_kind : FlowNodeKind; n_value : Z; n_requests : Z; n_quota : Z; n_tokens : Z;
  n_color : jsstr; n_colorKey : jsstr; n_highlighted : option bool; n_dimmed : option bool
}.

Record DashboardFlowLink := mkLink {
  l_source : jsstr; l_target : jsstr; l_value : Z; l_requests : Z; l_quota : Z; l_tokens : Z;
  l_sourceLabel : jsstr; l_targetLabel : jsstr; l_color : jsstr; l_linkColor : jsstr; l_linkAlpha : num;
  l_hoverColor : jsstr; l_colorKey : jsstr; l_share : num; l_highlighted : option bool; l_dimmed : option bool
}.

Record DashboardFlowGraph := mkGraph { g_nodes : list DashboardFlowNode; g_links : list DashboardFlowLink }.

Record FlowMetrics := mkMetrics { m_quota : Z; m_tokens : Z; m_requests : Z }.
Record FlowPathNode := mkPathNode { p_id : jsstr; p_label : jsstr; p_kind : FlowNodeKind }.
Record PreparedFlowPath := mkPrepared { pp_path : list FlowPathNode; pp_metrics : FlowMetrics }.
Record FlowNodeRank := mkRank { r_node : FlowPathNode; r_value : Z }.

Definition FLOW_NODE_KINDS : list FlowNodeKind := [user; node; token; group; model; channel].

Definition kind_name (k : FlowNodeKind) : jsstr :=
  match k with
  | user => js "user" | node => js "node" | token => js "token"
  | group => js "group" | model => js "model" | channel => js "channel"
  end.

Definition OTHER_FLOW_NODE_IDS (k : FlowNodeKind) : jsstr :=
  match k with
  | user => js "user:__other__" | node => js "node:__other__" | token => js "token:__other__"
  | group => js "group:__other__" | model => js "model:__other__" | channel => js "channel:__other__"
  end.

Definition DEFAULT_OTHER_FLOW_NODE_LABELS (k : FlowNodeKind) : jsstr :=
  match k with
  | user => js "Other users" | node => js "Other nodes" | token => js "Other tokens"
  | group => js "Other groups" | model => js "Other models" | channel => js "Other channels"
  end.

Definition SENSITIVE_FLOW_KINDS (k : FlowNodeKind) : bool := match k with model => false | _ => true end.

Definition OTHER_FLOW_NODE_ID_SET : list jsstr := map OTHER_FLOW_NODE_IDS FLOW_NODE_KINDS.

(** ** Maps with string keys, in insertion order *)

Definition strmap (A : Type) : Type := list (jsstr * A).

(** [m.get(k)] *)
Fixpoint mget {A} (k : jsstr) (m : strmap A) : option A :=
  match m with
  | [] => None
  | (k', a) :: m' => if streq k' k then Some a else mget k m'
  end.

(** [const a = m.get(k) ?? d; f(a); m.set(k, a)], [f] changing the object in place. *)
Fixpoint upsert {A} (k : jsstr) (d : A) (f : A -> A) (m : strmap A) : strmap A :=
  match m with
  | [] => [(k, f d)]
  | (k', a) :: m' => if streq k' k then (k', f a) :: m' else (k', a) :: upsert k d f m'
  end.

(** [a || b || ...] on the results of comparisons. *)
Fixpoint chain (l : list Z) : Z :=
  match l with [] => 0 | [z] => z | z :: l' => if z =? 0 then chain l' else z end.

(** ** Rows *)

(** [numberValue] of an optional number. *)
Definition numberValue (v : option Z) : Z := default 0 v.

Definition rowMetrics (row : FlowQuotaDataItem) : FlowMetrics :=
  mkMetrics (numberValue row.(quota)) (numberValue row.(token_used)) (numberValue row.(count)).

Definition metricValue (metrics : FlowMetrics) (metric : FlowMetric) : Z :=
  match metric with
  | requests_metric => metrics.(m_requests)
  | tokens_metric => metrics.(m_tokens)
  | quota_metric => metrics.(m_quota)
  end.

(** [s || d] on an optional string. *)
Definition text_or (s : option jsstr) (d : jsstr) : jsstr := or_str (default [] s) d.

Definition userNode (row : FlowQuotaDataItem) : FlowPathNode :=
  let userID := numberValue row.(user_id) in
  mkPathNode
    (js "user:" ++ (if userID >? 0 then dec userID else text_or row.(username) (js "unknown")))
    (text_or row.(username) (if userID >? 0 then js "user-" ++ dec userID else js "Unknown User"))
    user.

Definition nodeNameNode (row : FlowQuotaDataItem) : FlowPathNode :=
  let nodeName := text_or row.(node_name) (js "default-node") in
  mkPathNode (js "node:" ++ nodeName) nodeName node.

(** [ctx.deletedTokenLabel], when the caller gives one. *)
Definition FlowPathContext : Type := option (Z -> jsstr).

Definition deletedTokenLabel (tokenID : Z) (ctx : FlowPathContext) : jsstr :=
  if tokenID <=? 0 then js "Unknown Token"
  else match ctx with Some f => f tokenID | None => js "token-" ++ dec tokenID end.

Definition tokenNode (row : FlowQuotaDataItem) (ctx : FlowPathContext) : FlowPathNode :=
  let tokenID := numberValue row.(token_id) in
  mkPathNode
    (js "token:" ++ (if tokenID >? 0 then dec tokenID else text_or row.(token_name) (js "unknown")))
    (text_or row.(token_name) (deletedTokenLabel tokenID ctx))
    token.

Definition groupNode (row : FlowQuotaDataItem) : FlowPathNode :=
  let useGroup := text_or row.(use_group) (js "unknown") in
  mkPathNode (js "group:" ++ useGroup) useGroup group.

Definition modelNode (row : FlowQuotaDataItem) : FlowPathNode :=
  mkPathNode (js "model:" ++ text_or row.(model_name) (js "unknown"))
    (text_or row.(model_name) (js "Unknown Model")) model.

Definition channelNode (row : FlowQuotaDataItem) : FlowPathNode :=
  let channelID := numberValue row.(channel_id) in
  mkPathNode
    (js "channel:" ++ (if channelID >? 0 then dec channelID else text_or row.(channel_name) (js "unknown")))
    (text_or row.(channel_name) (if channelID >? 0 then js "channel-" ++ dec channelID else js "Unknown"))
    channel.

Definition NODE_BUILDERS (k : FlowNodeKind) (row : FlowQuotaDataItem) (ctx : FlowPathContext) : FlowPathNode :=
  match k with
  | user => userNode row
  | node => nodeNameNode row
  | token => tokenNode row ctx
  | group => groupNode row
  | model => modelNode row
  | channel => channelNode row
  end.

(** ** Stages *)

Definition ROLE_FLOW_STAGES (role : FlowRole) : list FlowNodeKind :=
  match role with
  | role_root => [user; node; token; group; model; channel]
  | role_admin => [user; group; model; channel]
  | role_user => [token; group; model]
  end.

Definition MIN_FLOW_STAGES : nat := 2.

Definition getFlowStages (role : FlowRole) : list FlowNodeKind := ROLE_FLOW_STAGES role.

Definition resolveVisibleStages (role : FlowRole) (visibleStages : option (list FlowNodeKind)) : list FlowNodeKind :=
  let stages := getFlowStages role in
  match visibleStages with
  | None => stages
  | Some visible =>
      let filtered := List.filter (fun stage => bool_decide (stage ∈ visible)) stages in
      if (MIN_FLOW_STAGES <=? length filtered)%nat then filtered else stages
  end.

Definition flowPathForStages (row : FlowQuotaDataItem) (stages : list FlowNodeKind) (ctx : FlowPathContext)
    : list FlowPathNode :=
  map (fun stage => NODE_BUILDERS stage row ctx) stages.

(** ** Filters *)

Definition filterRows (rows : list FlowQuotaDataItem) (selectedUsers : list jsstr) : list FlowQuotaDataItem :=
  match selectedUsers with
  | [] => rows
  | _ => List.filter (fun row => bool_decide ((userNode row).(p_id) ∈ selectedUsers)) rows
  end.

(** A map from kinds to sets of identifiers, in insertion order. *)
Definition kindmap : Type := list (FlowNodeKind * list jsstr).

Fixpoint kget {A} (k : FlowNodeKind) (m : list (FlowNodeKind * A)) : option A :=
  match m with
  | [] => None
  | (k', a) :: m' => if bool_decide (k' = k) then Some a else kget k m'
  end.

(** [const ids = m.get(k) ?? new Set(); ids.add(i); m.set(k, ids)] *)
Fixpoint kadd (k : FlowNodeKind) (i : jsstr) (m : kindmap) : kindmap :=
  match m with
  | [] => [(k, [i])]
  | (k', ids) :: m' => if bool_decide (k' = k) then (k', if bool_decide (i ∈ ids) then ids else ids ++ [i]) :: m'
                       else (k', ids) :: kadd k i m'
  end.

Definition normalizeSelectedNodeFilters (selectedNodes : option (list FlowNodeFilter)) (stages : list FlowNodeKind) : kindmap :=
  fold_left (fun filters filter =>
    if bool_decide (filter.(f_kind) ∈ stages) then kadd filter.(f_kind) filter.(f_id) filters else filters)
    (default [] selectedNodes) [].

Definition pathMatchesNodeFilters (path : list FlowPathNode) (filters : kindmap) : bool :=
  match filters with
  | [] => true
  | _ =>
      let pathNodesByKind := fold_left (fun m node => kadd node.(p_kind) node.(p_id) m) path [] in
      forallb (fun e => match kget e.1 pathNodesByKind with
                        | None => false
                        | Some pathIds => existsb (fun i => bool_decide (i ∈ pathIds)) e.2
                        end) filters
  end.

Definition filterRowsByNodes (rows : list FlowQuotaDataItem) (selectedNodes : option (list FlowNodeFilter))
    (stages : list FlowNodeKind) (ctx : FlowPathContext) : list FlowQuotaDataItem :=
  match normalizeSelectedNodeFilters selectedNodes stages with
  | [] => rows
  | filters => List.filter (fun row => pathMatchesNodeFilters (flowPathForStages row stages ctx) filters) rows
  end.

Definition selectedNodeFiltersExceptKind (selectedNodes : option (list FlowNodeFilter)) (kind : FlowNodeKind)
    : option (list FlowNodeFilter) :=
  match List.filter (fun f => negb (bool_decide (f.(f_kind) = kind))) (default [] selectedNodes) with
  | [] => None
  | filtered => Some filtered
  end.

Definition nodeFilterKey (filter : FlowNodeFilter) : jsstr := kind_name filter.(f_kind) ++ [0] ++ filter.(f_id).

(** ** Totals *)

Definition add_to_node (metrics : FlowMetrics) (metric : FlowMetric) (n : DashboardFlowNode) : DashboardFlowNode :=
  mkNode n.(n_id) n.(n_label) n.(n_kind) (n.(n_value) + metricValue metrics metric)
    (n.(n_requests) + metrics.(m_requests)) (n.(n_quota) + metrics.(m_quota)) (n.(n_tokens) + metrics.(m_tokens))
    n.(n_color) n.(n_colorKey) n.(n_highlighted) n.(n_dimmed).

Definition addNode (map : strmap DashboardFlowNode) (pathNode : FlowPathNode) (metrics : FlowMetrics)
    (metric : FlowMetric) (color colorKey : jsstr) : strmap DashboardFlowNode :=
  upsert pathNode.(p_id)
    (mkNode pathNode.(p_id) pathNode.(p_label) pathNode.(p_kind) 0 0 0 0 color colorKey None None)
    (add_to_node metrics metric) map.

Definition add_to_link (metrics : FlowMetrics) (metric : FlowMetric) (l : DashboardFlowLink) : DashboardFlowLink :=
  mkLink l.(l_source) l.(l_target) (l.(l_value) + metricValue metrics metric)
    (l.(l_requests) + metrics.(m_requests)) (l.(l_quota) + metrics.(m_quota)) (l.(l_tokens) + metrics.(m_tokens))
    l.(l_sourceLabel) l.(l_targetLabel) l.(l_color) l.(l_linkColor) l.(l_linkAlpha) l.(l_hoverColor) l.(l_colorKey)
    l.(l_share) l.(l_highlighted) l.(l_dimmed).

Definition pathLinkKey (source target : FlowPathNode) : jsstr := source.(p_id) ++ [0] ++ target.(p_id).
Definition linkStableKey (l : DashboardFlowLink) : jsstr := l.(l_source) ++ [0] ++ l.(l_target).

Definition addLink (map : strmap DashboardFlowLink) (source target : FlowPathNode) (metrics : FlowMetrics)
    (metric : FlowMetric) (color colorKey : jsstr) : strmap DashboardFlowLink :=
  upsert (source.(p_id) ++ [0] ++ target.(p_id))
    (mkLink source.(p_id) target.(p_id) 0 0 0 0 source.(p_label) target.(p_label) color color (num_of_Z 1) color
       colorKey (num_of_Z 0) None None)
    (add_to_link metrics metric) map.

Record FlowSummary := mkSummary { s_quota : Z; s_tokens : Z; s_requests : Z }.

Definition buildSummary (rows : list FlowQuotaDataItem) : FlowSummary :=
  fold_left (fun summary row =>
    let metrics := rowMetrics row in
    mkSummary (summary.(s_quota) + metrics.(m_quota)) (summary.(s_tokens) + metrics.(m_tokens))
      (summary.(s_requests) + metrics.(m_requests))) rows (mkSummary 0 0 0).
(** ** The top-N limit *)

(** [Math.floor(x)], when finite. *)
Definition floor_finite (x : num) : option Z :=
  match x with
  | S754_zero _ => Some 0
  | S754_finite s m e =>
      let z := if s then Zneg m else Zpos m in
      Some (if 0 <=? e then z * 2 ^ e else z / 2 ^ (- e))
  | _ => None
  end.

Definition normalizeTopNodeLimit (limit : option num) : option Z :=
  match limit with
  | None => None
  | Some x => match floor_finite x with
              | Some parsed => if parsed >? 0 then Some parsed else None
              | None => None
              end
  end.

Definition otherFlowNode (kind : FlowNodeKind) (labeler : option (FlowNodeKind -> jsstr)) : FlowPathNode :=
  mkPathNode (OTHER_FLOW_NODE_IDS kind)
    (match labeler with Some f => f kind | None => DEFAULT_OTHER_FLOW_NODE_LABELS kind end) kind.

(** [totals.get(kind)] changed in place, when there is one. *)
Definition kalter {A} (k : FlowNodeKind) (f : A -> A) (m : list (FlowNodeKind * A)) : list (FlowNodeKind * A) :=
  map (fun e => if bool_decide (e.1 = k) then (e.1, f e.2) else e) m.

Definition add_rank (value : Z) (r : FlowNodeRank) : FlowNodeRank := mkRank r.(r_node) (r.(r_value) + value).

Definition isTopFlowNode (node : FlowPathNode) (topNodeSets : option kindmap) : bool :=
  match topNodeSets with
  | None => true
  | Some sets => match kget node.(p_kind) sets with None => true | Some ids => bool_decide (node.(p_id) ∈ ids) end
  end.

Definition applyTopNodeLimit (path : list FlowPathNode) (topNodeSets : option kindmap) (mode : FlowOverflowMode)
    (labeler : option (FlowNodeKind -> jsstr)) : option (list FlowPathNode) :=
  match topNodeSets with
  | None => Some path
  | Some _ =>
      if negb (existsb (fun node => negb (isTopFlowNode node topNodeSets)) path) then Some path
      else match mode with
           | hide => None
           | aggregate =>
               Some (map (fun node => if isTopFlowNode node topNodeSets then node
                                      else otherFlowNode node.(p_kind) labeler) path)
           end
  end.

(** ** Highlights *)

(** Consecutive pairs. *)
Fixpoint steps {A} (l : list A) : list (A * A) :=
  match l with
  | a :: (b :: _) as l' => (a, b) :: steps l'
  | _ => []
  end.

Definition pathContainsFlowNode (path : list FlowPathNode) (filter : FlowNodeFilter) : bool :=
  existsb (fun node => bool_decide (node.(p_kind) = filter.(f_kind)) && streq node.(p_id) filter.(f_id)) path.

Definition pathContainsFlowLink (path : list FlowPathNode) (link : FlowLinkSelection) : bool :=
  existsb (fun e => streq e.1.(p_id) link.(sel_source) && streq e.2.(p_id) link.(sel_target)) (steps path).

Record FlowHighlightSets := mkSets { hs_nodes : list jsstr; hs_links : list jsstr }.

Definition buildFlowHighlightSets (preparedPaths : list PreparedFlowPath) (activeNode : option FlowNodeFilter)
    (activeLink : option FlowLinkSelection) (stages : list FlowNodeKind) : option FlowHighlightSets :=
  let nodeActive := match activeNode with Some f => bool_decide (f.(f_kind) ∈ stages) | None => false end in
  match activeLink with
  | None => if nodeActive then Some tt else None
  | Some _ => Some tt
  end ≫= fun _ =>
  let matchesPath path :=
    match activeLink with
    | Some link => pathContainsFlowLink path link
    | None => match activeNode with Some f => pathContainsFlowNode path f | None => false end
    end in
  let matching := List.filter (fun prepared => matchesPath prepared.(pp_path)) preparedPaths in
  let highlightedNodes := flat_map (fun prepared => map p_id prepared.(pp_path)) matching in
  let highlightedLinks :=
    flat_map (fun prepared => map (fun e => pathLinkKey e.1 e.2) (steps prepared.(pp_path))) matching in
  match highlightedNodes with
  | [] => None
  | _ => Some (mkSets (dedup highlightedNodes) (dedup highlightedLinks))
  end.

Definition highlight_node (sets : FlowHighlightSets) (n : DashboardFlowNode) : DashboardFlowNode :=
  let highlighted := bool_decide (n.(n_id) ∈ sets.(hs_nodes)) in
  mkNode n.(n_id) n.(n_label) n.(n_kind) n.(n_value) n.(n_requests) n.(n_quota) n.(n_tokens) n.(n_color)
    n.(n_colorKey) (Some highlighted) (Some (negb highlighted)).

Definition highlight_link (sets : FlowHighlightSets) (l : DashboardFlowLink) : DashboardFlowLink :=
  let highlighted := bool_decide (linkStableKey l ∈ sets.(hs_links)) in
  mkLink l.(l_source) l.(l_target) l.(l_value) l.(l_requests) l.(l_quota) l.(l_tokens) l.(l_sourceLabel)
    l.(l_targetLabel) l.(l_color) l.(l_linkColor) l.(l_linkAlpha) l.(l_hoverColor) l.(l_colorKey) l.(l_share)
    (Some highlighted) (Some (negb highlighted)).

(** The values of the two maps, changed in place. *)
Definition applyFlowHighlights (nodes : list DashboardFlowNode) (links : list DashboardFlowLink)
    (highlightSets : option FlowHighlightSets) : list DashboardFlowNode * list DashboardFlowLink :=
  match highlightSets with
  | None => (nodes, links)
  | Some sets => (map (highlight_node sets) nodes, map (highlight_link sets) links)
  end.

(** ** Masks *)

Definition FLOW_MASK_TEXT : jsstr := [8226; 8226; 8226; 8226].

Definition maskFlowLabel (label : jsstr) : jsstr := match label with [] => label | _ => FLOW_MASK_TEXT end.

Definition masked_node (n : DashboardFlowNode) : bool :=
  SENSITIVE_FLOW_KINDS n.(n_kind) && negb (bool_decide (n.(n_id) ∈ OTHER_FLOW_NODE_ID_SET)).

Definition mask_node (n : DashboardFlowNode) : DashboardFlowNode :=
  if masked_node n then
    mkNode n.(n_id) (maskFlowLabel n.(n_label)) n.(n_kind) n.(n_value) n.(n_requests) n.(n_quota) n.(n_tokens)
      n.(n_color) n.(n_colorKey) n.(n_highlighted) n.(n_dimmed)
  else n.

Definition mask_link (maskedById : strmap jsstr) (l : DashboardFlowLink) : DashboardFlowLink :=
  mkLink l.(l_source) l.(l_target) l.(l_value) l.(l_requests) l.(l_quota) l.(l_tokens)
    (default l.(l_sourceLabel) (mget l.(l_source) maskedById)) (default l.(l_targetLabel) (mget l.(l_target) maskedById))
    l.(l_color) l.(l_linkColor) l.(l_linkAlpha) l.(l_hoverColor) l.(l_colorKey) l.(l_share) l.(l_highlighted) l.(l_dimmed).

Definition maskFlowGraphLabels (nodes : list DashboardFlowNode) (links : list DashboardFlowLink)
    : list DashboardFlowNode * list DashboardFlowLink :=
  let maskedById :=
    fold_left (fun m n => if masked_node n then upsert n.(n_id) [] (fun _ => maskFlowLabel n.(n_label)) m else m) nodes [] in
  (map mask_node nodes, match maskedById with [] => links | _ => map (mask_link maskedById) links end).

(** ** Colours *)

Definition is_hex (c : Z) : bool := is_digit c || ((97 <=? c) && (c <=? 102)) || ((65 <=? c) && (c <=? 70)).
Definition hex_digit (c : Z) : Z := if is_digit c then c - 48 else if 97 <=? c then c - 87 else c - 55.

(** [Number.parseInt(hex, 16)] of hexadecimal digits. *)
Definition hex_value (s : jsstr) : Z := fold_left (fun acc c => 16 * acc + hex_digit c) s 0.

Definition alphaColor (color : jsstr) (alpha : num) : jsstr * num :=
  let normalized := trim color in
  let hex := match normalized with 35 :: rest => rest | _ => normalized end in
  if (length hex =? 6)%nat && forallb is_hex hex then
    let value := hex_value hex in
    let red := Z.land (Z.shiftr value 16) 255 in
    let green := Z.land (Z.shiftr value 8) 255 in
    let blue := Z.land value 255 in
    (js "rgba(" ++ dec red ++ js ", " ++ dec green ++ js ", " ++ dec blue ++ js ", " ++ toFixed 2 alpha ++ js ")", num_of_Z 1)
  else (normalized, alpha).

Section Graph.
(** [a.localeCompare(b)] and the palette of the chart library. *)
Context (localeCompare : jsstr -> jsstr -> Z) (chart_colors : Z -> list jsstr).

Definition DEFAULT_FLOW_CHART_COLOR : jsstr := js "#1664FF".

Definition colorPalette (colorCount : Z) (palette : option (list jsstr)) : list jsstr :=
  match palette with
  | Some (c :: cs) => c :: cs
  | _ => match chart_colors colorCount with [] => [DEFAULT_FLOW_CHART_COLOR] | colors => colors end
  end.

Definition colorAt (index : nat) (palette : option (list jsstr)) : jsstr :=
  let colors := match palette with Some (c :: cs) => c :: cs | _ => chart_colors (Z.of_nat index + 1) end in
  match colors with
  | [] => DEFAULT_FLOW_CHART_COLOR
  | _ => default DEFAULT_FLOW_CHART_COLOR (colors !! (index mod length colors)%nat)
  end.

Definition stableColorMap (keys : list jsstr) (palette : option (list jsstr)) : strmap jsstr :=
  let uniqueKeys := dedup keys in
  let colors := colorPalette (Z.of_nat (length uniqueKeys)) palette in
  imap (fun index key => (key, colorAt index (Some colors))) uniqueKeys.

(** [l.sort((a, b) => a.localeCompare(b))] *)
Definition sort_strings : list jsstr -> list jsstr := isort (fun a b => localeCompare a b <=? 0).

Definition buildTopNodeSets (rows : list FlowQuotaDataItem) (metric : FlowMetric) (stages : list FlowNodeKind)
    (limit : option Z) (ctx : FlowPathContext) : option kindmap :=
  match limit with
  | None => None
  | Some limit =>
      let totals := fold_left (fun totals row =>
        let value := metricValue (rowMetrics row) metric in
        fold_left (fun totals node =>
          kalter node.(p_kind) (upsert node.(p_id) (mkRank node 0) (add_rank value)) totals)
          (flowPathForStages row stages ctx) totals) rows (map (fun stage => (stage, [])) stages) in
      Some (map (fun e : FlowNodeKind * strmap FlowNodeRank =>
        (e.1, map (fun rank => rank.(r_node).(p_id))
                (take (Z.to_nat limit)
                  (isort (fun a b => chain [b.(r_value) - a.(r_value);
                                            localeCompare a.(r_node).(p_label) b.(r_node).(p_label);
                                            localeCompare a.(r_node).(p_id) b.(r_node).(p_id)] <=? 0)
                     (map snd e.2))))) totals)
  end.

(** [0.24 + (index / denominator) * 0.2], or 0.34 for a single link. *)
Definition link_alpha (total index : nat) : num :=
  if (total =? 1)%nat then num_of_decimal 34 2
  else nadd (num_of_decimal 24 2)
         (nmul (ndiv (num_of_Z (Z.of_nat index)) (num_of_Z (Z.max (Z.of_nat total - 1) 1))) (num_of_decimal 2 1)).

Definition set_link_color (c : jsstr * num) (l : DashboardFlowLink) : DashboardFlowLink :=
  mkLink l.(l_source) l.(l_target) l.(l_value) l.(l_requests) l.(l_quota) l.(l_tokens) l.(l_sourceLabel)
    l.(l_targetLabel) l.(l_color) c.1 c.2 l.(l_color) l.(l_colorKey) l.(l_share) l.(l_highlighted) l.(l_dimmed).

(** The rank of a link among those of its source: the links of the source are sorted by
    decreasing value and by key, and a link is found by its key, which is its own. *)
Definition assignLinkDisplayColors (links : list DashboardFlowLink) : list DashboardFlowLink :=
  map (fun link =>
    let sourceLinks := List.filter (fun l => streq l.(l_source) link.(l_source)) links in
    let sortedLinks := isort (fun a b => chain [b.(l_value) - a.(l_value);
                                               localeCompare (linkStableKey a) (linkStableKey b)] <=? 0) sourceLinks in
    match list_find (fun l => linkStableKey l = linkStableKey link) sortedLinks with
    | Some (index, _) => set_link_color (alphaColor link.(l_color) (link_alpha (length sortedLinks) index)) link
    | None => link
    end) links.

Definition set_share (total : Z) (l : DashboardFlowLink) : DashboardFlowLink :=
  mkLink l.(l_source) l.(l_target) l.(l_value) l.(l_requests) l.(l_quota) l.(l_tokens) l.(l_sourceLabel)
    l.(l_targetLabel) l.(l_color) l.(l_linkColor) l.(l_linkAlpha) l.(l_hoverColor) l.(l_colorKey)
    (if total >? 0 then ndiv (num_of_Z l.(l_value)) (num_of_Z total) else num_of_Z 0) l.(l_highlighted) l.(l_dimmed).

Record FlowGraphOptions := mkGraphOptions {
  topNodeLimit : option num;
  overflowMode : option FlowOverflowMode;
  otherNodeLabel : option (FlowNodeKind -> jsstr);
  activeNode : option FlowNodeFilter;
  activeLink : option FlowLinkSelection;
  maskSensitive : bool
}.

(** The paths that are drawn. *)
Definition prepared_paths (rows : list FlowQuotaDataItem) (metric : FlowMetric) (stages : list FlowNodeKind)
    (ctx : FlowPathContext) (options : FlowGraphOptions) : list PreparedFlowPath :=
  let topNodeSets := buildTopNodeSets rows metric stages (normalizeTopNodeLimit options.(topNodeLimit)) ctx in
  omap (fun row =>
    path ← applyTopNodeLimit (flowPathForStages row stages ctx) topNodeSets
             (default aggregate options.(overflowMode)) options.(otherNodeLabel);
    Some (mkPrepared path (rowMetrics row))) rows.

(** [preparedPaths.map((prepared) => prepared.path[0]?.id).filter(Boolean)] *)
Definition root_ids (preparedPaths : list PreparedFlowPath) : list jsstr :=
  omap (fun prepared => match prepared.(pp_path) with
                        | root :: _ => if truthy_str root.(p_id) then Some root.(p_id) else None
                        | [] => None
                        end) preparedPaths.

(** One prepared path added to the two maps. *)
Definition add_path (metric : FlowMetric) (colors : strmap jsstr) (palette : option (list jsstr))
    (maps : strmap DashboardFlowNode * strmap DashboardFlowLink) (prepared : PreparedFlowPath)
    : strmap DashboardFlowNode * strmap DashboardFlowLink :=
  let metrics := prepared.(pp_metrics) in
  match prepared.(pp_path) with
  | [] => maps
  | root :: _ =>
      let color := default (colorAt 0 palette) (mget root.(p_id) colors) in
      (fold_left (fun m node => addNode m node metrics metric color root.(p_id)) prepared.(pp_path) maps.1,
       fold_left (fun m e => addLink m e.1 e.2 metrics metric color root.(p_id)) (steps prepared.(pp_path)) maps.2)
  end.

Definition byValueThenLabel (a b : DashboardFlowNode) : bool :=
  chain [b.(n_value) - a.(n_value); localeCompare a.(n_label) b.(n_label)] <=? 0.

Definition buildFlowGraph (rows : list FlowQuotaDataItem) (metric : FlowMetric) (role : FlowRole)
    (palette : option (list jsstr)) (visibleStages : option (list FlowNodeKind)) (ctx : FlowPathContext)
    (options : FlowGraphOptions) : DashboardFlowGraph :=
  let stages := resolveVisibleStages role visibleStages in
  let preparedPaths := prepared_paths rows metric stages ctx options in
  let colors := stableColorMap (sort_strings (root_ids preparedPaths)) palette in
  let maps := fold_left (add_path metric colors palette) preparedPaths ([], []) in
  let '(nodes, links) := (map snd maps.1, map snd maps.2) in
  let '(nodes, links) := if options.(maskSensitive) then maskFlowGraphLabels nodes links else (nodes, links) in
  let '(nodes, links) :=
    applyFlowHighlights nodes links
      (buildFlowHighlightSets preparedPaths options.(activeNode) options.(activeLink) stages) in
  let flowLinks := isort (fun a b => chain [localeCompare a.(l_source) b.(l_source);
                                            localeCompare a.(l_target) b.(l_target)] <=? 0) links in
  let firstStepSources := root_ids preparedPaths in
  let total := fold_left (fun sum l => sum + l.(l_value))
                 (List.filter (fun l => bool_decide (l.(l_source) ∈ firstStepSources)) flowLinks) 0 in
  mkGraph (isort byValueThenLabel nodes) (assignLinkDisplayColors (map (set_share total) flowLinks)).
(** ** Filter options *)

Record FlowUserFilterOption := mkUserOption {
  uo_value : jsstr; uo_label : jsstr; uo_valueLabel : jsstr; uo_valueRaw : Z; uo_color : jsstr
}.
Record FlowNodeFilterOption := mkNodeOption {
  no_kind : FlowNodeKind; no_value : jsstr; no_label : jsstr; no_valueLabel : jsstr; no_valueRaw : Z; no_color : jsstr
}.
Record FlowFilterOptions := mkFilterOptions { fo_users : list FlowUserFilterOption; fo_nodes : list FlowNodeFilterOption }.
Record UserTotal := mkUserTotal { ut_label : jsstr; ut_value : Z; ut_color : jsstr }.

(** [Intl.NumberFormat(undefined, { maximumFractionDigits: 0 }).format(value)] *)
Context (formatNumber : Z -> jsstr).

(** [!row.user_id && !row.username] *)
Definition anonymous (row : FlowQuotaDataItem) : bool :=
  (numberValue row.(user_id) =? 0) && negb (truthy_str (default [] row.(username))).

Definition buildUserFilterOptions (rows : list FlowQuotaDataItem) (metric : FlowMetric) (palette : option (list jsstr))
    : list FlowUserFilterOption :=
  let colors := stableColorMap (sort_strings (map (fun row => (userNode row).(p_id)) rows)) palette in
  let users := fold_left (fun users row =>
    let user := userNode row in
    if anonymous row then users
    else
      let value := metricValue (rowMetrics row) metric in
      upsert user.(p_id) (mkUserTotal user.(p_label) 0 (default (colorAt 0 palette) (mget user.(p_id) colors)))
        (fun u => mkUserTotal u.(ut_label) (u.(ut_value) + value) u.(ut_color)) users) rows [] in
  isort (fun a b => chain [b.(uo_valueRaw) - a.(uo_valueRaw); localeCompare a.(uo_label) b.(uo_label)] <=? 0)
    (map (fun e => mkUserOption e.1 e.2.(ut_label) (formatNumber e.2.(ut_value)) e.2.(ut_value) e.2.(ut_color)) users).

(** [stageOrder.get(kind) ?? 0] *)
Definition stage_order (stages : list FlowNodeKind) (kind : FlowNodeKind) : Z :=
  match list_find (fun k => k = kind) stages with Some (i, _) => Z.of_nat i | None => 0 end.

(** The totals of one stage over the rows the other filters keep. *)
Definition stage_totals (rows : list FlowQuotaDataItem) (metric : FlowMetric) (stages : list FlowNodeKind)
    (ctx : FlowPathContext) (selectedNodes : option (list FlowNodeFilter)) (stage : FlowNodeKind) : strmap FlowNodeRank :=
  let candidateRows := filterRowsByNodes rows (selectedNodeFiltersExceptKind selectedNodes stage) stages ctx in
  fold_left (fun totals row =>
    let value := metricValue (rowMetrics row) metric in
    let node := NODE_BUILDERS stage row ctx in
    upsert (nodeFilterKey (mkFilter node.(p_kind) node.(p_id))) (mkRank node 0) (add_rank value) totals)
    candidateRows [].

Definition buildNodeFilterOptions (rows : list FlowQuotaDataItem) (metric : FlowMetric) (role : FlowRole)
    (visibleStages : option (list FlowNodeKind)) (palette : option (list jsstr)) (ctx : FlowPathContext)
    (selectedNodes : option (list FlowNodeFilter)) : list FlowNodeFilterOption :=
  let stages := resolveVisibleStages role visibleStages in
  let colorIds := dedup (flat_map (fun row => map p_id (flowPathForStages row stages ctx)) rows) in
  let colors := stableColorMap (sort_strings colorIds) palette in
  let options := flat_map (fun stage =>
    map (fun e => let rank := e.2 in
      mkNodeOption rank.(r_node).(p_kind) rank.(r_node).(p_id) rank.(r_node).(p_label) (formatNumber rank.(r_value))
        rank.(r_value) (default (colorAt 0 palette) (mget rank.(r_node).(p_id) colors)))
      (stage_totals rows metric stages ctx selectedNodes stage)) stages in
  isort (fun a b => chain [stage_order stages a.(no_kind) - stage_order stages b.(no_kind);
                           b.(no_valueRaw) - a.(no_valueRaw); localeCompare a.(no_label) b.(no_label);
                           localeCompare a.(no_value) b.(no_value)] <=? 0) options.

Definition buildFlowFilterOptions (rows : list FlowQuotaDataItem) (metric : FlowMetric) (palette : option (list jsstr))
    (role : FlowRole) (visibleStages : option (list FlowNodeKind)) (selectedNodes : option (list FlowNodeFilter))
    : FlowFilterOptions :=
  mkFilterOptions (buildUserFilterOptions rows metric palette)
    (buildNodeFilterOptions rows metric role visibleStages palette None selectedNodes).

(** ** Everything the dashboard shows *)

Record FlowBuildOptions := mkBuildOptions {
  bo_role : option FlowRole;
  bo_selectedUsers : option (list jsstr);
  bo_selectedNodes : option (list FlowNodeFilter);
  bo_colorPalette : option (list jsstr);
  bo_visibleStages : option (list FlowNodeKind);
  bo_deletedTokenLabel : option (Z -> jsstr);
  bo_graph : FlowGraphOptions
}.

Record ProcessedFlowData := mkProcessed { pf_summary : FlowSummary; pf_flow : DashboardFlowGraph; pf_filterOptions : FlowFilterOptions }.

(** The rows that the graph and the summary are built from. *)
Definition filtered_rows (rows : list FlowQuotaDataItem) (options : FlowBuildOptions) : list FlowQuotaDataItem :=
  let stages := resolveVisibleStages (default role_user options.(bo_role)) options.(bo_visibleStages) in
  filterRowsByNodes (filterRows rows (default [] options.(bo_selectedUsers))) options.(bo_selectedNodes) stages
    options.(bo_deletedTokenLabel).

Definition buildDashboardFlowData (rows : list FlowQuotaDataItem) (metric : FlowMetric) (options : FlowBuildOptions)
    : ProcessedFlowData :=
  let role := default role_user options.(bo_role) in
  let palette := options.(bo_colorPalette) in
  let ctx := options.(bo_deletedTokenLabel) in
  let userFilteredRows := filterRows rows (default [] options.(bo_selectedUsers)) in
  let filteredRows := filtered_rows rows options in
  mkProcessed (buildSummary filteredRows)
    (buildFlowGraph filteredRows metric role palette options.(bo_visibleStages) ctx options.(bo_graph))
    (mkFilterOptions (buildUserFilterOptions rows metric palette)
       (buildNodeFilterOptions userFilteredRows metric role options.(bo_visibleStages) palette ctx
          options.(bo_selectedNodes))).

(** ** The data of the chart *)

Definition flag (b : option bool) : Z := match b with Some true => 1 | _ => 0 end.

(** [byLinkDrawPriority(a, b) <= 0]; without highlights the flags are [undefined], whose
    differences are not numbers and count as no difference. *)
Definition byLinkDrawPriority (a b : DashboardFlowLink) : bool :=
  let flag_diff (x y : option bool) := match x, y with Some _, Some _ => flag x - flag y | _, _ => 0 end in
  chain [flag_diff a.(l_dimmed) b.(l_dimmed); flag_diff b.(l_highlighted) a.(l_highlighted);
         b.(l_value) - a.(l_value); localeCompare (linkStableKey a) (linkStableKey b)] <=? 0.

(** [highlighted] and [dimmed] are shown with the drawing order. *)
Definition z_index (index : Z) (link : DashboardFlowLink) : Z :=
  if flag link.(l_highlighted) =? 1 then 1000000 + index
  else if flag link.(l_dimmed) =? 1 then index else 100000 + index.

(** The links that are drawn, with their keys and drawing order. *)
Definition sankey_links (flow : DashboardFlowGraph) : list (DashboardFlowLink * jsstr * Z) :=
  imap (fun index link => (link, linkStableKey link, z_index (Z.of_nat index) link))
    (isort byLinkDrawPriority (List.filter (fun link => link.(l_value) >? 0) flow.(g_links))).

End Graph.

(** ** Reading the datum of a mark *)

(** [numberValue] of any value; [None] when the conversion raises. *)
Definition number_of (v : val) : option num :=
  n ← to_number v; Some (if is_finite n then n else num_of_Z 0).

Definition recordValue (value : val) : option val := if truthy value && typeof_object value then Some value else None.

(** [l[x]] for a number [x]. *)
Definition at_num (l : list val) (x : num) : val :=
  match floor_finite x with
  | Some i => if is_integer x && (0 <=? i) then default VUndef (l !! Z.to_nat i) else VUndef
  | None => VUndef
  end.

Definition sankeyDatumSource (datum : val) : option val :=
  match get "datum" datum with
  | VArr nested =>
      depth ← number_of (get "depth" datum);
      Some (default (default datum (recordValue (default VUndef (nested !! 0%nat)))) (recordValue (at_num nested depth)))
  | nested => Some (default datum (recordValue nested))
  end.

Definition sankeyDatumValue (datum : val) (key : string) : option val :=
  match get key datum with
  | VUndef => source ← sankeyDatumSource datum; Some (get key source)
  | v => Some v
  end.

Definition flowSankeyDatumValue (datum : val) (key : string) : option val :=
  match recordValue datum with Some record => sankeyDatumValue record key | None => Some VUndef end.

Definition isSankeyLinkDatum (datum : val) : option bool :=
  source ← sankeyDatumValue datum "source";
  if negb (defined source) then Some false
  else target ← sankeyDatumValue datum "target"; Some (defined target).

Definition isFlowNodeKind (value : val) : option FlowNodeKind :=
  match value with
  | VStr s => List.find (fun k => streq (kind_name k) s) FLOW_NODE_KINDS
  | _ => None
  end.

(** The outer [None] when a conversion raises. *)
Definition flowNodeFilterFromSankeyDatum (datum : val) : option (option FlowNodeFilter) :=
  match recordValue datum with
  | None => Some None
  | Some record =>
      is_link ← isSankeyLinkDatum record;
      if is_link : bool then Some None
      else
        id ← flowSankeyDatumValue record "key";
        kind ← flowSankeyDatumValue record "kind";
        Some (match isFlowNodeKind kind, id with
              | Some k, VStr s => Some (mkFilter k s)
              | Some k, VNum x => Some (mkFilter k (num_text x))
              | _, _ => None
              end)
  end.
End Flow.
