(* ===== verification/FlowLaws.v ===== *)
(** Laws of the flow diagram: what enters a node leaves it, every stage carries the
    totals of the summary, the top-N limit bounds the columns, filters and highlights
    select the paths they name, and masks hide labels and nothing else. *)

From S2P Require Import Prelude JsValue NumText JsonString Json Flow.
Import Flow.

Module FlowLaws.

(** ** Sums *)

Definition sum_by {A} (f : A -> Z) (l : list A) : Z := foldr (fun a s => f a + s) 0 l.

Lemma sum_by_cons {A} (f : A -> Z) a l : sum_by f (a :: l) = f a + sum_by f l.
Proof. done. Qed.

Lemma sum_by_app {A} (f : A -> Z) l l' : sum_by f (l ++ l') = sum_by f l + sum_by f l'.
Proof. induction l as [|a l IH]; [done|]. cbn [app]. rewrite !sum_by_cons, IH. lia. Qed.

Lemma sum_by_perm {A} (f : A -> Z) l l' : l ≡ₚ l' -> sum_by f l = sum_by f l'.
Proof. induction 1; rewrite ?sum_by_cons; lia. Qed.

Lemma sum_by_map {A B} (g : A -> B) (f : B -> Z) l : sum_by f (map g l) = sum_by (fun a => f (g a)) l.
Proof. induction l as [|a l IH]; [done|]. cbn [map]. by rewrite !sum_by_cons, IH. Qed.

Lemma sum_by_ext {A} (f g : A -> Z) l : (forall a, a ∈ l -> f a = g a) -> sum_by f l = sum_by g l.
Proof.
  induction l as [|a l IH]; intros H; [done|]. rewrite !sum_by_cons.
  rewrite IH by (intros b Hb; apply H; by apply list_elem_of_further). by rewrite H by apply list_elem_of_here.
Qed.

Lemma sum_by_zero {A} (f : A -> Z) l : (forall a, a ∈ l -> f a = 0) -> sum_by f l = 0.
Proof.
  intros H. rewrite (sum_by_ext f (fun _ => 0)) by done. clear. induction l as [|a l IH]; [done|].
  by rewrite sum_by_cons, IH.
Qed.

Lemma sum_by_filter {A} (p : A -> bool) (f : A -> Z) l :
  sum_by f (List.filter p l) = sum_by (fun a => if p a then f a else 0) l.
Proof.
  induction l as [|a l IH]; [done|]. cbn [List.filter]. rewrite sum_by_cons. destruct (p a); rewrite ?sum_by_cons, IH; lia.
Qed.

Lemma sum_by_fold {A} (f : A -> Z) l z : fold_left (fun s a => s + f a) l z = z + sum_by f l.
Proof.
  revert z. induction l as [|a l IH]; intros z; cbn [fold_left]; [by rewrite Z.add_0_r|]. rewrite IH, sum_by_cons. lia.
Qed.

(** ** Maps in insertion order *)

Section Upsert.
Context {A : Type} (k : jsstr) (d : A) (f : A -> A).
Implicit Types (m : strmap A).

Lemma upsert_keys m :
  map fst (upsert k d f m) = if bool_decide (k ∈ map fst m) then map fst m else map fst m ++ [k].
Proof.
  induction m as [|[k' a] m IH]; cbn [upsert map fst]; [done|]. destruct (streq k' k) eqn:E.
  - apply streq_true in E as ->. cbn [map fst]. by rewrite bool_decide_true by apply list_elem_of_here.
  - apply streq_false in E. cbn [map fst]. rewrite IH. case_bool_decide as H1.
    + by rewrite bool_decide_true by (by apply list_elem_of_further).
    + by rewrite bool_decide_false by (intros [->|?]%elem_of_cons; done).
Qed.

Lemma upsert_nodup m : NoDup (map fst m) -> NoDup (map fst (upsert k d f m)).
Proof.
  intros H. rewrite upsert_keys. case_bool_decide as Hk; [done|].
  apply NoDup_app. split_and!; [done| |apply NoDup_singleton]. intros x Hx ->%list_elem_of_singleton. done.
Qed.

Lemma upsert_Forall (P : jsstr * A -> Prop) m :
  P (k, f d) -> (forall a, P (k, a) -> P (k, f a)) -> Forall P m -> Forall P (upsert k d f m).
Proof.
  intros Hd Hf H. induction H as [|[k' a] m Ha Hm IH]; cbn [upsert]; [by constructor|].
  destruct (streq k' k) eqn:E; [|by constructor]. apply streq_true in E as ->. constructor; auto.
Qed.

(** The total over the keys that satisfy a predicate. *)
Lemma upsert_sum (P : jsstr -> bool) (value : A -> Z) v m :
  value d = 0 -> (forall a, value (f a) = value a + v) ->
  sum_by (fun e => if P e.1 then value e.2 else 0) (upsert k d f m)
  = sum_by (fun e => if P e.1 then value e.2 else 0) m + (if P k then v else 0).
Proof.
  intros Hd Hf. induction m as [|[k' a] m IH]; cbn [upsert].
  - rewrite sum_by_cons. cbn [fst snd]. rewrite Hf, Hd. cbn. destruct (P k); lia.
  - destruct (streq k' k) eqn:E; rewrite !sum_by_cons; cbn [fst snd]; [|rewrite IH; lia].
    apply streq_true in E as ->. rewrite Hf. destruct (P k); lia.
Qed.
End Upsert.

(** The entry of a key is the only one. *)
Lemma sum_by_key {A} (value : A -> Z) (m : strmap A) k a :
  NoDup (map fst m) -> (k, a) ∈ m -> sum_by (fun e => if streq e.1 k then value e.2 else 0) m = value a.
Proof.
  intros Hn Hin. induction m as [|[k' b] m IH]; [by apply elem_of_nil in Hin|]. cbn [map fst] in Hn.
  apply NoDup_cons in Hn as [Hk Hn]. rewrite sum_by_cons. cbn [fst snd].
  assert (forall e, e ∈ m -> streq e.1 k = true -> k ∈ map fst m) as Hkey.
  { intros e He <-%streq_true. by apply (list_elem_of_fmap_2 fst). }
  apply elem_of_cons in Hin as [[= -> ->]|Hin].
  - rewrite streq_refl, sum_by_zero; [lia|]. intros e He. destruct (streq e.1 k') eqn:E; [|done]. exfalso. apply Hk. eauto.
  - rewrite (IH Hn Hin). destruct (streq k' k) eqn:E; [|done]. apply streq_true in E as ->.
    exfalso. apply Hk. by apply (list_elem_of_fmap_2 fst _ _ Hin).
Qed.

(** ** Fields *)

Inductive Field := f_value | f_requests | f_quota | f_tokens.

Definition node_field (fd : Field) (n : DashboardFlowNode) : Z :=
  match fd with f_value => n.(n_value) | f_requests => n.(n_requests) | f_quota => n.(n_quota) | f_tokens => n.(n_tokens) end.
Definition link_field (fd : Field) (l : DashboardFlowLink) : Z :=
  match fd with f_value => l.(l_value) | f_requests => l.(l_requests) | f_quota => l.(l_quota) | f_tokens => l.(l_tokens) end.
Definition metrics_field (metric : FlowMetric) (fd : Field) (m : FlowMetrics) : Z :=
  match fd with
  | f_value => metricValue m metric | f_requests => m.(m_requests) | f_quota => m.(m_quota) | f_tokens => m.(m_tokens)
  end.

Definition summary_field (metric : FlowMetric) (fd : Field) (s : FlowSummary) : Z :=
  match fd with
  | f_value => match metric with quota_metric => s.(s_quota) | tokens_metric => s.(s_tokens) | requests_metric => s.(s_requests) end
  | f_requests => s.(s_requests) | f_quota => s.(s_quota) | f_tokens => s.(s_tokens)
  end.

(** ** Paths *)

(** The kind that the identifier of a node names. *)
Definition kind_of_id (i : jsstr) : option FlowNodeKind :=
  List.find (fun k => starts_with (kind_name k ++ [58]) i) FLOW_NODE_KINDS.

Record path_node_ok (n : FlowPathNode) : Prop := {
  pn_kind : kind_of_id n.(p_id) = Some n.(p_kind);
  pn_nul : 0 ∉ n.(p_id)
}.

Definition path_ok (stages : list FlowNodeKind) (path : list FlowPathNode) : Prop :=
  map p_kind path = stages /\ Forall path_node_ok path.

Definition nul_free (s : option jsstr) : Prop := 0 ∉ default [] s.

(** No name has a NUL, the character that separates the ends of a link in its key. *)
Definition row_ok (row : FlowQuotaDataItem) : Prop :=
  nul_free row.(username) /\ nul_free row.(node_name) /\ nul_free row.(use_group) /\ nul_free row.(token_name)
  /\ nul_free row.(channel_name) /\ nul_free row.(model_name).

Lemma kind_of_prefix k r : kind_of_id (kind_name k ++ 58 :: r) = Some k.
Proof. by destruct k. Qed.

Lemma dec_nul n : 0 <= n -> 0 ∉ dec n.
Proof. intros Hn Hin. pose proof (dec_digits n Hn) as Hd. rewrite Forall_forall in Hd. by specialize (Hd _ Hin). Qed.

Lemma text_or_nul s d : nul_free s -> 0 ∉ d -> 0 ∉ text_or s d.
Proof. unfold nul_free, text_or, or_str. intros H1 H2. by case_match. Qed.

Lemma js_nul (s : string) : forallb (fun c => negb (c =? 0)) (js s) = true -> 0 ∉ js s.
Proof. intros H Hin. rewrite List.forallb_forall in H. apply list_elem_of_In in Hin. by specialize (H _ Hin). Qed.

Lemma builder_ok k row ctx : row_ok row -> (NODE_BUILDERS k row ctx).(p_kind) = k /\ path_node_ok (NODE_BUILDERS k row ctx).
Proof.
  intros (Hu & Hn & Hg & Ht & Hc & Hm). split; [by destruct k|].
  assert (forall pre (r : jsstr), 0 ∉ js pre -> 0 ∉ r -> 0 ∉ js pre ++ r) as Happ by (intros; by rewrite not_elem_of_app).
  assert (forall (n : Z) x, 0 ∉ x -> 0 ∉ (if n >? 0 then dec n else x)) as Hid.
  { intros n x Hx. destruct (n >? 0) eqn:E; [|done]. apply dec_nul. lia. }
  destruct k; constructor; cbn [NODE_BUILDERS userNode nodeNameNode tokenNode groupNode modelNode channelNode p_id p_kind];
    try (apply (kind_of_prefix user) || apply (kind_of_prefix node) || apply (kind_of_prefix token)
         || apply (kind_of_prefix group) || apply (kind_of_prefix model) || apply (kind_of_prefix channel));
    (apply Happ; [by apply js_nul|]); try apply Hid; (apply text_or_nul; [done|by apply js_nul]).
Qed.

Lemma row_path_ok row stages ctx : row_ok row -> path_ok stages (flowPathForStages row stages ctx).
Proof.
  intros Hr. unfold path_ok, flowPathForStages. split.
  - rewrite map_map. rewrite <- (map_id stages) at 2. apply map_ext. intros k. by apply builder_ok.
  - apply Forall_fmap, Forall_true. intros k. by apply builder_ok.
Qed.

Lemma other_ok k labeler : path_node_ok (otherFlowNode k labeler).
Proof. constructor; cbn [otherFlowNode p_id p_kind]; destruct k; first [reflexivity | by apply js_nul]. Qed.

Lemma limit_path_ok stages path sets mode labeler path' :
  path_ok stages path -> applyTopNodeLimit path sets mode labeler = Some path' -> path_ok stages path'.
Proof.
  intros [Hk Hp] H. unfold applyTopNodeLimit in H. repeat case_match; simplify_eq; try done. split.
  - rewrite map_map. apply map_ext. intros n. by case_match.
  - apply Forall_fmap. eapply Forall_impl; [exact Hp|]. intros n Hn. cbn. case_match; [done|apply other_ok].
Qed.

(** ** Steps of a path *)

Lemma steps_cons {A} (a b : A) l : steps (a :: b :: l) = (a, b) :: steps (b :: l).
Proof. done. Qed.

Lemma steps_fst {A} (l : list A) : map fst (steps l) = removelast l.
Proof. induction l as [|a [|b l] IH]; [done..|]. rewrite steps_cons. cbn [map fst]. by rewrite IH. Qed.

Lemma steps_snd {A} (l : list A) : map snd (steps l) = tl l.
Proof. induction l as [|a [|b l] IH]; [done..|]. rewrite steps_cons. cbn [map snd]. by rewrite IH. Qed.

Lemma steps_elem {A} (l : list A) e : e ∈ steps l -> e.1 ∈ l /\ e.2 ∈ l.
Proof.
  induction l as [|a [|b l] IH]; intros H; [by apply elem_of_nil in H..|]. rewrite steps_cons in H.
  apply elem_of_cons in H as [->|H].
  - split; [apply list_elem_of_here|apply list_elem_of_further, list_elem_of_here].
  - destruct (IH H) as [H1 H2]. split; by apply list_elem_of_further.
Qed.

(** ** The two maps *)

Definition link_key_source (k : jsstr) : jsstr := default [] (head (split_on 0 k)).
Definition link_key_target (k : jsstr) : jsstr := default [] (split_on 0 k !! 1%nat).

Lemma key_ends (a b : jsstr) : 0 ∉ a -> 0 ∉ b -> link_key_source (a ++ 0 :: b) = a /\ link_key_target (a ++ 0 :: b) = b.
Proof. intros Ha Hb. unfold link_key_source, link_key_target. by rewrite split_on_app, split_on_fresh. Qed.

(** What the entries of the two maps satisfy. *)
Record node_entry (e : jsstr * DashboardFlowNode) : Prop := {
  ne_key : e.2.(n_id) = e.1;
  ne_kind : kind_of_id e.1 = Some e.2.(n_kind)
}.

Record link_entry (e : jsstr * DashboardFlowLink) : Prop := {
  le_key : linkStableKey e.2 = e.1;
  le_source : 0 ∉ e.2.(l_source);
  le_target : 0 ∉ e.2.(l_target)
}.

Section Build.
Context (chart_colors : Z -> list jsstr) (metric : FlowMetric) (colors : strmap jsstr) (palette : option (list jsstr)).
Context (stages : list FlowNodeKind).

Let add := add_path chart_colors metric colors palette.

(** The totals of the entries whose key satisfies a predicate. *)
Definition node_total (fd : Field) (P : jsstr -> bool) (m : strmap DashboardFlowNode) : Z :=
  sum_by (fun e => if P e.1 then node_field fd e.2 else 0) m.
Definition link_total (fd : Field) (P : jsstr -> bool) (m : strmap DashboardFlowLink) : Z :=
  sum_by (fun e => if P e.1 then link_field fd e.2 else 0) m.

(** The total a path contributes to the nodes, and to the links, that satisfy a
    predicate. *)
Definition path_nodes_total (fd : Field) (P : jsstr -> bool) (p : PreparedFlowPath) : Z :=
  sum_by (fun n => if P n.(p_id) then metrics_field metric fd p.(pp_metrics) else 0) p.(pp_path).
Definition path_links_total (fd : Field) (P : jsstr -> bool) (p : PreparedFlowPath) : Z :=
  sum_by (fun e => if P (pathLinkKey e.1 e.2) then metrics_field metric fd p.(pp_metrics) else 0) (steps p.(pp_path)).

Lemma add_nodes_total fd P p color key m path :
  node_total fd P (fold_left (fun m n => addNode m n p metric color key) path m)
  = node_total fd P m + sum_by (fun n => if P n.(p_id) then metrics_field metric fd p else 0) path.
Proof.
  revert m. induction path as [|n path IH]; intros m; cbn [fold_left]; [unfold sum_by; cbn; lia|].
  rewrite IH, sum_by_cons. unfold addNode, node_total.
  rewrite (upsert_sum _ _ _ P (node_field fd) (metrics_field metric fd p)).
  - lia. - by destruct fd. - intros a. by destruct fd.
Qed.

Lemma add_links_total fd P p color key m es :
  link_total fd P (fold_left (fun m e => addLink m e.1 e.2 p metric color key) es m)
  = link_total fd P m + sum_by (fun e => if P (pathLinkKey e.1 e.2) then metrics_field metric fd p else 0) es.
Proof.
  revert m. induction es as [|e es IH]; intros m; cbn [fold_left]; [unfold sum_by; cbn; lia|].
  rewrite IH, sum_by_cons. unfold addLink, link_total.
  rewrite (upsert_sum _ _ _ P (link_field fd) (metrics_field metric fd p)).
  - unfold pathLinkKey. lia. - by destruct fd. - intros a. by destruct fd.
Qed.

Lemma add_path_total fd P maps p :
  node_total fd P (add maps p).1 = node_total fd P maps.1 + path_nodes_total fd P p
  /\ link_total fd P (add maps p).2 = link_total fd P maps.2 + path_links_total fd P p.
Proof.
  unfold add, add_path, path_nodes_total, path_links_total. destruct (pp_path p) as [|root path] eqn:E.
  - cbn. lia.
  - cbn [fst snd]. by rewrite add_nodes_total, add_links_total.
Qed.

Lemma maps_total fd P ps : forall maps,
  node_total fd P (fold_left add ps maps).1 = node_total fd P maps.1 + sum_by (path_nodes_total fd P) ps
  /\ link_total fd P (fold_left add ps maps).2 = link_total fd P maps.2 + sum_by (path_links_total fd P) ps.
Proof.
  induction ps as [|p ps IH]; intros maps; cbn [fold_left]; [unfold sum_by; cbn; lia|].
  destruct (IH (add maps p)) as [-> ->]. destruct (add_path_total fd P maps p) as [-> ->]. rewrite !sum_by_cons. lia.
Qed.

(** Every entry is well formed, and the keys are distinct. *)
Definition maps_ok (maps : strmap DashboardFlowNode * strmap DashboardFlowLink) : Prop :=
  NoDup (map fst maps.1) /\ Forall node_entry maps.1 /\ NoDup (map fst maps.2) /\ Forall link_entry maps.2.

Lemma nodes_fold_ok p color key path : forall m,
  Forall path_node_ok path -> NoDup (map fst m) -> Forall node_entry m ->
  NoDup (map fst (fold_left (fun m n => addNode m n p metric color key) path m))
  /\ Forall node_entry (fold_left (fun m n => addNode m n p metric color key) path m).
Proof.
  induction path as [|n path IH]; intros m Hp H1 H2; [done|]. cbn [fold_left]. apply Forall_cons in Hp as [Hn Hp].
  apply IH; [done|by apply upsert_nodup|]. apply upsert_Forall; [|by intros a []; constructor|done].
  constructor; [done|]. apply Hn.
Qed.

Lemma links_fold_ok p color key es : forall m,
  Forall (fun e => path_node_ok e.1 /\ path_node_ok e.2) es -> NoDup (map fst m) -> Forall link_entry m ->
  NoDup (map fst (fold_left (fun m e => addLink m e.1 e.2 p metric color key) es m))
  /\ Forall link_entry (fold_left (fun m e => addLink m e.1 e.2 p metric color key) es m).
Proof.
  induction es as [|e es IH]; intros m Hp H1 H2; [done|]. cbn [fold_left]. apply Forall_cons in Hp as [[Ha Hb] Hp].
  apply IH; [done|by apply upsert_nodup|]. apply upsert_Forall; [|by intros a []; constructor|done].
  constructor; [done|apply Ha|apply Hb].
Qed.

Lemma add_path_ok maps p : path_ok stages p.(pp_path) -> maps_ok maps -> maps_ok (add maps p).
Proof.
  intros [_ Hp] (H1 & H2 & H3 & H4). unfold add, add_path. destruct (pp_path p) as [|root path] eqn:E; [done|].
  set (color := default _ _). set (key := p_id root).
  destruct (nodes_fold_ok (pp_metrics p) color key (root :: path) maps.1 Hp H1 H2) as [H5 H6].
  destruct (links_fold_ok (pp_metrics p) color key (steps (root :: path)) maps.2) as [H7 H8]; [|done..|].
  - apply Forall_forall. intros e [He1 He2]%steps_elem. rewrite Forall_forall in Hp. split; by apply Hp.
  - done.
Qed.

Lemma maps_fold_ok ps : forall maps,
  Forall (fun p => path_ok stages p.(pp_path)) ps -> maps_ok maps -> maps_ok (fold_left add ps maps).
Proof.
  induction ps as [|p ps IH]; intros maps Hp H; [done|]. apply Forall_cons in Hp as [Hp Hps].
  cbn [fold_left]. apply IH; [done|]. by apply add_path_ok.
Qed.

(** ** Conservation on the maps *)

(** Nodes that are not in the last column are the sources of their steps, and nodes that are not in
    the first are the targets. *)
Lemma sum_drop_last {A} (f : A -> Z) l :
  (forall z, last l = Some z -> f z = 0) -> sum_by f l = sum_by f (removelast l).
Proof.
  induction l as [|a [|b l] IH]; intros H; [done| |].
  - unfold sum_by. cbn. rewrite H by done. done.
  - change (removelast (a :: b :: l)) with (a :: removelast (b :: l)). rewrite !(sum_by_cons f a), IH; [done|].
    intros z Hz. by apply H.
Qed.

Lemma sum_drop_head {A} (f : A -> Z) l : (forall z, head l = Some z -> f z = 0) -> sum_by f l = sum_by f (tl l).
Proof. destruct l as [|a l]; intros H; [done|]. rewrite sum_by_cons, H by done. done. Qed.

Lemma last_kind path z : last path = Some z -> last (map p_kind path) = Some z.(p_kind).
Proof. intros [l ->]%last_Some. rewrite map_app. apply last_snoc. Qed.

Lemma path_out fd i k p :
  path_ok stages p.(pp_path) -> kind_of_id i = Some k -> last stages <> Some k ->
  path_nodes_total fd (fun x => streq x i) p = path_links_total fd (fun x => streq (link_key_source x) i) p.
Proof.
  intros [Hk Hp] Hi Hl. unfold path_nodes_total, path_links_total. set (v := metrics_field _ _ _). clearbody v.
  rewrite Forall_forall in Hp.
  assert (forall e, e ∈ steps p.(pp_path) -> link_key_source (pathLinkKey e.1 e.2) = e.1.(p_id)) as Hsrc.
  { intros e [H1 H2]%steps_elem. apply key_ends; by apply Hp. }
  rewrite (sum_by_ext (fun e => if streq (link_key_source (pathLinkKey e.1 e.2)) i then v else 0)
             (fun e => if streq e.1.(p_id) i then v else 0)) by (intros e He; by rewrite Hsrc).
  rewrite <- (sum_by_map fst (fun n => if streq n.(p_id) i then v else 0)), steps_fst.
  apply sum_drop_last. intros z Hz. destruct (streq (p_id z) i) eqn:Ez; [|done]. exfalso.
  apply streq_true in Ez. apply Hl. rewrite <- Hk, (last_kind _ _ Hz), <- Hi, <- Ez. symmetry.
  apply Hp. by apply last_Some_elem_of.
Qed.

Lemma path_in fd i k p :
  path_ok stages p.(pp_path) -> kind_of_id i = Some k -> head stages <> Some k ->
  path_nodes_total fd (fun x => streq x i) p = path_links_total fd (fun x => streq (link_key_target x) i) p.
Proof.
  intros [Hk Hp] Hi Hl. unfold path_nodes_total, path_links_total. set (v := metrics_field _ _ _). clearbody v.
  rewrite Forall_forall in Hp.
  assert (forall e, e ∈ steps p.(pp_path) -> link_key_target (pathLinkKey e.1 e.2) = e.2.(p_id)) as Htgt.
  { intros e [H1 H2]%steps_elem. apply key_ends; by apply Hp. }
  rewrite (sum_by_ext (fun e => if streq (link_key_target (pathLinkKey e.1 e.2)) i then v else 0)
             (fun e => if streq e.2.(p_id) i then v else 0)) by (intros e He; by rewrite Htgt).
  rewrite <- (sum_by_map snd (fun n => if streq n.(p_id) i then v else 0)), steps_snd.
  apply sum_drop_head. intros z Hz. destruct (streq (p_id z) i) eqn:Ez; [|done]. exfalso.
  apply streq_true in Ez. apply Hl. destruct (pp_path p) as [|z' path]; [done|]. cbn in Hz. simplify_eq.
  cbn. f_equal. specialize (Hp z (list_elem_of_here _ _)). destruct Hp as [Hp _]. congruence.
Qed.
End Build.

(** ** The graph *)

(** What masks, highlights, shares and colours leave alone. *)
Definition node_core (n : DashboardFlowNode) : jsstr * FlowNodeKind * Z * Z * Z * Z :=
  (n.(n_id), n.(n_kind), n.(n_value), n.(n_requests), n.(n_quota), n.(n_tokens)).
Definition link_core (l : DashboardFlowLink) : jsstr * jsstr * Z * Z * Z * Z :=
  (l.(l_source), l.(l_target), l.(l_value), l.(l_requests), l.(l_quota), l.(l_tokens)).

Lemma map_core {A B} (core : A -> B) (f : A -> A) l : (forall a, core (f a) = core a) -> map core (map f l) = map core l.
Proof. intros H. rewrite map_map. by apply map_ext. Qed.

Lemma mask_core nodes links :
  map node_core (maskFlowGraphLabels nodes links).1 = map node_core nodes
  /\ map link_core (maskFlowGraphLabels nodes links).2 = map link_core links.
Proof.
  unfold maskFlowGraphLabels. cbn [fst snd]. split.
  - apply map_core. intros n. unfold mask_node. by case_match.
  - case_match; [done|]. by apply map_core.
Qed.

Lemma highlight_core nodes links sets :
  map node_core (applyFlowHighlights nodes links sets).1 = map node_core nodes
  /\ map link_core (applyFlowHighlights nodes links sets).2 = map link_core links.
Proof. destruct sets as [sets|]; [|done]. cbn [applyFlowHighlights fst snd]. by split; apply map_core. Qed.

(** ** Filters *)

(** [m.get(k)], the empty set when there is none. *)
Definition ids_of (k : FlowNodeKind) (m : kindmap) : list jsstr := default [] (kget k m).

Lemma kadd_ids k i k' m j : j ∈ ids_of k' (kadd k i m) <-> (k' = k /\ j = i) \/ j ∈ ids_of k' m.
Proof.
  unfold ids_of. induction m as [|[k1 ids] m IH]; cbn [kadd kget].
  - case_bool_decide as E; simpl; [subst; rewrite list_elem_of_singleton|]; rewrite elem_of_nil; naive_solver.
  - case_bool_decide as E; cbn [kget]; case_bool_decide as E'; simpl; subst; try naive_solver.
    case_bool_decide; [naive_solver|]. rewrite elem_of_app, list_elem_of_singleton. naive_solver.
Qed.

(** Distinct kinds, each with an identifier. *)
Definition filters_ok (m : kindmap) : Prop := NoDup (map fst m) /\ Forall (fun e => e.2 <> []) m.

Lemma kadd_keys k i m : forall k', k' ∈ map fst (kadd k i m) <-> k' = k \/ k' ∈ map fst m.
Proof.
  induction m as [|[k1 ids] m IH]; intros k'; cbn [kadd map fst].
  - by rewrite list_elem_of_singleton, elem_of_nil; intuition.
  - case_bool_decide as E; cbn [map fst]; rewrite !elem_of_cons, ?IH; subst; naive_solver.
Qed.

Lemma kadd_ok k i m : filters_ok m -> filters_ok (kadd k i m).
Proof.
  intros [H1 H2]. induction m as [|[k1 ids] m IH]; cbn [kadd].
  - split; [apply NoDup_singleton|by constructor].
  - cbn [map fst] in H1. apply NoDup_cons in H1 as [Hk H1]. apply Forall_cons in H2 as [Hi H2]. cbn [snd] in Hi.
    case_bool_decide as E.
    + split; [by apply NoDup_cons|]. constructor; [|done]. cbn [snd]. case_bool_decide; [done|]. by intros [_ ?]%app_nil.
    + destruct (IH H1 H2) as [H3 H4]. split; [|by constructor]. cbn [map fst]. apply NoDup_cons. split; [|done].
      rewrite kadd_keys. naive_solver.
Qed.

Lemma ids_of_entry m k ids : NoDup (map fst m) -> (k, ids) ∈ m -> ids_of k m = ids.
Proof.
  unfold ids_of. induction m as [|[k1 ids1] m IH]; intros Hn Hin; [by apply elem_of_nil in Hin|].
  cbn [map fst] in Hn. apply NoDup_cons in Hn as [Hk Hn]. cbn [kget]. apply elem_of_cons in Hin as [[= <- <-]|Hin].
  - by rewrite bool_decide_true.
  - rewrite bool_decide_false; [by apply IH|]. intros ->. apply Hk. by apply (list_elem_of_fmap_2 fst _ _ Hin).
Qed.

Lemma path_ids path k i :
  i ∈ ids_of k (fold_left (fun m n => kadd n.(p_kind) n.(p_id) m) path [])
  <-> exists n, n ∈ path /\ n.(p_kind) = k /\ n.(p_id) = i.
Proof.
  assert (forall m, i ∈ ids_of k (fold_left (fun m n => kadd n.(p_kind) n.(p_id) m) path m)
    <-> i ∈ ids_of k m \/ exists n, n ∈ path /\ n.(p_kind) = k /\ n.(p_id) = i) as H.
  { induction path as [|n path IH]; intros m; cbn [fold_left].
    - split; [by left|]. intros [H|(n & Hn & _)]; [done|by apply elem_of_nil in Hn].
    - rewrite IH, kadd_ids. setoid_rewrite elem_of_cons. naive_solver. }
  rewrite H. unfold ids_of at 1. cbn. rewrite elem_of_nil. naive_solver.
Qed.

Lemma matches_spec path filters :
  pathMatchesNodeFilters path filters = true
  <-> forall e, e ∈ filters -> exists i n, i ∈ e.2 /\ n ∈ path /\ n.(p_kind) = e.1 /\ n.(p_id) = i.
Proof.
  unfold pathMatchesNodeFilters. destruct filters as [|e0 filters].
  { split; [|done]. intros _ e H. by apply elem_of_nil in H. }
  set (byKind := fold_left (fun m n => kadd n.(p_kind) n.(p_id) m) path []). rewrite List.forallb_forall. setoid_rewrite <- list_elem_of_In.
  apply forall_proper. intros e. apply forall_proper. intros _.
  assert (match kget e.1 byKind with None => false | Some pathIds => existsb (fun i => bool_decide (i ∈ pathIds)) e.2 end
          = existsb (fun i => bool_decide (i ∈ ids_of e.1 byKind)) e.2) as ->.
  { unfold ids_of. destruct (kget e.1 byKind); [done|]. simpl. clear. by induction e.2. }
  rewrite existsb_exists. setoid_rewrite <- list_elem_of_In. setoid_rewrite bool_decide_eq_true.
  unfold byKind. setoid_rewrite path_ids. naive_solver.
Qed.

Lemma normalize_spec sel stages :
  let filters := normalizeSelectedNodeFilters sel stages in
  filters_ok filters
  /\ forall k i, i ∈ ids_of k filters <-> exists f, f ∈ default [] sel /\ f.(f_kind) = k /\ f.(f_id) = i /\ k ∈ stages.
Proof.
  cbv zeta. unfold normalizeSelectedNodeFilters. generalize (default [] sel) as l. intros l.
  assert (forall m, filters_ok m ->
    let r := fold_left (fun filters f => if bool_decide (f_kind f ∈ stages) then kadd (f_kind f) (f_id f) filters else filters) l m in
    filters_ok r /\ forall k i, i ∈ ids_of k r <-> i ∈ ids_of k m
      \/ exists f, f ∈ l /\ f.(f_kind) = k /\ f.(f_id) = i /\ k ∈ stages) as H.
  { induction l as [|f l IH]; intros m Hm; cbn [fold_left].
    - split; [done|]. intros k i. split; [by left|]. intros [H|(f & Hf & _)]; [done|by apply elem_of_nil in Hf].
    - case_bool_decide as Hs.
      + destruct (IH (kadd (f_kind f) (f_id f) m) (kadd_ok _ _ _ Hm)) as [H1 H2]. split; [done|]. intros k i.
        rewrite H2, kadd_ids. setoid_rewrite elem_of_cons. naive_solver.
      + destruct (IH m Hm) as [H1 H2]. split; [done|]. intros k i. rewrite H2. setoid_rewrite elem_of_cons. naive_solver. }
  destruct (H []) as [H1 H2]; [split; constructor|]. split; [done|]. intros k i. rewrite H2.
  unfold ids_of at 1. cbn. rewrite elem_of_nil. naive_solver.
Qed.

Section Graph.
Context (localeCompare : jsstr -> jsstr -> Z) (chart_colors : Z -> list jsstr).
Context (rows : list FlowQuotaDataItem) (metric : FlowMetric) (role : FlowRole) (palette : option (list jsstr)).
Context (visibleStages : option (list FlowNodeKind)) (ctx : FlowPathContext) (options : FlowGraphOptions).

Definition drawn_stages : list FlowNodeKind := resolveVisibleStages role visibleStages.
Definition drawn_paths : list PreparedFlowPath := prepared_paths localeCompare rows metric drawn_stages ctx options.
Definition drawn_maps : strmap DashboardFlowNode * strmap DashboardFlowLink :=
  fold_left (add_path chart_colors metric
    (stableColorMap chart_colors (sort_strings localeCompare (root_ids drawn_paths)) palette) palette) drawn_paths ([], []).
Definition graph : DashboardFlowGraph :=
  buildFlowGraph localeCompare chart_colors rows metric role palette visibleStages ctx options.

Lemma color_core links : map link_core (assignLinkDisplayColors localeCompare links) = map link_core links.
Proof. apply map_core. intros l. cbv zeta. by destruct (list_find _ _) as [[i l2]|]. Qed.

(** The nodes and links of the graph are those of the maps. *)
Lemma graph_core :
  map node_core (g_nodes graph) ≡ₚ map node_core (map snd drawn_maps.1)
  /\ map link_core (g_links graph) ≡ₚ map link_core (map snd drawn_maps.2).
Proof.
  unfold graph, buildFlowGraph. fold drawn_stages. fold drawn_paths. fold drawn_maps.
  set (nodes := map snd drawn_maps.1). set (links := map snd drawn_maps.2).
  set (masked := if maskSensitive options then maskFlowGraphLabels nodes links else (nodes, links)).
  assert (map node_core masked.1 = map node_core nodes /\ map link_core masked.2 = map link_core links) as [Hm1 Hm2]
    by (unfold masked; case_match; [apply mask_core|done]).
  destruct masked as [mnodes mlinks]. set (sets := buildFlowHighlightSets _ _ _ _).
  destruct (highlight_core mnodes mlinks sets) as [Hh1 Hh2].
  destruct (applyFlowHighlights mnodes mlinks sets) as [hnodes hlinks]. cbn [fst snd g_nodes g_links] in *.
  split.
  - rewrite <- Hm1, <- Hh1. apply Permutation_map, isort_perm.
  - rewrite color_core, map_core by done. rewrite <- Hm2, <- Hh2. apply Permutation_map, isort_perm.
Qed.

Lemma drawn_paths_ok : Forall row_ok rows -> Forall (fun p => path_ok drawn_stages p.(pp_path)) drawn_paths.
Proof.
  intros Hr. unfold drawn_paths, prepared_paths. cbv zeta. generalize (buildTopNodeSets localeCompare rows metric drawn_stages
    (normalizeTopNodeLimit (topNodeLimit options)) ctx) as sets. intros sets.
  induction Hr as [|row rows' Hrow _ IH]; [done|]. cbn [omap list_omap].
  destruct (applyTopNodeLimit _ _ _ _) as [path|] eqn:E; cbn [mbind option_bind]; [|exact IH].
  constructor; [|exact IH]. eapply limit_path_ok; [|exact E]. by apply row_path_ok.
Qed.

Lemma drawn_maps_ok : Forall row_ok rows -> maps_ok drawn_maps.
Proof.
  intros Hr. apply (maps_fold_ok _ _ _ _ drawn_stages); [by apply drawn_paths_ok|].
  unfold maps_ok. cbn. split_and!; try constructor.
Qed.

Definition core_field (fd : Field) {A B : Type} (c : A * B * Z * Z * Z * Z) : Z :=
  match c with (_, _, v, r, q, t) => match fd with f_value => v | f_requests => r | f_quota => q | f_tokens => t end end.

Lemma node_core_field fd n : node_field fd n = core_field fd (node_core n).
Proof. by destruct fd. Qed.
Lemma link_core_field fd l : link_field fd l = core_field fd (link_core l).
Proof. by destruct fd. Qed.

(** A total over the links of the graph is the total over the map. *)
Lemma graph_links_total fd (end_of : DashboardFlowLink -> jsstr) (key_end : jsstr -> jsstr) i :
  Forall row_ok rows ->
  (forall l l', link_core l = link_core l' -> end_of l = end_of l') ->
  (forall e, link_entry e -> key_end e.1 = end_of e.2) ->
  sum_by (link_field fd) (List.filter (fun l => streq (end_of l) i) (g_links graph))
  = link_total fd (fun x => streq (key_end x) i) drawn_maps.2.
Proof.
  intros Hr Hcore Hkey. rewrite sum_by_filter. destruct graph_core as [_ Hperm].
  set (g := fun l => if streq (end_of l) i then link_field fd l else 0).
  assert (forall l l', map link_core l ≡ₚ map link_core l' -> sum_by g l = sum_by g l') as Hg.
  { intros l l' Hp. apply Permutation_map_inv in Hp as (l'' & Heq & Hp). rewrite (sum_by_perm g l' l'') by done.
    clear Hp Hperm l'. revert l'' Heq. induction l as [|a l IH]; intros [|b l''] Heq; try done.
    cbn [map] in Heq. apply (f_equal (fun x => (head x, tl x))) in Heq. cbn [head tl] in Heq.
    apply pair_eq in Heq as [Hc%Some_inj Heq]. rewrite !sum_by_cons, (IH _ Heq). unfold g.
    by rewrite !link_core_field, Hc, (Hcore _ _ Hc). }
  rewrite (Hg _ _ Hperm), sum_by_map. unfold link_total. apply sum_by_ext. intros e He. unfold g.
  destruct (drawn_maps_ok Hr) as (_ & _ & _ & Hl). rewrite Forall_forall in Hl. by rewrite Hkey by (by apply Hl).
Qed.

(** A node of the graph is the entry of its identifier. *)
Lemma graph_node n :
  Forall row_ok rows -> n ∈ g_nodes graph ->
  exists n0, (n.(n_id), n0) ∈ drawn_maps.1 /\ node_core n0 = node_core n /\ kind_of_id n.(n_id) = Some n.(n_kind).
Proof.
  intros Hr Hn. destruct graph_core as [Hperm _]. apply (list_elem_of_fmap_2 node_core) in Hn.
  change (node_core <$> g_nodes graph) with (map node_core (g_nodes graph)) in Hn. rewrite Hperm in Hn.
  apply list_elem_of_fmap in Hn as (n0 & Hcore & Hn0). apply list_elem_of_fmap in Hn0 as ([k n1] & -> & He).
  destruct (drawn_maps_ok Hr) as (_ & Hent & _ & _). rewrite Forall_forall in Hent. destruct (Hent _ He) as [Hk Hkind].
  cbn [fst snd] in *. exists n1. unfold node_core in Hcore. injection Hcore as H1 H2 H3 H4 H5 H6.
  rewrite H1, Hk, H2. split_and!; [done| |done]. unfold node_core. congruence.
Qed.

Lemma graph_node_total fd n :
  Forall row_ok rows -> n ∈ g_nodes graph ->
  node_field fd n = sum_by (path_nodes_total metric fd (fun x => streq x n.(n_id))) drawn_paths.
Proof.
  intros Hr (n0 & He & Hc & _)%graph_node; [|done]. rewrite node_core_field, <- Hc, <- node_core_field.
  destruct (drawn_maps_ok Hr) as (Hnd & _). rewrite <- (sum_by_key (node_field fd) _ _ _ Hnd He).
  change (node_total fd (fun x => streq x (n_id n)) drawn_maps.1 = sum_by (path_nodes_total metric fd (fun x => streq x (n_id n))) drawn_paths).
  unfold drawn_maps. by rewrite (proj1 (maps_total _ _ _ _ fd _ drawn_paths ([], []))).
Qed.

Lemma graph_out fd n :
  Forall row_ok rows -> n ∈ g_nodes graph -> last drawn_stages <> Some n.(n_kind) ->
  node_field fd n = sum_by (link_field fd) (List.filter (fun l => streq l.(l_source) n.(n_id)) (g_links graph)).
Proof.
  intros Hr Hn Hl. rewrite (graph_links_total fd l_source link_key_source); [|done| |].
  - rewrite graph_node_total by done. unfold drawn_maps.
    rewrite (proj2 (maps_total _ _ _ _ fd _ drawn_paths ([], []))).
    pose proof (drawn_paths_ok Hr) as Hp. rewrite Forall_forall in Hp.
    destruct (graph_node n Hr Hn) as (_ & _ & _ & Hk). apply sum_by_ext. intros p Hin.
    eapply path_out; [by apply Hp|exact Hk|done].
  - intros l l' [= ->]. done.
  - intros e [<- H1 H2]. by apply key_ends.
Qed.

Lemma graph_in fd n :
  Forall row_ok rows -> n ∈ g_nodes graph -> head drawn_stages <> Some n.(n_kind) ->
  node_field fd n = sum_by (link_field fd) (List.filter (fun l => streq l.(l_target) n.(n_id)) (g_links graph)).
Proof.
  intros Hr Hn Hl. rewrite (graph_links_total fd l_target link_key_target); [|done| |].
  - rewrite graph_node_total by done. unfold drawn_maps.
    rewrite (proj2 (maps_total _ _ _ _ fd _ drawn_paths ([], []))).
    pose proof (drawn_paths_ok Hr) as Hp. rewrite Forall_forall in Hp.
    destruct (graph_node n Hr Hn) as (_ & _ & _ & Hk). apply sum_by_ext. intros p Hin.
    eapply path_in; [by apply Hp|exact Hk|done].
  - intros l l' [= _ ->]. done.
  - intros e [<- H1 H2]. by apply key_ends.
Qed.

(** ** Stage totals *)

Lemma stages_nodup : NoDup drawn_stages.
Proof.
  assert (NoDup (ROLE_FLOW_STAGES role)) as H by (apply (bool_decide_unpack _); by destruct role).
  unfold drawn_stages, resolveVisibleStages, getFlowStages. destruct visibleStages; [|done]. case_match; [|done].
  by apply NoDup_ListNoDup, List.NoDup_filter, NoDup_ListNoDup.
Qed.

Lemma sum_one (l : list FlowNodeKind) k v :
  NoDup l -> k ∈ l -> sum_by (fun s => if bool_decide (s = k) then v else 0) l = v.
Proof.
  intros Hnd Hin. induction l as [|s l IH]; [by apply elem_of_nil in Hin|].
  apply NoDup_cons in Hnd as [Hs Hnd]. rewrite sum_by_cons. apply elem_of_cons in Hin as [->|Hin].
  - rewrite bool_decide_true by done. rewrite sum_by_zero; [lia|]. intros x Hx. by rewrite bool_decide_false by (by intros ->).
  - rewrite bool_decide_false by (by intros ->). by apply IH.
Qed.

Lemma path_stage_total fd k p :
  path_ok drawn_stages p.(pp_path) -> k ∈ drawn_stages ->
  path_nodes_total metric fd (fun x => bool_decide (kind_of_id x = Some k)) p = metrics_field metric fd p.(pp_metrics).
Proof.
  intros [Hk Hp] Hin. unfold path_nodes_total. set (v := metrics_field _ _ _). clearbody v.
  rewrite Forall_forall in Hp. transitivity (sum_by (fun s => if bool_decide (s = k) then v else 0) drawn_stages); [|by apply sum_one; [apply stages_nodup|]].
  rewrite <- Hk, sum_by_map. apply sum_by_ext. intros n Hn. destruct (Hp n Hn) as [-> _].
  by rewrite (bool_decide_ext _ (p_kind n = k)) by naive_solver.
Qed.

(** No path is dropped. *)
Definition keeps_all : Prop := overflowMode options <> Some hide \/ normalizeTopNodeLimit (topNodeLimit options) = None.

Lemma drawn_metrics : keeps_all -> map pp_metrics drawn_paths = map rowMetrics rows.
Proof.
  intros Hkeep. unfold drawn_paths, prepared_paths. cbv zeta.
  assert (forall row, exists path,
    applyTopNodeLimit (flowPathForStages row drawn_stages ctx)
      (buildTopNodeSets localeCompare rows metric drawn_stages (normalizeTopNodeLimit (topNodeLimit options)) ctx)
      (default aggregate (overflowMode options)) (otherNodeLabel options) = Some path) as Hall.
  { intros row. unfold applyTopNodeLimit. destruct Hkeep as [Hm| ->]; [|cbn; eauto].
    repeat case_match; eauto. exfalso. destruct (overflowMode options) as [[]|]; cbn in *; congruence. }
  revert Hall. generalize (buildTopNodeSets localeCompare rows metric drawn_stages
    (normalizeTopNodeLimit (topNodeLimit options)) ctx) as sets. intros sets Hall.
  induction rows as [|row l IH]; [done|]. cbn [omap list_omap map]. destruct (Hall row) as [path ->].
  cbn [mbind option_bind map pp_metrics]. by f_equal.
Qed.

Lemma summary_total fd : summary_field metric fd (buildSummary rows) = sum_by (fun row => metrics_field metric fd (rowMetrics row)) rows.
Proof.
  unfold buildSummary. cbv zeta.
  assert (forall l s, summary_field metric fd (fold_left (fun summary row =>
    mkSummary (s_quota summary + m_quota (rowMetrics row)) (s_tokens summary + m_tokens (rowMetrics row))
      (s_requests summary + m_requests (rowMetrics row))) l s)
    = summary_field metric fd s + sum_by (fun row => metrics_field metric fd (rowMetrics row)) l) as H.
  { induction l as [|row l IH]; intros s; cbn [fold_left]; [unfold sum_by; cbn; lia|].
    rewrite IH, sum_by_cons. set (z := sum_by _ l). clearbody z. destruct fd, metric; cbn; lia. }
  rewrite H. by destruct fd, metric.
Qed.

Lemma graph_stage_total fd k :
  Forall row_ok rows -> keeps_all -> k ∈ drawn_stages ->
  sum_by (node_field fd) (List.filter (fun n => bool_decide (n.(n_kind) = k)) (g_nodes graph))
  = summary_field metric fd (buildSummary rows).
Proof.
  intros Hr Hkeep Hk. rewrite sum_by_filter. destruct graph_core as [Hperm _].
  set (g := fun c : jsstr * FlowNodeKind * Z * Z * Z * Z => if bool_decide (c.1.1.1.1.2 = k) then core_field fd c else 0).
  transitivity (sum_by g (map node_core (g_nodes graph))).
  { rewrite sum_by_map. apply sum_by_ext. intros n _. unfold g. by rewrite node_core_field. }
  rewrite (sum_by_perm g _ _ Hperm), !sum_by_map. destruct (drawn_maps_ok Hr) as (_ & Hent & _ & _).
  rewrite Forall_forall in Hent.
  transitivity (node_total fd (fun x => bool_decide (kind_of_id x = Some k)) drawn_maps.1).
  { apply sum_by_ext. intros e He. unfold g. rewrite <- node_core_field. destruct (Hent e He) as [_ ->]. cbn [node_core fst snd].
    by rewrite (bool_decide_ext (Some (n_kind e.2) = Some k) (n_kind e.2 = k)) by naive_solver. }
  unfold drawn_maps. rewrite (proj1 (maps_total _ _ _ _ fd _ drawn_paths ([], []))), summary_total.
  rewrite <- (sum_by_map rowMetrics (metrics_field metric fd)), <- (drawn_metrics Hkeep), sum_by_map.
  pose proof (drawn_paths_ok Hr) as Hp. rewrite Forall_forall in Hp. cbn [fst].
  change (node_total fd _ []) with 0. rewrite Z.add_0_l. apply sum_by_ext. intros p Hin. by apply path_stage_total; [apply Hp|].
Qed.

(** ** The top-N limit *)

Lemma kget_in {A} k (m : list (FlowNodeKind * A)) : k ∈ map fst m -> exists a, kget k m = Some a /\ (k, a) ∈ m.
Proof.
  induction m as [|[k' a] m IH]; cbn [map fst kget]; intros H; [by apply elem_of_nil in H|]. case_bool_decide as E.
  - subst. exists a. split; [done|apply list_elem_of_here].
  - apply elem_of_cons in H as [->|H]; [done|]. destruct (IH H) as (b & Hb & Hin). exists b. split; [done|by apply list_elem_of_further].
Qed.

Lemma kalter_keys {A} k (f : A -> A) m : map fst (kalter k f m) = map fst m.
Proof. unfold kalter. rewrite map_map. apply map_ext. intros e. by case_match. Qed.

Lemma fold_keys {A B} (f : list (FlowNodeKind * A) -> B -> list (FlowNodeKind * A)) (l : list B) (m : list (FlowNodeKind * A)) :
  (forall m b, map fst (f m b) = map fst m) -> map fst (fold_left f l m) = map fst m.
Proof. intros H. revert m. induction l as [|b l IH]; intros m; [done|]. cbn [fold_left]. by rewrite IH, H. Qed.

Lemma top_sets_bound limit sets k :
  buildTopNodeSets localeCompare rows metric drawn_stages (Some limit) ctx = Some sets -> k ∈ drawn_stages ->
  exists ids, kget k sets = Some ids /\ (length ids <= Z.to_nat limit)%nat.
Proof.
  intros [= <-] Hk. set (totals := fold_left _ _ _).
  assert (map fst totals = drawn_stages) as Hkeys.
  { unfold totals. rewrite (fold_keys _ _ _).
    - rewrite map_map. apply map_id.
    - intros m row. rewrite (fold_keys _ _ _); [done|]. intros m' n. apply kalter_keys. }
  clearbody totals.
  destruct (kget_in k (map (fun e : FlowNodeKind * strmap FlowNodeRank => (e.1, map (fun rank => p_id (r_node rank))
     (take (Z.to_nat limit) (isort (fun a b => chain [r_value b - r_value a; localeCompare (p_label (r_node a)) (p_label (r_node b));
        localeCompare (p_id (r_node a)) (p_id (r_node b))] <=? 0) (map snd e.2))))) totals)) as (ids & Hget & Hin).
  { rewrite map_map. change (k ∈ map fst totals). by rewrite Hkeys. }
  exists ids. split; [exact Hget|]. apply list_elem_of_fmap in Hin as (e & [= -> ->] & _).
  rewrite length_map, length_take. lia.
Qed.

Lemma node_keys_from e : e ∈ drawn_maps.1 -> exists p n, p ∈ drawn_paths /\ n ∈ p.(pp_path) /\ n.(p_id) = e.1.
Proof.
  unfold drawn_maps. set (add := add_path _ _ _ _).
  assert (forall m path color key mt e, e ∈ fold_left (fun m n => addNode m n mt metric color key) path m ->
    e.1 ∈ map fst m \/ exists n, n ∈ path /\ p_id n = e.1) as Hpath.
  { intros m path color key mt. revert m. induction path as [|n path IH]; intros m e' He; cbn [fold_left] in He.
    - left. by apply (list_elem_of_fmap_2 fst).
    - destruct (IH _ _ He) as [H|(n' & Hn' & Hid)].
      + unfold addNode in H. rewrite upsert_keys in H. case_bool_decide; [by left|].
        apply elem_of_app in H as [H|H%list_elem_of_singleton]; [by left|].
        right. exists n. split; [apply list_elem_of_here|done].
      + right. exists n'. split; [by apply list_elem_of_further|done]. }
  assert (forall ps maps, e ∈ (fold_left add ps maps).1 ->
    e.1 ∈ map fst maps.1 \/ exists p n, p ∈ ps /\ n ∈ p.(pp_path) /\ n.(p_id) = e.1) as Hall.
  { induction ps as [|p ps IH]; intros maps He; cbn [fold_left] in He; [left; by apply (list_elem_of_fmap_2 fst)|].
    destruct (IH _ He) as [H|(p' & n & Hp & Hn & Hid)].
    - unfold add, add_path in H. destruct (pp_path p) as [|root path] eqn:E; [by left|]. cbn [fst] in H.
      apply list_elem_of_fmap in H as (e' & He1 & He'). apply Hpath in He' as [H|(n & Hn & Hid)].
      + left. by rewrite He1.
      + right. exists p, n. split_and!; [apply list_elem_of_here|by rewrite E|congruence].
    - right. exists p', n. split_and!; [by apply list_elem_of_further|done|done]. }
  intros He. destruct (Hall drawn_paths ([], []) He) as [H|H]; [by apply elem_of_nil in H|done].
Qed.

(** A drawn node is a top node, or the node of the others when they are aggregated. *)
Lemma drawn_node_top p n sets :
  p ∈ drawn_paths -> n ∈ p.(pp_path) ->
  buildTopNodeSets localeCompare rows metric drawn_stages (normalizeTopNodeLimit (topNodeLimit options)) ctx = Some sets ->
  isTopFlowNode n (Some sets) = true
  \/ (overflowMode options <> Some hide /\ n.(p_id) = OTHER_FLOW_NODE_IDS n.(p_kind)).
Proof.
  intros Hp Hn Hsets. unfold drawn_paths, prepared_paths in Hp. cbv zeta in Hp. rewrite Hsets in Hp.
  apply list_elem_of_omap in Hp as (row & _ & Hrow). apply bind_Some in Hrow as (path & Happ & [= <-]). cbn [pp_path] in Hn.
  unfold applyTopNodeLimit in Happ. destruct (existsb _ _) eqn:Ex; cbn [negb] in Happ.
  - destruct (default aggregate (overflowMode options)) eqn:Em; [|done]. simplify_eq.
    apply list_elem_of_fmap in Hn as (n0 & -> & _). case_match; [by left|]. right. split; [|done].
    destruct (overflowMode options) as [[]|]; done.
  - simplify_eq. left. apply not_false_iff_true. intros Hf.
    assert (existsb (fun n => negb (isTopFlowNode n (Some sets))) (flowPathForStages row drawn_stages ctx) = true) as Ht; [|congruence].
    apply existsb_exists. exists n. split; [by apply list_elem_of_In|by rewrite Hf].
Qed.

Lemma graph_ids_nodup : Forall row_ok rows -> NoDup (map n_id (g_nodes graph)).
Proof.
  intros Hr. destruct graph_core as [Hperm _]. destruct (drawn_maps_ok Hr) as (Hnd & Hent & _).
  set (id_of_core := fun c : jsstr * FlowNodeKind * Z * Z * Z * Z => c.1.1.1.1.1).
  assert (map n_id (g_nodes graph) ≡ₚ map fst drawn_maps.1) as ->; [|done].
  change (map n_id (g_nodes graph)) with (map (fun n => id_of_core (node_core n)) (g_nodes graph)).
  rewrite <- map_map, Hperm, !map_map.
  erewrite map_ext_in; [reflexivity|]. intros e He%list_elem_of_In. rewrite Forall_forall in Hent. by destruct (Hent e He).
Qed.

Lemma graph_top_ids limit k :
  Forall row_ok rows -> normalizeTopNodeLimit (topNodeLimit options) = Some limit -> k ∈ drawn_stages ->
  exists ids, (length ids <= Z.to_nat limit)%nat
    /\ forall n, n ∈ g_nodes graph -> n.(n_kind) = k ->
         n.(n_id) ∈ ids \/ (overflowMode options <> Some hide /\ n.(n_id) = OTHER_FLOW_NODE_IDS k).
Proof.
  intros Hr Hlim Hk.
  destruct (buildTopNodeSets localeCompare rows metric drawn_stages (Some limit) ctx) as [sets|] eqn:Es; [|done].
  destruct (top_sets_bound limit sets k Es Hk) as (ids & Hget & Hlen). exists ids. split; [done|].
  intros n Hn Hkind. destruct (graph_node n Hr Hn) as (n0 & He & _ & Hkid).
  destruct (node_keys_from _ He) as (p & pn & Hp & Hpn & Hid). cbn [fst] in Hid.
  pose proof (drawn_paths_ok Hr) as Hok. rewrite Forall_forall in Hok. destruct (Hok p Hp) as [_ Hpok].
  rewrite Forall_forall in Hpok. destruct (Hpok pn Hpn) as [Hpk _]. rewrite Hid, Hkid, Hkind in Hpk. injection Hpk as Hpk.
  rewrite <- Hlim in Es. destruct (drawn_node_top p pn sets Hp Hpn Es) as [Ht|[Hm Ho]].
  - left. unfold isTopFlowNode in Ht. rewrite <- Hpk, Hget, Hid in Ht. by apply bool_decide_eq_true in Ht.
  - right. by rewrite <- Hid, Ho, Hpk.
Qed.

Lemma graph_column_bound limit k :
  Forall row_ok rows -> normalizeTopNodeLimit (topNodeLimit options) = Some limit -> k ∈ drawn_stages ->
  (length (List.filter (fun n => bool_decide (n.(n_kind) = k)) (g_nodes graph))
   <= Z.to_nat limit + (match overflowMode options with Some hide => 0 | _ => 1 end))%nat.
Proof.
  intros Hr Hlim Hk. destruct (graph_top_ids limit k Hr Hlim Hk) as (ids & Hlen & Hids).
  set (column := List.filter _ _).
  set (allowed := ids ++ match overflowMode options with Some hide => [] | _ => [OTHER_FLOW_NODE_IDS k] end).
  assert (map n_id column ⊆+ allowed) as Hsub.
  { apply NoDup_submseteq.
    - pose proof (graph_ids_nodup Hr) as Hnd. subst column. clear -Hnd.
      induction (g_nodes graph) as [|n l IH]; [constructor|]. cbn [map List.filter] in *. apply NoDup_cons in Hnd as [H1 H2].
      case_bool_decide; [|by apply IH]. cbn [map]. apply NoDup_cons. split; [|by apply IH].
      intros (x & Hx & Hin)%list_elem_of_fmap. apply H1. rewrite Hx. apply list_elem_of_In, filter_In in Hin as [Hin _].
      apply (list_elem_of_fmap_2 n_id). by apply list_elem_of_In.
    - intros i (n & -> & Hn)%list_elem_of_fmap. apply list_elem_of_In, filter_In in Hn as [Hn Hkn].
      apply bool_decide_eq_true in Hkn. apply list_elem_of_In in Hn. unfold allowed. apply elem_of_app.
      destruct (Hids n Hn Hkn) as [H|[Hm ->]]; [by left|]. right. case_match; [case_match|]; try done; apply list_elem_of_here. }
  apply submseteq_length in Hsub. rewrite length_map in Hsub. unfold allowed in Hsub. rewrite length_app in Hsub.
  destruct (overflowMode options) as [[]|]; cbn [length] in Hsub; lia.
Qed.

(** ** Labels and highlights of the graph *)

Definition drawn_sets : option FlowHighlightSets :=
  buildFlowHighlightSets drawn_paths (activeNode options) (activeLink options) drawn_stages.
Definition drawn_labels : list DashboardFlowNode * list DashboardFlowLink :=
  let '(nodes, links) := (map snd drawn_maps.1, map snd drawn_maps.2) in
  if maskSensitive options then maskFlowGraphLabels nodes links else (nodes, links).

Lemma graph_nodes_shape n :
  n ∈ g_nodes graph ->
  exists n0, n0 ∈ drawn_labels.1 /\ n.(n_id) = n0.(n_id) /\ n.(n_label) = n0.(n_label) /\ n.(n_kind) = n0.(n_kind)
    /\ (forall sets, drawn_sets = Some sets ->
         n.(n_highlighted) = Some (bool_decide (n.(n_id) ∈ sets.(hs_nodes)))
         /\ n.(n_dimmed) = Some (negb (bool_decide (n.(n_id) ∈ sets.(hs_nodes))))).
Proof.
  unfold graph, buildFlowGraph. fold drawn_stages. fold drawn_paths. fold drawn_maps.
  change (if maskSensitive options then maskFlowGraphLabels (map snd drawn_maps.1) (map snd drawn_maps.2)
          else (map snd drawn_maps.1, map snd drawn_maps.2)) with drawn_labels. fold drawn_sets.
  destruct drawn_labels as [nodes links]. unfold applyFlowHighlights. intros Hn.
  destruct drawn_sets as [sets|]; cbn [g_nodes fst] in *; rewrite isort_perm in Hn.
  - apply list_elem_of_fmap in Hn as (n0 & -> & Hn0). exists n0. split_and!; try done. by intros ? [= <-].
  - exists n. by split_and!.
Qed.

Lemma color_links_shape links l :
  l ∈ assignLinkDisplayColors localeCompare links ->
  exists l0, l0 ∈ links /\ l.(l_source) = l0.(l_source) /\ l.(l_target) = l0.(l_target)
    /\ l.(l_sourceLabel) = l0.(l_sourceLabel) /\ l.(l_targetLabel) = l0.(l_targetLabel) /\ l.(l_highlighted) = l0.(l_highlighted).
Proof.
  intros (l0 & -> & Hl0)%list_elem_of_fmap. exists l0. cbv zeta. destruct (list_find _ _) as [[i x]|]; by split_and!.
Qed.

Lemma graph_links_shape l :
  l ∈ g_links graph ->
  exists l0, l0 ∈ drawn_labels.2 /\ l.(l_source) = l0.(l_source) /\ l.(l_target) = l0.(l_target)
    /\ l.(l_sourceLabel) = l0.(l_sourceLabel) /\ l.(l_targetLabel) = l0.(l_targetLabel)
    /\ (forall sets, drawn_sets = Some sets -> l.(l_highlighted) = Some (bool_decide (linkStableKey l ∈ sets.(hs_links)))).
Proof.
  unfold graph, buildFlowGraph. fold drawn_stages. fold drawn_paths. fold drawn_maps.
  change (if maskSensitive options then maskFlowGraphLabels (map snd drawn_maps.1) (map snd drawn_maps.2)
          else (map snd drawn_maps.1, map snd drawn_maps.2)) with drawn_labels. fold drawn_sets.
  destruct drawn_labels as [nodes links]. unfold applyFlowHighlights. intros Hl.
  destruct drawn_sets as [sets|]; cbn [g_links snd] in *;
    apply color_links_shape in Hl as (l1 & Hl1 & Hs & Ht & Hsl & Htl & Hh);
    apply list_elem_of_fmap in Hl1 as (l2 & -> & Hl2); rewrite isort_perm in Hl2.
  - apply list_elem_of_fmap in Hl2 as (l0 & -> & Hl0). exists l0. split_and!; try done.
    intros ? [= <-]. unfold linkStableKey. by rewrite Hs, Ht.
  - exists l2. by split_and!.
Qed.

(** The highlights of an active node. *)
Lemma highlight_node_set f i :
  activeLink options = None -> activeNode options = Some f -> f.(f_kind) ∈ drawn_stages ->
  (exists p, p ∈ drawn_paths /\ pathContainsFlowNode p.(pp_path) f = true) ->
  exists sets, drawn_sets = Some sets
    /\ (i ∈ sets.(hs_nodes) <-> exists p, p ∈ drawn_paths /\ pathContainsFlowNode p.(pp_path) f = true /\ i ∈ map p_id p.(pp_path))
    /\ (forall k, k ∈ sets.(hs_links) <-> exists p, p ∈ drawn_paths /\ pathContainsFlowNode p.(pp_path) f = true
           /\ k ∈ map (fun e => pathLinkKey e.1 e.2) (steps p.(pp_path))).
Proof.
  intros Hl Ha Hk (p0 & Hp0 & Hm0). unfold drawn_sets, buildFlowHighlightSets. rewrite Hl, Ha, bool_decide_true by done.
  cbn [mbind option_bind]. set (matching := List.filter _ _).
  assert (forall p, In p matching <-> p ∈ drawn_paths /\ pathContainsFlowNode (pp_path p) f = true) as Hmatch.
  { intros p. unfold matching. by rewrite filter_In, list_elem_of_In. }
  assert (flat_map (fun prepared => map p_id (pp_path prepared)) matching <> []) as Hne.
  { intros Hnil. unfold pathContainsFlowNode in Hm0. pose proof Hm0 as Hm. apply existsb_exists in Hm as (n & Hn & _).
    assert (In (p_id n) (flat_map (fun prepared => map p_id (pp_path prepared)) matching)) as Hin.
    { apply in_flat_map. exists p0. split; [by apply Hmatch|by apply in_map]. }
    by rewrite Hnil in Hin. }
  destruct (flat_map (fun prepared => map p_id (pp_path prepared)) matching) as [|x xs] eqn:E; [done|].
  eexists. split; [reflexivity|]. cbn [hs_nodes hs_links]. split.
  - rewrite elem_of_dedup, <- E, list_elem_of_In, in_flat_map. setoid_rewrite Hmatch. setoid_rewrite list_elem_of_In. naive_solver.
  - intros k. rewrite elem_of_dedup, list_elem_of_In, in_flat_map. setoid_rewrite Hmatch. setoid_rewrite list_elem_of_In. naive_solver.
Qed.

(** ** Masks *)

Definition hidden_label (label : jsstr) : Prop := label = [] \/ label = FLOW_MASK_TEXT.

Lemma mask_hidden label : hidden_label (maskFlowLabel label).
Proof. unfold hidden_label. destruct label; [by left|by right]. Qed.

Lemma mget_upsert {A} k k' (d : A) f m :
  mget k (upsert k' d f m) = if streq k' k then Some (f (default d (mget k m))) else mget k m.
Proof.
  induction m as [|[k1 a] m IH]; cbn [upsert mget]; [by destruct (streq k' k)|].
  destruct (streq k1 k') eqn:E1; cbn [mget].
  - apply streq_true in E1 as ->. by destruct (streq k' k).
  - destruct (streq k1 k) eqn:E2; [|exact IH]. apply streq_true in E2 as ->.
    by rewrite (proj2 (streq_false k' k)) by (intros ->; by rewrite streq_refl in E1).
Qed.

Lemma masked_by_id nodes i :
  let m := fold_left (fun m n => if masked_node n then upsert (n_id n) [] (fun _ => maskFlowLabel (n_label n)) m else m) nodes [] in
  (exists n, n ∈ nodes /\ masked_node n = true /\ n.(n_id) = i) -> exists label, mget i m = Some label /\ hidden_label label.
Proof.
  cbv zeta.
  assert (forall m, (exists n, n ∈ nodes /\ masked_node n = true /\ n.(n_id) = i)
            \/ (exists label, mget i m = Some label /\ hidden_label label) ->
    exists label, mget i (fold_left (fun m n => if masked_node n then upsert (n_id n) [] (fun _ => maskFlowLabel (n_label n)) m else m) nodes m)
      = Some label /\ hidden_label label) as H; [|by intros Hn; apply H; left].
  induction nodes as [|n nodes IH]; intros m Hm; cbn [fold_left].
  - destruct Hm as [(n & Hn & _)|Hm]; [by apply elem_of_nil in Hn|exact Hm].
  - apply IH. destruct Hm as [(n' & Hn & Hmask & Hid)|(label & Hget & Hlabel)].
    + apply elem_of_cons in Hn as [->|Hn]; [|by left; exists n']. right. rewrite Hmask, mget_upsert, Hid, streq_refl.
      eexists. split; [done|apply mask_hidden].
    + right. destruct (masked_node n); [|eauto]. rewrite mget_upsert. destruct (streq _ _); [|eauto].
      eexists. split; [done|apply mask_hidden].
Qed.

(** A link joins two nodes of the map. *)
Lemma path_keys_present p n : p ∈ drawn_paths -> n ∈ p.(pp_path) -> n.(p_id) ∈ map fst drawn_maps.1.
Proof.
  unfold drawn_maps. set (add := add_path _ _ _ _).
  assert (forall mt color key path m i, i ∈ map fst m \/ i ∈ map p_id path ->
    i ∈ map fst (fold_left (fun m n => addNode m n mt metric color key) path m)) as Hpath.
  { intros mt color key path. induction path as [|n1 path IH]; intros m i Hi; cbn [fold_left].
    - destruct Hi as [Hi|Hi]; [done|by apply elem_of_nil in Hi].
    - apply IH. unfold addNode. rewrite upsert_keys. cbn [map] in Hi. rewrite elem_of_cons in Hi.
      destruct Hi as [Hi|[->|Hi]]; [left|left|by right]; case_bool_decide; try done.
      + apply elem_of_app. by left.
      + apply elem_of_app. right. apply list_elem_of_here. }
  assert (forall ps maps i, i ∈ map fst maps.1 \/ (exists p n, p ∈ ps /\ n ∈ p.(pp_path) /\ n.(p_id) = i) ->
    i ∈ map fst (fold_left add ps maps).1) as Hall; [|intros; apply Hall; eauto 6].
  induction ps as [|q ps IH]; intros maps i Hi; cbn [fold_left].
  - destruct Hi as [Hi|(q & n' & Hq & _)]; [done|by apply elem_of_nil in Hq].
  - apply IH. destruct Hi as [Hi|(q' & n' & Hq & Hn & Hid)].
    + left. unfold add, add_path. destruct (pp_path q); [done|]. apply Hpath. by left.
    + apply elem_of_cons in Hq as [->|Hq]; [|right; eauto]. left. unfold add, add_path.
      destruct (pp_path q) as [|root path]; [by apply elem_of_nil in Hn|]. apply Hpath. right.
      rewrite <- Hid. by apply (list_elem_of_fmap_2 p_id).
Qed.

Lemma links_from :
  Forall (fun e => exists p st, p ∈ drawn_paths /\ st ∈ steps p.(pp_path)
            /\ e.2.(l_source) = st.1.(p_id) /\ e.2.(l_target) = st.2.(p_id)) drawn_maps.2.
Proof.
  unfold drawn_maps. set (add := add_path _ _ _ _).
  set (P := fun e : jsstr * DashboardFlowLink => exists p st, p ∈ drawn_paths /\ st ∈ steps (pp_path p)
              /\ l_source e.2 = p_id st.1 /\ l_target e.2 = p_id st.2).
  assert (forall p mt color key es, p ∈ drawn_paths -> (forall e, e ∈ es -> e ∈ steps (pp_path p)) -> forall m,
    Forall P m -> Forall P (fold_left (fun m e => addLink m e.1 e.2 mt metric color key) es m)) as Hpath.
  { intros p mt color key es Hp. induction es as [|e es IH]; intros Hes m Hm; [done|]. cbn [fold_left]. apply IH.
    - intros e' He'. apply Hes. by apply list_elem_of_further.
    - apply upsert_Forall; [|by intros a|done]. exists p, e. split_and!; try done. apply Hes, list_elem_of_here. }
  assert (forall ps maps, (forall p, p ∈ ps -> p ∈ drawn_paths) -> Forall P maps.2 -> Forall P (fold_left add ps maps).2) as Hall.
  { induction ps as [|p ps IH]; intros maps Hps Hm; [done|]. cbn [fold_left]. apply IH.
    - intros q Hq. apply Hps. by apply list_elem_of_further.
    - unfold add, add_path. destruct (pp_path p) as [|root path] eqn:E; [done|]. cbn [snd].
      apply (Hpath p); [apply Hps, list_elem_of_here|by rewrite E|done]. }
  apply Hall; [done|constructor].
Qed.

(** The node of an end of a link. *)
Lemma link_ends_present l :
  l ∈ map snd drawn_maps.2 ->
  (exists n, n ∈ map snd drawn_maps.1 /\ (l.(l_source), n) ∈ drawn_maps.1)
  /\ (exists n, n ∈ map snd drawn_maps.1 /\ (l.(l_target), n) ∈ drawn_maps.1).
Proof.
  intros (e & -> & He)%list_elem_of_fmap. pose proof links_from as Hfrom. rewrite Forall_forall in Hfrom.
  destruct (Hfrom e He) as (p & st & Hp & Hst & -> & ->). destruct (steps_elem _ _ Hst) as [H1 H2].
  assert (forall n, n ∈ pp_path p -> exists x, x ∈ map snd drawn_maps.1 /\ (p_id n, x) ∈ drawn_maps.1) as H.
  { intros n Hn. pose proof (path_keys_present p n Hp Hn) as ([k x] & Hk & Hx)%list_elem_of_fmap. cbn in Hk. subst k.
    exists x. split; [|done]. by apply (list_elem_of_fmap_2 snd _ _ Hx). }
  split; by apply H.
Qed.

(** Whether the identifier is that of a user, node, token, group or channel that is not
    the merged one of its column. *)
Definition sensitive_id (i : jsstr) : bool :=
  match kind_of_id i with Some user | Some node | Some token | Some group | Some channel => true | Some model | None => false end
  && negb (bool_decide (i ∈ OTHER_FLOW_NODE_ID_SET)).

Lemma mask_links_hidden l :
  Forall row_ok rows -> maskSensitive options = true -> l ∈ drawn_labels.2 ->
  (sensitive_id l.(l_source) = true -> hidden_label l.(l_sourceLabel))
  /\ (sensitive_id l.(l_target) = true -> hidden_label l.(l_targetLabel)).
Proof.
  intros Hr Hm. unfold drawn_labels. rewrite Hm. unfold maskFlowGraphLabels. cbn [snd].
  destruct (drawn_maps_ok Hr) as (_ & Hent & _). rewrite Forall_forall in Hent.
  assert (forall i n, n ∈ map snd drawn_maps.1 -> (i, n) ∈ drawn_maps.1 -> sensitive_id i = true ->
    exists label, mget i (fold_left (fun m n => if masked_node n then upsert (n_id n) [] (fun _ => maskFlowLabel (n_label n)) m else m)
      (map snd drawn_maps.1) []) = Some label /\ hidden_label label) as Hmasked.
  { intros i n Hn He Hs. apply masked_by_id. exists n. split; [done|]. destruct (Hent _ He) as [Hk Hkind]. cbn [fst snd] in *.
    split; [|done]. unfold masked_node. unfold sensitive_id in Hs. by rewrite Hk, Hkind in *. }
  set (byId := fold_left _ _ _) in *. intros Hl.
  assert (exists l0, l0 ∈ map snd drawn_maps.2 /\ (l = mask_link byId l0 \/ (byId = [] /\ l = l0))) as (l0 & Hl0 & Hcase).
  { destruct byId as [|e byId']; [by exists l; auto|]. apply list_elem_of_fmap in Hl as (l0 & -> & Hl0). exists l0. auto. }
  destruct (link_ends_present l0 Hl0) as [(ns & Hns & Hes) (nt & Hnt & Het)].
  split; intros Hs; destruct Hcase as [->|[Hnil ->]].
  - destruct (Hmasked _ _ Hns Hes Hs) as (label & Hget & Hh). cbn [mask_link l_sourceLabel]. by rewrite Hget.
  - destruct (Hmasked _ _ Hns Hes Hs) as (label & Hget & Hh). by rewrite Hnil in Hget.
  - destruct (Hmasked _ _ Hnt Het Hs) as (label & Hget & Hh). cbn [mask_link l_targetLabel]. by rewrite Hget.
  - destruct (Hmasked _ _ Hnt Het Hs) as (label & Hget & Hh). by rewrite Hnil in Hget.
Qed.

Lemma mask_nodes_hidden n :
  Forall row_ok rows -> maskSensitive options = true -> n ∈ drawn_labels.1 -> sensitive_id n.(n_id) = true -> hidden_label n.(n_label).
Proof.
  intros Hr Hm. unfold drawn_labels. rewrite Hm. unfold maskFlowGraphLabels. cbn [fst].
  destruct (drawn_maps_ok Hr) as (_ & Hent & _). rewrite Forall_forall in Hent.
  intros (n0 & -> & (e & -> & He)%list_elem_of_fmap)%list_elem_of_fmap Hs. destruct (Hent _ He) as [Hk Hkind].
  assert (n_id (mask_node e.2) = n_id e.2) as Hid by (unfold mask_node; by case_match). rewrite Hid in Hs.
  assert (masked_node e.2 = true) as Hmask.
  { unfold masked_node. unfold sensitive_id in Hs. by rewrite Hk, Hkind in *. }
  unfold mask_node. rewrite Hmask. apply mask_hidden.
Qed.
End Graph.

(** ** Claims *)

(** C24: what enters a node leaves it. In the graph built from rows whose names have no
    NUL, for every node and every quantity (the selected metric, requests, quota and
    tokens), the links out of a node that is not in the last column add up to the node, and so
    do the links into a node that is not in the first column, whatever stages are
    visible and whatever the top-N limit merges or hides. *)
Theorem flow_conservation localeCompare chart_colors rows metric role palette visible ctx options fd n :
  Forall row_ok rows ->
  n ∈ g_nodes (buildFlowGraph localeCompare chart_colors rows metric role palette visible ctx options) ->
  let links := g_links (buildFlowGraph localeCompare chart_colors rows metric role palette visible ctx options) in
  (last (resolveVisibleStages role visible) <> Some n.(n_kind) ->
   node_field fd n = sum_by (link_field fd) (List.filter (fun l => streq l.(l_source) n.(n_id)) links))
  /\ (head (resolveVisibleStages role visible) <> Some n.(n_kind) ->
      node_field fd n = sum_by (link_field fd) (List.filter (fun l => streq l.(l_target) n.(n_id)) links)).
Proof. intros Hr Hn. split; intros Hl; [by apply graph_out|by apply graph_in]. Qed.

(** Three rows, two users and three channels. *)
Definition sample_row (u g m : string) (c q : Z) : FlowQuotaDataItem :=
  mkRow None (Some (js u)) None (Some (js g)) None None (Some c) None (Some (js m)) (Some 10) (Some 1) (Some q).
Definition sample_rows : list FlowQuotaDataItem :=
  [sample_row "ann" "vip" "gpt" 1 5; sample_row "bob" "vip" "gpt" 2 7; sample_row "bob" "free" "gpt" 3 11].

Lemma sample_rows_ok : Forall row_ok sample_rows.
Proof.
  assert (forall u g m c q, 0 ∉ js u -> 0 ∉ js g -> 0 ∉ js m -> row_ok (sample_row u g m c q)) as H.
  { intros u g m c q H1 H2 H3. assert (0 ∉ @nil Z) by apply not_elem_of_nil. by repeat split. }
  unfold sample_rows. repeat (apply Forall_cons; split; [by apply H; apply js_nul|]). by apply Forall_nil.
Qed.

Definition plain_options : FlowGraphOptions := mkGraphOptions None None None None None false.
Definition sample_graph : DashboardFlowGraph :=
  buildFlowGraph (fun _ _ => 0) (fun _ => []) sample_rows quota_metric role_admin None None None plain_options.

Lemma flow_conservation_witness :
  exists n, n ∈ g_nodes sample_graph /\ n.(n_kind) = group /\ n.(n_value) = 12
    /\ node_field f_value n = sum_by (link_field f_value) (List.filter (fun l => streq l.(l_source) n.(n_id)) (g_links sample_graph)).
Proof.
  destruct (List.find (fun n => streq n.(n_id) (js "group:vip")) (g_nodes sample_graph)) as [n|] eqn:E; [|by vm_compute in E].
  exists n. assert (n ∈ g_nodes sample_graph) as Hn by (apply find_some in E as [E _]; by apply list_elem_of_In).
  assert (n.(n_kind) = group /\ n.(n_value) = 12) as [Hk Hv] by (vm_compute in E; by injection E as <-).
  split; [exact Hn|]. split; [exact Hk|]. split; [exact Hv|]. clear E. unfold sample_graph in *.
  refine (proj1 (flow_conservation (fun _ _ => 0) (fun _ => []) sample_rows quota_metric role_admin None None None
    plain_options f_value n sample_rows_ok Hn) _). rewrite Hk. vm_compute. discriminate.
Defined.

Lemma filtered_rows_sub rows options row : row ∈ filtered_rows rows options -> row ∈ rows.
Proof.
  unfold filtered_rows, filterRowsByNodes, filterRows. rewrite !list_elem_of_In.
  repeat case_match; rewrite ?filter_In; naive_solver.
Qed.

(** C28: without a limit on the nodes, or with one in the modes that merge the nodes
    beyond it, every visible column of the diagram carries exactly the totals shown in
    the summary, for every quantity: the filters apply to both, and merging loses
    nothing. With a limit in the mode [hide] the paths beyond it are left out of the
    columns and stay in the summary; that case is excluded. *)
Theorem columns_match_summary localeCompare chart_colors formatNumber rows metric options fd k :
  let data := buildDashboardFlowData localeCompare chart_colors formatNumber rows metric options in
  Forall row_ok rows ->
  (overflowMode options.(bo_graph) <> Some hide \/ normalizeTopNodeLimit (topNodeLimit options.(bo_graph)) = None) ->
  k ∈ resolveVisibleStages (default role_user options.(bo_role)) options.(bo_visibleStages) ->
  sum_by (node_field fd) (List.filter (fun n => bool_decide (n.(n_kind) = k)) (g_nodes data.(pf_flow)))
  = summary_field metric fd data.(pf_summary).
Proof.
  cbv zeta. intros Hr Hkeep Hk. apply graph_stage_total; [|done|done].
  rewrite Forall_forall in *. intros row Hrow. by eapply Hr, filtered_rows_sub.
Qed.

Definition limited_options (n : Z) (mode : FlowOverflowMode) : FlowBuildOptions :=
  mkBuildOptions (Some role_admin) None (Some [mkFilter model (js "model:gpt")]) None None None
    (mkGraphOptions (Some (num_of_Z n)) (Some mode) None None None true).

Lemma columns_match_summary_witness :
  let data := buildDashboardFlowData (fun _ _ => 0) (fun _ => []) dec sample_rows quota_metric (limited_options 1 aggregate) in
  sum_by n_value (List.filter (fun n => bool_decide (n.(n_kind) = channel)) (g_nodes data.(pf_flow))) = data.(pf_summary).(s_quota)
  /\ data.(pf_summary).(s_quota) = 23.
Proof.
  cbv zeta. split; [|vm_compute; reflexivity].
  refine (columns_match_summary (fun _ _ => 0) (fun _ => []) dec sample_rows quota_metric (limited_options 1 aggregate)
    f_value channel sample_rows_ok _ _).
  - left. vm_compute. discriminate.
  - apply (bool_decide_unpack _). vm_compute. exact I.
Defined.

(** C40: with a limit of N, no column has more than N nodes and the node that stands for the
    others; when the others are hidden, no more than N. *)
Theorem top_limit_bounds_columns localeCompare chart_colors rows metric role palette visible ctx options limit k :
  Forall row_ok rows -> normalizeTopNodeLimit (topNodeLimit options) = Some limit -> k ∈ resolveVisibleStages role visible ->
  (length (List.filter (fun n => bool_decide (n.(n_kind) = k))
     (g_nodes (buildFlowGraph localeCompare chart_colors rows metric role palette visible ctx options)))
   <= Z.to_nat limit + (match overflowMode options with Some hide => 0 | _ => 1 end))%nat.
Proof. apply graph_column_bound. Qed.

Definition no_order (a b : jsstr) : Z := 0.

Lemma top_limit_bounds_columns_witness :
  (length (List.filter (fun n => bool_decide (n.(n_kind) = channel))
     (g_nodes (buildFlowGraph no_order (fun _ => []) sample_rows quota_metric role_admin None None None
        (bo_graph (limited_options 2 hide))))) <= 2)%nat.
Proof.
  refine (top_limit_bounds_columns no_order (fun _ => []) sample_rows quota_metric role_admin None None None
    (bo_graph (limited_options 2 hide)) 2 channel sample_rows_ok _ _).
  - vm_compute. reflexivity.
  - apply (bool_decide_unpack _). vm_compute. exact I.
Defined.

Lemma filter_by_nodes_elem rows sel stages ctx row :
  row ∈ filterRowsByNodes rows sel stages ctx
  <-> row ∈ rows /\ pathMatchesNodeFilters (flowPathForStages row stages ctx) (normalizeSelectedNodeFilters sel stages) = true.
Proof.
  unfold filterRowsByNodes. destruct (normalizeSelectedNodeFilters sel stages) as [|e l]; [naive_solver|].
  by rewrite list_elem_of_In, filter_In, <- list_elem_of_In.
Qed.

Lemma row_path_elem row stages ctx n :
  n ∈ flowPathForStages row stages ctx <-> exists k, k ∈ stages /\ n = NODE_BUILDERS k row ctx.
Proof. unfold flowPathForStages. rewrite list_elem_of_fmap. naive_solver. Qed.

(** the node filters mean what they show: a row is kept when, for every visible kind that
    has a selected node, the node of the row of that kind is one of the selected ones
    (any of the nodes of one kind, all of the kinds); filters on hidden columns count for
    nothing. *)
Theorem node_filters_spec rows sel stages ctx row :
  row_ok row ->
  row ∈ filterRowsByNodes rows sel stages ctx
  <-> row ∈ rows
      /\ forall f, f ∈ default [] sel -> f.(f_kind) ∈ stages ->
           exists g, g ∈ default [] sel /\ g.(f_kind) = f.(f_kind) /\ (NODE_BUILDERS f.(f_kind) row ctx).(p_id) = g.(f_id).
Proof.
  intros Hr. pose proof (normalize_spec sel stages) as [[Hnd Hne] Hids]. cbv zeta in *.
  rewrite filter_by_nodes_elem, matches_spec. set (filters := normalizeSelectedNodeFilters sel stages) in *.
  apply and_iff_compat_l. rewrite Forall_forall in Hne. split.
  - intros H f Hf Hs. assert (f.(f_id) ∈ ids_of f.(f_kind) filters) as Hin by (apply Hids; eauto).
    assert (exists ids, (f.(f_kind), ids) ∈ filters) as [ids He].
    { clear -Hin. unfold ids_of in Hin. induction filters as [|[k ids] m IH]; [by apply elem_of_nil in Hin|].
      cbn [kget] in Hin. case_bool_decide as E; [subst; eexists; apply list_elem_of_here|].
      destruct (IH Hin) as [ids' ?]. exists ids'. by apply list_elem_of_further. }
    destruct (H _ He) as (i & n & Hi & Hn & Hk & Hid). cbn [fst snd] in *.
    rewrite <- (ids_of_entry _ _ _ Hnd He) in Hi. apply Hids in Hi as (g & Hg & Hgk & Hgi & _).
    apply row_path_elem in Hn as (k & _ & ->). rewrite (proj1 (builder_ok k row ctx Hr)) in Hk. subst k.
    exists g. by rewrite Hid, Hgi.
  - intros H [k ids] He. cbn [fst snd]. pose proof (ids_of_entry _ _ _ Hnd He) as Hk.
    destruct ids as [|i0 ids]; [by specialize (Hne _ He)|].
    assert (i0 ∈ ids_of k filters) as Hi0 by (rewrite Hk; apply list_elem_of_here).
    apply Hids in Hi0 as (f & Hf & <- & _ & Hs). destruct (H f Hf Hs) as (g & Hg & Hgk & Hid).
    exists g.(f_id), (NODE_BUILDERS f.(f_kind) row ctx). split_and!; [|apply row_path_elem; eauto|by apply builder_ok|done].
    rewrite <- Hk. apply Hids. eauto.
Qed.

Lemma node_filters_spec_witness :
  sample_row "ann" "vip" "gpt" 1 5
    ∈ filterRowsByNodes sample_rows (Some [mkFilter user (js "user:ann"); mkFilter user (js "user:eve")]) [user; model] None.
Proof.
  apply (proj2 (node_filters_spec sample_rows (Some [mkFilter user (js "user:ann"); mkFilter user (js "user:eve")]) [user; model] None
    (sample_row "ann" "vip" "gpt" 1 5) (proj1 (proj1 (Forall_cons _ _ _) sample_rows_ok)))).
  split; [apply list_elem_of_here|]. intros f Hf _. exists (mkFilter user (js "user:ann")).
  split; [apply list_elem_of_here|]. simpl in Hf.
  apply elem_of_cons in Hf as [->|[->|Hf]%elem_of_cons]; [by vm_compute..|by apply elem_of_nil in Hf].
Defined.

(** C29: masking hides the whole of a label and nothing else. With masking on, the label of
    every user, node, token, group and channel (the merged ones apart), on its node and
    at either end of its links, is the mask or empty: no part of it is left, as the comment of [maskFlowLabel] says, while the comment on the option
    [maskSensitive] says that labels are masked partially. The nodes and links are those
    of the unmasked graph, with the same identifiers, kinds and amounts. *)
Theorem masking_hides_labels localeCompare chart_colors rows metric role palette visible ctx lim mode lab an al :
  Forall row_ok rows ->
  let build mask := buildFlowGraph localeCompare chart_colors rows metric role palette visible ctx
                      (mkGraphOptions lim mode lab an al mask) in
  (forall n, n ∈ g_nodes (build true) -> sensitive_id n.(n_id) = true -> hidden_label n.(n_label))
  /\ (forall l, l ∈ g_links (build true) ->
        (sensitive_id l.(l_source) = true -> hidden_label l.(l_sourceLabel))
        /\ (sensitive_id l.(l_target) = true -> hidden_label l.(l_targetLabel)))
  /\ map node_core (g_nodes (build true)) ≡ₚ map node_core (g_nodes (build false))
  /\ map link_core (g_links (build true)) ≡ₚ map link_core (g_links (build false)).
Proof.
  intros Hr. cbv zeta. split_and!.
  - intros n (n0 & Hn0 & -> & -> & _)%graph_nodes_shape Hs. eapply mask_nodes_hidden; [exact Hr| |exact Hn0|exact Hs]. done.
  - intros l (l0 & Hl0 & -> & -> & -> & -> & _)%graph_links_shape. eapply mask_links_hidden; [exact Hr| |exact Hl0]. done.
  - etrans; [apply graph_core|]. symmetry.
    exact (proj1 (graph_core _ _ rows metric role palette visible ctx (mkGraphOptions lim mode lab an al false))).
  - etrans; [apply graph_core|]. symmetry.
    exact (proj2 (graph_core _ _ rows metric role palette visible ctx (mkGraphOptions lim mode lab an al false))).
Qed.

Lemma masking_hides_labels_witness :
  exists n, n ∈ g_nodes (buildFlowGraph no_order (fun _ => []) sample_rows quota_metric role_admin None None None
                           (mkGraphOptions None None None None None true))
    /\ n.(n_id) = js "user:ann" /\ hidden_label n.(n_label).
Proof.
  destruct (List.find (fun n => streq n.(n_id) (js "user:ann"))
    (g_nodes (buildFlowGraph no_order (fun _ => []) sample_rows quota_metric role_admin None None None
       (mkGraphOptions None None None None None true)))) as [n|] eqn:E; [|by vm_compute in E].
  apply find_some in E as [E Hid%streq_true]. apply list_elem_of_In in E. exists n. split; [exact E|]. split; [exact Hid|].
  refine (proj1 (masking_hides_labels no_order (fun _ => []) sample_rows quota_metric role_admin None None None
    None None None None None sample_rows_ok) n E _). rewrite Hid. vm_compute. reflexivity.
Defined.

(** an active node lights up exactly the paths through it: when some drawn path goes
    through the active node, a node is highlighted just when some path goes through both, a link just when
    it is a step of a path through the active node, and every other node is dimmed. *)
Theorem highlights_spec localeCompare chart_colors rows metric role palette visible ctx options f :
  let stages := resolveVisibleStages role visible in
  let paths := prepared_paths localeCompare rows metric stages ctx options in
  let g := buildFlowGraph localeCompare chart_colors rows metric role palette visible ctx options in
  activeLink options = None -> activeNode options = Some f -> f.(f_kind) ∈ stages ->
  (exists p, p ∈ paths /\ pathContainsFlowNode p.(pp_path) f = true) ->
  (forall n, n ∈ g_nodes g -> exists b, n.(n_highlighted) = Some b /\ n.(n_dimmed) = Some (negb b)
     /\ (b = true <-> exists p, p ∈ paths /\ pathContainsFlowNode p.(pp_path) f = true /\ n.(n_id) ∈ map p_id p.(pp_path)))
  /\ (forall l, l ∈ g_links g -> exists b, l.(l_highlighted) = Some b
     /\ (b = true <-> exists p, p ∈ paths /\ pathContainsFlowNode p.(pp_path) f = true
           /\ linkStableKey l ∈ map (fun e => pathLinkKey e.1 e.2) (steps p.(pp_path)))).
Proof.
  cbv zeta. intros Hl Ha Hk Hp. split.
  - intros n (n0 & _ & _ & _ & _ & Hh)%graph_nodes_shape.
    destruct (highlight_node_set localeCompare rows metric role visible ctx options f n.(n_id) Hl Ha Hk Hp) as (sets & Hs & Hn & _).
    destruct (Hh sets Hs) as [-> ->]. eexists. split; [done|]. split; [done|]. by rewrite bool_decide_eq_true.
  - intros l (l0 & _ & _ & _ & _ & _ & Hh)%graph_links_shape.
    destruct (highlight_node_set localeCompare rows metric role visible ctx options f [] Hl Ha Hk Hp) as (sets & Hs & _ & Hln).
    rewrite (Hh sets Hs). eexists. split; [done|]. by rewrite bool_decide_eq_true.
Qed.

Definition active_options : FlowGraphOptions :=
  mkGraphOptions None None None (Some (mkFilter group (js "group:vip"))) None false.

Lemma highlights_spec_witness :
  exists n, n ∈ g_nodes (buildFlowGraph no_order (fun _ => []) sample_rows quota_metric role_admin None None None active_options)
    /\ n.(n_id) = js "channel:3" /\ exists b, n.(n_highlighted) = Some b /\ n.(n_dimmed) = Some (negb b).
Proof.
  destruct (List.find (fun n => streq n.(n_id) (js "channel:3"))
    (g_nodes (buildFlowGraph no_order (fun _ => []) sample_rows quota_metric role_admin None None None active_options)))
    as [n|] eqn:E; [|by vm_compute in E].
  apply find_some in E as [E Hid%streq_true]. apply list_elem_of_In in E. exists n. split; [exact E|]. split; [exact Hid|].
  destruct (proj1 (highlights_spec no_order (fun _ => []) sample_rows quota_metric role_admin None None None active_options
    (mkFilter group (js "group:vip")) eq_refl eq_refl ltac:(apply (bool_decide_unpack _); vm_compute; exact I)
    ltac:(eexists; split; [apply list_elem_of_here|vm_compute; reflexivity])) n E) as (b & H1 & H2 & _).
  by exists b.
Defined.
End FlowLaws.
